(* ===== verification/_CoqProject ===== *)
-Q . S2P
Prelude.v
Bitcoin.v
Algebra.v
OperatorTable.v
PogMusig.v
BtcNotify.v
TxDriver.v
Winternitz.v
Wots.v
TxTypes.v
Taproot.v
Deposit.v
Predicates.v
Connectors.v
Script.v
StakeChain.v
SpendConditions.v
ConnectorsAssert.v
DisproveScript.v
TxGraph.v
PegOutGraph.v
GraphSpec.v
GraphProperties.v
GraphFinalize.v
BesideGraph.v
ParseWitness.v
ContractTypes.v
Checkpoint.v
Database.v
StakeChainSM.v
ContractSM.v
ContractExample.v
GraphInstance.v
Persistence.v
ContractManager.v
ContractLifecycle.v
ContractDuties.v
ContractCache.v
ManagerProperties.v
BridgeProof.v
OperatorWallet.v
SecretService.v
Retry.v
ProofHandler.v
Executors.v
ExecutorProperties.v
ContractActor.v
SecretWire.v
DbColumns.v
RpcServer.v
Challenger.v
StateMachine.v
AssertSplitter.v
BtcClient.v
BridgeIn.v
