(* ===== verification/Prelude.v ===== *)
(** * Strata bridge: a verification development

    ** The program

    The Strata bridge lets users move bitcoin to a side system and back.  A user publishes a
    deposit request; the operators of the bridge sign, together and in advance, the transactions
    by which each of them can be paid back later (the peg-out graph), and then the deposit.  When
    the side system assigns a withdrawal to an operator, the operator pays the user (the
    withdrawal fulfillment) and publishes a claim.  An unchallenged claim is paid out
    optimistically; a challenged one only after the operator has committed to a proof in the
    assertion transactions, which anybody can disprove.  Each operator's stake, moved along by one
    stake transaction per deposit, is slashed when they cheat.

    A node gets blocks and transactions from bitcoind ([btc-notify]), runs one state machine per
    deposit and one for the stake chains of all operators ([duty-tracker]), exchanges nonces,
    signatures and keys with the other nodes, builds and signs transactions ([tx-graph],
    [connectors], [stake-chain], [primitives]), stores its state ([db]) and carries out the duties
    that the state machines ask for ([executors]), with keys that it gets from a process of its own
    ([secret-service]).  It answers queries over RPC; with the answers, anybody can challenge a claim and
    disprove an assertion ([dev-cli]).

    ** The model

    The code is translated to Rocq functions.  A computation that can panic is in the monad [comp]
    and one that can fail in [result]; state is passed explicitly, so that the changes made
    before an early return are there; a [BTreeMap] is a [gmap] whose iterators run in the order
    of the keys; machine integers are [N] with their overflow written out ([u64_add], [u32_add],
    [u64_sub], whose behaviour depends on the build profile, [BuildProfile]).  Ids, hashes, keys
    and signatures are numbers.  Code that is not in the repository is a parameter, given as a
    class of operations ([BitcoinLib], [TaprootLib], [ConnectorLib], [Musig2Lib], ...); what a
    theorem needs of it is a class of laws or a hypothesis, and the witness after the theorem
    instantiates it.  Fuel is used only for the loops over bytes, digits and blocks, whose number
    of rounds is known beforehand, and for the search for a fulfillment in [ProofHandler], where the
    theorem says how much is enough; everything else is structural recursion, so all definitions are
    total.  Concurrent parts (actors, subscriptions, the driver) are sequences of atomic
    steps, one for each critical section or message, in any order.

    ** The files

    Foundations
    - [Prelude]: panics, results, machine integers, ordered maps, and the lemmas on them.
    - [Bitcoin]: transactions, blocks, and the interface to the [bitcoin] crate.
    - [Algebra]: semigroups and monoids ([algebra/src/semigroup.rs], [monoid.rs]); [Retry]: [retry.rs];
      [StateMachine]: [state_machine.rs] and [bijection.rs].
    - [TxTypes]: parameters ([params/src]) and partially signed transactions.

    Primitives
    - [OperatorTable]: [primitives/src/operator_table.rs], [key_agg.rs], [build_context.rs].
    - [PogMusig]: [tx-graph/src/pog_musig_functor.rs], one value per signed input of a graph.
    - [Taproot]: [primitives/src/scripts/taproot.rs].
    - [Winternitz]: [wots/src/lib.rs]; [Wots]: [primitives/src/wots.rs], [scripts/commitments.rs].
    - [Script]: an interpreter of Bitcoin Script, and [primitives/src/scripts/transform.rs] run by it.
    - [Deposit]: [tx-graph/src/transactions/deposit.rs], [primitives/src/scripts/metadata.rs].
    - [Predicates]: [duty-tracker/src/predicates.rs] and the withdrawal fulfillment; [Checkpoint]: its
      [parse_strata_checkpoint].

    Transactions
    - [Connectors], [ConnectorsAssert]: [connectors/src], the outputs that link the transactions.
    - [SpendConditions]: which stacks the scripts of the connectors accept.
    - [DisproveScript]: the script that disproves public inputs ([connector_a3.rs]).
    - [StakeChain]: [stake-chain/src].
    - [TxGraph]: [tx-graph/src/transactions]; [PegOutGraph]: [tx-graph/src/peg_out_graph.rs].
    - [GraphSpec], [GraphProperties], [GraphFinalize]: what the builders return, how the transactions
      of a graph link up, and that finalized transactions satisfy the scripts they spend.
    - [BesideGraph]: [cpfp.rs] and [burn_payouts.rs].
    - [ParseWitness]: [primitives/src/scripts/parse_witness.rs], reading commitments off the chain.
    - [AssertSplitter]: [bin/assert-splitter], the layout of an assertion over transactions.
    - [BridgeProof]: [bridge-proof/primitives] and [protocol], the program that is proved.

    The node
    - [BtcNotify]: [btc-notify/src/state_machine.rs] and [event.rs]; [BtcClient]: [client.rs], the
      subscriptions.
    - [StakeChainSM]: [duty-tracker/src/stake_chain_state_machine.rs].
    - [ContractTypes], [ContractSM]: [duty-tracker/src/contract_state_machine.rs], against the interface
      [TxGraphOps] to peg-out graphs; [GraphInstance] implements that interface by [PegOutGraph].
    - [ContractLifecycle]: an abstract machine for the life of a deposit, and that the contract
      refines it; [ContractDuties]: when which duty is asked for; [ContractCache]: restarts and worker
      threads; [ContractExample]: a concrete bridge for the witnesses.
    - [Database]: [db/src], in memory and in SQLite; [Persistence]: [duty-tracker/src/contract_persister.rs]
      and [stake_chain_persister.rs]; [DbColumns]: [db/src/persistent/types.rs] and [models.rs].
    - [ContractManager], [ManagerProperties]: [duty-tracker/src/contract_manager.rs] and [shutdown.rs];
      [ContractActor]: [contract_actor.rs], contracts in tasks of their own.
    - [Executors], [ExecutorProperties]: [duty-tracker/src/executors] and [execute_duty], with the messages
      of [p2p-service/src/message_handler.rs]; [ProofHandler]: the preparation of a proof
      ([executors/proof_handler.rs]); [TxDriver]: [tx_driver.rs].
    - [OperatorWallet]: [operator-wallet/src].
    - [SecretService]: [secret-service-proto/src/v2/traits.rs] and [bin/secret-service/src/seeded_impl];
      [SecretWire]: the protocol, [secret-service-server] and [secret-service-client].
    - [RpcServer]: [bin/alpen-bridge/src/rpc_server.rs] and [rpc/src/types.rs].

    The users
    - [BridgeIn]: [bin/dev-cli/src/handlers/bridge_in.rs] and [wallet.rs], which request a deposit.
    - [Challenger]: [challenge.rs] and [disprove.rs], which challenge a claim and disprove an assertion.

    ** What is shown

    - A deposit that a node sees as resolved was served: every state of the contract is backed by the
      events that lead to it, in order ([ContractLifecycle]).
    - The deposit is published only with the verified signatures of all operators, duties that wait
      for a timelock come at its first block and at every later one, and every transaction of a graph
      that moves a contract passes its filter, while the deposit does only once a graph is registered
      ([ContractDuties]).  Restarts and threads cannot be observed unless operators share a stake
      transaction ([ContractCache]).
    - The manager keeps its contracts consistent with each other, the chain and the database, a
      restart finds them again, and it asks the operators, itself included, exactly for what is missing;
      but a graph transaction that comes too early stops the node ([ManagerProperties]).
    - The two databases agree on calls that do not add a deposit again, write a stake or a pre-stake again
      with another value or read a witness; what was committed last is what is loaded ([Database],
      [Persistence]).
    - The transactions of a graph spend the outputs that they are meant to spend, their amounts
      add up, and finalized with the aggregated signatures they satisfy the scripts
      ([GraphProperties], [GraphFinalize]); commitments read back from the chain are the ones that were
      made ([ParseWitness]).
    - The script for the public inputs compares another hash than the one that is committed to, so
      an honest commitment is disproved ([DisproveScript]).
    - The proof program accepts exactly the inputs that show a fulfillment of an assigned withdrawal,
      signed, in time and buried; the fulfillment that the code builds is accepted, and so is the input that
      the handler prepares, when the checkpoint and the headers are valid ([BridgeProof], [ProofHandler]).
    - A duty of a claim, an assertion or a payout hands at most one transaction to the driver, that of
      the graph, and a withdrawal is fronted only when its stake is buried and in
      time, and is read back by the proof; but one one-time key signs
      both the fulfillment and the hash of the public inputs, which lets anybody disprove an honest
      assertion ([ExecutorProperties]).
    - Actors process their messages as if they were alone, and at any moment the database holds
      each contract as it was last stored, so that without errors of the database a crash loses nothing
      that was answered ([ContractActor]).
    - A subscriber that is listed receives all events that match, but for those of a round in which the
      task is stopped, and the events that are emitted while it is being listed are lost
      ([BtcClient]); the driver loses no job and answers none twice ([TxDriver]).
    - The wallet hands out an output for one stake only, until it is seen spent, and two fronted
      withdrawals share no input; but a fronted withdrawal can spend an anchor, and a refill can spend what
      was just fronted ([OperatorWallet]); the cache of nonces is not observable while the hashes of requests differ, and
      a remote service answers like a local one while the connection works and messages are below 65536
      bytes ([SecretService], [SecretWire]).
    - A withdrawal or a claim that the RPC server reports as complete has been served on the chain, and
      four kinds of reports mislead ([RpcServer]).
    - The request that the command line makes is a deposit request for the bridge ([BridgeIn]); with what
      the server tells, a claim can be challenged, and an assertion with a wrong hash of the public
      inputs disproved, under the conditions on fees that the theorems state ([Challenger]).
    - The layout of an assertion fits the limits it is given, and no other that fits has more elements to
      an output, or as many and more outputs to a transaction ([AssertSplitter]).
    - The stakes of a chain are linked, and the state machine's ids are those of the chain
      ([StakeChain], [StakeChainSM]).
    - Only transactions that match a filter are reported, blocks are buried after the depth, and a block
      that is disconnected undoes what it did; but a block that does not extend the tip makes a release
      build report the tip again ([BtcNotify]).
    - What is written to a column of the database is read back, except a witness, which never is
      ([DbColumns]).
    - Winternitz signatures cannot be raised from one message to another ([Winternitz], [Wots]).

    ** Not modelled

    - Logging, [Debug], [Display], [Arbitrary] and the generators of tests, in all files.
    - Start-up and wiring: command lines, configuration files, TLS, sockets, and [mode/operator.rs] but
      for the operator table; they only connect the services that are modelled on their own.
    - Code that is not in the repository: [bitcoind], the wallet of [bdk], [bitvm]'s scripts and their
      partial verification, the [strata] crates, [musig2], [sp1], [rkyv], QUIC and the p2p node; these
      are parameters.
    - [bridge_out.rs] and [mock-checkpoint], which call the rollup and its builders.
    - Delays: timers, back-off and the interval of the refreshes decide when a step is made, not which.
    - The combinators of [algebra/src/category.rs] and of [predicate.rs] that nothing modelled calls. *)

From stdpp Require Export base tactics numbers list gmap sorting strings vector fin_maps.

(** ** Scopes, hint databases *)

Declare Scope bridge_scope.
Delimit Scope bridge_scope with bridge.
Open Scope bridge_scope.

Create HintDb bridge discriminated.
Create Rewrite HintDb bridge_rw.

(** ** Rust control flow

    [comp A] is a computation that either returns or panics ([unwrap], [expect], [panic!],
    a failed [assert!], an arithmetic overflow with overflow checks on).  [result E A] is
    Rust's [Result<A, E>] with the error type first, so that [result E] is a monad. *)

Inductive comp (A : Type) : Type :=
| Val (a : A)
| Panic.
Arguments Val {_} _.
Arguments Panic {_}.

#[global] Instance comp_ret : MRet comp := λ A a, Val a.
#[global] Instance comp_bind : MBind comp := λ A B f c,
  match c with Val a => f a | Panic => Panic end.
#[global] Instance comp_fmap : FMap comp := λ A B f c,
  match c with Val a => Val (f a) | Panic => Panic end.

Inductive result (E A : Type) : Type :=
| Ok (a : A)
| Err (e : E).
Arguments Ok {_ _} _.
Arguments Err {_ _} _.

#[global] Instance result_ret E : MRet (result E) := λ A a, Ok a.
#[global] Instance result_bind E : MBind (result E) := λ A B f r,
  match r with Ok a => f a | Err e => Err e end.
#[global] Instance result_fmap E : FMap (result E) := λ A B f r,
  match r with Ok a => Ok (f a) | Err e => Err e end.

(** [Option::expect] / [Option::unwrap]. *)
Definition expect {A} (o : option A) : comp A :=
  match o with Some a => Val a | None => Panic end.

(** [Option::ok_or]. *)
Definition ok_or {A E} (o : option A) (e : E) : result E A :=
  match o with Some a => Ok a | None => Err e end.

(** A method taking [&mut self] and returning [Result<A, E>]: the state it leaves behind,
    also when it returns an error, unless it panics. *)
Definition handler (S E A : Type) : Type := S → comp (S * result E A).

Definition is_ok {E A} (r : result E A) : bool :=
  match r with Ok _ => true | Err _ => false end.

(** [Option::into_iter().collect::<Vec<_>>()]. *)
Definition opt_list {A} (o : option A) : list A :=
  match o with Some a => [a] | None => [] end.

(** A [for] loop whose body may panic. *)
Fixpoint foldlM {A S} (f : S → A → comp S) (s : S) (l : list A) : comp S :=
  match l with
  | [] => Val s
  | x :: l => s ← f s x; foldlM f s l
  end.

(** ** Build profile

    [debug_assert!]s and arithmetic overflow checks are on in debug builds and off in release
    builds ([Cargo.toml] does not override either setting). *)

Class BuildProfile := debug_assertions : bool.

Definition debug_assert `{BuildProfile} (b : bool) : comp unit :=
  if debug_assertions && negb b then Panic else Val tt.

Definition U64_MAX : N := 18446744073709551615%N.
Definition U32_MAX : N := 4294967295%N.

(** [u64] addition: panics on overflow in a debug build, wraps around in a release build. *)
Definition u64_add `{BuildProfile} (a b : N) : comp N :=
  if (a + b <=? U64_MAX)%N then Val (a + b)%N
  else if debug_assertions then Panic else Val ((a + b) mod (U64_MAX + 1))%N.

(** ** [BTreeMap]

    A [BTreeMap] is a [gmap]; its iterators run in the order of the keys.  Every key type of
    the program is a fixed-width byte string or a machine integer, read as an [N]. *)

Abbreviation BTreeMap := gmap (only parsing).

Definition bt_le {V} (x y : N * V) : Prop := (x.1 ≤ y.1)%N.
#[global] Instance bt_le_dec {V} (x y : N * V) : Decision (bt_le x y).
Proof. unfold bt_le; apply _. Defined.

(** [map.iter()], [map.keys()], [map.values()]. *)
Definition bt_iter {V} (m : gmap N V) : list (N * V) := merge_sort bt_le (map_to_list m).
Definition bt_keys {V} (m : gmap N V) : list N := (bt_iter m).*1.
Definition bt_values {V} (m : gmap N V) : list V := (bt_iter m).*2.

(** [iter.collect::<BTreeMap<_, _>>()]: a later entry overwrites an earlier one. *)
Definition bt_collect {V} (l : list (N * V)) : gmap N V :=
  foldl (λ m kv, <[kv.1 := kv.2]> m) ∅ l.

(** [iter.find_map(f)]. *)
Fixpoint find_map {A B} (f : A → option B) (l : list A) : option B :=
  match l with
  | [] => None
  | x :: l => match f x with Some b => Some b | None => find_map f l end
  end.

(** ** Tactics *)

(** Case analysis on the scrutinee of a [match] in a hypothesis or in the goal. *)
Ltac case_step :=
  match goal with
  | H : context [ match ?x with _ => _ end ] |- _ =>
      lazymatch x with
      | context [ match _ with _ => _ end ] => fail
      | _ => destruct x eqn:?
      end
  | |- context [ match ?x with _ => _ end ] =>
      lazymatch x with
      | context [ match _ with _ => _ end ] => fail
      | _ => destruct x eqn:?
      end
  end.

(** Unfold the monad operations. *)
Ltac unfold_comp :=
  unfold mbind, mret, fmap, comp_bind, comp_ret, comp_fmap, result_bind, result_ret,
    result_fmap in *.

(** Split the goal along every branch of the code in the hypotheses. *)
Ltac branches := repeat (case_step; simplify_eq/=; try done).

(** ** Computations that panic *)

Lemma comp_bind_Val {A B} (c : comp A) (f : A → comp B) b :
  c ≫= f = Val b ↔ ∃ a, c = Val a ∧ f a = Val b.
Proof. destruct c; cbn; split; [eauto|by intros (? & [= ->] & ?)|done|by intros (? & ? & ?)]. Qed.

Lemma comp_fmap_Val {A B} (f : A → B) (c : comp A) b :
  f <$> c = Val b ↔ ∃ a, c = Val a ∧ f a = b.
Proof.
  destruct c; cbn; split; [intros [= <-]; eauto|by intros (? & [= ->] & <-)|done|].
  by intros (? & ? & ?).
Qed.

Lemma expect_Val {A} (o : option A) a : expect o = Val a ↔ o = Some a.
Proof. destruct o; cbn; naive_solver. Qed.

Lemma ok_or_Ok {A E} (o : option A) (e : E) a : ok_or o e = Ok a ↔ o = Some a.
Proof. destruct o; cbn; naive_solver. Qed.

Lemma debug_assert_true `{BuildProfile} b : b = true → debug_assert b = Val tt.
Proof. intros ->. unfold debug_assert. by rewrite andb_false_r. Qed.

Lemma debug_assert_release `{P : BuildProfile} b :
  @debug_assertions P = false → debug_assert b = Val tt.
Proof. unfold debug_assert. by intros ->. Qed.

Lemma u64_add_small `{BuildProfile} a b : (a + b ≤ U64_MAX)%N → u64_add a b = Val (a + b)%N.
Proof. intros Hle. unfold u64_add. by rewrite (proj2 (N.leb_le _ _) Hle). Qed.

Lemma mapM_comp_Val {A B} (f : A → comp B) l k :
  mapM f l = Val k ↔ Forall2 (λ x y, f x = Val y) l k.
Proof.
  split.
  - revert k. induction l as [|x l IH]; intros k; cbn.
    + intros [= <-]. constructor.
    + intros (y & Hy & (k' & Hk' & [= <-])%comp_bind_Val)%comp_bind_Val. eauto.
  - induction 1 as [|x y l k Hxy _ IH]; [done|]. cbn. by rewrite Hxy; cbn; rewrite IH.
Qed.

Lemma foldlM_pure {A S} (f : S → A → comp S) (g : S → A → S) s l :
  (∀ s x, x ∈ l → f s x = Val (g s x)) → foldlM f s l = Val (foldl g s l).
Proof.
  revert s. induction l as [|x l IH]; intros s Hf; cbn; [done|].
  rewrite Hf by left. cbn. apply IH. intros s' y ?. by apply Hf; right.
Qed.

Lemma foldlM_ind {A S} (f : S → A → comp S) (P : S → Prop) s l s' :
  P s → (∀ s x s', x ∈ l → P s → f s x = Val s' → P s') → foldlM f s l = Val s' → P s'.
Proof.
  revert s. induction l as [|x l IH]; intros s Hs Hf; cbn; [by intros [= <-]|].
  intros (s1 & H1 & H2)%comp_bind_Val. eapply IH; [| |done].
  - eapply Hf; [left|done|done].
  - intros s2 y s3 ?. apply Hf. by right.
Qed.

(** ** Ordered iteration *)

#[global] Instance bt_le_total {V} : Total (@bt_le V).
Proof. intros x y. unfold bt_le. lia. Qed.
#[global] Instance bt_le_trans {V} : Transitive (@bt_le V).
Proof. intros x y z. unfold bt_le. lia. Qed.

Lemma bt_iter_perm {V} (m : gmap N V) : bt_iter m ≡ₚ map_to_list m.
Proof. apply merge_sort_Permutation. Qed.

Lemma elem_of_bt_iter {V} (m : gmap N V) k v : (k, v) ∈ bt_iter m ↔ m !! k = Some v.
Proof. by rewrite bt_iter_perm, elem_of_map_to_list. Qed.

Lemma length_bt_iter {V} (m : gmap N V) : length (bt_iter m) = size m.
Proof. by rewrite bt_iter_perm, length_map_to_list. Qed.

Lemma elem_of_bt_values {V} (m : gmap N V) v : v ∈ bt_values m ↔ ∃ k, m !! k = Some v.
Proof.
  unfold bt_values. rewrite list_elem_of_fmap. split.
  - intros ([k v'] & -> & Hin%elem_of_bt_iter). eauto.
  - intros (k & Hk). exists (k, v). by rewrite elem_of_bt_iter.
Qed.

Lemma elem_of_bt_keys {V} (m : gmap N V) k : k ∈ bt_keys m ↔ is_Some (m !! k).
Proof.
  unfold bt_keys. rewrite list_elem_of_fmap. split.
  - intros ([k' v'] & -> & Hin%elem_of_bt_iter). eauto.
  - intros (v & Hk). exists (k, v). by rewrite elem_of_bt_iter.
Qed.

Lemma NoDup_bt_keys {V} (m : gmap N V) : NoDup (bt_keys m).
Proof. unfold bt_keys. rewrite bt_iter_perm. apply NoDup_fst_map_to_list. Qed.

Lemma length_bt_keys {V} (m : gmap N V) : length (bt_keys m) = size m.
Proof. unfold bt_keys. by rewrite length_fmap, length_bt_iter. Qed.

Lemma length_bt_values {V} (m : gmap N V) : length (bt_values m) = size m.
Proof. unfold bt_values. by rewrite length_fmap, length_bt_iter. Qed.

(** Iteration visits the keys in increasing order. *)
Lemma bt_iter_sorted {V} (m : gmap N V) : StronglySorted bt_le (bt_iter m).
Proof. apply StronglySorted_merge_sort; apply _. Qed.

(** A list of the entries of a map that is sorted by key is what iterating gives. *)
Lemma bt_iter_unique {V} (m : gmap N V) l :
  l ≡ₚ map_to_list m → StronglySorted bt_le l → bt_iter m = l.
Proof.
  intros Hperm Hsort. eapply (StronglySorted_unique_strong bt_le).
  - intros [k1 v1] [k2 v2] H1%elem_of_bt_iter H2 Hle1 Hle2.
    rewrite Hperm, elem_of_map_to_list in H2. unfold bt_le in *. simpl in *.
    assert (k1 = k2) as -> by (clear -Hle1 Hle2; lia). by simplify_eq.
  - apply bt_iter_sorted.
  - done.
  - by rewrite Hperm, bt_iter_perm.
Qed.

Lemma bt_iter_empty {V} : bt_iter (∅ : gmap N V) = [].
Proof. apply bt_iter_unique; [by rewrite map_to_list_empty|constructor]. Qed.

(** [BTreeMap]s with the same keys, mapped pointwise, iterate in the same order. *)
Lemma bt_iter_fmap {V W} (f : V → W) (m : gmap N V) :
  bt_iter (f <$> m) = prod_map id f <$> bt_iter m.
Proof.
  apply bt_iter_unique.
  - by rewrite map_to_list_fmap, bt_iter_perm.
  - eapply StronglySorted_fmap; [|apply bt_iter_sorted]. by intros [] [].
Qed.

Lemma bt_values_fmap {V W} (f : V → W) (m : gmap N V) :
  bt_values (f <$> m) = f <$> bt_values m.
Proof.
  unfold bt_values. rewrite bt_iter_fmap, <- !list_fmap_compose.
  apply list_fmap_ext. by intros ? [].
Qed.

Lemma bt_collect_snoc {V} (l : list (N * V)) kv :
  bt_collect (l ++ [kv]) = <[kv.1 := kv.2]> (bt_collect l).
Proof. unfold bt_collect. by rewrite foldl_app. Qed.

Lemma bt_collect_lookup_None {V} (l : list (N * V)) k :
  bt_collect l !! k = None ↔ k ∉ l.*1.
Proof.
  induction l as [|[k' v'] l IH] using rev_ind; [cbn; set_solver|].
  rewrite bt_collect_snoc, fmap_app, not_elem_of_app, lookup_insert_None, IH; cbn.
  set_solver.
Qed.

Lemma bt_collect_elem_of {V} (l : list (N * V)) k v :
  bt_collect l !! k = Some v → (k, v) ∈ l.
Proof.
  induction l as [|[k' v'] l IH] using rev_ind; [done|].
  rewrite bt_collect_snoc, elem_of_app, lookup_insert_Some; cbn. set_solver.
Qed.

Lemma bt_collect_NoDup {V} (l : list (N * V)) k v :
  NoDup l.*1 → bt_collect l !! k = Some v ↔ (k, v) ∈ l.
Proof.
  intros Hnd. split; [apply bt_collect_elem_of|]. revert Hnd.
  induction l as [|[k' v'] l IH] using rev_ind; [set_solver|].
  rewrite fmap_app, NoDup_app, bt_collect_snoc, elem_of_app. intros (Hnd & Hdisj & _) Hin.
  cbn. destruct Hin as [Hin|Hin].
  - rewrite lookup_insert_ne; [auto|]. intros ->. apply (Hdisj k); [|set_solver].
    apply list_elem_of_fmap. by exists (k, v).
  - apply list_elem_of_singleton in Hin as [= -> ->]. apply lookup_insert_eq.
Qed.

Lemma bt_collect_iter {V} (m : gmap N V) : bt_collect (bt_iter m) = m.
Proof.
  apply map_eq. intros k. apply option_eq. intros v.
  rewrite bt_collect_NoDup by apply NoDup_bt_keys. apply elem_of_bt_iter.
Qed.

Lemma find_map_Some {A B} (f : A → option B) l b :
  find_map f l = Some b → ∃ a, a ∈ l ∧ f a = Some b.
Proof.
  induction l as [|x l IH]; cbn; [done|]. destruct (f x) eqn:E; intros H.
  - simplify_eq. exists x. by split; [left|].
  - destruct (IH H) as (a & Ha & Hf). exists a. by split; [right|].
Qed.

Lemma find_map_None {A B} (f : A → option B) l :
  find_map f l = None ↔ ∀ a, a ∈ l → f a = None.
Proof.
  induction l as [|x l IH]; cbn; [set_solver|]. destruct (f x) eqn:E; set_solver.
Qed.

(** ** Lists *)

(** The two readings of membership of a boolean search. *)
Lemma existsb_true {A} (f : A → bool) l : existsb f l = true ↔ ∃ x, x ∈ l ∧ f x = true.
Proof. rewrite existsb_exists. by setoid_rewrite list_elem_of_In. Qed.

Lemma forallb_true {A} (f : A → bool) l : forallb f l = true ↔ ∀ x, x ∈ l → f x = true.
Proof. rewrite forallb_forall. by setoid_rewrite list_elem_of_In. Qed.

(** Boolean [filter] of the source, as the list of elements that satisfy [f]. *)
Lemma elem_of_filterb {A} (f : A → bool) l x : x ∈ List.filter f l ↔ x ∈ l ∧ f x = true.
Proof. by rewrite !list_elem_of_In, filter_In. Qed.

Lemma filter_all {A} (P : A → Prop) `{∀ x, Decision (P x)} (l : list A) :
  (∀ x, x ∈ l → P x) → filter P l = l.
Proof.
  induction l as [|x l IH]; intros HP; [done|]. rewrite filter_cons_True by (apply HP; left).
  rewrite IH; [done|]. intros y ?. apply HP. by right.
Qed.

Lemma filter_one {A} (P : A → Prop) `{∀ x, Decision (P x)} (l : list A) a :
  NoDup l → a ∈ l → (∀ x, P x ↔ x = a) → filter P l = [a].
Proof.
  intros Hnd Ha HP. induction l as [|x l IH]; [by apply elem_of_nil in Ha|].
  apply NoDup_cons in Hnd as [Hx Hnd]. destruct (decide (P x)) as [Hp|Hp].
  - rewrite filter_cons_True by done. apply HP in Hp as ->. f_equal.
    destruct (filter P l) as [|y k] eqn:E; [done|].
    assert (y ∈ filter P l) as [Hy Hyl]%list_elem_of_filter by (rewrite E; left).
    by apply HP in Hy as ->.
  - rewrite filter_cons_False by done. apply IH; [done|]. apply elem_of_cons in Ha as [->|]; [|done].
    destruct Hp. by apply HP.
Qed.

Lemma zip_with_fmap_diag {A B} (f : A → B) (l : list A) :
  zip_with (λ y x, (x, y)) (f <$> l) l = (λ x, (x, f x)) <$> l.
Proof. induction l as [|x l IH]; cbn; [done|]. by rewrite IH. Qed.

Lemma omap_fmap_list {A B C} (f : A → B) (g : B → option C) (l : list A) :
  omap g (f <$> l) = omap (λ x, g (f x)) l.
Proof. induction l as [|x l IH]; cbn; [done|]. rewrite IH. done. Qed.

Lemma omap_ext_in {A B} (f g : A → option B) (l : list A) :
  (∀ x, x ∈ l → f x = g x) → omap f l = omap g l.
Proof.
  induction l as [|x l IH]; intros Hfg; cbn; [done|]. rewrite (Hfg x) by left.
  rewrite IH; [done|]. intros y ?. apply Hfg. by right.
Qed.

#[export] Hint Resolve bt_iter_sorted NoDup_bt_keys : bridge.
#[export] Hint Rewrite @bt_iter_empty @bt_iter_fmap @bt_values_fmap @length_bt_iter
  @length_bt_keys @length_bt_values @bt_collect_snoc @bt_collect_iter : bridge_rw.
