(* ===== verification/Bitcoin.v ===== *)
(** * Bitcoin data and the libraries' interface

    The data of the [bitcoin] crate the program works on (transactions, outputs, blocks), the
    functions of [bitcoin] and [musig2] the program calls, as the classes [BitcoinLib] and
    [KeyAggLib], and the helpers of [primitives/src/scripts/general.rs],
    [primitives/src/key_agg.rs] and [primitives/src/build_context.rs] built on them.

    Hashes, keys, signatures and nonces are fixed-length byte strings, read big-endian as an
    [N], which agrees with their [Ord]; scripts and witness elements are lists of bytes. *)

From S2P Require Import Prelude.

(** ** Identifiers *)

Abbreviation Txid := N (only parsing).
Abbreviation BlockHash := N (only parsing).
Abbreviation PublicKey := N (only parsing).
Abbreviation XOnlyPublicKey := N (only parsing).
Abbreviation P2POperatorPubKey := N (only parsing).
Abbreviation OperatorIdx := N (only parsing).
Abbreviation BitcoinBlockHeight := N (only parsing).
Abbreviation Amount := N (only parsing).
Abbreviation ScriptBuf := (list N) (only parsing).
Abbreviation Network := N (only parsing).
Abbreviation Sha256Hash := N (only parsing).
Abbreviation TapNodeHash := N (only parsing).

(** ** Transactions and blocks *)

Record OutPoint := mkOutPoint { op_txid : Txid; op_vout : N }.

Record TxIn := mkTxIn {
  previous_output : OutPoint;
  script_sig : ScriptBuf;
  sequence : N;
  witness : list (list N);
}.

Record TxOut := mkTxOut { value : Amount; script_pubkey : ScriptBuf }.

Record Transaction := mkTransaction {
  version : N;
  lock_time : N;
  input : list TxIn;
  output : list TxOut;
}.

(** A block: the header's link to its parent, what else the header holds, the transactions. *)
Record Block := mkBlock {
  prev_blockhash : BlockHash;
  header_rest : N;
  txdata : list Transaction;
}.

#[global] Instance OutPoint_eq_dec : EqDecision OutPoint.
Proof. solve_decision. Defined.
#[global] Instance TxIn_eq_dec : EqDecision TxIn.
Proof. solve_decision. Defined.
#[global] Instance TxOut_eq_dec : EqDecision TxOut.
Proof. solve_decision. Defined.
#[global] Instance Transaction_eq_dec : EqDecision Transaction.
Proof. solve_decision. Defined.
#[global] Instance Block_eq_dec : EqDecision Block.
Proof. solve_decision. Defined.

#[global] Instance OutPoint_countable : Countable OutPoint.
Proof.
  apply (inj_countable' (λ o, (op_txid o, op_vout o)) (λ p, mkOutPoint p.1 p.2)).
  by intros [].
Defined.
#[global] Instance TxIn_countable : Countable TxIn.
Proof.
  apply (inj_countable' (λ i, (previous_output i, script_sig i, sequence i, witness i))
    (λ p, mkTxIn p.1.1.1 p.1.1.2 p.1.2 p.2)).
  by intros [].
Defined.
#[global] Instance TxOut_countable : Countable TxOut.
Proof.
  apply (inj_countable' (λ o, (value o, script_pubkey o)) (λ p, mkTxOut p.1 p.2)).
  by intros [].
Defined.
#[global] Instance Transaction_countable : Countable Transaction.
Proof.
  apply (inj_countable' (λ t, (version t, lock_time t, input t, output t))
    (λ p, mkTransaction p.1.1.1 p.1.1.2 p.1.2 p.2)).
  by intros [].
Defined.
#[global] Instance Block_countable : Countable Block.
Proof.
  apply (inj_countable' (λ b, (prev_blockhash b, header_rest b, txdata b))
    (λ p, mkBlock p.1.1 p.1.2 p.2)).
  by intros [].
Defined.

(** ** The [bitcoin] crate *)

(** The hashes of the crate, and BIP34's height of a coinbase ([None] is its error). *)
Class BitcoinLib := {
  compute_txid : Transaction → Txid;
  block_hash : Block → BlockHash;
  bip34_block_height : Block → option BitcoinBlockHeight;
}.

(** Scripts: the least value of an output that is not dust, and a builder's [OP_RETURN]
    followed by one push. *)
Class ScriptLib := {
  minimal_non_dust : ScriptBuf → Amount;
  op_return_push : list N → ScriptBuf;
}.

(** [Amount]'s [+] and [-] panic on overflow in every build. *)
Definition amount_add (a b : Amount) : comp Amount :=
  if (a + b <=? U64_MAX)%N then Val (a + b)%N else Panic.
Definition amount_sub (a b : Amount) : comp Amount :=
  if (b <=? a)%N then Val (a - b)%N else Panic.
Definition amount_mul (a : Amount) (n : N) : comp Amount :=
  if (a * n <=? U64_MAX)%N then Val (a * n)%N else Panic.

(** [u32::to_be_bytes] and [u64::to_be_bytes]. *)
Fixpoint to_be_bytes (width : nat) (n : N) : list N :=
  match width with
  | 0%nat => []
  | S w => to_be_bytes w (n / 256) ++ [n mod 256]%N
  end.
Definition from_be_bytes (l : list N) : N := foldl (λ acc b, acc * 256 + b)%N 0%N l.

(** ** [primitives/src/scripts/general.rs] *)

(** [Version::TWO], [LockTime::ZERO], [Sequence::ENABLE_RBF_NO_LOCKTIME]. *)
Definition VERSION_TWO : N := 2.
Definition LOCKTIME_ZERO : N := 0.
Definition ENABLE_RBF_NO_LOCKTIME : N := 0xFFFFFFFD.

Definition create_tx (tx_ins : list TxIn) (tx_outs : list TxOut) : Transaction :=
  mkTransaction VERSION_TWO LOCKTIME_ZERO tx_ins tx_outs.

Definition create_tx_ins (utxos : list OutPoint) : list TxIn :=
  (λ utxo, mkTxIn utxo [] ENABLE_RBF_NO_LOCKTIME []) <$> utxos.

Definition create_tx_outs (scripts_and_amounts : list (ScriptBuf * Amount)) : list TxOut :=
  (λ '(script_pubkey, value), mkTxOut value script_pubkey) <$> scripts_and_amounts.

(** [PushBytesBuf::extend_from_slice] refuses 2^32 bytes or more. *)
Definition op_return_nonce `{ScriptLib} (data : list N) : comp ScriptBuf :=
  if (N.of_nat (length data) <=? U32_MAX)%N then Val (op_return_push data) else Panic.

(** ** Key aggregation *)

(** [primitives/src/scripts/taproot.rs]: how an input is spent. *)
Inductive TaprootWitness :=
| Key
| Script (script_buf : ScriptBuf) (control_block : N)
| Tweaked (tweak : TapNodeHash).

#[global] Instance TaprootWitness_eq_dec : EqDecision TaprootWitness.
Proof. solve_decision. Defined.

(** [musig2::KeyAggContext], its constructor and tweaks ([None] is an error), and
    [secp256k1]'s conversion to an x-only key. *)
Class KeyAggLib := {
  KeyAggContext : Type;
  KeyAggContext_new : list PublicKey → option KeyAggContext;
  aggregated_pubkey : KeyAggContext → PublicKey;
  with_unspendable_taproot_tweak : KeyAggContext → option KeyAggContext;
  with_taproot_tweak : KeyAggContext → TapNodeHash → option KeyAggContext;
  x_only_public_key : PublicKey → XOnlyPublicKey;
}.

Inductive AggError := KeyAggError | TweakError.

Definition create_agg_ctx `{KeyAggLib} (public_keys : list PublicKey) (witness : TaprootWitness)
    : result AggError KeyAggContext :=
  key_agg_ctx ← ok_or (KeyAggContext_new public_keys) KeyAggError;
  match witness with
  | Key => ok_or (with_unspendable_taproot_tweak key_agg_ctx) TweakError
  | Script _ _ => Ok key_agg_ctx
  | Tweaked tweak => ok_or (with_taproot_tweak key_agg_ctx tweak) TweakError
  end.

Definition get_aggregated_pubkey `{KeyAggLib} (pubkeys : list PublicKey) : comp XOnlyPublicKey :=
  key_agg_ctx ← expect (KeyAggContext_new pubkeys);
  Val (x_only_public_key (aggregated_pubkey key_agg_ctx)).

(** [primitives/src/build_context.rs]. *)
Record TxBuildContext := mkTxBuildContext {
  tbc_network : Network;
  tbc_pubkey_table : BTreeMap OperatorIdx PublicKey;
  tbc_aggregated_pubkey : XOnlyPublicKey;
  tbc_own_index : OperatorIdx;
}.

Definition TxBuildContext_new `{KeyAggLib} (network : Network)
    (operator_pubkeys : BTreeMap OperatorIdx PublicKey) (own_index : OperatorIdx)
    : comp TxBuildContext :=
  aggregated_pubkey ← get_aggregated_pubkey (bt_values operator_pubkeys);
  Val (mkTxBuildContext network operator_pubkeys aggregated_pubkey own_index).

(** A key aggregation whose context is the list of the keys, for the examples. *)
Definition example_keyagg : KeyAggLib := {|
  KeyAggContext := list PublicKey;
  KeyAggContext_new l := match l with [] => None | _ => Some l end;
  aggregated_pubkey l := foldr N.add 0%N l;
  with_unspendable_taproot_tweak := Some;
  with_taproot_tweak l t := Some (l ++ [t]);
  x_only_public_key k := k;
|}.

(** The library functions a concrete run needs: hashes that are injective encodings. *)
Definition concrete_bitcoin : BitcoinLib := {|
  compute_txid t := Npos (encode t);
  block_hash b := Npos (encode b);
  bip34_block_height b := Some (header_rest b);
|}.

(** ** Lemmas *)

#[global] Instance concrete_txid_inj : Inj (=) (=) (@compute_txid concrete_bitcoin).
Proof. intros t1 t2 [= ?]. by apply (inj encode). Qed.

#[global] Instance concrete_block_hash_inj : Inj (=) (=) (@block_hash concrete_bitcoin).
Proof. intros b1 b2 [= ?]. by apply (inj encode). Qed.

Lemma amount_add_Val a b c : amount_add a b = Val c → c = (a + b)%N.
Proof. unfold amount_add. intros. branches. Qed.

Lemma amount_sub_Val a b c : amount_sub a b = Val c → (c + b = a)%N.
Proof. unfold amount_sub. intros H. branches. rewrite N.leb_le in *. lia. Qed.

Lemma length_to_be_bytes w n : length (to_be_bytes w n) = w.
Proof.
  revert n. induction w as [|w IH]; intros n; cbn; [done|]. rewrite length_app, IH; cbn. lia.
Qed.

Lemma from_be_bytes_snoc l b : from_be_bytes (l ++ [b]) = (from_be_bytes l * 256 + b)%N.
Proof. unfold from_be_bytes. by rewrite foldl_app. Qed.

Lemma from_to_be_bytes w n : (n < 256 ^ N.of_nat w)%N → from_be_bytes (to_be_bytes w n) = n.
Proof.
  revert n. induction w as [|w IH]; intros n Hn; cbn [to_be_bytes].
  - change (256 ^ N.of_nat 0)%N with 1%N in Hn. cbn. lia.
  - rewrite from_be_bytes_snoc, IH.
    + rewrite N.mul_comm. symmetry. apply N.div_mod. lia.
    + apply N.Div0.div_lt_upper_bound. rewrite Nat2N.inj_succ, N.pow_succ_r' in Hn. lia.
Qed.

Lemma to_be_bytes_inj w n m :
  (n < 256 ^ N.of_nat w)%N → (m < 256 ^ N.of_nat w)%N →
  to_be_bytes w n = to_be_bytes w m → n = m.
Proof. intros Hn Hm E. by rewrite <- (from_to_be_bytes w n), E, from_to_be_bytes. Qed.

Lemma create_tx_ins_outpoints utxos : previous_output <$> create_tx_ins utxos = utxos.
Proof. unfold create_tx_ins. rewrite <- list_fmap_compose. apply list_fmap_id. Qed.

#[export] Hint Rewrite create_tx_ins_outpoints length_to_be_bytes : bridge_rw.
