(* ===== verification/Algebra.v ===== *)
(** * The [algebra] crate: semigroups and monoids

    [algebra/src/semigroup.rs] and [algebra/src/monoid.rs].  A trait is a class of operations;
    the laws its documentation requires are a second class, with one instance per [impl]. *)

From S2P Require Import Prelude.

(** ** Definitions *)

Class Semigroup (A : Type) := merge : A → A → A.

#[global] Instance unit_semigroup : Semigroup unit := λ _ _, tt.
#[global] Instance vec_semigroup {T} : Semigroup (list T) := λ a b, a ++ b.
#[global] Instance option_semigroup {T} `{Semigroup T} : Semigroup (option T) := λ a b,
  match a, b with
  | None, None => None
  | None, Some b => Some b
  | Some a, None => Some a
  | Some a, Some b => Some (merge a b)
  end.
#[global] Instance result_semigroup {T E} : Semigroup (result E T) := λ a b,
  if is_ok a then a else b.

Definition sconcat {T} `{Semigroup T} (xs : list T) : option T :=
  foldl (λ opt x, Some (match opt with Some acc => merge acc x | None => x end)) None xs.

Class Monoid (A : Type) `{Semigroup A} := empty_value : A.
#[global] Instance vec_monoid {T} : Monoid (list T) := [].

Definition concat {T} `{Monoid T} (xs : list T) : T := foldl merge empty_value xs.
Definition fold_map {T U} `{Monoid T} (f : U → T) (xs : list U) : T := concat (f <$> xs).

Class SemigroupLaws (A : Type) `{Semigroup A} : Prop :=
  merge_assoc : ∀ a b c : A, merge (merge a b) c = merge a (merge b c).

Class MonoidLaws (A : Type) `{Monoid A} : Prop := {
  monoid_semigroup :: SemigroupLaws A;
  merge_empty_l : ∀ a : A, merge empty_value a = a;
  merge_empty_r : ∀ a : A, merge a empty_value = a;
}.

(** ** Laws *)

#[global] Instance unit_laws : SemigroupLaws unit.
Proof. by intros [] [] []. Qed.

#[global] Instance vec_laws {T} : SemigroupLaws (list T).
Proof. intros a b c. unfold merge, vec_semigroup. by rewrite app_assoc. Qed.

#[global] Instance option_laws {T} `{SemigroupLaws T} : SemigroupLaws (option T).
Proof. intros [a|] [b|] [c|]; cbn; [|done..]. f_equal. apply merge_assoc. Qed.

#[global] Instance result_laws {T E} : SemigroupLaws (result E T).
Proof. by intros [a|a] [b|b] [c|c]. Qed.

#[global] Instance vec_monoid_laws {T} : MonoidLaws (list T).
Proof. split; [apply _|done|]. intros a. apply app_nil_r. Qed.

Lemma foldl_merge_assoc {T} `{SemigroupLaws T} (a b : T) xs :
  merge a (foldl merge b xs) = foldl merge (merge a b) xs.
Proof.
  revert b. induction xs as [|x xs IH]; intros b; cbn; [done|]. by rewrite IH, merge_assoc.
Qed.

Lemma sconcat_cons {T} `{Semigroup T} (x : T) xs : sconcat (x :: xs) = Some (foldl merge x xs).
Proof.
  unfold sconcat. cbn. revert x. induction xs as [|y xs IH]; intros x; [done|]. apply IH.
Qed.

(** [sconcat] is a homomorphism from concatenation of lists to the merge of optional
    results, for every lawful semigroup; the instances of the crate ([unit], [Vec], [Option]
    and [Result]) are lawful. *)
Theorem sconcat_merge_homomorphism {T} `{SemigroupLaws T} (a b : list T) :
  merge (sconcat a) (sconcat b) = sconcat (merge a b).
Proof.
  destruct a as [|x a]; [by destruct (sconcat b) eqn:E|].
  change (merge (x :: a) b) with ((x :: a) ++ b). destruct b as [|y b].
  { by rewrite app_nil_r, sconcat_cons. }
  rewrite <- app_comm_cons, !sconcat_cons, foldl_app. cbn. by rewrite foldl_merge_assoc.
Qed.

Lemma sconcat_merge_homomorphism_witness :
  merge (sconcat [[1]; [2; 3]]) (sconcat [[4]]) = Some [1; 2; 3; 4].
Proof. rewrite sconcat_merge_homomorphism. reflexivity. Defined.
