(* ===== verification/OperatorTable.v ===== *)
(** * The operator table ([primitives/src/operator_table.rs])

    The table keeps three maps, one per way to name an operator: the index, the P2P key and
    the bitcoin key.  [OperatorTable_new] is the only constructor; [table_wf] is the invariant
    it establishes: the three maps are the three views of one list of operators without a
    repeated index or key. *)

From S2P Require Import Prelude Bitcoin.

(** ** Definitions *)

Definition OperatorTableEntry : Type := OperatorIdx * P2POperatorPubKey * PublicKey.

Record OperatorTable := mkOperatorTable {
  pov : OperatorIdx;
  idx_key : BTreeMap OperatorIdx (P2POperatorPubKey * PublicKey);
  p2p_key : BTreeMap P2POperatorPubKey (OperatorIdx * PublicKey);
  btc_key : BTreeMap PublicKey (OperatorIdx * P2POperatorPubKey);
}.

(** The loop of [OperatorTable::new] over the entries, stopping at a repeated value. *)
Fixpoint new_loop (pov : OperatorIdx) (entries : list OperatorTableEntry)
    (idx_key : BTreeMap OperatorIdx (P2POperatorPubKey * PublicKey))
    (p2p_key : BTreeMap P2POperatorPubKey (OperatorIdx * PublicKey))
    (btc_key : BTreeMap PublicKey (OperatorIdx * P2POperatorPubKey)) : option OperatorTable :=
  match entries with
  | [] => Some (mkOperatorTable pov idx_key p2p_key btc_key)
  | (idx, op, btc) :: entries =>
      match idx_key !! idx, p2p_key !! op, btc_key !! btc with
      | None, None, None =>
          new_loop pov entries (<[idx := (op, btc)]> idx_key) (<[op := (idx, btc)]> p2p_key)
            (<[btc := (idx, op)]> btc_key)
      | _, _, _ => None
      end
  end.

Definition OperatorTable_new (entries : list OperatorTableEntry)
    (is_us : OperatorTableEntry → bool) : option OperatorTable :=
  entry ← List.find is_us entries;
  new_loop entry.1.1 entries ∅ ∅ ∅.

Definition idx_to_p2p_key (t : OperatorTable) (idx : OperatorIdx) : option P2POperatorPubKey :=
  fst <$> idx_key t !! idx.
Definition idx_to_btc_key (t : OperatorTable) (idx : OperatorIdx) : option PublicKey :=
  snd <$> idx_key t !! idx.
Definition p2p_key_to_idx (t : OperatorTable) (op : P2POperatorPubKey) : option OperatorIdx :=
  fst <$> p2p_key t !! op.
Definition p2p_key_to_btc_key (t : OperatorTable) (op : P2POperatorPubKey) : option PublicKey :=
  snd <$> p2p_key t !! op.
Definition btc_key_to_idx (t : OperatorTable) (btc : PublicKey) : option OperatorIdx :=
  fst <$> btc_key t !! btc.
Definition btc_key_to_p2p_key (t : OperatorTable) (btc : PublicKey) : option P2POperatorPubKey :=
  snd <$> btc_key t !! btc.

Definition pov_idx (t : OperatorTable) : OperatorIdx := pov t.
Definition pov_p2p_key (t : OperatorTable) : comp P2POperatorPubKey :=
  fst <$> expect (idx_key t !! pov t).
Definition pov_btc_key (t : OperatorTable) : comp PublicKey :=
  snd <$> expect (idx_key t !! pov t).

Definition cardinality (t : OperatorTable) : nat := size (idx_key t).
Definition btc_keys (t : OperatorTable) : list PublicKey := snd <$> bt_values (idx_key t).
Definition p2p_keys (t : OperatorTable) : gset P2POperatorPubKey := dom (p2p_key t).
Definition operator_idxs (t : OperatorTable) : gset OperatorIdx := dom (idx_key t).
Definition public_key_table (t : OperatorTable) : BTreeMap OperatorIdx PublicKey :=
  snd <$> idx_key t.

Definition aggregated_btc_key `{KeyAggLib} (t : OperatorTable) : comp PublicKey :=
  ctx ← expect (KeyAggContext_new (btc_keys t));
  Val (aggregated_pubkey ctx).

Definition tx_build_context `{KeyAggLib} (t : OperatorTable) (network : Network)
    : comp TxBuildContext :=
  TxBuildContext_new network (public_key_table t) (pov t).

(** The body the six [convert_map_*] methods share: translate the keys in iteration order,
    stop at the first key without a translation, collect the rest. *)
Definition convert_map {V} (conv : N → option N) (m : BTreeMap N V) : result N (BTreeMap N V) :=
  bt_collect <$> mapM (λ '(k, v), k' ← ok_or (conv k) k; Ok (k', v)) (bt_iter m).

Definition convert_map_p2p_to_btc {V} (t : OperatorTable) (m : BTreeMap P2POperatorPubKey V) :=
  convert_map (p2p_key_to_btc_key t) m.
Definition convert_map_btc_to_p2p {V} (t : OperatorTable) (m : BTreeMap PublicKey V) :=
  convert_map (btc_key_to_p2p_key t) m.
Definition convert_map_p2p_to_idx {V} (t : OperatorTable) (m : BTreeMap P2POperatorPubKey V) :=
  convert_map (p2p_key_to_idx t) m.
Definition convert_map_idx_to_p2p {V} (t : OperatorTable) (m : BTreeMap OperatorIdx V) :=
  convert_map (idx_to_p2p_key t) m.
Definition convert_map_btc_to_idx {V} (t : OperatorTable) (m : BTreeMap PublicKey V) :=
  convert_map (btc_key_to_idx t) m.
Definition convert_map_idx_to_btc {V} (t : OperatorTable) (m : BTreeMap OperatorIdx V) :=
  convert_map (idx_to_btc_key t) m.

Definition select_idx (idx : OperatorIdx) (e : OperatorTableEntry) : bool := bool_decide (e.1.1 = idx).
Definition select_p2p (op : P2POperatorPubKey) (e : OperatorTableEntry) : bool :=
  bool_decide (e.1.2 = op).
Definition select_btc (btc : PublicKey) (e : OperatorTableEntry) : bool := bool_decide (e.2 = btc).
Definition select_btc_x_only `{KeyAggLib} (btc : XOnlyPublicKey) (e : OperatorTableEntry) : bool :=
  bool_decide (x_only_public_key e.2 = btc).

(** The three maps are views of the same operators. *)
Definition views_agree (ik : BTreeMap OperatorIdx (P2POperatorPubKey * PublicKey))
    (pk : BTreeMap P2POperatorPubKey (OperatorIdx * PublicKey))
    (bk : BTreeMap PublicKey (OperatorIdx * P2POperatorPubKey)) : Prop :=
  ∀ idx op btc,
    (ik !! idx = Some (op, btc) ↔ pk !! op = Some (idx, btc)) ∧
    (ik !! idx = Some (op, btc) ↔ bk !! btc = Some (idx, op)).

(** The invariant of the table: the views agree, and the point of view is an operator. *)
Definition table_wf (t : OperatorTable) : Prop :=
  views_agree (idx_key t) (p2p_key t) (btc_key t) ∧ is_Some (idx_key t !! pov t).

(** No index and no key is repeated. *)
Definition entries_unique (entries : list OperatorTableEntry) : Prop :=
  NoDup ((λ e, e.1.1) <$> entries) ∧ NoDup ((λ e, e.1.2) <$> entries) ∧
  NoDup ((λ e, e.2) <$> entries).

(** Three operators, for the examples. *)
Definition example_entries : list OperatorTableEntry := [(1, 20, 300); (0, 10, 200); (2, 15, 100)]%N.
Definition example_table : OperatorTable :=
  default (mkOperatorTable 0 ∅ ∅ ∅) (OperatorTable_new [(0, 10, 100); (1, 20, 200)]%N (select_idx 0)).

(** ** The constructor *)

Lemma views_agree_empty : views_agree ∅ ∅ ∅.
Proof. intros idx op btc. rewrite !lookup_empty. naive_solver. Qed.

Lemma views_agree_insert ik pk bk idx op btc :
  views_agree ik pk bk → ik !! idx = None → pk !! op = None → bk !! btc = None →
  views_agree (<[idx := (op, btc)]> ik) (<[op := (idx, btc)]> pk) (<[btc := (idx, op)]> bk).
Proof.
  intros Hv Hi Hp Hb i o b. rewrite !lookup_insert_Some.
  destruct (Hv i o b) as [H1 H2].
  split; split; (intros [?|[? Hx]]; [naive_solver|right; split; [intros ->|]]);
    first [apply H1 in Hx; congruence|apply H2 in Hx; congruence|tauto].
Qed.

(** What [new_loop] returns: the maps extended with the entries, when no index or key repeats. *)
Lemma new_loop_spec pov entries ik pk bk t :
  views_agree ik pk bk → new_loop pov entries ik pk bk = Some t →
  OperatorTable.pov t = pov ∧ views_agree (idx_key t) (p2p_key t) (btc_key t) ∧
  (∀ idx op btc, idx_key t !! idx = Some (op, btc) ↔
     ik !! idx = Some (op, btc) ∨ (idx, op, btc) ∈ entries).
Proof.
  revert ik pk bk. induction entries as [|[[i o] b] entries IH]; intros ik pk bk Hv H; cbn in H.
  - simplify_eq/=. set_solver.
  - destruct (ik !! i) eqn:Hi, (pk !! o) eqn:Hp, (bk !! b) eqn:Hb; try done.
    apply IH in H as (-> & Hv' & Hl); [|by apply views_agree_insert].
    split_and!; [done|done|]. intros idx op btc. rewrite Hl, lookup_insert_Some.
    destruct (decide (idx = i)) as [->|]; set_solver.
Qed.

(** [new_loop] fails on a repeated index or key only. *)
Lemma new_loop_NoDup pov entries ik pk bk :
  NoDup ((λ e, e.1.1) <$> entries) → NoDup ((λ e, e.1.2) <$> entries) →
  NoDup ((λ e, e.2) <$> entries) →
  (∀ e, e ∈ entries → ik !! e.1.1 = None ∧ pk !! e.1.2 = None ∧ bk !! e.2 = None) →
  is_Some (new_loop pov entries ik pk bk).
Proof.
  revert ik pk bk. induction entries as [|[[i o] b] entries IH]; intros ik pk bk H1 H2 H3 Hf.
  { by eexists. }
  apply NoDup_cons in H1 as [Hi H1], H2 as [Ho H2], H3 as [Hb H3]. cbn.
  destruct (Hf (i, o, b)) as (Hi0 & Ho0 & Hb0); [left|]. cbn in Hi0, Ho0, Hb0.
  rewrite Hi0, Ho0, Hb0. apply IH; [done..|].
  intros [[i' o'] b'] He. destruct (Hf (i', o', b')) as (Hi' & Ho' & Hb'); [by right|].
  cbn in *. rewrite !lookup_insert_ne; [done|..].
  - intros ->. apply Hb, list_elem_of_fmap. by exists (i', o', b').
  - intros ->. apply Ho, list_elem_of_fmap. by exists (i', o', b').
  - intros ->. apply Hi, list_elem_of_fmap. by exists (i', o', b').
Qed.

Lemma new_loop_unique pov entries ik pk bk :
  is_Some (new_loop pov entries ik pk bk) →
  entries_unique entries ∧
  (∀ e, e ∈ entries → ik !! e.1.1 = None ∧ pk !! e.1.2 = None ∧ bk !! e.2 = None).
Proof.
  revert ik pk bk. induction entries as [|[[i o] b] entries IH]; intros ik pk bk H; cbn in H.
  { split; [repeat split; constructor|set_solver]. }
  destruct (ik !! i) eqn:Hi, (pk !! o) eqn:Hp, (bk !! b) eqn:Hb; try by destruct H.
  apply IH in H as [(H1 & H2 & H3) Hf]. split.
  - repeat split; (constructor; [|done]); intros ([[i' o'] b'] & Heq & Hin)%list_elem_of_fmap;
      destruct (Hf _ Hin) as (Hi' & Ho' & Hb'); cbn in *; subst;
      rewrite lookup_insert_eq in *; done.
  - intros e [->|Hin]%elem_of_cons; [done|]. destruct (Hf _ Hin) as (Hi' & Ho' & Hb').
    apply lookup_insert_None in Hi' as [??], Ho' as [??], Hb' as [??]. done.
Qed.

(** A table that [new] returns satisfies the invariant and holds exactly the entries. *)
Lemma new_wf entries is_us t :
  OperatorTable_new entries is_us = Some t →
  table_wf t ∧
  (∀ idx op btc, idx_key t !! idx = Some (op, btc) ↔ (idx, op, btc) ∈ entries) ∧
  ∃ e, e ∈ entries ∧ is_us e = true ∧ pov t = e.1.1.
Proof.
  unfold OperatorTable_new. destruct (List.find is_us entries) as [[[i o] b]|] eqn:Hf; [|done].
  cbn. intros (Hpov & Hv & Hl)%new_loop_spec; [|apply views_agree_empty].
  apply List.find_some in Hf as [Hin%list_elem_of_In Hus].
  assert (∀ idx op btc, idx_key t !! idx = Some (op, btc) ↔ (idx, op, btc) ∈ entries) as Hl'.
  { intros. rewrite Hl, lookup_empty. naive_solver. }
  split_and!; [split; [done|]|done|by exists (i, o, b)].
  rewrite Hpov. exists (o, b). by apply Hl'.
Qed.

(** ** Lookups under the invariant *)

Section lookups.
Context (t : OperatorTable) (Hwf : table_wf t).

Lemma wf_p2p idx op btc :
  idx_key t !! idx = Some (op, btc) ↔ p2p_key t !! op = Some (idx, btc).
Proof. apply Hwf. Qed.

Lemma wf_btc idx op btc :
  idx_key t !! idx = Some (op, btc) ↔ btc_key t !! btc = Some (idx, op).
Proof. apply Hwf. Qed.

Lemma wf_p2p_btc idx op btc :
  p2p_key t !! op = Some (idx, btc) ↔ btc_key t !! btc = Some (idx, op).
Proof. by rewrite <- wf_p2p, wf_btc. Qed.

Lemma idx_p2p_iff idx op : idx_to_p2p_key t idx = Some op ↔ p2p_key_to_idx t op = Some idx.
Proof.
  unfold idx_to_p2p_key, p2p_key_to_idx. rewrite !fmap_Some. split.
  - intros ([? btc] & H%wf_p2p & ->). by exists (idx, btc).
  - intros ([? btc] & H%wf_p2p & ->). by exists (op, btc).
Qed.

Lemma idx_btc_iff idx btc : idx_to_btc_key t idx = Some btc ↔ btc_key_to_idx t btc = Some idx.
Proof.
  unfold idx_to_btc_key, btc_key_to_idx. rewrite !fmap_Some. split.
  - intros ([op ?] & H%wf_btc & ->). by exists (idx, op).
  - intros ([? op] & H%wf_btc & ->). by exists (op, btc).
Qed.

Lemma p2p_btc_iff op btc : p2p_key_to_btc_key t op = Some btc ↔ btc_key_to_p2p_key t btc = Some op.
Proof.
  unfold p2p_key_to_btc_key, btc_key_to_p2p_key. rewrite !fmap_Some. split.
  - intros ([idx ?] & H%wf_p2p_btc & ->). by exists (idx, op).
  - intros ([idx ?] & H%wf_p2p_btc & ->). by exists (idx, btc).
Qed.

(** Composing two lookups gives the third. *)
Lemma p2p_via_idx op : (p2p_key_to_idx t op ≫= idx_to_btc_key t) = p2p_key_to_btc_key t op.
Proof.
  unfold p2p_key_to_idx, idx_to_btc_key, p2p_key_to_btc_key.
  destruct (p2p_key t !! op) as [[idx btc]|] eqn:E; cbn; [|done].
  apply wf_p2p in E. by rewrite E.
Qed.

Lemma pov_keys : ∃ op btc, pov_p2p_key t = Val op ∧ pov_btc_key t = Val btc ∧
  p2p_key_to_idx t op = Some (pov_idx t) ∧ btc_key_to_idx t btc = Some (pov_idx t).
Proof.
  destruct (proj2 Hwf) as [[op btc] E]. exists op, btc.
  unfold pov_p2p_key, pov_btc_key, p2p_key_to_idx, btc_key_to_idx, pov_idx.
  by rewrite E, (proj1 (wf_p2p _ _ _) E), (proj1 (wf_btc _ _ _) E).
Qed.

Lemma btc_keys_in_order idx btc : idx_to_btc_key t idx = Some btc →
  ∃ i, bt_keys (idx_key t) !! i = Some idx ∧ btc_keys t !! i = Some btc.
Proof.
  unfold idx_to_btc_key. intros ([op b] & H & ->)%fmap_Some.
  apply elem_of_bt_iter, list_elem_of_lookup in H as [i Hi]. exists i.
  unfold bt_keys, btc_keys, bt_values. by rewrite !list_lookup_fmap, Hi.
Qed.

Lemma NoDup_btc_keys : NoDup (btc_keys t).
Proof.
  unfold btc_keys, bt_values. rewrite <- list_fmap_compose.
  apply NoDup_fmap_2_strong; [|rewrite bt_iter_perm; apply NoDup_map_to_list].
  intros [i [o b]] [i' [o' b']] H1%elem_of_bt_iter H2%elem_of_bt_iter [= ->].
  apply wf_btc in H1, H2. congruence.
Qed.

Lemma length_btc_keys : length (btc_keys t) = cardinality t.
Proof. unfold btc_keys. rewrite length_fmap. apply length_bt_values. Qed.
End lookups.

(** ** Converting maps *)

(** The translated entries, in iteration order. *)
Lemma mapM_convert_Ok {V} (conv : N → option N) (l : list (N * V)) l' :
  mapM (λ '(k, v), k' ← ok_or (conv k) k; Ok (k', v)) l = Ok l' ↔
  Forall2 (λ kv kv', conv kv.1 = Some kv'.1 ∧ kv.2 = kv'.2) l l'.
Proof.
  revert l'. induction l as [|[k v] l IH]; intros l'; cbn.
  { split; [intros [= <-]; constructor|by inversion 1]. }
  split.
  - destruct (conv k) eqn:E; cbn; [|done].
    destruct (mapM _ l) eqn:Em; cbn; intros [= <-]. constructor; [done|by apply IH].
  - inversion 1 as [|? [k' v'] ? l'' [Hk Hv] Hl]; simplify_eq/=. rewrite Hk; cbn.
    by apply IH in Hl as ->.
Qed.

Lemma convert_map_Ok {V} (conv : N → option N) (m m' : gmap N V) :
  (∀ k1 k2 k', conv k1 = Some k' → conv k2 = Some k' → k1 = k2) →
  convert_map conv m = Ok m' →
  (∀ k, is_Some (m !! k) → is_Some (conv k)) ∧
  (∀ k' v, m' !! k' = Some v ↔ ∃ k, conv k = Some k' ∧ m !! k = Some v).
Proof.
  intros Hinj. unfold convert_map. destruct (mapM _ _) as [l'|] eqn:Em; [|done].
  intros [= <-]. apply mapM_convert_Ok in Em.
  assert (∀ k' v, (k', v) ∈ l' ↔ ∃ k, conv k = Some k' ∧ m !! k = Some v) as Hl'.
  { intros k' v. setoid_rewrite <- elem_of_bt_iter. split.
    - intros (i & Hi)%list_elem_of_lookup.
      destruct (Forall2_lookup_r _ _ _ _ _ Em Hi) as ([k v'] & Hk & [Hc ?]); simplify_eq/=.
      exists k. split; [done|]. by eapply list_elem_of_lookup_2.
    - intros (k & Hc & (i & Hi)%list_elem_of_lookup).
      destruct (Forall2_lookup_l _ _ _ _ _ Em Hi) as ([k'' v'] & Hk & [Hc' ?]); simplify_eq/=.
      by eapply list_elem_of_lookup_2. }
  assert (NoDup l'.*1) as Hnd.
  { pose proof (NoDup_bt_keys m) as Hnd. unfold bt_keys in Hnd. clear Hl'. revert Hnd.
    induction Em as [|[k v] [k' v'] l1 l2 [Hc ?] Hr IH]; [by constructor|]; cbn in *.
    intros [Hni Hnd]%NoDup_cons. constructor; [|auto].
    intros ([k'' v''] & -> & (i & Hi)%list_elem_of_lookup)%list_elem_of_fmap.
    destruct (Forall2_lookup_r _ _ _ _ _ Hr Hi) as ([k1 v1] & Hk & [Hc' ?]); simplify_eq/=.
    rewrite (Hinj k k1 k'') in Hni by done.
    apply Hni, list_elem_of_fmap. exists (k1, v''). split; [done|].
    by eapply list_elem_of_lookup_2. }
  split; [|by intros k' v; rewrite bt_collect_NoDup].
  intros k [v (i & Hi)%elem_of_bt_iter%list_elem_of_lookup].
  destruct (Forall2_lookup_l _ _ _ _ _ Em Hi) as ([k' ?] & _ & [Hc _]). by exists k'.
Qed.

(** A conversion succeeds exactly when every key has a translation; the error is the least key
    without one. *)
Lemma convert_map_total {V} (conv : N → option N) (m : gmap N V) :
  (∀ k, is_Some (m !! k) → is_Some (conv k)) → ∃ m', convert_map conv m = Ok m'.
Proof.
  intros Hall. unfold convert_map.
  assert (∀ k v, (k, v) ∈ bt_iter m → is_Some (conv k)) as Hl.
  { intros k v Hin%elem_of_bt_iter. eauto. }
  enough (∃ l', mapM (λ '(k, v), k' ← ok_or (conv k) k; Ok (k', v)) (bt_iter m) = Ok l')
    as [l' Hm] by (rewrite Hm; by eexists).
  induction (bt_iter m) as [|[k v] l IH]; [by exists []|]. cbn.
  destruct (Hl k v) as [k' ->]; [left|]. cbn.
  destruct IH as [l' ->]; [|by eexists]. intros k1 v1 ?. by apply (Hl k1 v1); right.
Qed.

Lemma convert_map_Err {V} (conv : N → option N) (m : gmap N V) k :
  convert_map conv m = Err k →
  is_Some (m !! k) ∧ conv k = None ∧ ∀ j, is_Some (m !! j) → conv j = None → (k ≤ j)%N.
Proof.
  unfold convert_map. destruct (mapM _ _) as [|e] eqn:Em; [done|]. intros [= ->].
  enough (∃ v, (k, v) ∈ bt_iter m ∧ conv k = None ∧
    ∀ j w, (j, w) ∈ bt_iter m → conv j = None → (k ≤ j)%N) as (v & Hin & Hc & Hmin).
  { split_and!; [exists v; by apply elem_of_bt_iter|done|].
    intros j [w Hw%elem_of_bt_iter]. eauto. }
  pose proof (bt_iter_sorted m) as Hs. revert Em Hs.
  induction (bt_iter m) as [|[k1 v1] l IH]; cbn; [done|].
  destruct (conv k1) eqn:Hc; cbn.
  - destruct (mapM _ l) eqn:Em; cbn; [done|]. intros [= ->] [Hs _]%StronglySorted_inv.
    destruct (IH eq_refl Hs) as (v & Hin & Hk & Hmin). exists v.
    split_and!; [by right|done|]. intros j w [[= -> ->]|]%elem_of_cons; [congruence|eauto].
  - intros [= ->] [_ Hall]%StronglySorted_inv. exists v1. split_and!; [left|done|].
    rewrite Forall_forall in Hall.
    intros j w [[= -> ->]|Hin]%elem_of_cons _; [done|]. apply (Hall _ Hin).
Qed.

(** Converting with a translation and back with its inverse is the identity. *)
Lemma convert_map_roundtrip {V} (f g : N → option N) (m m' : gmap N V) :
  (∀ a b, f a = Some b ↔ g b = Some a) →
  convert_map f m = Ok m' → convert_map g m' = Ok m.
Proof.
  intros Hfg Hm.
  assert (∀ a1 a2 b, f a1 = Some b → f a2 = Some b → a1 = a2) as Hf.
  { intros a1 a2 b H1%Hfg H2%Hfg. congruence. }
  assert (∀ b1 b2 a, g b1 = Some a → g b2 = Some a → b1 = b2) as Hg.
  { intros b1 b2 a H1%Hfg H2%Hfg. congruence. }
  destruct (convert_map_Ok f m m' Hf Hm) as [Htot Hl].
  destruct (convert_map_total g m') as [m'' Hm''].
  { intros b [v (a & Ha%Hfg & _)%Hl]. by exists a. }
  rewrite Hm''. f_equal. destruct (convert_map_Ok g m' m'' Hg Hm'') as [_ Hl''].
  apply map_eq. intros a. apply option_eq. intros v. rewrite Hl''. setoid_rewrite Hl. split.
  - intros (b & Hb & a' & Ha' & Hv). apply Hfg in Ha'. congruence.
  - intros Hv. destruct (Htot a) as [b Hb]; [by exists v|]. exists b. rewrite <- Hfg. eauto.
Qed.

(** ** Properties *)

(** [OperatorTable::new] succeeds exactly when some entry is ours and no operator index,
    P2P key or bitcoin key is repeated.  The table it returns holds exactly the entries, its
    three maps are views of the same operators, and its point of view is an entry that the
    predicate selects. *)
Theorem operator_table_new_spec entries is_us :
  match OperatorTable_new entries is_us with
  | Some t =>
      entries_unique entries ∧ table_wf t ∧
      (∀ idx op btc, idx_key t !! idx = Some (op, btc) ↔ (idx, op, btc) ∈ entries) ∧
      ∃ e, e ∈ entries ∧ is_us e = true ∧ pov_idx t = e.1.1
  | None => (∀ e, e ∈ entries → is_us e = false) ∨ ¬ entries_unique entries
  end.
Proof.
  destruct (OperatorTable_new entries is_us) as [t|] eqn:E.
  - split; [|by apply new_wf]. unfold OperatorTable_new in E.
    destruct (List.find is_us entries); [|done]. cbn in E.
    by eapply new_loop_unique; rewrite E.
  - unfold OperatorTable_new in E. destruct (List.find is_us entries) as [e|] eqn:Hf.
    + right. intros (H1 & H2 & H3). cbn in E.
      destruct (new_loop_NoDup e.1.1 entries ∅ ∅ ∅) as [t Ht]; [done..| |congruence].
      intros. by rewrite !lookup_empty.
    + left. intros e He%list_elem_of_In. by eapply List.find_none in Hf.
Qed.

(** In a table built by [OperatorTable::new] the unwraps of [pov_p2p_key] and
    [pov_btc_key] never panic, and both keys look up to our own index; the list [btc_keys],
    from which the n-of-n key is aggregated, has one distinct key per operator, in the order
    of the operator indices. *)
Theorem operator_table_pov_and_order entries is_us t :
  OperatorTable_new entries is_us = Some t →
  (∃ op btc, pov_p2p_key t = Val op ∧ pov_btc_key t = Val btc ∧
     p2p_key_to_idx t op = Some (pov_idx t) ∧ btc_key_to_idx t btc = Some (pov_idx t)) ∧
  NoDup (btc_keys t) ∧ length (btc_keys t) = cardinality t ∧
  (∀ idx btc, idx_to_btc_key t idx = Some btc →
     ∃ i, bt_keys (idx_key t) !! i = Some idx ∧ btc_keys t !! i = Some btc) ∧
  StronglySorted N.le (bt_keys (idx_key t)).
Proof.
  intros [Hwf _]%new_wf.
  split_and!; [by apply pov_keys|by apply NoDup_btc_keys|apply length_btc_keys|
    intros; by apply btc_keys_in_order|].
  eapply StronglySorted_fmap; [|apply bt_iter_sorted]. done.
Qed.

(** Converting a map between two ways to name operators and back is the identity, for each
    of the three pairs of conversions, whenever the first conversion succeeds; a conversion
    succeeds exactly when the table knows every key, and otherwise reports the least key it
    does not know. *)
Theorem convert_map_roundtrips {V} entries is_us t (m m' : gmap N V) :
  OperatorTable_new entries is_us = Some t →
  (convert_map_p2p_to_idx t m = Ok m' ↔ convert_map_idx_to_p2p t m' = Ok m) ∧
  (convert_map_btc_to_idx t m = Ok m' ↔ convert_map_idx_to_btc t m' = Ok m) ∧
  (convert_map_p2p_to_btc t m = Ok m' ↔ convert_map_btc_to_p2p t m' = Ok m) ∧
  (match convert_map_p2p_to_btc t m with
   | Ok _ => dom m ⊆ p2p_keys t
   | Err k => k ∈ dom m ∧ k ∉ p2p_keys t ∧ ∀ j, j ∈ dom m → j ∉ p2p_keys t → (k ≤ j)%N
   end).
Proof.
  intros [Hwf _]%new_wf. split_and!.
  - split; apply convert_map_roundtrip; intros a b; by rewrite idx_p2p_iff.
  - split; apply convert_map_roundtrip; intros a b; by rewrite idx_btc_iff.
  - split; apply convert_map_roundtrip; intros a b; by rewrite p2p_btc_iff.
  - destruct (convert_map_p2p_to_btc t m) as [m1|k] eqn:E.
    + apply convert_map_Ok in E as [Htot _];
        [|intros a b c H1%p2p_btc_iff H2%p2p_btc_iff; congruence].
      intros k Hk%elem_of_dom. apply elem_of_dom, (fmap_is_Some snd), Htot, Hk.
    + apply convert_map_Err in E as (Hk & Hc & Hmin). unfold p2p_keys.
      setoid_rewrite not_elem_of_dom. setoid_rewrite elem_of_dom.
      unfold p2p_key_to_btc_key in *. setoid_rewrite fmap_None in Hmin.
      apply fmap_None in Hc. eauto.
Qed.

(** ** Witnesses *)

Lemma operator_table_pov_and_order_witness :
  ∃ t, OperatorTable_new example_entries (select_idx 1) = Some t ∧
    btc_keys t = [200; 300; 100]%N ∧ NoDup (btc_keys t) ∧ pov_btc_key t = Val 300%N.
Proof.
  eexists. split; [vm_compute; reflexivity|]. split; [vm_compute; reflexivity|].
  split; [|vm_compute; reflexivity].
  apply (operator_table_pov_and_order example_entries (select_idx 1)). vm_compute. reflexivity.
Defined.

Lemma convert_map_roundtrips_witness :
  ∃ t, OperatorTable_new example_entries (select_idx 1) = Some t ∧
    convert_map_idx_to_p2p t {[ 0%N := true; 2%N := false ]} = Ok {[ 10%N := true; 15%N := false ]} ∧
    convert_map_p2p_to_idx t {[ 10%N := true; 15%N := false ]}
      = Ok ({[ 0%N := true; 2%N := false ]} : gmap N bool).
Proof.
  eexists. split; [vm_compute; reflexivity|]. split; [vm_compute; reflexivity|].
  apply (convert_map_roundtrips example_entries (select_idx 1)); vm_compute; reflexivity.
Defined.
