(* ===== verification/PogMusig.v ===== *)
(** * The peg-out-graph functor ([tx-graph/src/pog_musig_functor.rs])

    [PogMusigF T] holds one [T] per MuSig2-signed input of a peg-out graph.  A fixed-size array
    [[T; N]] is a [vec T N], so the conversions between arrays and vectors of the same length
    that the source writes as [try_into().unwrap()] are the identity; the only conversions that
    can fail are those of [unpack], whose input has an arbitrary length.

    [pack] is the canonical order of the inputs, in which the graphs travel between operators:
    the laws below are stated through it. *)

From S2P Require Import Prelude Algebra.

(** ** Definitions *)

Definition NUM_POST_ASSERT_INPUTS : nat := 39.
Definition NUM_PAYOUT_OPTIMISTIC_INPUTS : nat := 5.
Definition NUM_PAYOUT_INPUTS : nat := 4.
Definition NUM_SLASH_STAKE_INPUTS : nat := 2.

Record PogMusigF (T : Type) := mkPog {
  challenge : T;
  pre_assert : T;
  post_assert : vec T NUM_POST_ASSERT_INPUTS;
  payout_optimistic : vec T NUM_PAYOUT_OPTIMISTIC_INPUTS;
  payout : vec T NUM_PAYOUT_INPUTS;
  disprove : T;
  slash_stake : list (vec T NUM_SLASH_STAKE_INPUTS);
}.
Arguments mkPog {_} _ _ _ _ _ _ _.
Arguments challenge {_} _.
Arguments pre_assert {_} _.
Arguments post_assert {_} _.
Arguments payout_optimistic {_} _.
Arguments payout {_} _.
Arguments disprove {_} _.
Arguments slash_stake {_} _.

#[global] Instance PogMusigF_eq_dec {T} `{EqDecision T} : EqDecision (PogMusigF T).
Proof. solve_decision. Defined.

Module Pog.

(** The number of inputs that every graph has, whatever the number of stakes. *)
Definition NUM_FIXED_INPUTS : nat :=
  3 + NUM_POST_ASSERT_INPUTS + NUM_PAYOUT_OPTIMISTIC_INPUTS + NUM_PAYOUT_INPUTS.

Definition pack {T} (g : PogMusigF T) : list T :=
  [challenge g] ++ [pre_assert g] ++ vec_to_list (post_assert g)
    ++ vec_to_list (payout_optimistic g) ++ vec_to_list (payout g) ++ [disprove g]
    ++ mjoin (vec_to_list <$> slash_stake g).

(** [cursor.take(n).collect().try_into()]: the array and what is left of the cursor. *)
Fixpoint take_array {T} (n : nat) (cursor : list T) : option (vec T n * list T) :=
  match n with
  | 0 => Some (vnil, cursor)
  | S n =>
      match cursor with
      | [] => None
      | x :: cursor =>
          match take_array n cursor with
          | Some (v, rest) => Some (vcons x v, rest)
          | None => None
          end
      end
  end.

(** The loop of [unpack] over what follows the disprove input. *)
Fixpoint unpack_slash {T} (cursor : list T) : option (list (vec T NUM_SLASH_STAKE_INPUTS)) :=
  match cursor with
  | [] => Some []
  | a :: b :: cursor => ([# a; b] ::.) <$> unpack_slash cursor
  | [_] => None
  end.

Definition unpack {T} (graph_vec : list T) : option (PogMusigF T) :=
  match graph_vec with
  | challenge :: pre_assert :: cursor =>
      '(post_assert, cursor) ← take_array NUM_POST_ASSERT_INPUTS cursor;
      '(payout_optimistic, cursor) ← take_array NUM_PAYOUT_OPTIMISTIC_INPUTS cursor;
      '(payout, cursor) ← take_array NUM_PAYOUT_INPUTS cursor;
      match cursor with
      | [] => None
      | disprove :: cursor =>
          slash_stake ← unpack_slash cursor;
          Some (mkPog challenge pre_assert post_assert payout_optimistic payout disprove
            slash_stake)
      end
  | _ => None
  end.

Definition map {T U} (f : T → U) (g : PogMusigF T) : PogMusigF U :=
  mkPog (f (challenge g)) (f (pre_assert g)) (vmap f (post_assert g))
    (vmap f (payout_optimistic g)) (vmap f (payout g)) (f (disprove g))
    (vmap f <$> slash_stake g).

(** [zip]: an array of pairs per array; the slash-stake vectors are cut to the shorter one. *)
Definition zip {T U} (a : PogMusigF T) (b : PogMusigF U) : PogMusigF (T * U) :=
  mkPog (challenge a, challenge b) (pre_assert a, pre_assert b)
    (vzip_with pair (post_assert a) (post_assert b))
    (vzip_with pair (payout_optimistic a) (payout_optimistic b))
    (vzip_with pair (payout a) (payout b)) (disprove a, disprove b)
    (base.zip_with (vzip_with pair) (slash_stake a) (slash_stake b)).

Definition zip_apply {A B} (f : PogMusigF (A → B)) (a : PogMusigF A) : PogMusigF B :=
  let app (g : A → B) (x : A) : B := g x in
  mkPog (challenge f (challenge a)) (pre_assert f (pre_assert a))
    (vzip_with app (post_assert f) (post_assert a))
    (vzip_with app (payout_optimistic f) (payout_optimistic a))
    (vzip_with app (payout f) (payout a)) (disprove f (disprove a))
    (base.zip_with (vzip_with app) (slash_stake f) (slash_stake a)).

Definition zip_with {A B C} (f : A → B → C) (a : PogMusigF A) (b : PogMusigF B) : PogMusigF C :=
  map (λ '(a, b), f a b) (zip a b).
Definition zip_with_3 {A B C O} (f : A → B → C → O) (a : PogMusigF A) (b : PogMusigF B)
    (c : PogMusigF C) : PogMusigF O :=
  map (λ '((a, b), c), f a b c) (zip (zip a b) c).
Definition zip_with_4 {A B C D O} (f : A → B → C → D → O) (a : PogMusigF A) (b : PogMusigF B)
    (c : PogMusigF C) (d : PogMusigF D) : PogMusigF O :=
  map (λ '((a, b), (c, d)), f a b c d) (zip (zip a b) (zip c d)).
Definition zip_with_5 {A B C D E O} (f : A → B → C → D → E → O) (a : PogMusigF A)
    (b : PogMusigF B) (c : PogMusigF C) (d : PogMusigF D) (e : PogMusigF E) : PogMusigF O :=
  map (λ '((((a, b), c), d), e), f a b c d e) (zip (zip (zip (zip a b) c) d) e).

Definition zip3 {A B C} (a : PogMusigF A) (b : PogMusigF B) (c : PogMusigF C) :=
  zip_with_3 (λ a b c, (a, b, c)) a b c.
Definition zip4 {A B C D} (a : PogMusigF A) (b : PogMusigF B) (c : PogMusigF C)
    (d : PogMusigF D) :=
  zip_with_4 (λ a b c d, (a, b, c, d)) a b c d.
Definition zip5 {A B C D E} (a : PogMusigF A) (b : PogMusigF B) (c : PogMusigF C)
    (d : PogMusigF D) (e : PogMusigF E) :=
  zip_with_5 (λ a b c d e, (a, b, c, d, e)) a b c d e.

(** An array of fallible values, in order: [iter.collect::<M<Vec<T>>>()?.try_into()]. *)
Fixpoint vsequence {M : Type → Type} `{MBind M, MRet M} {T} {n} (v : vec (M T) n) : M (vec T n) :=
  match v with
  | [#] => mret [#]
  | x ::: v => x ← x; v ← vsequence v; mret (x ::: v)
  end.

Definition sequence_option {T} (graph : PogMusigF (option T)) : option (PogMusigF T) :=
  challenge ← challenge graph;
  pre_assert ← pre_assert graph;
  post_assert ← vsequence (post_assert graph);
  payout_optimistic ← vsequence (payout_optimistic graph);
  payout ← vsequence (payout graph);
  disprove ← disprove graph;
  slash_stake ← mapM vsequence (slash_stake graph);
  Some (mkPog challenge pre_assert post_assert payout_optimistic payout disprove slash_stake).

Definition sequence_result {E T} (graph : PogMusigF (result E T)) : result E (PogMusigF T) :=
  challenge ← challenge graph;
  pre_assert ← pre_assert graph;
  post_assert ← vsequence (post_assert graph);
  payout_optimistic ← vsequence (payout_optimistic graph);
  payout ← vsequence (payout graph);
  disprove ← disprove graph;
  slash_stake ← mapM vsequence (slash_stake graph);
  Ok (mkPog challenge pre_assert post_assert payout_optimistic payout disprove slash_stake).

(** [PogMusigF] preserves the semigroup structure of its leaves. *)
#[global] Instance pog_semigroup {A} `{Semigroup A} : Semigroup (PogMusigF A) := zip_with merge.

Definition sequence_pog_musig_f {T} (graphs : list (PogMusigF T)) : PogMusigF (list T) :=
  let num_left := from_option (λ g, length (slash_stake g)) 0 (head graphs) in
  let init := mkPog [] [] (vreplicate _ []) (vreplicate _ []) (vreplicate _ []) []
    (replicate num_left [# []; []]) in
  foldl merge init (map (λ a, [a]) <$> graphs).

Definition unzip {T U} (g : PogMusigF (T * U)) : PogMusigF T * PogMusigF U :=
  (mkPog (challenge g).1 (pre_assert g).1 (vmap fst (post_assert g))
     (vmap fst (payout_optimistic g)) (vmap fst (payout g)) (disprove g).1
     (vmap fst <$> slash_stake g),
   mkPog (challenge g).2 (pre_assert g).2 (vmap snd (post_assert g))
     (vmap snd (payout_optimistic g)) (vmap snd (payout g)) (disprove g).2
     (vmap snd <$> slash_stake g)).

(** [join_all]: [run] is what awaiting a future returns; [futures::join_all] returns the
    outputs in the order of the futures. *)
Definition join_all {F O} (run : F → O) (g : PogMusigF F) : comp (PogMusigF O) :=
  expect (unpack (run <$> pack g)).

(** A graph with one stake, for the examples. *)
Definition example_pog (k : nat) : PogMusigF nat :=
  mkPog k (k + 1) (vreplicate _ (k + 2)) (vreplicate _ (k + 3)) (vreplicate _ (k + 4)) (k + 5)
    [[# k + 6; k + 7]].

(** ** Packing and unpacking *)

Lemma take_array_app {T} n (v : vec T n) rest :
  take_array n (vec_to_list v ++ rest) = Some (v, rest).
Proof. induction v as [|x n v IH]; cbn; [done|]. by rewrite IH. Qed.

Lemma take_array_Some {T} n (l : list T) v rest :
  take_array n l = Some (v, rest) → l = vec_to_list v ++ rest.
Proof.
  revert l v rest. induction n as [|n IH]; intros l v rest; cbn.
  { inv_vec v. by intros [= ->]. }
  destruct l as [|x l]; [done|]. destruct (take_array n l) as [[v' rest']|] eqn:E; [|done].
  intros [= <- ->]. cbn. by rewrite (IH _ _ _ E).
Qed.

Lemma take_array_None {T} n (l : list T) : take_array n l = None ↔ length l < n.
Proof.
  revert l. induction n as [|n IH]; intros l; cbn; [split; [done|lia]|].
  destruct l as [|x l]; cbn; [split; [lia|done]|].
  rewrite <- Nat.succ_lt_mono, <- IH. by destruct (take_array n l) as [[]|].
Qed.

Lemma slash_pair {T} (p : vec T NUM_SLASH_STAKE_INPUTS) : ∃ a b, p = [# a; b].
Proof. inv_vec p. intros a b. by exists a, b. Qed.

Lemma mjoin_vec_cons {T n} (p : vec T n) s :
  mjoin (vec_to_list <$> (p :: s)) = vec_to_list p ++ mjoin (vec_to_list <$> s).
Proof. done. Qed.

Lemma unpack_slash_pack {T} (s : list (vec T NUM_SLASH_STAKE_INPUTS)) :
  unpack_slash (mjoin (vec_to_list <$> s)) = Some s.
Proof.
  induction s as [|p s IH]; [done|]. destruct (slash_pair p) as (a & b & ->).
  rewrite mjoin_vec_cons. cbn [vec_to_list app unpack_slash]. by rewrite IH.
Qed.

(** Induction two elements at a time. *)
Lemma list_pair_ind {T} (P : list T → Prop) :
  P [] → (∀ a, P [a]) → (∀ a b l, P l → P (a :: b :: l)) → ∀ l, P l.
Proof. intros H0 H1 H2. fix IH 1. intros [|a [|b l]]; [done|done|apply H2, IH]. Qed.

Lemma unpack_slash_Some {T} (l : list T) s :
  unpack_slash l = Some s → l = mjoin (vec_to_list <$> s).
Proof.
  revert s. induction l as [|a|a b l IH] using list_pair_ind; intros s; cbn; [by intros [= <-]|done|].
  intros (s' & Hs & ->)%fmap_Some. cbn. by rewrite (IH _ Hs).
Qed.

Lemma unpack_slash_None {T} (l : list T) : unpack_slash l = None ↔ Nat.odd (length l) = true.
Proof.
  induction l as [|a|a b l IH] using list_pair_ind; [done..|].
  cbn -[Nat.odd]. rewrite fmap_None, IH.
  by rewrite Nat.odd_succ, Nat.even_succ.
Qed.

Lemma length_pack {T} (g : PogMusigF T) :
  length (pack g) = NUM_FIXED_INPUTS + 2 * length (slash_stake g).
Proof.
  unfold pack. rewrite !length_app, !length_vec_to_list. cbn [length].
  enough (length (mjoin (vec_to_list <$> slash_stake g)) = 2 * length (slash_stake g)) as ->.
  { unfold NUM_FIXED_INPUTS. lia. }
  induction (slash_stake g) as [|p s IH]; [done|].
  rewrite mjoin_vec_cons, length_app, IH, length_vec_to_list.
  unfold NUM_SLASH_STAKE_INPUTS. cbn. lia.
Qed.

Lemma unpack_pack {T} (g : PogMusigF T) : unpack (pack g) = Some g.
Proof.
  unfold unpack, pack. cbn [app]. repeat (rewrite take_array_app; cbn [mbind option_bind app]).
  rewrite unpack_slash_pack. by destruct g.
Qed.

Lemma unpack_Some {T} (l : list T) g : unpack l = Some g → pack g = l.
Proof.
  unfold unpack. destruct l as [|c [|p l]]; [done..|].
  intros ([v1 l1] & H1 & ([v2 l2] & H2 & ([v3 l3] & H3 & H)%bind_Some)%bind_Some)%bind_Some.
  apply take_array_Some in H1, H2, H3. destruct l3 as [|d l4]; [done|].
  apply bind_Some in H as (s & Hs%unpack_slash_Some & [= <-]). by subst.
Qed.

(** What is left to unpack, when the length of the list is known. *)
Lemma take_array_cases {T} n (l : list T) :
  (take_array n l = None ∧ length l < n) ∨
  (∃ v l', take_array n l = Some (v, l') ∧ length l = n + length l').
Proof.
  destruct (take_array n l) as [[v l']|] eqn:E; [|left; by rewrite <- take_array_None].
  right. exists v, l'. split; [done|]. apply take_array_Some in E as ->.
  by rewrite length_app, length_vec_to_list.
Qed.

Lemma unpack_None {T} (l : list T) :
  unpack l = None ↔
  length l < NUM_FIXED_INPUTS ∨ Nat.odd (length l - NUM_FIXED_INPUTS) = true.
Proof.
  split.
  - unfold unpack, NUM_FIXED_INPUTS. destruct l as [|c [|p l]]; [left; cbn; lia..|].
    cbn [length]. intros H.
    destruct (take_array_cases NUM_POST_ASSERT_INPUTS l) as [[E ?]|(v1 & l1 & E & ->)];
      [left; lia|rewrite E in H; cbn [mbind option_bind] in H; clear E].
    destruct (take_array_cases NUM_PAYOUT_OPTIMISTIC_INPUTS l1) as [[E ?]|(v2 & l2 & E & ->)];
      [left; lia|rewrite E in H; cbn [mbind option_bind] in H; clear E].
    destruct (take_array_cases NUM_PAYOUT_INPUTS l2) as [[E ?]|(v3 & l3 & E & ->)];
      [left; lia|rewrite E in H; cbn [mbind option_bind] in H; clear E].
    destruct l3 as [|d l4]; [left; cbn [length]; lia|]. right. cbn [length].
    destruct (unpack_slash l4) eqn:E4; [done|]. apply unpack_slash_None in E4.
    rewrite <- E4. f_equal. lia.
  - intros H. apply eq_None_not_Some. intros [g' <-%unpack_Some].
    rewrite length_pack in H. destruct H as [?|H]; [lia|]. revert H.
    replace (_ - _) with (2 * length (slash_stake g')) by lia. by rewrite Nat.odd_even.
Qed.

#[global] Instance pack_inj {T} : Inj (=) (=) (@pack T).
Proof. intros g1 g2 E. apply (inj Some). by rewrite <- !unpack_pack, E. Qed.

(** ** The functor *)

Lemma pack_map {T U} (f : T → U) g : pack (map f g) = f <$> pack g.
Proof.
  unfold pack, map. cbn [challenge pre_assert post_assert payout_optimistic payout disprove
    slash_stake]. rewrite !fmap_app, !vec_to_list_map. repeat f_equal.
  induction (slash_stake g) as [|p s IH]; [done|].
  rewrite fmap_cons, !mjoin_vec_cons, fmap_app, vec_to_list_map. by f_equal.
Qed.

Lemma map_compose {T U W} (f : T → U) (h : U → W) g : map h (map f g) = map (h ∘ f) g.
Proof. apply (inj pack). by rewrite !pack_map, list_fmap_compose. Qed.

Lemma slash_map {T U} (f : T → U) g : length (slash_stake (map f g)) = length (slash_stake g).
Proof. apply length_fmap. Qed.

Lemma slash_zip {T U} (a : PogMusigF T) (b : PogMusigF U) :
  length (slash_stake (zip a b)) = length (slash_stake a) `min` length (slash_stake b).
Proof. apply length_zip_with. Qed.

Lemma pack_zip {T U} (a : PogMusigF T) (b : PogMusigF U) :
  length (slash_stake a) = length (slash_stake b) →
  pack (zip a b) = base.zip (pack a) (pack b).
Proof.
  intros Hlen. unfold pack, zip. cbn [challenge pre_assert post_assert payout_optimistic payout
    disprove slash_stake].
  repeat (rewrite zip_with_app by (rewrite ?length_vec_to_list; done)).
  rewrite !vec_to_list_zip_with. do 6 f_equal.
  revert Hlen. generalize (slash_stake b).
  induction (slash_stake a) as [|p s IH]; intros [|p' s'] Hlen; try done.
  cbn [base.zip_with]. rewrite !mjoin_vec_cons, vec_to_list_zip_with.
  rewrite zip_with_app by (by rewrite !length_vec_to_list). by rewrite IH by (by injection Hlen).
Qed.

Lemma pack_zip_with {A B C} (f : A → B → C) a b :
  length (slash_stake a) = length (slash_stake b) →
  pack (zip_with f a b) = base.zip_with f (pack a) (pack b).
Proof.
  intros Hlen. unfold zip_with. rewrite pack_map, pack_zip by done.
  revert Hlen. generalize (pack a), (pack b). intros l l' _. revert l'.
  induction l as [|x l IH]; intros [|y l']; cbn; [done..|]. f_equal. apply IH.
Qed.

(** [zip_apply] of a partially applied [map] is [zip_with]. *)
Lemma zip_apply_map {A B C} (f : A → B → C) a b : zip_apply (map f a) b = zip_with f a b.
Proof.
  assert (∀ n (v : vec A n) (w : vec B n),
    vzip_with (λ g x, g x) (vmap f v) w = vmap (λ '(a, b), f a b) (vzip_with pair v w)) as Hv.
  { intros n v w. vec_double_ind v w; [done|]. intros m v w IH x y. cbn. by rewrite <- IH. }
  unfold zip_apply, zip_with, map, zip. cbn -[vmap vzip_with]. f_equal; [apply Hv..|].
  generalize (slash_stake b). induction (slash_stake a) as [|p s IH]; intros [|p' s']; [done..|].
  cbn -[vmap vzip_with]. f_equal; [apply Hv|apply IH].
Qed.

Lemma zip_unzip {T U} (g : PogMusigF (T * U)) : zip (unzip g).1 (unzip g).2 = g.
Proof.
  apply (inj pack). rewrite pack_zip by (cbn; by rewrite !length_fmap).
  change (unzip g).1 with (map fst g). change (unzip g).2 with (map snd g).
  rewrite !pack_map. apply zip_fst_snd.
Qed.

Lemma unzip_zip {T U} (a : PogMusigF T) (b : PogMusigF U) :
  length (slash_stake a) = length (slash_stake b) → unzip (zip a b) = (a, b).
Proof.
  intros Hlen. change (unzip (zip a b)) with (map fst (zip a b), map snd (zip a b)).
  assert (length (pack a) = length (pack b)) by (rewrite !length_pack; lia).
  f_equal; apply (inj pack); rewrite pack_map, pack_zip by done;
    [apply fst_zip|apply snd_zip]; lia.
Qed.

#[global] Instance pog_laws {A} `{SemigroupLaws A} : SemigroupLaws (PogMusigF A).
Proof.
  assert (∀ n (u v w : vec A n),
    vmap (λ '(a, b), merge a b) (vzip_with pair (vmap (λ '(a, b), merge a b) (vzip_with pair u v)) w)
    = vmap (λ '(a, b), merge a b)
        (vzip_with pair u (vmap (λ '(a, b), merge a b) (vzip_with pair v w)))) as Hv.
  { intros n u. induction u as [|x n u IH]; intros v w; inv_vec v; inv_vec w; [done|].
    intros z w y v. cbn. by rewrite merge_assoc, IH. }
  intros a b c. unfold merge, pog_semigroup, zip_with, map, zip. cbn -[vmap vzip_with].
  f_equal; [apply merge_assoc..|apply Hv|apply Hv|apply Hv|apply merge_assoc|].
  generalize (slash_stake b), (slash_stake c).
  induction (slash_stake a) as [|p s IH]; intros [|p' s'] [|p'' s'']; [done..|].
  cbn -[vmap vzip_with]. f_equal; [apply Hv|apply IH].
Qed.

(** ** Transposition *)

Lemma vsequence_result_list {E T n} (v : vec (result E T) n) :
  vec_to_list <$> vsequence v = mapM id (vec_to_list v).
Proof.
  induction v as [|x n v IH]; [done|]. cbn. destruct x as [x|e]; cbn; [|done].
  rewrite <- IH. by destruct (vsequence v).
Qed.

Lemma mapM_result_app {E A B} (f : A → result E B) l1 l2 :
  mapM f (l1 ++ l2) = (k1 ← mapM f l1; k2 ← mapM f l2; Ok (k1 ++ k2)).
Proof.
  induction l1 as [|x l1 IH]; cbn; [by destruct (mapM f l2)|].
  destruct (f x) as [y|e]; cbn; [|done]. rewrite IH.
  destruct (mapM f l1) as [k1|e]; cbn; [|done]. by destruct (mapM f l2).
Qed.

Lemma mapM_vsequence_list {E T n} (s : list (vec (result E T) n)) :
  (λ k, mjoin (vec_to_list <$> k)) <$> mapM vsequence s = mapM id (mjoin (vec_to_list <$> s)).
Proof.
  induction s as [|p s IH]; [done|]. rewrite mjoin_vec_cons, mapM_result_app, <- IH.
  rewrite <- vsequence_result_list. cbn.
  destruct (vsequence p) as [v|e]; cbn; [|done]. by destruct (mapM vsequence s).
Qed.

Lemma sequence_result_list {E T} (g : PogMusigF (result E T)) :
  pack <$> sequence_result g = mapM id (pack g).
Proof.
  unfold pack, sequence_result. rewrite !mapM_result_app, <- mapM_vsequence_list.
  rewrite <- !vsequence_result_list. cbn.
  destruct (challenge g) as [c|e]; cbn; [|done]. destruct (pre_assert g) as [p|e]; cbn; [|done].
  destruct (vsequence (post_assert g)) as [v1|e]; cbn; [|done].
  destruct (vsequence (payout_optimistic g)) as [v2|e]; cbn; [|done].
  destruct (vsequence (payout g)) as [v3|e]; cbn; [|done].
  destruct (disprove g) as [d|e]; cbn; [|done]. by destruct (mapM vsequence (slash_stake g)).
Qed.

Lemma vsequence_option_list {T n} (v : vec (option T) n) :
  vec_to_list <$> vsequence v = mapM id (vec_to_list v).
Proof.
  induction v as [|x n v IH]; [done|]. cbn. destruct x as [x|]; cbn; [|done].
  rewrite <- IH. by destruct (vsequence v).
Qed.

(** Merging singletons onto an accumulator appends each graph's leaf to its component. *)
Lemma pack_fold_merge {T} n (graphs : list (PogMusigF T)) (acc : PogMusigF (list T)) :
  length (slash_stake acc) = n → Forall (λ g, length (slash_stake g) = n) graphs →
  pack (foldl merge acc (map (λ a, [a]) <$> graphs))
  = foldl (base.zip_with (λ xs x, xs ++ [x])) (pack acc) (pack <$> graphs).
Proof.
  intros Hacc Hall. revert acc Hacc. induction Hall as [|g graphs Hg Hall IH]; intros acc Hacc; [done|].
  cbv beta in Hg. cbn [foldl fmap list_fmap]. rewrite IH.
  - f_equal. unfold merge, pog_semigroup. rewrite pack_zip_with by (rewrite slash_map; lia).
    by rewrite pack_map, zip_with_fmap_r.
  - unfold merge, pog_semigroup, zip_with. rewrite slash_map, slash_zip, slash_map. lia.
Qed.

(** Column [i] of a fold of rows. *)
Lemma foldl_snoc_lookup {T} (rows : list (list T)) (acc : list (list T)) i :
  Forall (λ r, length r = length acc) rows →
  foldl (base.zip_with (λ xs x, xs ++ [x])) acc rows !! i
  = (xs ← acc !! i; col ← mapM (.!! i) rows; Some (xs ++ col)).
Proof.
  revert acc. induction rows as [|r rows IH]; intros acc Hall; cbn [foldl].
  { destruct (acc !! i); cbn; [by rewrite app_nil_r|done]. }
  apply Forall_cons in Hall as [Hr Hall]. rewrite IH.
  2: { eapply Forall_impl; [done|]. intros r' Hr'. cbn in *. rewrite length_zip_with. lia. }
  rewrite lookup_zip_with. cbn [mapM]. destruct (acc !! i) as [xs|] eqn:Ea; cbn; [|done].
  destruct (lookup_lt_is_Some_2 r i) as [x Hx]; [apply lookup_lt_Some in Ea; lia|].
  rewrite Hx. cbn. destruct (mapM (.!! i) rows); cbn; [by rewrite <- app_assoc|done].
Qed.

Lemma pack_init {T} n :
  pack (mkPog [] [] (vreplicate _ []) (vreplicate _ []) (vreplicate _ []) []
    (replicate n [# []; []]) : PogMusigF (list T)) = replicate (NUM_FIXED_INPUTS + 2 * n) [].
Proof.
  unfold pack. cbn [challenge pre_assert post_assert payout_optimistic payout disprove slash_stake].
  assert (mjoin (vec_to_list <$> replicate n ([# []; []] : vec (list T) NUM_SLASH_STAKE_INPUTS))
    = replicate (2 * n) []) as Hs.
  { induction n as [|n IH]; [done|]. rewrite replicate_S, mjoin_vec_cons, IH.
    by replace (2 * S n) with (S (S (2 * n))) by lia. }
  etrans; [do 6 apply (f_equal (app _)); exact Hs|done].
Qed.

Lemma mapM_option_app {A B} (f : A → option B) l1 l2 :
  mapM f (l1 ++ l2) = (k1 ← mapM f l1; k2 ← mapM f l2; Some (k1 ++ k2)).
Proof.
  induction l1 as [|x l1 IH]; cbn; [by destruct (mapM f l2)|].
  destruct (f x) as [y|]; cbn; [|done]. rewrite IH.
  destruct (mapM f l1) as [k1|]; cbn; [|done]. by destruct (mapM f l2).
Qed.

Lemma mapM_vsequence_option_list {T n} (s : list (vec (option T) n)) :
  (λ k, mjoin (vec_to_list <$> k)) <$> mapM vsequence s = mapM id (mjoin (vec_to_list <$> s)).
Proof.
  induction s as [|p s IH]; [done|]. rewrite mjoin_vec_cons, mapM_option_app, <- IH.
  rewrite <- vsequence_option_list. cbn.
  destruct (vsequence p) as [v|]; cbn; [|done]. by destruct (mapM vsequence s).
Qed.

Lemma sequence_option_list {T} (g : PogMusigF (option T)) :
  pack <$> sequence_option g = mapM id (pack g).
Proof.
  unfold pack, sequence_option. rewrite !mapM_option_app, <- mapM_vsequence_option_list.
  rewrite <- !vsequence_option_list. cbn.
  destruct (challenge g) as [c|]; cbn; [|done]. destruct (pre_assert g) as [p|]; cbn; [|done].
  destruct (vsequence (post_assert g)) as [v1|]; cbn; [|done].
  destruct (vsequence (payout_optimistic g)) as [v2|]; cbn; [|done].
  destruct (vsequence (payout g)) as [v3|]; cbn; [|done].
  destruct (disprove g) as [d|]; cbn; [|done]. by destruct (mapM vsequence (slash_stake g)).
Qed.

Lemma mapM_id_Some {T} (l : list (option T)) k : mapM id l = Some k ↔ l = Some <$> k.
Proof.
  rewrite mapM_Some. split.
  - induction 1 as [|x y l k Hxy _ IH]; [done|]. cbn in *. congruence.
  - intros ->. apply Forall2_fmap_l, Forall_Forall2_diag, Forall_true. done.
Qed.

(** ** Properties *)

(** [unpack] inverts [pack] and accepts nothing else: a vector unpacks to a graph exactly
    when it is that graph packed, and it is refused exactly when it is shorter than the inputs
    every graph has or leaves half a slash-stake pair.  So [join_all], which packs, awaits and
    unpacks, never panics and awaits component-wise. *)
Theorem pack_unpack_roundtrip {T} (l : list T) (g : PogMusigF T) :
  (unpack l = Some g ↔ pack g = l) ∧
  (unpack l = None ↔
     length l < NUM_FIXED_INPUTS ∨ Nat.odd (length l - NUM_FIXED_INPUTS) = true) ∧
  (∀ O (run : T → O), join_all run g = Val (map run g)).
Proof.
  split_and!.
  - split; [apply unpack_Some|intros <-; apply unpack_pack].
  - apply unpack_None.
  - intros O run. unfold join_all. by rewrite <- pack_map, unpack_pack.
Qed.

(** Zipping five graphs with the same number of stakes, as signing does, applies the
    function to the values at the same input of each graph, in the canonical order;
    [unzip] inverts [zip] and [zip] inverts [unzip]. *)
Theorem zip_with_componentwise {A B C D E O} (f : A → B → C → D → E → O) a b c d e n :
  length (slash_stake a) = n → length (slash_stake b) = n → length (slash_stake c) = n →
  length (slash_stake d) = n → length (slash_stake e) = n →
  (∀ i, pack (zip_with_5 f a b c d e) !! i =
    (xa ← pack a !! i; xb ← pack b !! i; xc ← pack c !! i; xd ← pack d !! i; xe ← pack e !! i;
     Some (f xa xb xc xd xe))) ∧
  unzip (zip a b) = (a, b) ∧ ∀ g : PogMusigF (A * B), zip (unzip g).1 (unzip g).2 = g.
Proof.
  intros Ha Hb Hc Hd He. split_and!; [|by apply unzip_zip; congruence|apply zip_unzip].
  intros i. unfold zip_with_5. rewrite pack_map, list_lookup_fmap.
  rewrite !pack_zip by (rewrite ?slash_zip; lia).
  rewrite !lookup_zip_with.
  by destruct (pack a !! i), (pack b !! i), (pack c !! i), (pack d !! i), (pack e !! i).
Qed.

(** [sequence_pog_musig_f] transposes: for graphs with the same number of stakes, the
    vector at each input of the result lists the graphs' values at that input, in the order
    of the graphs. *)
Theorem sequence_transposes {T} (graphs : list (PogMusigF T)) n i :
  graphs ≠ [] → Forall (λ g, length (slash_stake g) = n) graphs → i < NUM_FIXED_INPUTS + 2 * n →
  pack (sequence_pog_musig_f graphs) !! i = mapM (λ g, pack g !! i) graphs.
Proof.
  intros Hne Hall Hi. destruct graphs as [|g graphs]; [done|].
  assert (length (slash_stake g) = n) as Hn by (by apply Forall_cons in Hall as [? _]).
  unfold sequence_pog_musig_f. cbn [head from_option]. rewrite Hn.
  rewrite (pack_fold_merge n) by (done || apply length_replicate).
  rewrite pack_init, foldl_snoc_lookup.
  - rewrite lookup_replicate_2 by done. cbn [mbind option_bind].
    enough (∀ l : list (PogMusigF T), mapM (.!! i) (pack <$> l) = mapM (λ g, pack g !! i) l) as ->.
    { by destruct (mapM _ _). }
    induction l as [|x l IH]; [done|]. rewrite fmap_cons. cbn [mapM]. by rewrite IH.
  - rewrite length_replicate. apply Forall_fmap. eapply Forall_impl; [done|].
    intros g' Hg'. unfold compose. rewrite length_pack. cbv beta in Hg'. lia.
Qed.

(** Transposing fallible components succeeds exactly when every component does;
    [sequence_result] otherwise returns the error of the first failing input in the canonical
    order. *)
Theorem sequence_fallible {E T} (r : PogMusigF (result E T)) (o : PogMusigF (option T)) :
  pack <$> sequence_result r = mapM id (pack r) ∧
  (∀ g, sequence_option o = Some g ↔ o = map Some g).
Proof.
  split; [apply sequence_result_list|]. intros g.
  assert (sequence_option o = Some g ↔ pack <$> sequence_option o = Some (pack g)) as ->.
  { destruct (sequence_option o); cbn; [|done]. split; [by intros [= ->]|].
    intros H%(inj Some). by rewrite (inj pack _ _ H). }
  rewrite sequence_option_list, mapM_id_Some, <- pack_map.
  split; [apply (inj pack)|by intros ->].
Qed.

(** ** Witnesses *)

Lemma zip_with_componentwise_witness :
  pack (zip_with_5 (λ a b c d e, [a; b; c; d; e]) (example_pog 10) (example_pog 20)
    (example_pog 30) (example_pog 40) (example_pog 50)) !! 52 = Some [17; 27; 37; 47; 57].
Proof.
  rewrite (proj1 (zip_with_componentwise (λ a b c d e, [a; b; c; d; e]) (example_pog 10)
    (example_pog 20) (example_pog 30) (example_pog 40) (example_pog 50) 1
    eq_refl eq_refl eq_refl eq_refl eq_refl)). vm_compute. reflexivity.
Defined.

Lemma sequence_transposes_witness :
  pack (sequence_pog_musig_f [example_pog 10; example_pog 20]) !! 51 = Some [16; 26].
Proof.
  rewrite (sequence_transposes [example_pog 10; example_pog 20] 1 51).
  - vm_compute. reflexivity.
  - discriminate.
  - repeat constructor.
  - vm_compute. lia.
Defined.

End Pog.
