(* ===== verification/BtcNotify.v ===== *)
(** * The ZMQ notification state machine ([btc-notify])

    [BtcZmqSM] ([btc-notify/src/state_machine.rs]) turns the three ZMQ streams of a bitcoin
    node (raw blocks, raw transactions, sequence messages) into transaction and block events
    ([btc-notify/src/event.rs]).  A [TxPredicate] is an [Arc] of a function: the state machine
    compares predicates by pointer and calls the function. *)

From S2P Require Import Prelude Bitcoin.

(** ** Events ([event.rs]) *)

Inductive TxStatus :=
| Unknown
| Mempool
| Mined (blockhash : BlockHash) (height : N)
| Buried (blockhash : BlockHash) (height : N).

Record TxEvent := mkTxEvent { rawtx : Transaction; status : TxStatus }.

Inductive BlockStatus := BlockUncled | BlockMined | BlockBuried.

Record BlockEvent := mkBlockEvent { be_block : Block; be_status : BlockStatus }.

Definition is_mined (s : TxStatus) : bool := match s with Mined _ _ => true | _ => false end.
Definition is_buried (s : TxStatus) : bool := match s with Buried _ _ => true | _ => false end.

#[global] Instance TxStatus_eq_dec : EqDecision TxStatus.
Proof. solve_decision. Defined.
#[global] Instance TxEvent_eq_dec : EqDecision TxEvent.
Proof. solve_decision. Defined.

(** [bitcoincore_zmq::SequenceMessage]; what the state machine ignores of it is left out. *)
Inductive SequenceMessage :=
| BlockConnect (blockhash : BlockHash)
| BlockDisconnect (blockhash : BlockHash)
| MempoolAcceptance (txid : Txid)
| MempoolRemoval (txid : Txid).

(** ** State *)

Record TxPredicate := mkTxPredicate { pred_ptr : N; pred_fn : Transaction → bool }.

Record TxLifecycle := mkTxLifecycle {
  raw : Transaction;
  block : option (N * BlockHash);
}.

Record BtcZmqSM := mkBtcZmqSM {
  bury_depth : nat;
  tx_filters : list TxPredicate;
  tx_lifecycles : BTreeMap Txid (option TxLifecycle);
  (** The front of the queue, the head of the list, is the newest block. *)
  unburied_blocks : list Block;
}.

(** ** Operations *)

Section operations.
Context `{BitcoinLib, BuildProfile}.

Definition init (bury_depth : nat) (unburied_blocks : list Block) : BtcZmqSM :=
  mkBtcZmqSM bury_depth [] ∅ unburied_blocks.

Definition add_filter (sm : BtcZmqSM) (pred : TxPredicate) : BtcZmqSM :=
  mkBtcZmqSM (bury_depth sm) (tx_filters sm ++ [pred]) (tx_lifecycles sm) (unburied_blocks sm).

(** [Vec::swap_remove]: the last element takes the place of the removed one. *)
Definition swap_remove {A} (l : list A) (idx : nat) : list A :=
  match last l with
  | Some x => take (length l - 1) (<[idx := x]> l)
  | None => l
  end.

Definition rm_filter (sm : BtcZmqSM) (pred : TxPredicate) : BtcZmqSM :=
  match list_find (λ p, pred_ptr p = pred_ptr pred) (tx_filters sm) with
  | Some (idx, _) =>
      mkBtcZmqSM (bury_depth sm) (swap_remove (tx_filters sm) idx) (tx_lifecycles sm)
        (unburied_blocks sm)
  | None => sm
  end.

(** [self.tx_filters.iter().any(|f| f(tx))]. *)
Definition matches (filters : list TxPredicate) (tx : Transaction) : bool :=
  existsb (λ f, pred_fn f tx) filters.

Definition block_height (b : Block) : N := default 0%N (bip34_block_height b).

(** The loop body over the matched transactions of the new tip. *)
Definition mine_tx (b : Block)
    (acc : BTreeMap Txid (option TxLifecycle) * list TxEvent) (tx : Transaction)
    : comp (BTreeMap Txid (option TxLifecycle) * list TxEvent) :=
  let '(lifecycles, diff) := acc in
  let blockhash := block_hash b in
  let height := block_height b in
  let event := mkTxEvent tx (Mined blockhash height) in
  match lifecycles !! compute_txid tx with
  | None | Some None =>
      Val (<[compute_txid tx := Some (mkTxLifecycle tx (Some (height, blockhash)))]> lifecycles,
           diff ++ [event])
  | Some (Some lifecycle) =>
      _ ← match block lifecycle with
          | Some (_, prior_blockhash) =>
              _ ← debug_assert (bool_decide (tx = raw lifecycle));
              debug_assert (bool_decide (prior_blockhash ≠ blockhash))
          | None => Val tt
          end;
      Val (<[compute_txid tx :=
               Some (mkTxLifecycle (raw lifecycle) (Some (height, blockhash)))]> lifecycles,
           diff ++ [event])
  end.

(** The loop body over the transactions of the block that leaves the queue. *)
Definition bury_tx (filters : list TxPredicate) (newly_buried : Block)
    (acc : BTreeMap Txid (option TxLifecycle) * list TxEvent) (tx : Transaction)
    : BTreeMap Txid (option TxLifecycle) * list TxEvent :=
  (delete (compute_txid tx) acc.1,
   if matches filters tx
   then acc.2 ++ [mkTxEvent tx (Buried (block_hash newly_buried) (block_height newly_buried))]
   else acc.2).

(** The queue after a block arrives: the block is dropped when it does not extend the tip. *)
Definition push_block (queue : list Block) (b : Block) : comp (list Block) :=
  match queue with
  | tip :: _ =>
      if bool_decide (prev_blockhash b = block_hash tip) then Val (b :: queue)
      else _ ← debug_assert false; Val queue
  | [] => Val [b]
  end.

Definition process_block (sm : BtcZmqSM) (b : Block)
    : comp (BtcZmqSM * (list TxEvent * option BlockEvent)) :=
  queue ← push_block (unburied_blocks sm) b;
  b ← expect (head queue);
  '(lifecycles, diff) ← foldlM (mine_tx b) (tx_lifecycles sm, [])
    (List.filter (matches (tx_filters sm)) (txdata b));
  if decide (bury_depth sm < length queue) then
    match last queue with
    | Some newly_buried =>
        let '(lifecycles, diff) :=
          foldl (bury_tx (tx_filters sm) newly_buried) (lifecycles, diff) (txdata newly_buried) in
        Val (mkBtcZmqSM (bury_depth sm) (tx_filters sm) lifecycles (take (length queue - 1) queue),
             (diff, Some (mkBlockEvent newly_buried BlockBuried)))
    | None => Panic
    end
  else
    Val (mkBtcZmqSM (bury_depth sm) (tx_filters sm) lifecycles queue, (diff, None)).

Definition set_lifecycles (sm : BtcZmqSM) (m : BTreeMap Txid (option TxLifecycle)) : BtcZmqSM :=
  mkBtcZmqSM (bury_depth sm) (tx_filters sm) m (unburied_blocks sm).

Definition process_tx (sm : BtcZmqSM) (tx : Transaction) : BtcZmqSM * list TxEvent :=
  let txid := compute_txid tx in
  if negb (matches (tx_filters sm) tx) then (sm, [])
  else
    match tx_lifecycles sm !! txid with
    | None =>
        (set_lifecycles sm (<[txid := Some (mkTxLifecycle tx None)]> (tx_lifecycles sm)), [])
    | Some None =>
        (set_lifecycles sm (<[txid := Some (mkTxLifecycle tx None)]> (tx_lifecycles sm)),
         [mkTxEvent tx Mempool])
    | Some (Some _) => (sm, [])
    end.

(** Whether a tracked transaction is bound to the disconnected block. *)
Definition bound_to (blockhash : BlockHash) (v : option TxLifecycle) : bool :=
  match v with
  | Some (mkTxLifecycle _ (Some (_, blk))) => bool_decide (blk = blockhash)
  | _ => false
  end.

(** [retain] over the lifecycles: what is pushed to the diff, in the order of the txids. *)
Definition disconnect_diff (blockhash : BlockHash) (m : BTreeMap Txid (option TxLifecycle))
    : list TxEvent :=
  omap (λ kv, if bound_to blockhash kv.2
              then (λ lifecycle, mkTxEvent (raw lifecycle) Unknown) <$> kv.2 else None) (bt_iter m).

Definition disconnect_lifecycles (blockhash : BlockHash) (m : BTreeMap Txid (option TxLifecycle))
    : BTreeMap Txid (option TxLifecycle) :=
  filter (λ kv, bound_to blockhash kv.2 = false) m.

Definition process_sequence (sm : BtcZmqSM) (seq : SequenceMessage)
    : comp (BtcZmqSM * (list TxEvent * option BlockEvent)) :=
  match seq with
  | BlockConnect _ => Val (sm, ([], None))
  | BlockDisconnect blockhash =>
      '(queue, blk_evt) ←
        match unburied_blocks sm with
        | b :: queue =>
            if bool_decide (block_hash b = blockhash)
            then Val (queue, Some (mkBlockEvent b BlockUncled))
            else Panic
        | [] => Val ([], None)
        end;
      Val (mkBtcZmqSM (bury_depth sm) (tx_filters sm)
             (disconnect_lifecycles blockhash (tx_lifecycles sm)) queue,
           (disconnect_diff blockhash (tx_lifecycles sm), blk_evt))
  | MempoolAcceptance txid =>
      match tx_lifecycles sm !! txid with
      | Some (Some lifecycle) =>
          match block lifecycle with
          | None => Val (sm, ([mkTxEvent (raw lifecycle) Mempool], None))
          | Some _ => Val (sm, ([], None))
          end
      | Some None => Panic
      | None => Val (set_lifecycles sm (<[txid := None]> (tx_lifecycles sm)), ([], None))
      end
  | MempoolRemoval txid =>
      let sm' := set_lifecycles sm (delete txid (tx_lifecycles sm)) in
      match tx_lifecycles sm !! txid with
      | Some (Some lifecycle) => Val (sm', ([mkTxEvent (raw lifecycle) Unknown], None))
      | Some None => Val (sm', ([], None))
      | None => Val (sm', ([], None))
      end
  end.

(** A message on one of the three streams, or a change of the subscriptions. *)
Inductive zmq_input :=
| RawBlock (b : Block)
| RawTx (tx : Transaction)
| Sequence (seq : SequenceMessage)
| AddFilter (pred : TxPredicate).

Definition zmq_step (sm : BtcZmqSM) (i : zmq_input)
    : comp (BtcZmqSM * (list TxEvent * option BlockEvent)) :=
  match i with
  | RawBlock b => process_block sm b
  | RawTx tx => let '(sm, diff) := process_tx sm tx in Val (sm, (diff, None))
  | Sequence seq => process_sequence sm seq
  | AddFilter pred => Val (add_filter sm pred, ([], None))
  end.

(** [PartialEq for BtcZmqSM]: filters are compared by pointer. *)
Definition sm_eq (a b : BtcZmqSM) : Prop :=
  (pred_ptr <$> tx_filters a) = (pred_ptr <$> tx_filters b) ∧ bury_depth a = bury_depth b ∧
  tx_lifecycles a = tx_lifecycles b ∧ unburied_blocks a = unburied_blocks b.

(** ** Specification vocabulary *)

Definition mined_events (filters : list TxPredicate) (b : Block) : list TxEvent :=
  (λ tx, mkTxEvent tx (Mined (block_hash b) (block_height b)))
    <$> List.filter (matches filters) (txdata b).

Definition buried_events (filters : list TxPredicate) (b : Block) : list TxEvent :=
  (λ tx, mkTxEvent tx (Buried (block_hash b) (block_height b)))
    <$> List.filter (matches filters) (txdata b).

(** The block builds on the newest block we hold, if we hold one. *)
Definition extends (sm : BtcZmqSM) (b : Block) : bool :=
  match unburied_blocks sm with
  | tip :: _ => bool_decide (prev_blockhash b = block_hash tip)
  | [] => true
  end.

(** The assumptions the debug assertions of [process_block] check. *)
Definition block_ok (sm : BtcZmqSM) (b : Block) : Prop :=
  extends sm b = true ∧
  NoDup (compute_txid <$> List.filter (matches (tx_filters sm)) (txdata b)) ∧
  ∀ tx lifecycle, tx ∈ txdata b → tx_lifecycles sm !! compute_txid tx = Some (Some lifecycle) →
    raw lifecycle = tx ∧ ∀ h, block lifecycle ≠ Some (h, block_hash b).

(** Each block of the queue is the parent of the one before it. *)
Fixpoint linked (queue : list Block) : Prop :=
  match queue with
  | b :: queue =>
      match queue with
      | parent :: _ => prev_blockhash b = block_hash parent
      | [] => True
      end ∧ linked queue
  | [] => True
  end.

(** The invariant on a map of lifecycles, for a fixed list of filters. *)
Definition lifecycles_wf (filters : list TxPredicate) (m : gmap N (option TxLifecycle)) : Prop :=
  ∀ txid lifecycle, m !! txid = Some (Some lifecycle) →
    compute_txid (raw lifecycle) = txid ∧ matches filters (raw lifecycle) = true.

(** The invariants: the queue is a chain no longer than the bury depth, and a tracked
    transaction is filed under its txid and matches a filter. *)
Definition queue_wf (sm : BtcZmqSM) : Prop :=
  linked (unburied_blocks sm) ∧ length (unburied_blocks sm) ≤ bury_depth sm.
Definition tracked_wf (sm : BtcZmqSM) : Prop :=
  lifecycles_wf (tx_filters sm) (tx_lifecycles sm).

Definition events_match (filters : list TxPredicate) (evs : list TxEvent) : Prop :=
  Forall (λ e, matches filters (rawtx e) = true) evs.

(** Feeding a list of blocks. *)
Fixpoint process_blocks (sm : BtcZmqSM) (bs : list Block)
    : comp (BtcZmqSM * list (list TxEvent * option BlockEvent)) :=
  match bs with
  | [] => Val (sm, [])
  | b :: bs =>
      '(sm, out) ← process_block sm b;
      '(sm, outs) ← process_blocks sm bs;
      Val (sm, out :: outs)
  end.

(** Feeding a list of inputs; the events of all steps, in order. *)
Fixpoint zmq_run (sm : BtcZmqSM) (inputs : list zmq_input) : comp (BtcZmqSM * list TxEvent) :=
  match inputs with
  | [] => Val (sm, [])
  | i :: inputs =>
      '(sm, out) ← zmq_step sm i;
      '(sm, evs) ← zmq_run sm inputs;
      Val (sm, out.1 ++ evs)
  end.

End operations.

#[global] Arguments matches _ _ : simpl never.

(** Small libraries and states for the examples: a transaction is named by its lock time, a
    block by the rest of its header. *)
Definition example_lib : BitcoinLib := {|
  compute_txid t := lock_time t;
  block_hash b := header_rest b;
  bip34_block_height b := Some (header_rest b);
|}.
Definition example_tx (n : N) : Transaction := mkTransaction 2 n [] [].
Definition example_block (n : N) : Block :=
  mkBlock (n - 1) n [example_tx (10 * n); example_tx (10 * n + 1)].
Definition even_filter : TxPredicate := mkTxPredicate 7 (λ tx, N.even (lock_time tx)).
Definition example_sm (queue : list Block) : BtcZmqSM := mkBtcZmqSM 2 [even_filter] ∅ queue.

(** ** The loops of [process_block] *)

Section loops.
Context `{BitcoinLib, BuildProfile}.

Lemma mine_tx_Val b m diff tx m' diff' :
  mine_tx b (m, diff) tx = Val (m', diff') →
  diff' = diff ++ [mkTxEvent tx (Mined (block_hash b) (block_height b))] ∧
  ∃ r, m' = <[compute_txid tx := Some (mkTxLifecycle r (Some (block_height b, block_hash b)))]> m
    ∧ (r = tx ∨ ∃ lc, m !! compute_txid tx = Some (Some lc) ∧ r = raw lc).
Proof.
  unfold mine_tx. intros Hm.
  destruct (m !! compute_txid tx) as [[lc|]|] eqn:E; [|naive_solver..].
  apply comp_bind_Val in Hm as (u & _ & Hm). injection Hm as <- <-.
  split; [done|]. eexists. split; [done|]. eauto.
Qed.

Lemma mine_txs_Val b m diff txs m' diff' :
  foldlM (mine_tx b) (m, diff) txs = Val (m', diff') →
  diff' = diff ++ ((λ tx, mkTxEvent tx (Mined (block_hash b) (block_height b))) <$> txs).
Proof.
  revert m diff. induction txs as [|tx txs IH]; intros m diff; cbn [foldlM].
  { intros [= <- <-]. by rewrite app_nil_r. }
  intros ([m1 diff1] & [-> _]%mine_tx_Val & H2)%comp_bind_Val.
  rewrite (IH _ _ H2). by rewrite <- app_assoc.
Qed.

Lemma bury_txs filters nb m diff txs :
  foldl (bury_tx filters nb) (m, diff) txs
  = (foldl (λ m tx, delete (compute_txid tx) m) m txs,
     diff ++ ((λ tx, mkTxEvent tx (Buried (block_hash nb) (block_height nb)))
       <$> List.filter (matches filters) txs)).
Proof.
  revert m diff. induction txs as [|tx txs IH]; intros m diff; cbn [foldl List.filter];
    [by rewrite app_nil_r|].
  unfold bury_tx at 2. cbn [fst snd]. rewrite IH. f_equal. destruct (matches filters tx); cbn; [by rewrite <- app_assoc|done].
Qed.

Lemma delete_all_lookup {V} (m : gmap N V) txs txid :
  foldl (λ m tx, delete (compute_txid tx) m) m txs !! txid
  = if decide (txid ∈ compute_txid <$> txs) then None else m !! txid.
Proof.
  revert m. induction txs as [|tx txs IH]; intros m; cbn [foldl fmap list_fmap].
  { by rewrite decide_False by set_solver. }
  rewrite IH. repeat case_decide; try set_solver.
  all: rewrite lookup_delete; case_decide; set_solver.
Qed.

(** Without debug assertions the loop cannot panic. *)
Lemma mine_tx_total b acc tx : debug_assertions = false → ∃ r, mine_tx b acc tx = Val r.
Proof.
  intros Hrel. destruct acc as [m diff]. unfold mine_tx.
  destruct (m !! compute_txid tx) as [[lc|]|]; [|by eexists..].
  destruct (block lc) as [[h bh]|]; [|by eexists]. rewrite !debug_assert_release by done.
  by eexists.
Qed.

Lemma mine_txs_total b acc txs :
  debug_assertions = false → ∃ r, foldlM (mine_tx b) acc txs = Val r.
Proof.
  intros Hrel. revert acc. induction txs as [|tx txs IH]; intros acc; [by eexists|].
  destruct (mine_tx_total b acc tx Hrel) as [acc' Hacc]. cbn [foldlM].
  rewrite Hacc. apply IH.
Qed.

(** With them it does not when the block satisfies what they assert. *)
Lemma mine_txs_ok b m diff txs :
  NoDup (compute_txid <$> txs) →
  (∀ tx lc, tx ∈ txs → m !! compute_txid tx = Some (Some lc) →
     raw lc = tx ∧ ∀ h, block lc ≠ Some (h, block_hash b)) →
  ∃ r, foldlM (mine_tx b) (m, diff) txs = Val r.
Proof.
  revert m diff. induction txs as [|tx txs IH]; intros m diff Hnd Hok; [by eexists|].
  rewrite fmap_cons in Hnd. apply NoDup_cons in Hnd as [Hni Hnd].
  assert (∃ r, mine_tx b (m, diff) tx = Val r) as [[m1 diff1] H1].
  { unfold mine_tx. destruct (m !! compute_txid tx) as [[lc|]|] eqn:E; [|by eexists..].
    destruct (Hok tx lc) as [Hraw Hblk]; [left|done|].
    destruct (block lc) as [[h bh]|] eqn:Eb; [|by eexists].
    rewrite !debug_assert_true; [by eexists|..]; apply bool_decide_eq_true; [done|].
    intros ->. by apply (Hblk h). }
  cbn [foldlM]. rewrite H1. apply IH; [done|]. apply mine_tx_Val in H1 as (_ & r & -> & _).
  intros tx' lc Hin. rewrite lookup_insert_ne; [apply Hok; by right|].
  intros E. apply Hni. rewrite E. apply list_elem_of_fmap. eauto.
Qed.

End loops.

(** ** [process_block] *)

Section blocks.
Context `{BitcoinLib, BuildProfile}.

(** What [process_block] did when it returned. *)
Lemma process_block_inv sm b sm' diff be :
  process_block sm b = Val (sm', (diff, be)) →
  ∃ queue tip m, push_block (unburied_blocks sm) b = Val queue ∧ head queue = Some tip ∧
    foldlM (mine_tx tip) (tx_lifecycles sm, [])
      (List.filter (matches (tx_filters sm)) (txdata tip)) = Val (m, mined_events (tx_filters sm) tip) ∧
    bury_depth sm' = bury_depth sm ∧ tx_filters sm' = tx_filters sm ∧
    ((bury_depth sm < length queue ∧ ∃ old, last queue = Some old ∧
        diff = mined_events (tx_filters sm) tip ++ buried_events (tx_filters sm) old ∧
        be = Some (mkBlockEvent old BlockBuried) ∧
        unburied_blocks sm' = take (length queue - 1) queue ∧
        tx_lifecycles sm' = foldl (λ m tx, delete (compute_txid tx) m) m (txdata old)) ∨
     (length queue ≤ bury_depth sm ∧ diff = mined_events (tx_filters sm) tip ∧ be = None ∧
        unburied_blocks sm' = queue ∧ tx_lifecycles sm' = m)).
Proof.
  unfold process_block. intros (queue & Hq & (tip & Ht & ([m d] & Hm & Hp)%comp_bind_Val)
    %comp_bind_Val)%comp_bind_Val.
  apply expect_Val in Ht. pose proof (mine_txs_Val _ _ _ _ _ _ Hm) as ->. cbn [app] in *.
  change (_ <$> _) with (mined_events (tx_filters sm) tip) in Hm, Hp.
  exists queue, tip, m. case_decide as Hlen.
  - destruct (last queue) as [old|] eqn:El; [|done]. rewrite bury_txs in Hp.
    injection Hp as <- <- <-. split_and!; [done..|]. left. eauto 10.
  - injection Hp as <- <- <-. split_and!; [done..|]. right. split_and!; [lia|done..].
Qed.

Lemma push_block_Val queue b queue' :
  push_block queue b = Val queue' → queue' = b :: queue ∨ (queue' = queue ∧ queue ≠ []).
Proof.
  unfold push_block. destruct queue as [|tip queue]; [naive_solver|].
  case_bool_decide; [naive_solver|].
  intros (? & _ & [= <-])%comp_bind_Val. naive_solver.
Qed.

Lemma push_block_extends sm b :
  extends sm b = true → push_block (unburied_blocks sm) b = Val (b :: unburied_blocks sm).
Proof. unfold extends, push_block. destruct (unburied_blocks sm); [done|]. by intros ->. Qed.

(** [process_block] returns when the loop over the new tip does. *)
Lemma process_block_returns sm b queue tip r :
  push_block (unburied_blocks sm) b = Val queue → head queue = Some tip →
  foldlM (mine_tx tip) (tx_lifecycles sm, [])
    (List.filter (matches (tx_filters sm)) (txdata tip)) = Val r →
  ∃ sm' diff be, process_block sm b = Val (sm', (diff, be)).
Proof.
  intros Hq Ht Hr. unfold process_block. rewrite Hq. cbn [mbind comp_bind]. rewrite Ht.
  cbn [mbind comp_bind expect]. rewrite Hr. destruct r as [m d]. cbn [mbind comp_bind].
  case_decide; [|by do 3 eexists].
  destruct queue as [|x queue]; [done|]. destruct (last (x :: queue)) eqn:El.
  - rewrite bury_txs. by do 3 eexists.
  - by rewrite last_None in El.
Qed.

Lemma process_block_release_total sm b :
  debug_assertions = false → ∃ sm' diff be, process_block sm b = Val (sm', (diff, be)).
Proof.
  intros Hrel.
  assert (∃ queue tip, push_block (unburied_blocks sm) b = Val queue ∧ head queue = Some tip)
    as (queue & tip & Hq & Ht).
  { unfold push_block. destruct (unburied_blocks sm) as [|x q]; [by exists [b], b|].
    case_bool_decide; [by exists (b :: x :: q), b|]. rewrite debug_assert_release by done.
    by exists (x :: q), x. }
  destruct (mine_txs_total tip (tx_lifecycles sm, [])
    (List.filter (matches (tx_filters sm)) (txdata tip)) Hrel) as [r Hr].
  by eapply process_block_returns.
Qed.

Lemma process_block_ok_total sm b :
  block_ok sm b → ∃ sm' diff be, process_block sm b = Val (sm', (diff, be)).
Proof.
  intros (Hext & Hnd & Hok). apply push_block_extends in Hext.
  destruct (mine_txs_ok b (tx_lifecycles sm) []
    (List.filter (matches (tx_filters sm)) (txdata b)) Hnd) as [r Hr].
  - intros tx lc [Hin _]%elem_of_filterb. by apply Hok.
  - by eapply process_block_returns.
Qed.

(** The result on a block that extends the tip. *)
Lemma process_block_extends sm b sm' diff be :
  extends sm b = true → process_block sm b = Val (sm', (diff, be)) →
  let queue := b :: unburied_blocks sm in
  (bury_depth sm < length queue ∧ ∃ old, last queue = Some old ∧
     diff = mined_events (tx_filters sm) b ++ buried_events (tx_filters sm) old ∧
     be = Some (mkBlockEvent old BlockBuried) ∧
     unburied_blocks sm' = take (length queue - 1) queue ∧
     ∀ tx, tx ∈ txdata old → tx_lifecycles sm' !! compute_txid tx = None) ∨
  (length queue ≤ bury_depth sm ∧ diff = mined_events (tx_filters sm) b ∧ be = None ∧
     unburied_blocks sm' = queue).
Proof.
  intros Hext (queue & tip & m & Hq & Ht & Hm & _ & _ & Hcase)%process_block_inv.
  rewrite push_block_extends in Hq by done. injection Hq as <-. injection Ht as <-.
  destruct Hcase as [(Hlen & old & El & -> & -> & -> & Hl)|(Hlen & -> & -> & -> & _)];
    [left|right; done].
  split; [done|]. exists old. split_and!; [done..|]. intros tx Hin.
  rewrite Hl, delete_all_lookup, decide_True; [done|]. apply list_elem_of_fmap. eauto.
Qed.

(** *** The invariants *)

Lemma linked_take queue n : linked queue → linked (take n queue).
Proof.
  revert n. induction queue as [|b queue IH]; intros [|n]; cbn; [done..|].
  intros [Hb Hl]. split; [|by apply IH]. by destruct queue, n.
Qed.

Lemma process_block_queue_wf sm b sm' out :
  queue_wf sm → process_block sm b = Val (sm', out) → queue_wf sm'.
Proof.
  destruct out as [diff be]. intros [Hl Hlen] Hp.
  apply process_block_inv in Hp as (queue & tip & m & Hq & Ht & _ & Hd & _ & Hcase).
  assert (linked queue ∧ length queue ≤ S (bury_depth sm)) as [Hl' Hlen'].
  { unfold push_block in Hq. destruct (unburied_blocks sm) as [|x q].
    - injection Hq as <-. cbn. split; [done|lia].
    - case_bool_decide.
      + injection Hq as <-. cbn in *. split; [done|lia].
      + apply comp_bind_Val in Hq as (? & _ & [= <-]). split; [done|lia]. }
  unfold queue_wf. rewrite Hd.
  destruct Hcase as [(Hlt & old & _ & _ & _ & -> & _)|(Hle & _ & _ & -> & _)]; [|done].
  split; [by apply linked_take|]. rewrite length_take. lia.
Qed.

Lemma process_sequence_queue_wf sm seq sm' out :
  queue_wf sm → process_sequence sm seq = Val (sm', out) → queue_wf sm'.
Proof.
  intros [Hl Hlen]. unfold process_sequence. destruct seq as [?|bh|txid|txid].
  - by intros [= <- <-].
  - intros ([q be] & Hq & [= <- <-])%comp_bind_Val. unfold queue_wf. cbn.
    destruct (unburied_blocks sm) as [|x q']; [by injection Hq as <- <-|].
    case_bool_decide; [|done]. injection Hq as <- <-. cbn in *. split; [apply Hl|lia].
  - intros Hp. branches; done.
  - intros Hp. branches; done.
Qed.

End blocks.

(** ** Tracked transactions match the filters *)

Section tracking.
Context `{BitcoinLib, BuildProfile}.

Lemma lifecycles_wf_insert filters m txid v :
  lifecycles_wf filters m →
  (∀ lc, v = Some lc → compute_txid (raw lc) = txid ∧ matches filters (raw lc) = true) →
  lifecycles_wf filters (<[txid := v]> m).
Proof.
  intros Hm Hv t lc [[<- ->]|[_ Hl]]%lookup_insert_Some; [by apply Hv|by apply Hm].
Qed.

Lemma lifecycles_wf_sub filters m m' :
  lifecycles_wf filters m → (∀ t v, m' !! t = Some v → m !! t = Some v) →
  lifecycles_wf filters m'.
Proof. intros Hm Hsub t lc Hl%Hsub. by apply Hm. Qed.

Lemma mine_txs_wf filters b m txs m' diff :
  lifecycles_wf filters m → Forall (λ tx, matches filters tx = true) txs →
  foldlM (mine_tx b) (m, []) txs = Val (m', diff) → lifecycles_wf filters m'.
Proof.
  intros Hm Htxs Hf. rewrite Forall_forall in Htxs.
  apply (foldlM_ind (mine_tx b) (λ s, lifecycles_wf filters s.1) (m, []) txs (m', diff)) in Hf;
    [exact Hf|exact Hm|].
  intros [m1 d1] tx [m2 d2] Hin Hm1 (_ & r & -> & Hr)%mine_tx_Val. cbn in *.
  apply lifecycles_wf_insert; [done|]. intros lc [= <-]. cbn.
  destruct Hr as [->|(lc & Hlc & ->)]; [by auto|by apply Hm1 in Hlc].
Qed.

Lemma matches_filterb filters txs : Forall (λ tx, matches filters tx = true)
  (List.filter (matches filters) txs).
Proof. apply Forall_forall. by intros tx [_ ?]%elem_of_filterb. Qed.

Lemma mined_events_match filters b : events_match filters (mined_events filters b).
Proof. apply Forall_fmap, matches_filterb. Qed.
Lemma buried_events_match filters b : events_match filters (buried_events filters b).
Proof. apply Forall_fmap, matches_filterb. Qed.

Lemma process_block_tracked sm b sm' diff be :
  tracked_wf sm → process_block sm b = Val (sm', (diff, be)) →
  tracked_wf sm' ∧ events_match (tx_filters sm) diff ∧ tx_filters sm' = tx_filters sm.
Proof.
  intros Hwf (queue & tip & m & _ & _ & Hm & _ & Hf & Hcase)%process_block_inv.
  apply (mine_txs_wf (tx_filters sm)) in Hm; [|done|apply matches_filterb].
  unfold tracked_wf. rewrite Hf. unfold events_match.
  destruct Hcase as [(_ & old & _ & -> & _ & _ & ->)|(_ & -> & _ & _ & ->)].
  - split_and!; [|apply Forall_app; split; [apply mined_events_match|apply buried_events_match]|done].
    eapply lifecycles_wf_sub; [done|]. intros t v. rewrite delete_all_lookup. by case_decide.
  - split_and!; [done|apply mined_events_match|done].
Qed.

Lemma process_tx_tracked sm tx sm' diff :
  tracked_wf sm → process_tx sm tx = (sm', diff) →
  tracked_wf sm' ∧ events_match (tx_filters sm) diff ∧ tx_filters sm' = tx_filters sm.
Proof.
  intros Hwf. unfold process_tx. destruct (matches (tx_filters sm) tx) eqn:Em; cbn.
  2: { intros [= <- <-]. split_and!; [done|constructor|done]. }
  destruct (tx_lifecycles sm !! compute_txid tx) as [[lc|]|] eqn:E; intros [= <- <-].
  - split_and!; [done|constructor|done].
  - split_and!; [|by constructor|done].
    apply lifecycles_wf_insert; [done|]. by intros lc [= <-].
  - split_and!; [|constructor|done].
    apply lifecycles_wf_insert; [done|]. by intros lc [= <-].
Qed.

Lemma disconnect_diff_match filters bh m :
  lifecycles_wf filters m → events_match filters (disconnect_diff bh m).
Proof.
  intros Hm. apply Forall_forall. intros e He. apply list_elem_of_omap in He as ([k v] & Hin & He).
  apply elem_of_bt_iter in Hin. cbn in He. destruct (bound_to bh v); [|done].
  apply fmap_Some in He as (lc & -> & ->). by apply Hm in Hin as [_ ?].
Qed.

Lemma process_sequence_tracked sm seq sm' diff be :
  tracked_wf sm → process_sequence sm seq = Val (sm', (diff, be)) →
  tracked_wf sm' ∧ events_match (tx_filters sm) diff ∧ tx_filters sm' = tx_filters sm.
Proof.
  intros Hwf. unfold process_sequence. destruct seq as [?|bh|txid|txid].
  - intros [= <- <- <-]. split_and!; [done|constructor|done].
  - intros ([q be'] & _ & [= <- <- <-])%comp_bind_Val. split_and!; [|by apply disconnect_diff_match|done].
    eapply lifecycles_wf_sub; [exact Hwf|]. by intros t v [? _]%map_lookup_filter_Some.
  - destruct (tx_lifecycles sm !! txid) as [[lc|]|] eqn:E; [|done|].
    + apply Hwf in E as [_ E]. destruct (block lc); intros [= <- <- <-];
        (split_and!; [done|repeat constructor; done|done]).
    + intros [= <- <- <-]. split_and!; [|constructor|done].
      by apply lifecycles_wf_insert.
  - assert (tracked_wf (set_lifecycles sm (delete txid (tx_lifecycles sm)))) as Hd.
    { eapply lifecycles_wf_sub; [exact Hwf|]. cbn. by intros t v [_ ?]%lookup_delete_Some. }
    destruct (tx_lifecycles sm !! txid) as [[lc|]|] eqn:E; intros [= <- <- <-];
      (split_and!; [done|repeat constructor|done]).
    by apply Hwf in E as [_ ?].
Qed.

Lemma matches_app f g tx : matches (f ++ g) tx = matches f tx || matches g tx.
Proof. apply existsb_app. Qed.

Lemma zmq_step_tracked sm i sm' out :
  tracked_wf sm → zmq_step sm i = Val (sm', out) →
  tracked_wf sm' ∧ events_match (tx_filters sm) out.1 ∧ tx_filters sm `prefix_of` tx_filters sm'.
Proof.
  intros Hwf. destruct i as [b|tx|seq|pred]; cbn [zmq_step].
  - destruct out as [diff be]. intros (? & ? & ->)%process_block_tracked; done.
  - destruct (process_tx sm tx) as [sm1 diff] eqn:E. intros [= <- <-].
    apply process_tx_tracked in E as (? & ? & ->); done.
  - destruct out as [diff be]. intros (? & ? & ->)%process_sequence_tracked; done.
  - intros [= <- <-]. split_and!; [|constructor|by eexists].
    intros t lc Hl. apply Hwf in Hl as [? Hm]. split; [done|].
    change (tx_filters (add_filter sm pred)) with (tx_filters sm ++ [pred]).
    by rewrite matches_app, Hm.
Qed.

End tracking.

(** ** Runs *)

Section runs.
Context `{BitcoinLib, BuildProfile}.

Lemma events_match_prefix f g evs : f `prefix_of` g → events_match f evs → events_match g evs.
Proof.
  intros [h ->] Hf. eapply Forall_impl; [exact Hf|]. intros e He. cbv beta in *.
  by rewrite matches_app, He.
Qed.

Lemma zmq_run_tracked sm inputs sm' evs :
  tracked_wf sm → zmq_run sm inputs = Val (sm', evs) →
  tracked_wf sm' ∧ events_match (tx_filters sm') evs ∧ tx_filters sm `prefix_of` tx_filters sm'.
Proof.
  revert sm evs. induction inputs as [|i inputs IH]; intros sm evs Hwf; cbn [zmq_run].
  { intros [= <- <-]. split_and!; [done|constructor|done]. }
  intros ([sm1 out] & H1 & ([sm2 evs2] & H2 & [= <- <-])%comp_bind_Val)%comp_bind_Val.
  apply zmq_step_tracked in H1 as (Hwf1 & Hm1 & Hp1); [|done].
  apply IH in H2 as (Hwf2 & Hm2 & Hp2); [|done]. split_and!; [done| |by etrans].
  apply Forall_app. split; [|done]. eapply events_match_prefix; [|done]. by etrans.
Qed.

(** After a run of blocks that build on each other, the queue holds the newest of them. *)
Lemma process_blocks_queue sm bs :
  debug_assertions = false → linked (rev bs ++ unburied_blocks sm) → length bs ≤ bury_depth sm →
  length (unburied_blocks sm) ≤ bury_depth sm →
  ∃ sm' outs, process_blocks sm bs = Val (sm', outs) ∧
    unburied_blocks sm' = take (bury_depth sm) (rev bs ++ unburied_blocks sm) ∧
    bury_depth sm' = bury_depth sm ∧ tx_filters sm' = tx_filters sm.
Proof.
  intros Hrel. revert sm. induction bs as [|b bs IH]; intros sm Hl Hbs Hq; cbn [process_blocks].
  { exists sm, []. cbn. by rewrite take_ge. }
  destruct (process_block_release_total sm b Hrel) as (sm1 & diff & be & H1).
  assert (linked (b :: unburied_blocks sm)) as Hlb.
  { cbn [rev] in Hl. rewrite <- app_assoc in Hl. clear -Hl.
    induction (rev bs) as [|x l IHl]; [done|]. apply IHl. cbn in Hl. apply Hl. }
  assert (extends sm b = true) as Hext.
  { unfold extends. destruct (unburied_blocks sm); [done|]. apply bool_decide_eq_true, Hlb. }
  pose proof (process_block_inv _ _ _ _ _ H1) as (_ & _ & _ & _ & _ & _ & Hd & Hf & _).
  assert (unburied_blocks sm1 = take (bury_depth sm) (b :: unburied_blocks sm)) as Hq1.
  { destruct (process_block_extends _ _ _ _ _ Hext H1) as
      [(Hlt & old & _ & _ & _ & -> & _)|(Hle & _ & _ & ->)]; [|by rewrite take_ge].
    f_equal. cbn in *. lia. }
  rewrite H1. cbn [mbind comp_bind].
  assert (take (bury_depth sm) (rev bs ++ unburied_blocks sm1)
    = take (bury_depth sm) (rev (b :: bs) ++ unburied_blocks sm)) as Ht.
  { rewrite Hq1. cbn [rev]. rewrite <- app_assoc. cbn [app].
    rewrite !take_app, take_take. do 2 f_equal. lia. }
  destruct (IH sm1) as (sm2 & outs & H2 & Hq2 & Hd2 & Hf2).
  - rewrite Hq1. cbn [rev] in Hl. rewrite <- app_assoc in Hl.
    replace (rev bs ++ take (bury_depth sm) (b :: unburied_blocks sm))
      with (take (length (rev bs) + bury_depth sm) (rev bs ++ [b] ++ unburied_blocks sm)).
    + by apply linked_take.
    + rewrite take_app_add. done.
  - rewrite Hd. cbn in Hbs. lia.
  - rewrite Hd, Hq1, length_take. lia.
  - rewrite H2. exists sm2, ((diff, be) :: outs). rewrite Hq2, Hd2, Hf2, Hd, Hf, Ht. done.
Qed.

End runs.

(** ** Interleavings *)

Section interleavings.
Context `{BitcoinLib, BuildProfile}.

(** The tracked transactions after mining: those of the block, and the ones tracked before. *)
Lemma mine_txs_lookup b m diff txs m' diff' txid :
  foldlM (mine_tx b) (m, diff) txs = Val (m', diff') →
  if decide (txid ∈ compute_txid <$> txs)
  then ∃ r, m' !! txid = Some (Some (mkTxLifecycle r (Some (block_height b, block_hash b))))
  else m' !! txid = m !! txid.
Proof.
  revert m diff. induction txs as [|tx txs IH]; intros m diff; cbn [foldlM].
  { intros [= <- <-]. by rewrite decide_False by set_solver. }
  intros ([m1 d1] & (_ & r & -> & _)%mine_tx_Val & H2)%comp_bind_Val.
  apply IH in H2. rewrite fmap_cons. destruct (decide (txid ∈ compute_txid <$> txs)).
  { by rewrite decide_True by (by right). }
  rewrite H2. destruct (decide (txid = compute_txid tx)) as [->|Hne].
  - rewrite decide_True by left. rewrite lookup_insert_eq. eauto.
  - rewrite decide_False by (apply not_elem_of_cons; done). by rewrite lookup_insert_ne.
Qed.

(** The raw data of a transaction that was not tracked is the block's. *)
Lemma mine_txs_fresh b m diff txs m' diff' tx :
  foldlM (mine_tx b) (m, diff) txs = Val (m', diff') → NoDup (compute_txid <$> txs) →
  tx ∈ txs → m !! compute_txid tx = None →
  m' !! compute_txid tx = Some (Some (mkTxLifecycle tx (Some (block_height b, block_hash b)))).
Proof.
  revert m diff. induction txs as [|x txs IH]; intros m diff; [by intros _ _ ?%elem_of_nil|].
  rewrite fmap_cons. cbn [foldlM]. intros ([m1 d1] & H1 & H2)%comp_bind_Val.
  intros [Hni Hnd]%NoDup_cons Hin Hfresh. pose proof H1 as (_ & r & -> & Hr)%mine_tx_Val.
  apply elem_of_cons in Hin as [->|Hin].
  - apply (mine_txs_lookup _ _ _ _ _ _ (compute_txid x)) in H2.
    rewrite decide_False in H2 by done. rewrite H2, lookup_insert_eq.
    destruct Hr as [->|(lc & ? & _)]; [done|congruence].
  - eapply IH; [done..|]. rewrite lookup_insert_ne; [done|]. intros E. apply Hni.
    rewrite E. apply list_elem_of_fmap. eauto.
Qed.

(** Receiving the raw transaction before the block that contains it changes nothing. *)
Lemma mine_txs_seen b m diff txs tx :
  NoDup (compute_txid <$> txs) → tx ∈ txs → m !! compute_txid tx = None →
  foldlM (mine_tx b) (<[compute_txid tx := Some (mkTxLifecycle tx None)]> m, diff) txs
  = foldlM (mine_tx b) (m, diff) txs.
Proof.
  revert m diff. induction txs as [|x txs IH]; intros m diff; [by intros _ ?%elem_of_nil|].
  rewrite fmap_cons. intros [Hni Hnd]%NoDup_cons Hin Hfresh. cbn [foldlM].
  apply elem_of_cons in Hin as [->|Hin].
  - unfold mine_tx at 2 4. rewrite lookup_insert_eq, Hfresh. cbn.
    by rewrite insert_insert_eq.
  - assert (compute_txid tx ≠ compute_txid x) as Hne.
    { intros E. apply Hni. rewrite <- E. apply list_elem_of_fmap. eauto. }
    unfold mine_tx at 2 4. rewrite lookup_insert_ne by done.
    destruct (m !! compute_txid x) as [[lc|]|] eqn:E; cbn.
    + destruct (block lc) as [[h bh]|]; cbn.
      * destruct (debug_assert (bool_decide (x = raw lc))); cbn; [|done].
        destruct (debug_assert (bool_decide (bh ≠ block_hash b))); cbn; [|done].
        rewrite insert_insert_ne by done. apply IH; [done..|]. by rewrite lookup_insert_ne.
      * rewrite insert_insert_ne by done. apply IH; [done..|]. by rewrite lookup_insert_ne.
    + rewrite insert_insert_ne by done. apply IH; [done..|]. by rewrite lookup_insert_ne.
    + rewrite insert_insert_ne by done. apply IH; [done..|]. by rewrite lookup_insert_ne.
Qed.

Lemma disconnect_diff_elem bh m e :
  e ∈ disconnect_diff bh m ↔
  ∃ txid r h, m !! txid = Some (Some (mkTxLifecycle r (Some (h, bh)))) ∧ e = mkTxEvent r Unknown.
Proof.
  unfold disconnect_diff. rewrite list_elem_of_omap. split.
  - intros ([k v] & Hin%elem_of_bt_iter & He). cbn in He.
    destruct v as [[r [[h blk]|]]|]; cbn in He; try done.
    case_bool_decide; [|done]. injection He as <-. subst. eauto.
  - intros (txid & r & h & Hl & ->). exists (txid, Some (mkTxLifecycle r (Some (h, bh)))).
    rewrite elem_of_bt_iter. split; [done|]. cbn. by rewrite bool_decide_eq_true_2.
Qed.

Lemma bound_to_true bh v :
  bound_to bh v = true ↔ ∃ r h, v = Some (mkTxLifecycle r (Some (h, bh))).
Proof.
  split.
  - destruct v as [[r [[h blk]|]]|]; cbn; try done. intros ?%bool_decide_eq_true. subst. eauto.
  - intros (r & h & ->). cbn. by apply bool_decide_eq_true_2.
Qed.

(** Disconnecting the block just mined forgets exactly its transactions. *)
Lemma disconnect_mined b m txs m' diff' :
  foldlM (mine_tx b) (m, []) txs = Val (m', diff') →
  (∀ tx, tx ∈ txs → m !! compute_txid tx = None) →
  (∀ txid v, m !! txid = Some v → bound_to (block_hash b) v = false) →
  disconnect_lifecycles (block_hash b) m' = m.
Proof.
  intros Hm Hfresh Hunb. apply map_eq. intros txid.
  apply (mine_txs_lookup _ _ _ _ _ _ txid) in Hm. unfold disconnect_lifecycles.
  case_decide as Hin.
  - apply list_elem_of_fmap in Hin as (tx & -> & Hin). rewrite Hfresh by done.
    apply map_lookup_filter_None_2. right. intros v Hv Hb. destruct Hm as [r Hr]. simplify_eq.
    cbn in Hb. by rewrite bool_decide_eq_true_2 in Hb.
  - apply option_eq. intros v. rewrite map_lookup_filter_Some, Hm. cbn. naive_solver.
Qed.

End interleavings.

(** ** Properties *)

Section properties.
Context `{BitcoinLib, BuildProfile}.

(** Whatever order the messages of the three streams arrive in, and whenever filters are
    added, every event a run emits is about a transaction that matches a filter, and every
    tracked transaction is filed under its own txid. *)
Theorem only_matched_events bury_depth queue inputs sm' evs :
  zmq_run (init bury_depth queue) inputs = Val (sm', evs) →
  tracked_wf sm' ∧ Forall (λ e, matches (tx_filters sm') (rawtx e) = true) evs.
Proof.
  intros (Hwf & Hm & _)%zmq_run_tracked; [done|]. intros t lc. cbn. by rewrite lookup_empty.
Qed.

(** [process_block] on a block that extends the tip and respects the node's guarantees
    returns, in every build; it reports exactly the matching transactions of the block as mined,
    in block order, and, when the queue exceeds the bury depth, the oldest block as buried
    together with exactly its matching transactions, which it then forgets. *)
Theorem process_block_spec sm b :
  block_ok sm b →
  let queue := b :: unburied_blocks sm in
  ∃ sm' diff be, process_block sm b = Val (sm', (diff, be)) ∧
    ((bury_depth sm < length queue ∧ ∃ old, last queue = Some old ∧
       diff = mined_events (tx_filters sm) b ++ buried_events (tx_filters sm) old ∧
       be = Some (mkBlockEvent old BlockBuried) ∧
       unburied_blocks sm' = take (length queue - 1) queue ∧
       ∀ tx, tx ∈ txdata old → tx_lifecycles sm' !! compute_txid tx = None) ∨
     (length queue ≤ bury_depth sm ∧ diff = mined_events (tx_filters sm) b ∧ be = None ∧
       unburied_blocks sm' = queue)).
Proof.
  intros Hok. destruct (process_block_ok_total sm b Hok) as (sm' & diff & be & Hp).
  exists sm', diff, be. split; [done|]. apply process_block_extends; [apply Hok|done].
Qed.

(** The queue of unburied blocks is a chain of at most [bury_depth] blocks, each the parent
    of the one before it: every message, in any build, also one with a block that does not
    extend the tip, preserves this. *)
Theorem queue_invariant sm i sm' out :
  queue_wf sm → zmq_step sm i = Val (sm', out) → queue_wf sm'.
Proof.
  intros Hwf. destruct i as [b|tx|seq|pred]; cbn [zmq_step].
  - by apply process_block_queue_wf.
  - unfold process_tx. intros Hp. branches; done.
  - by apply process_sequence_queue_wf.
  - by intros [= <- <-].
Qed.

Lemma process_blocks_snoc sm bs c sm1 outs sm2 out :
  process_blocks sm bs = Val (sm1, outs) → process_block sm1 c = Val (sm2, out) →
  process_blocks sm (bs ++ [c]) = Val (sm2, outs ++ [out]).
Proof.
  revert sm outs. induction bs as [|b bs IH]; intros sm outs; cbn [process_blocks app].
  { intros [= <- <-] Hc. by rewrite Hc. }
  intros ([sm' o] & H1 & ([sm'' os] & H2 & [= <- <-])%comp_bind_Val)%comp_bind_Val Hc.
  rewrite H1. cbn [mbind comp_bind]. by rewrite (IH _ _ H2 Hc).
Qed.

(** A block is buried exactly when [bury_depth] blocks have been built on top of it: in a
    release build, feeding a block and then [bury_depth] blocks that build on each other always
    returns, and the last of these steps reports that block, and its matching transactions, as
    buried. *)
Theorem block_buried_after_depth sm b bs :
  debug_assertions = false → queue_wf sm → linked (rev (b :: bs) ++ unburied_blocks sm) →
  length bs = bury_depth sm →
  ∃ sm' outs diff, process_blocks sm (b :: bs)
      = Val (sm', outs ++ [(diff, Some (mkBlockEvent b BlockBuried))]) ∧
    buried_events (tx_filters sm) b `suffix_of` diff.
Proof.
  intros Hrel [_ Hq] Hl Hlen.
  destruct (exists_last (l := b :: bs)) as (front & c & Hfront); [done|].
  assert (c :: rev front = rev bs ++ [b]) as Hrev.
  { change (rev bs ++ [b]) with (rev (b :: bs)). by rewrite Hfront, rev_app_distr. }
  rewrite Hfront in Hl. rewrite Hfront.
  assert (length front = bury_depth sm) as Hfl.
  { apply (f_equal length) in Hfront. rewrite length_app in Hfront. cbn in Hfront. lia. }
  rewrite rev_app_distr in Hl. cbn [rev app] in Hl. destruct Hl as [Hc Hl].
  destruct (process_blocks_queue sm front) as (sm1 & outs & H1 & Hq1 & Hd1 & Hf1);
    [done|done|lia|done|].
  rewrite take_app_length' in Hq1 by (rewrite length_rev; lia).
  destruct (process_block_release_total sm1 c Hrel) as (sm2 & diff & be & H2).
  assert (extends sm1 c = true) as Hext.
  { unfold extends. rewrite Hq1. destruct (rev front); [done|]. by apply bool_decide_eq_true. }
  destruct (process_block_extends _ _ _ _ _ Hext H2) as
    [(Hlt & old & Hold & Hdiff & -> & _)|(Hle & _)].
  2: { exfalso. rewrite Hq1, Hd1 in Hle. cbn in Hle. rewrite length_rev in Hle. lia. }
  assert (old = b) as ->.
  { rewrite Hq1, Hrev, last_snoc in Hold. congruence. }
  exists sm2, outs, diff. split; [by eapply process_blocks_snoc|].
  rewrite Hdiff, Hf1. by eexists.
Qed.

(** A reorganisation is undone exactly: disconnecting the block that was just connected
    restores the state, when none of its transactions was tracked before and no burial
    happened, and reports exactly its matching transactions as unknown and the block as
    uncled. *)
Theorem disconnect_inverts_connect sm b :
  block_ok sm b → length (unburied_blocks sm) < bury_depth sm →
  (∀ tx, tx ∈ txdata b → tx_lifecycles sm !! compute_txid tx = None) →
  (∀ txid v, tx_lifecycles sm !! txid = Some v → bound_to (block_hash b) v = false) →
  ∃ sm1 diff, process_block sm b = Val (sm1, (mined_events (tx_filters sm) b, None)) ∧
    process_sequence sm1 (BlockDisconnect (block_hash b))
      = Val (sm, (diff, Some (mkBlockEvent b BlockUncled))) ∧
    ∀ e, e ∈ diff ↔ ∃ tx, tx ∈ txdata b ∧ matches (tx_filters sm) tx = true ∧
      e = mkTxEvent tx Unknown.
Proof.
  intros Hok Hlen Hfresh Hunb. destruct (process_block_ok_total sm b Hok) as (sm1 & d & be & Hp).
  destruct Hok as (Hext & Hnd & _).
  pose proof Hp as (queue & tip & m & Hq & Ht & Hm & Hd & Hf & Hcase)%process_block_inv.
  rewrite push_block_extends in Hq by done. injection Hq as <-. injection Ht as <-.
  destruct Hcase as [[Hlt _]|(_ & -> & -> & Hq1 & Hl1)]; [cbn in Hlt; lia|].
  exists sm1, (disconnect_diff (block_hash b) m). split; [done|].
  assert (disconnect_lifecycles (block_hash b) m = tx_lifecycles sm) as Hdl.
  { eapply disconnect_mined; [done| |done]. intros tx [Hin _]%elem_of_filterb. by apply Hfresh. }
  split.
  - unfold process_sequence. rewrite Hq1, bool_decide_eq_true_2 by done. cbn [mbind comp_bind].
    rewrite Hd, Hf, Hl1, Hdl. by destruct sm.
  - intros e. rewrite disconnect_diff_elem. split.
    + intros (txid & r & h & Hr & ->). pose proof (mine_txs_lookup _ _ _ _ _ _ txid Hm) as Hlk.
      case_decide as Hin.
      * apply list_elem_of_fmap in Hin as (tx & -> & Hin). exists tx.
        pose proof Hin as [Hin' Hmt]%elem_of_filterb. split_and!; [done..|].
        erewrite mine_txs_fresh in Hr by eauto. by injection Hr as <- _.
      * rewrite Hlk in Hr. apply Hunb in Hr. cbn in Hr. by rewrite bool_decide_eq_true_2 in Hr.
    + intros (tx & Hin & Hmt & ->). exists (compute_txid tx), tx, (block_height b).
      split; [|done]. eapply mine_txs_fresh; [done|done| |by apply Hfresh].
      apply elem_of_filterb. done.
Qed.

(** The race between the mempool-acceptance message and the raw transaction is harmless:
    for a transaction we do not track, both orders lead to the same state and to the same
    events, one mempool event when the transaction matches and none otherwise; a mempool
    removal afterwards restores the original state. *)
Theorem mempool_order_independent sm tx :
  tx_lifecycles sm !! compute_txid tx = None →
  let accept := Sequence (MempoolAcceptance (compute_txid tx)) in
  let evs st := if matches (tx_filters sm) tx then [mkTxEvent tx st] else [] in
  ∃ sm', zmq_run sm [accept; RawTx tx] = Val (sm', evs Mempool) ∧
    zmq_run sm [RawTx tx; accept] = Val (sm', evs Mempool) ∧
    zmq_run sm' [Sequence (MempoolRemoval (compute_txid tx))] = Val (sm, evs Unknown).
Proof.
  intros Hn. destruct sm as [d fs m q]. cbn in *.
  unfold process_tx, process_sequence, set_lifecycles. cbn.
  destruct (matches fs tx) eqn:Em; cbn; rewrite Hn; cbn; rewrite ?lookup_insert_eq; cbn.
  - rewrite Em. cbn. rewrite insert_insert_eq. eexists. split_and!; [done..|]. cbn.
    rewrite lookup_insert_eq. cbn. by rewrite delete_insert_eq, delete_id.
  - rewrite Em. cbn. eexists. split_and!; [done..|]. cbn. rewrite lookup_insert_eq. cbn.
    by rewrite delete_insert_eq, delete_id.
Qed.

(** Receiving the raw data of a transaction before the block that includes it makes no
    difference: the state and the events after the block are those of the block alone. *)
Theorem rawtx_before_block sm b tx :
  extends sm b = true → NoDup (compute_txid <$> List.filter (matches (tx_filters sm)) (txdata b)) →
  tx ∈ txdata b → tx_lifecycles sm !! compute_txid tx = None →
  zmq_run sm [RawTx tx; RawBlock b] = zmq_run sm [RawBlock b].
Proof.
  intros Hext Hnd Hin Hn. cbn [zmq_run zmq_step]. unfold process_tx.
  destruct (matches (tx_filters sm) tx) eqn:Em; cbn [negb].
  2: { cbn [mbind comp_bind fst app]. by destruct (process_block sm b) as [[? ?]|]. }
  rewrite Hn. cbn [mbind comp_bind fst app].
  enough (process_block (set_lifecycles sm
      (<[compute_txid tx := Some (mkTxLifecycle tx None)]> (tx_lifecycles sm))) b
    = process_block sm b) as -> by (by destruct (process_block sm b) as [[? ?]|]).
  unfold process_block. cbn [tx_lifecycles tx_filters bury_depth unburied_blocks set_lifecycles].
  rewrite push_block_extends by done. cbn [mbind comp_bind expect head].
  rewrite mine_txs_seen; [done|done| |done]. by apply elem_of_filterb.
Qed.

Lemma swap_remove_last {A} (l : list A) x : swap_remove (l ++ [x]) (length l) = l.
Proof.
  unfold swap_remove. rewrite last_snoc, length_app. cbn [length].
  rewrite Nat.add_sub, list_insert_id by (by rewrite list_lookup_middle). apply take_app_length.
Qed.

(** Removing a filter that was just added gives back a state equal to the original one,
    under the comparison of filters by pointer that the state machine uses, also when the same
    predicate had been registered before. *)
Theorem rm_filter_inverts_add_filter sm pred : sm_eq (rm_filter (add_filter sm pred) pred) sm.
Proof.
  unfold rm_filter, sm_eq. cbn [tx_filters add_filter bury_depth tx_lifecycles unburied_blocks].
  destruct (list_find _ _) as [[i p]|] eqn:E.
  2: { exfalso. apply list_find_None in E. apply Forall_app in E as [_ E].
       by inversion_clear E. }
  cbn. split_and!; [|done..]. pose proof E as (Hl & Hp & _)%list_find_Some.
  apply lookup_app_Some in Hl as [Hl|[Hge Hl]].
  - pose proof (lookup_lt_Some _ _ _ Hl) as Hi. unfold swap_remove.
    rewrite last_snoc, length_app. cbn [length].
    rewrite Nat.add_sub, insert_app_l by done.
    rewrite take_app_length' by (by rewrite length_insert).
    rewrite list_fmap_insert. apply list_insert_id. by rewrite list_lookup_fmap, Hl, <- Hp.
  - apply list_lookup_singleton_Some in Hl as [Hi ->].
    assert (i = length (tx_filters sm)) as -> by lia. by rewrite swap_remove_last.
Qed.

(** In a release build a block that does not extend the tip is dropped, and the matching
    transactions of the old tip are reported as mined a second time, although a mined status is
    documented to be received once per transaction per block. *)
Theorem unlinked_block_replays_tip sm tip queue b :
  debug_assertions = false → unburied_blocks sm = tip :: queue →
  length (unburied_blocks sm) ≤ bury_depth sm → prev_blockhash b ≠ block_hash tip →
  ∃ sm', process_block sm b = Val (sm', (mined_events (tx_filters sm) tip, None)) ∧
    unburied_blocks sm' = unburied_blocks sm.
Proof.
  intros Hrel Hq Hlen Hne. destruct (process_block_release_total sm b Hrel) as (sm' & d & be & Hp).
  exists sm'. pose proof Hp as (q & t & m & Hpush & Ht & _ & _ & _ & Hcase)%process_block_inv.
  rewrite Hq in Hpush. cbn in Hpush. rewrite bool_decide_eq_false_2 in Hpush by done.
  rewrite debug_assert_release in Hpush by done. injection Hpush as <-. injection Ht as <-.
  destruct Hcase as [[Hlt _]|(_ & -> & -> & -> & _)]; [rewrite Hq in Hlen; lia|]. by rewrite Hq.
Qed.

End properties.

(** ** Witnesses *)

Lemma only_matched_events_witness :
  let lib := example_lib in let profile : BuildProfile := true in
  ∃ sm' evs, zmq_run (init 2 [])
    [AddFilter even_filter; Sequence (MempoolAcceptance 10%N); RawBlock (example_block 1);
     RawBlock (example_block 2); RawBlock (example_block 3)] = Val (sm', evs) ∧
    evs = [mkTxEvent (example_tx 10) (Mined 1%N 1%N); mkTxEvent (example_tx 20) (Mined 2%N 2%N);
           mkTxEvent (example_tx 30) (Mined 3%N 3%N); mkTxEvent (example_tx 10) (Buried 1%N 1%N)] ∧
    Forall (λ e, matches (tx_filters sm') (rawtx e) = true) evs.
Proof.
  intros lib profile. do 2 eexists. split; [vm_compute; reflexivity|].
  split; [vm_compute; reflexivity|].
  eapply (only_matched_events 2 []
    [AddFilter even_filter; Sequence (MempoolAcceptance 10%N); RawBlock (example_block 1);
     RawBlock (example_block 2); RawBlock (example_block 3)]).
  vm_compute. reflexivity.
Defined.

Lemma process_block_spec_witness :
  let lib := example_lib in let profile : BuildProfile := true in
  ∃ sm' diff be, process_block (example_sm [example_block 2; example_block 1]) (example_block 3)
    = Val (sm', (diff, be)).
Proof.
  intros lib profile.
  destruct (process_block_spec (example_sm [example_block 2; example_block 1]) (example_block 3))
    as (sm' & diff & be & Hp & _).
  - split_and!; [reflexivity|vm_compute; repeat constructor; set_solver|done].
  - eauto.
Defined.

Lemma queue_invariant_witness :
  let lib := example_lib in let profile : BuildProfile := false in
  queue_wf (example_sm [example_block 3; example_block 2]).
Proof.
  intros lib profile.
  eapply (queue_invariant (mkBtcZmqSM 2 [even_filter] ∅ [example_block 2]) (RawBlock (example_block 3))
    (mkBtcZmqSM 2 [even_filter] {[30%N := Some (mkTxLifecycle (example_tx 30) (Some (3, 3)%N))]}
       [example_block 3; example_block 2]));
    [split; [repeat split|cbn; lia]|vm_compute; reflexivity].
Defined.

Lemma block_buried_after_depth_witness :
  let lib := example_lib in let profile : BuildProfile := false in
  ∃ sm' outs diff, process_blocks (example_sm [example_block 4])
      [example_block 5; example_block 6; example_block 7]
      = Val (sm', outs ++ [(diff, Some (mkBlockEvent (example_block 5) BlockBuried))]).
Proof.
  intros lib profile.
  destruct (block_buried_after_depth (example_sm [example_block 4]) (example_block 5)
    [example_block 6; example_block 7]) as (sm' & outs & diff & Hp & _);
    [reflexivity|split; [repeat split|cbn; lia]|repeat split|reflexivity|]. eauto.
Defined.

Lemma disconnect_inverts_connect_witness :
  let lib := example_lib in let profile : BuildProfile := true in
  ∃ sm1 diff, process_sequence sm1 (BlockDisconnect 5%N)
    = Val (example_sm [example_block 4],
           (diff, Some (mkBlockEvent (example_block 5) BlockUncled))).
Proof.
  intros lib profile.
  destruct (disconnect_inverts_connect (example_sm [example_block 4]) (example_block 5))
    as (sm1 & diff & _ & Hd & _).
  - split_and!; [reflexivity|vm_compute; repeat constructor; set_solver|done].
  - cbn. lia.
  - done.
  - done.
  - exists sm1, diff. exact Hd.
Defined.

Lemma mempool_order_independent_witness :
  let lib := example_lib in let profile : BuildProfile := true in
  ∃ sm', zmq_run (example_sm []) [Sequence (MempoolAcceptance 10%N); RawTx (example_tx 10)]
    = Val (sm', [mkTxEvent (example_tx 10) Mempool]).
Proof.
  intros lib profile. destruct (mempool_order_independent (example_sm []) (example_tx 10))
    as (sm' & H1 & _); [reflexivity|]. exists sm'. exact H1.
Defined.

Lemma rawtx_before_block_witness :
  let lib := example_lib in let profile : BuildProfile := true in
  zmq_run (example_sm [example_block 4]) [RawTx (example_tx 50); RawBlock (example_block 5)]
  = zmq_run (example_sm [example_block 4]) [RawBlock (example_block 5)].
Proof.
  intros lib profile. apply (rawtx_before_block (example_sm [example_block 4]));
    [reflexivity|vm_compute; repeat constructor; set_solver|left|reflexivity].
Defined.

Lemma unlinked_block_replays_tip_witness :
  let lib := example_lib in let profile : BuildProfile := false in
  ∃ sm', process_block (example_sm [example_block 4]) (example_block 6)
    = Val (sm', ([mkTxEvent (example_tx 40) (Mined 4%N 4%N)], None)).
Proof.
  intros lib profile. destruct (unlinked_block_replays_tip (example_sm [example_block 4])
    (example_block 4) [] (example_block 6)) as (sm' & Hp & _);
    [reflexivity|reflexivity|cbn; lia|done|]. exists sm'. exact Hp.
Defined.
