(* ===== verification/TxDriver.v ===== *)
(** * The transaction driver ([duty-tracker/src/tx_driver.rs])

    The driver takes signed transactions, publishes them, and answers the caller once the
    transaction has reached the status the caller waits for.  [driver_step] is one turn of its
    event loop; what the RPC client of the Bitcoin node answers in that turn is part of the
    event.

    The theorems: the heap of jobs is a monoid; in every history each submitted job is either
    pending or has been answered, and no job twice; it is answered with success exactly on the
    first status that satisfies its condition. *)

From S2P Require Import Prelude Bitcoin Algebra BtcNotify.

Inductive DriveErr := DriverAborted | PublishFailed.

(** The channel on which the caller waits is a number. *)
Record TxDriveJob := mkTxDriveJob {
  job_tx : Transaction;
  condition : TxStatus → bool;
  respond_on : nat;
}.

Abbreviation TxSubscriberSet := (list ((TxStatus → bool) * nat)) (only parsing).
Abbreviation TxJobHeap := (gmap N TxSubscriberSet) (only parsing).

(** [merge] goes through the second heap and extends the first. *)
Definition heap_add (a : TxJobHeap) (kv : Txid * TxSubscriberSet) : TxJobHeap :=
  match a !! kv.1 with
  | Some responders => <[kv.1 := responders ++ kv.2]> a
  | None => <[kv.1 := kv.2]> a
  end.
#[global] Instance TxJobHeap_semigroup : Semigroup TxJobHeap := λ a b, foldl heap_add a (bt_iter b).
#[global] Instance TxJobHeap_monoid : Monoid TxJobHeap := (∅ : BTreeMap Txid TxSubscriberSet).

Definition heap_of_job `{BitcoinLib} (job : TxDriveJob) : TxJobHeap :=
  {[compute_txid (job_tx job) := [(condition job, respond_on job)]]}.

(** The filters of the subscriptions are equality with a transaction. *)
Record TxDriver := mkTxDriver {
  active_tx_subs : list Transaction;
  active_jobs : TxJobHeap;
}.
Definition TxDriver_new : TxDriver := mkTxDriver [] ∅.

(** What the node knows of a transaction ([get_raw_transaction_verbosity_one]), with the height of
    its block, 0 if that cannot be found out. *)
Record TxData := mkTxData {
  confirmations : option N;
  tx_blockhash : option BlockHash;
  tx_block_height : N;
}.

Inductive DriverEvent :=
| NewJob (job : TxDriveJob) (tx_data : option TxData) (published : bool)
| TxNotice (event : TxEvent)
| NewBlockEvent.

Definition responses : Type := list (nat * result DriveErr unit).

Section driver.
Context `{BitcoinLib}.
Variable bury_depth : N.

(** [expect("must be present if confirmed")]. *)
Definition status_of (tx_data : TxData) : comp TxStatus :=
  let num_confirmations := default 0%N (confirmations tx_data) in
  if (num_confirmations =? 0)%N then Val Mempool
  else
    blockhash ← expect (tx_blockhash tx_data);
    if (num_confirmations <? bury_depth)%N then Val (Mined blockhash (tx_block_height tx_data))
    else Val (Buried blockhash (tx_block_height tx_data)).

Definition add_job (job : TxDriveJob) (d : TxDriver) : TxDriver :=
  mkTxDriver (active_tx_subs d ++ [job_tx job]) (merge (active_jobs d) (heap_of_job job)).

Definition new_job (job : TxDriveJob) (tx_data : option TxData) (published : bool) (d : TxDriver)
    : comp (TxDriver * responses) :=
  match tx_data with
  | Some tx_data =>
      tx_status ← status_of tx_data;
      if condition job tx_status then Val (d, [(respond_on job, Ok tt)]) else Val (add_job job d, [])
  | None =>
      if published then Val (add_job job d, [])
      else Val (d, [(respond_on job, Err PublishFailed)])
  end.

(** The listeners whose condition holds are answered, the others are kept. *)
Definition notify (txid : Txid) (status : TxStatus) (d : TxDriver) : TxDriver * responses :=
  let listeners := default [] (active_jobs d !! txid) in
  let remaining := delete txid (active_jobs d) in
  let leftovers := concat (omap (λ '(condition, response),
    if (condition : TxStatus → bool) status then None
    else Some ({[txid := [(condition, response)]]} : TxJobHeap)) listeners) in
  (mkTxDriver (active_tx_subs d) (merge remaining leftovers),
   omap (λ '(condition, response),
     if (condition : TxStatus → bool) status then Some (response, Ok tt) else None) listeners).

(** An evicted transaction is published again, which has no effect on the jobs. *)
Definition driver_step (e : DriverEvent) (d : TxDriver) : comp (TxDriver * responses) :=
  match e with
  | NewJob job tx_data published => new_job job tx_data published d
  | TxNotice event =>
      match status event with
      | Unknown => Val (d, [])
      | s => Val (notify (compute_txid (rawtx event)) s d)
      end
  | NewBlockEvent => Val (d, [])
  end.

Fixpoint driver_run (es : list DriverEvent) (d : TxDriver) : comp (TxDriver * responses) :=
  match es with
  | [] => Val (d, [])
  | e :: es =>
      '(d, r1) ← driver_step e d;
      '(d, r2) ← driver_run es d;
      Val (d, r1 ++ r2)
  end.

(** ** Specifications *)

Definition submitted (es : list DriverEvent) : list nat :=
  omap (λ e, match e with NewJob job _ _ => Some (respond_on job) | _ => None end) es.
Definition heap_ids (a : TxJobHeap) : list nat := (map_to_list a).*2 ≫= λ l, l.*2.
Definition pending (d : TxDriver) : list nat := heap_ids (active_jobs d).
Definition jobs_of (d : TxDriver) (txid : Txid) : TxSubscriberSet := default [] (active_jobs d !! txid).

(** ** Lemmas *)

Lemma heap_adds_lookup (l : list (Txid * TxSubscriberSet)) (a : TxJobHeap) k :
  NoDup l.*1 →
  foldl heap_add a l !! k = union_with (λ x y, Some (x ++ y)) (a !! k) ((list_to_map l : TxJobHeap) !! k).
Proof.
  revert a. induction l as [|[k' v] l IH]; intros a Hnd; cbn.
  - rewrite lookup_empty. by destruct (a !! k).
  - cbn in Hnd. apply NoDup_cons in Hnd as [Hk Hnd]. rewrite IH by done. unfold heap_add. cbn [fst snd].
    destruct (decide (k = k')) as [->|Hne].
    + rewrite (not_elem_of_list_to_map_1 l k'), lookup_insert_eq by done.
      destruct (a !! k') as [r|] eqn:E; by rewrite lookup_insert_eq.
    + rewrite lookup_insert_ne by done. f_equal. destruct (a !! k'); by rewrite lookup_insert_ne.
Qed.

Lemma heap_merge_lookup (a b : TxJobHeap) k :
  (merge a b : TxJobHeap) !! k = union_with (λ x y, Some (x ++ y)) (a !! k) (b !! k).
Proof.
  unfold merge, TxJobHeap_semigroup. rewrite heap_adds_lookup by apply NoDup_bt_keys.
  f_equal. rewrite <- (list_to_map_to_list b) at 2. f_equal.
  apply list_to_map_proper; [apply NoDup_bt_keys|apply bt_iter_perm].
Qed.

#[global] Instance TxJobHeap_laws : MonoidLaws TxJobHeap.
Proof.
  split.
  - intros a b c. apply map_eq. intros k. rewrite !heap_merge_lookup.
    destruct (a !! k), (b !! k), (c !! k); cbn; try done. by rewrite app_assoc.
  - intros a. apply map_eq. intros k. rewrite heap_merge_lookup.
    change (empty_value !! k) with ((∅ : TxJobHeap) !! k). rewrite lookup_empty. by destruct (a !! k).
  - intros a. apply map_eq. intros k. rewrite heap_merge_lookup.
    change (empty_value !! k) with ((∅ : TxJobHeap) !! k). rewrite lookup_empty. by destruct (a !! k).
Qed.

Lemma heap_ids_insert (a : TxJobHeap) k l : heap_ids (<[k := l]> a) ≡ₚ l.*2 ++ heap_ids (delete k a).
Proof.
  unfold heap_ids. rewrite <- insert_delete_eq, map_to_list_insert by apply lookup_delete_eq. done.
Qed.

Lemma heap_ids_lookup (a : TxJobHeap) k :
  heap_ids a ≡ₚ (default [] (a !! k)).*2 ++ heap_ids (delete k a).
Proof.
  destruct (a !! k) as [l|] eqn:E; cbn; [|by rewrite delete_id].
  rewrite <- (insert_id a k l E) at 1. apply heap_ids_insert.
Qed.

Lemma heap_ids_add (a : TxJobHeap) kv : heap_ids (heap_add a kv) ≡ₚ heap_ids a ++ kv.2.*2.
Proof.
  destruct kv as [k v]. unfold heap_add. cbn [fst snd]. rewrite (heap_ids_lookup a k).
  destruct (a !! k) as [l|]; rewrite heap_ids_insert; cbn [default].
  - change (id l) with l. rewrite fmap_app, <- !app_assoc. apply Permutation_app_head, Permutation_app_comm.
  - cbn. apply Permutation_app_comm.
Qed.

Lemma heap_ids_merge (a b : TxJobHeap) : heap_ids (merge a b) ≡ₚ heap_ids a ++ heap_ids b.
Proof.
  unfold merge, TxJobHeap_semigroup, heap_ids at 3. rewrite <- bt_iter_perm.
  generalize (bt_iter b). intros l. revert a. induction l as [|kv l IH]; intros a; cbn.
  - by rewrite app_nil_r.
  - rewrite IH, heap_ids_add. by rewrite <- app_assoc.
Qed.

(** The heap of the listeners of one transaction. *)
Definition heap_at (txid : Txid) (ls : TxSubscriberSet) : TxJobHeap :=
  match ls with [] => ∅ | _ => {[txid := ls]} end.

(** The listeners that are kept are put back under their txid, in order. *)
Lemma leftovers_lookup (ls : TxSubscriberSet) txid :
  (concat ((λ cr, {[txid := [cr]]} : TxJobHeap) <$> ls) : TxJobHeap)
  = heap_at txid ls.
Proof.
  unfold concat. change (empty_value : TxJobHeap) with (∅ : TxJobHeap).
  assert (∀ (ls acc : TxSubscriberSet), acc ≠ [] →
    foldl merge ({[txid := acc]} : TxJobHeap) ((λ cr, {[txid := [cr]]} : TxJobHeap) <$> ls)
    = {[txid := acc ++ ls]}) as Hgen.
  { clear ls. intros ls. induction ls as [|cr ls IH]; intros acc Hacc; cbn [fmap list_fmap foldl]; [by rewrite app_nil_r|].
    replace (merge {[txid := acc]} {[txid := [cr]]}) with ({[txid := acc ++ [cr]]} : TxJobHeap).
    - rewrite IH by by destruct acc. by rewrite <- app_assoc.
    - apply map_eq. intros k. rewrite heap_merge_lookup. destruct (decide (k = txid)) as [->|].
      + by rewrite !lookup_singleton_eq.
      + by rewrite !lookup_singleton_ne. }
  destruct ls as [|cr ls]; [done|]. cbn [fmap list_fmap foldl].
  change (merge ∅ {[txid := [cr]]}) with (merge (empty_value : TxJobHeap) {[txid := [cr]]}).
  rewrite merge_empty_l. by apply (Hgen ls [cr]).
Qed.

Definition kept (s : TxStatus) (ls : TxSubscriberSet) : TxSubscriberSet :=
  List.filter (λ cr, negb (cr.1 s)) ls.
Definition answered (s : TxStatus) (ls : TxSubscriberSet) : TxSubscriberSet :=
  List.filter (λ cr, cr.1 s) ls.

Lemma notify_eq txid s d :
  notify txid s d =
  (mkTxDriver (active_tx_subs d)
     (merge (delete txid (active_jobs d))
        (heap_at txid (kept s (jobs_of d txid)))),
   (λ cr, (cr.2, Ok tt)) <$> answered s (jobs_of d txid)).
Proof.
  unfold notify. rewrite <- leftovers_lookup. fold (jobs_of d txid). generalize (jobs_of d txid). intros ls.
  f_equal; [do 3 f_equal|]; induction ls as [|[c r] ls IH]; cbn; try done; destruct (c s); cbn; by rewrite IH.
Qed.

Lemma answered_kept s ls : (answered s ls).*2 ++ (kept s ls).*2 ≡ₚ ls.*2.
Proof.
  induction ls as [|[c r] ls IH]; cbn; [done|]. destruct (c s); cbn; [by rewrite IH|].
  by rewrite <- Permutation_middle, IH.
Qed.

Lemma notify_ids txid s d : (notify txid s d).2.*1 ++ pending (notify txid s d).1 ≡ₚ pending d.
Proof.
  rewrite notify_eq. unfold pending. cbn [fst snd active_jobs]. rewrite heap_ids_merge.
  rewrite (heap_ids_lookup (active_jobs d) txid). fold (jobs_of d txid).
  rewrite <- (answered_kept s (jobs_of d txid)), <- !app_assoc, <- list_fmap_compose.
  apply Permutation_app_head. rewrite Permutation_app_comm. apply Permutation_app_tail.
  destruct (kept s (jobs_of d txid)) as [|cr ls]; [done|].
  unfold heap_ids, heap_at. rewrite map_to_list_singleton. cbn. by rewrite app_nil_r.
Qed.

Lemma add_job_ids job d : pending (add_job job d) ≡ₚ respond_on job :: pending d.
Proof.
  unfold pending, add_job. cbn [active_jobs]. rewrite heap_ids_merge.
  unfold heap_of_job, heap_ids at 2. rewrite map_to_list_singleton. cbn.
  rewrite Permutation_app_comm. done.
Qed.

Lemma step_ids e d d' rs :
  driver_step e d = Val (d', rs) → rs.*1 ++ pending d' ≡ₚ submitted [e] ++ pending d.
Proof.
  destruct e as [job tx_data published|[tx s]|]; cbn [driver_step].
  - unfold new_job. destruct tx_data as [t|].
    + intros (st & _ & Hs)%comp_bind_Val. destruct (condition job st); injection Hs as <- <-; [done|].
      apply add_job_ids.
    + destruct published; intros [= <- <-]; [apply add_job_ids|done].
  - pose proof (notify_ids (compute_txid tx) s d) as Hn. cbn [BtcNotify.status rawtx].
    destruct s; intros [= <- <-]; [done|..]; exact Hn.
  - by intros [= <- <-].
Qed.

(** Every pending job waits for a transaction that is subscribed to. *)
Definition subscribed (d : TxDriver) : Prop :=
  ∀ txid ls, active_jobs d !! txid = Some ls → ∃ tx, tx ∈ active_tx_subs d ∧ compute_txid tx = txid.

Lemma step_subscribed e d d' rs : driver_step e d = Val (d', rs) → subscribed d → subscribed d'.
Proof.
  intros Hstep Hd.
  assert (∀ job, subscribed (add_job job d)) as Hadd.
  { intros job txid ls. cbn [active_jobs add_job active_tx_subs]. rewrite heap_merge_lookup.
    unfold heap_of_job. destruct (decide (txid = compute_txid (job_tx job))) as [->|Hne].
    - intros _. exists (job_tx job). split; [apply elem_of_app; right; by apply list_elem_of_singleton|done].
    - rewrite lookup_singleton_ne by done. destruct (active_jobs d !! txid) eqn:E; [|done].
      intros _. destruct (Hd _ _ E) as (tx & ? & ?). exists tx. split; [apply elem_of_app; by left|done]. }
  assert (∀ tx s, subscribed (notify (compute_txid tx) s d).1) as Hnot.
  { intros tx s txid ls. rewrite notify_eq. cbn [fst active_jobs active_tx_subs].
    rewrite heap_merge_lookup. destruct (decide (txid = compute_txid tx)) as [->|Hne].
    - rewrite lookup_delete_eq. unfold jobs_of. destruct (active_jobs d !! compute_txid tx) eqn:E; [eauto|].
      cbn. by rewrite lookup_empty.
    - rewrite lookup_delete_ne by done. destruct (active_jobs d !! txid) eqn:E; [eauto|].
      unfold heap_at. destruct (kept s _); [by rewrite lookup_empty|by rewrite lookup_singleton_ne]. }
  destruct e as [job tx_data published|[tx s]|]; cbn [driver_step] in Hstep.
  - unfold new_job in Hstep. destruct tx_data as [t|].
    + apply comp_bind_Val in Hstep as (st & _ & Hs).
      destruct (condition job st); injection Hs as <- <-; [done|apply Hadd].
    + destruct published; injection Hstep as <- <-; [apply Hadd|done].
  - cbn [BtcNotify.status rawtx] in Hstep. pose proof (Hnot tx s) as Hn.
    destruct s; [by injection Hstep as <- <-|..]; injection Hstep as <- <-; exact Hn.
  - by injection Hstep as <- <-.
Qed.

End driver.

(** ** Properties *)

(** C29: The driver loses no job and answers none twice.  In every history the answered and the
    pending jobs together are exactly the submitted ones, and every pending job waits for a
    transaction whose events the driver is subscribed to. *)
Theorem driver_answers_once `{BitcoinLib} bury_depth es d rs :
  driver_run bury_depth es TxDriver_new = Val (d, rs) →
  rs.*1 ++ pending d ≡ₚ submitted es ∧ subscribed d.
Proof.
  assert (∀ d0, driver_run bury_depth es d0 = Val (d, rs) →
    rs.*1 ++ pending d ≡ₚ submitted es ++ pending d0 ∧ (subscribed d0 → subscribed d)) as Hgen.
  { revert rs. induction es as [|e es IH]; intros rs d0; cbn [driver_run]; [by intros [= <- <-]|].
    intros ([d1 r1] & Hs & ([d2 r2] & Hr & [= <- <-])%comp_bind_Val)%comp_bind_Val.
    destruct (IH _ _ Hr) as [Hp Hsub]. pose proof (step_ids _ _ _ _ _ Hs) as Hs1. split.
    - rewrite fmap_app, <- app_assoc, Hp, (Permutation_app_swap_app r1.*1), Hs1.
      replace (submitted (e :: es)) with (submitted [e] ++ submitted es) by (by destruct e).
      rewrite <- app_assoc. apply Permutation_app_swap_app.
    - intros Hd0. apply Hsub. by eapply step_subscribed. }
  intros Hr. destruct (Hgen _ Hr) as [Hp Hsub]. split; [by rewrite app_nil_r in Hp|].
  apply Hsub. by intros txid ls.
Qed.

(** An event of a transaction answers exactly the jobs for that transaction whose condition
    the status satisfies, keeps exactly the others of that transaction, in order, and does not
    touch the jobs of other transactions; the eviction of a transaction answers nobody. *)
Theorem driver_notifies `{BitcoinLib} bury_depth tx s d d' rs :
  driver_step bury_depth (TxNotice (mkTxEvent tx s)) d = Val (d', rs) →
  let here := jobs_of d (compute_txid tx) in
  (s = Unknown → d' = d ∧ rs = []) ∧
  (s ≠ Unknown →
    rs = (λ cr, (cr.2, Ok tt)) <$> List.filter (λ cr, cr.1 s) here ∧
    jobs_of d' (compute_txid tx) = List.filter (λ cr, negb (cr.1 s)) here) ∧
  (∀ txid, txid ≠ compute_txid tx → jobs_of d' txid = jobs_of d txid).
Proof.
  intros Hstep here. cbn [driver_step BtcNotify.status rawtx] in Hstep.
  destruct (decide (s = Unknown)) as [->|Hs]; [by simplify_eq|].
  assert (Val (notify (compute_txid tx) s d) = Val (d', rs)) as Hn by (by destruct s). clear Hstep.
  rewrite notify_eq in Hn. injection Hn as <- <-. split_and!; [done| |].
  - intros _. split; [done|]. unfold jobs_of at 1. cbn [active_jobs]. rewrite heap_merge_lookup, lookup_delete_eq.
    unfold heap_at. fold here. change (List.filter (λ cr, negb (cr.1 s)) here) with (kept s here).
    destruct (kept s here); [by rewrite lookup_empty|by rewrite lookup_singleton_eq].
  - intros txid Hne. unfold jobs_of. cbn [active_jobs]. rewrite heap_merge_lookup, lookup_delete_ne by done.
    unfold heap_at. destruct (kept s _); [rewrite lookup_empty|rewrite lookup_singleton_ne by done];
      by destruct (active_jobs d !! txid).
Qed.

(** ** An example *)

Definition example_driven (txid : N) : Transaction := mkTransaction 2 txid [] [].
Definition example_driver_events : list DriverEvent :=
  [NewJob (mkTxDriveJob (example_driven 1) is_buried 0) None true;
   NewJob (mkTxDriveJob (example_driven 1) is_mined 1) None true;
   NewJob (mkTxDriveJob (example_driven 2) is_buried 2) None false;
   TxNotice (mkTxEvent (example_driven 1) (Mined 5 6))].
Definition example_driver_bitcoin : BitcoinLib := {|
  compute_txid t := lock_time t;
  block_hash b := header_rest b;
  bip34_block_height b := Some (header_rest b);
|}.
#[local] Existing Instance example_driver_bitcoin.

Lemma driver_answers_once_witness :
  ∃ d rs, driver_run 6 example_driver_events TxDriver_new = Val (d, rs) ∧
    rs.*1 ++ pending d ≡ₚ submitted example_driver_events ∧ rs = [(2, Err PublishFailed); (1, Ok tt)].
Proof.
  eexists _, _. split; [reflexivity|]. split; [|reflexivity].
  exact (proj1 (driver_answers_once 6 example_driver_events _ _ eq_refl)).
Defined.

Lemma driver_notifies_witness :
  jobs_of (mkTxDriver [] {[1%N := [(is_buried, 0); (is_mined, 1)]]}) 1 = [(is_buried, 0); (is_mined, 1)] ∧
  ∃ d' rs, driver_step 6 (TxNotice (mkTxEvent (example_driven 1) (Mined 5 6)))
    (mkTxDriver [] {[1%N := [(is_buried, 0); (is_mined, 1)]]}) = Val (d', rs) ∧
    rs = [(1, Ok tt)] ∧ jobs_of d' 1 = [(is_buried, 0)].
Proof.
  split; [reflexivity|]. eexists _, _. split; [reflexivity|].
  exact (proj1 (proj2 (driver_notifies 6 (example_driven 1) (Mined 5 6)
    (mkTxDriver [] {[1%N := [(is_buried, 0); (is_mined, 1)]]}) _ _ eq_refl)) ltac:(done)).
Defined.
