(* ===== verification/Winternitz.v ===== *)
(** * Winternitz one-time signatures ([wots/src/lib.rs])

    The digits of a message and of its checksum, the hash chains of the public key, and the
    signing function [wots_sign_naive].

    The theorems: [log_base_ceil] is the least sufficient exponent and the widths the rest of
    the program relies on agree; the digits are those of the message, least significant first;
    no other message has digits that are all at most those of a signed one, which is what makes
    the checksum prevent forgeries; and the signatures of [wots_sign_naive] do not complete to
    the public key of [wots_public_key], because the two disagree on the largest digit. *)

From S2P Require Import Prelude.

(** ** Widths *)

Definition WINTERNITZ_DIGIT_WIDTH : N := 4.
Definition WINTERNITZ_MAX_DIGIT : N := N.shiftl 2 WINTERNITZ_DIGIT_WIDTH - 1.

(** The loop multiplies [cur] by [base] until it reaches [n]; for a [u32] and a base of at least
    two it runs at most 32 times ([log_base_ceil_spec]).  For a smaller base the source does not
    terminate. *)
Fixpoint log_loop (fuel : nat) (cur res n base : N) : N :=
  match fuel with
  | 0%nat => res
  | S fuel => if (cur <? n)%N then log_loop fuel (cur * base) (res + 1) n base else res
  end.
Definition log_base_ceil (n base : N) : N := log_loop 33 1 0 n base.

(** The cast of a [usize]. *)
Definition as_u32 (n : N) : N := n mod 2 ^ 32.

Definition div_ceil (a b : N) : N := (a + b - 1) / b.

Definition checksum_width (num_bits digit_width : N) : N :=
  let num_digits := div_ceil num_bits digit_width in
  let max_digit := (N.shiftl 2 digit_width - 1)%N in
  let max_checksum := (num_digits * max_digit)%N in
  let checksum_bytes := log_base_ceil (as_u32 max_checksum) 256 in
  div_ceil (checksum_bytes * 8) digit_width.

Definition key_width (num_bits digit_width : N) : N :=
  (div_ceil num_bits digit_width + checksum_width num_bits digit_width)%N.

Record Parameters := mkParameters {
  message_length : N;
  digit_width : N;
  checksum_length : N;
}.

Definition Parameters_new (message_num_digits digit_width : N) : comp Parameters :=
  if ((4 <=? digit_width) && (digit_width <=? 8))%N then
    Val (mkParameters message_num_digits digit_width
      (log_base_ceil ((N.shiftl 1 digit_width - 1) * message_num_digits) (N.shiftl 1 digit_width) + 1))
  else Panic.

Definition new_by_bit_length (number_of_bits digit_width : N) : comp Parameters :=
  if ((4 <=? digit_width) && (digit_width <=? 8))%N then
    let message_num_digits := div_ceil number_of_bits digit_width in
    Val (mkParameters message_num_digits digit_width
      (log_base_ceil ((N.shiftl 1 digit_width - 1) * message_num_digits) (N.shiftl 1 digit_width) + 1))
  else Panic.

Definition max_digit_value (ps : Parameters) : N := N.shiftl 1 (digit_width ps) - 1.
Definition byte_message_length (ps : Parameters) : N := div_ceil (message_length ps * digit_width ps) 8.
Definition total_length (ps : Parameters) : N := message_length ps + checksum_length ps.

(** The parameters are compile-time constants. *)
Definition PARAMS_256 : comp Parameters := new_by_bit_length 256 WINTERNITZ_DIGIT_WIDTH.
Definition PARAMS_128 : comp Parameters := new_by_bit_length 128 WINTERNITZ_DIGIT_WIDTH.

(** ** Keys *)

(** [hash160]. *)
Class Hash160Lib := hash160 : list N → list N.
Class Hash160Laws `{Hash160Lib} : Prop := hash160_length : ∀ l, length (hash160 l) = 20.

(** The [i]th 20 bytes. *)
Definition segment (i : nat) (bytes : list N) : list N := take 20 (drop (20 * i) bytes).

Section signing.
Context `{Hash160Lib}.

Definition chain (k : nat) (x : list N) : list N := Nat.iter k hash160 x.

(** [wots_public_key::<n>]: the key has [20 * n] bytes, of which the digits fill the first. *)
Definition wots_public_key (n : nat) (ps : Parameters) (secret_key : list N) : comp (list N) :=
  segments ← mapM (λ i,
      if decide (i < n) then
        let secret_i := segment i secret_key in
        Val (chain (N.to_nat (max_digit_value ps)) (hash160 secret_i))
      else Panic)
    (seq 0 (N.to_nat (total_length ps)));
  Val (mjoin segments ++ replicate (20 * (n - N.to_nat (total_length ps))) 0%N).

(** ** Digits *)

(** [digits[i] |= bits]. *)
Definition or_at (i : nat) (bits : N) (digits : list N) : list N := alter (N.lor bits) i digits.

(** The body of the loop over the bits of the message. *)
Definition place_bit (num_digits : nat) (msg digits : list N) (bit_idx : nat) : list N :=
  let width := N.to_nat WINTERNITZ_DIGIT_WIDTH in
  let src_byte := bit_idx / 8 in
  let src_bit := bit_idx mod 8 in
  let dest_digit := num_digits - 1 - bit_idx / width in
  let dest_bit := bit_idx mod width in
  let bit := N.land (N.shiftr (nth src_byte msg 0%N) (N.of_nat (8 - 1 - src_bit))) 1 in
  or_at dest_digit (N.shiftl bit (N.of_nat (width - 1 - dest_bit))) digits.

Definition message_digits (num_bits : nat) (msg : list N) : list N :=
  let num_digits := N.to_nat (div_ceil (N.of_nat num_bits) WINTERNITZ_DIGIT_WIDTH) in
  foldl (place_bit num_digits msg) (replicate num_digits 0%N) (seq 0 num_bits).

Definition num_checksum_digits (num_digits : nat) : nat :=
  let max_checksum := (N.of_nat num_digits * WINTERNITZ_MAX_DIGIT)%N in
  let num_checksum_bytes := log_base_ceil (as_u32 max_checksum) 256 in
  N.to_nat (div_ceil (num_checksum_bytes * 8) WINTERNITZ_DIGIT_WIDTH).

Definition checksum_val (digits : list N) : N :=
  as_u32 (N.of_nat (length digits) * WINTERNITZ_MAX_DIGIT - foldr N.add 0%N digits).

(** [0xFFu8 << 4 >> 4], with the shift of a byte. *)
Definition digit_mask : N :=
  N.shiftr (N.land (N.shiftl 0xFF (8 - WINTERNITZ_DIGIT_WIDTH)) 0xFF) WINTERNITZ_DIGIT_WIDTH.

(** The digits that the loop takes off the checksum. *)
Fixpoint checksum_digits (k : nat) (checksum_acc : N) : list N :=
  match k with
  | 0 => []
  | S k => N.land checksum_acc digit_mask
             :: checksum_digits k (N.shiftr checksum_acc WINTERNITZ_DIGIT_WIDTH)
  end.

(** All the digits that a signature commits to. *)
Definition signed_digits (num_bits : nat) (msg : list N) : list N :=
  let digits := message_digits num_bits msg in
  digits ++ checksum_digits (num_checksum_digits (length digits)) (checksum_val digits).

(** [wots_sign_naive::<num_bits>]. *)
Definition wots_sign_naive (num_bits : nat) (msg secret_key : list N) : list N :=
  mjoin (imap (λ idx digit, chain (N.to_nat (WINTERNITZ_MAX_DIGIT - digit)) (segment idx secret_key))
    (signed_digits num_bits msg)).

End signing.

(** ** Reference *)

(** The nibbles of a byte, the high one first. *)
Definition nibbles (b : N) : list N := [b / 16; b mod 16]%N.

(** The number that little-endian digits in base 16 stand for. *)
Fixpoint digits_value (l : list N) : N :=
  match l with [] => 0 | d :: l => d + 16 * digits_value l end.

(** ** Widths: lemmas *)

Lemma log_loop_spec fuel cur res n base :
  (2 ≤ base)%N → cur = (base ^ res)%N → (∀ k, k < res → base ^ k < n)%N →
  (n ≤ cur * 2 ^ N.of_nat fuel)%N →
  let r := log_loop fuel cur res n base in
  (n ≤ base ^ r ∧ ∀ k, k < r → base ^ k < n)%N.
Proof.
  intros Hb. revert cur res. induction fuel as [|fuel IH]; intros cur res -> Hk Hn; cbn [log_loop].
  - change (N.of_nat 0) with 0%N in Hn. rewrite N.pow_0_r, N.mul_1_r in Hn. done.
  - destruct (N.ltb_spec (base ^ res) n) as [Hlt|Hge]; [|done]. apply IH.
    + by rewrite N.add_1_r, N.pow_succ_r', N.mul_comm.
    + intros k Hk'. destruct (decide (k = res)) as [->|]; [done|]. apply Hk. lia.
    + rewrite Nat2N.inj_succ, N.pow_succ_r' in Hn.
      assert (base ^ res * 2 ≤ base ^ res * base)%N by (apply N.mul_le_mono_l; lia). nia.
Qed.

Lemma log_base_ceil_least n base :
  (2 ≤ base)%N → (n ≤ 2 ^ 32)%N →
  (n ≤ base ^ log_base_ceil n base ∧ ∀ k, k < log_base_ceil n base → base ^ k < n)%N.
Proof.
  intros Hb Hn. apply log_loop_spec; [done|by rewrite N.pow_0_r|lia|].
  rewrite N.mul_1_l. etrans; [exact Hn|]. apply N.pow_le_mono_r; [done|]. cbn. lia.
Qed.

(** ** Digits: lemmas *)

(** The four bits of a nibble, put together. *)
Lemma high_nibble b : (b < 256)%N →
  N.lor (N.shiftl (N.land (N.shiftr b 4) 1) 0) (N.lor (N.shiftl (N.land (N.shiftr b 5) 1) 1)
    (N.lor (N.shiftl (N.land (N.shiftr b 6) 1) 2) (N.lor (N.shiftl (N.land (N.shiftr b 7) 1) 3) 0)))
  = (b / 16)%N.
Proof.
  intros Hb.
  assert (Forall (λ b, N.lor (N.shiftl (N.land (N.shiftr b 4) 1) 0) (N.lor (N.shiftl (N.land (N.shiftr b 5) 1) 1)
    (N.lor (N.shiftl (N.land (N.shiftr b 6) 1) 2) (N.lor (N.shiftl (N.land (N.shiftr b 7) 1) 3) 0)))
    = (b / 16)%N) (N.of_nat <$> seq 0 256)) as Hall.
  { apply (bool_decide_unpack _). vm_compute. exact I. }
  rewrite Forall_forall in Hall. apply Hall. apply list_elem_of_fmap. exists (N.to_nat b).
  split; [lia|]. apply elem_of_seq. lia.
Qed.

Lemma low_nibble b : (b < 256)%N →
  N.lor (N.shiftl (N.land (N.shiftr b 0) 1) 0) (N.lor (N.shiftl (N.land (N.shiftr b 1) 1) 1)
    (N.lor (N.shiftl (N.land (N.shiftr b 2) 1) 2) (N.lor (N.shiftl (N.land (N.shiftr b 3) 1) 3) 0)))
  = (b mod 16)%N.
Proof.
  intros Hb.
  assert (Forall (λ b, N.lor (N.shiftl (N.land (N.shiftr b 0) 1) 0) (N.lor (N.shiftl (N.land (N.shiftr b 1) 1) 1)
    (N.lor (N.shiftl (N.land (N.shiftr b 2) 1) 2) (N.lor (N.shiftl (N.land (N.shiftr b 3) 1) 3) 0)))
    = (b mod 16)%N) (N.of_nat <$> seq 0 256)) as Hall.
  { apply (bool_decide_unpack _). vm_compute. exact I. }
  rewrite Forall_forall in Hall. apply Hall. apply list_elem_of_fmap. exists (N.to_nat b).
  split; [lia|]. apply elem_of_seq. lia.
Qed.

(** Bits of the group [g] go to the last digit that is still zero. *)
Lemma or_at_last r bits d tail :
  or_at r bits (replicate r 0%N ++ d :: tail) = replicate r 0%N ++ N.lor bits d :: tail.
Proof.
  unfold or_at. rewrite alter_app_r_alt by (rewrite length_replicate; lia).
  by rewrite length_replicate, Nat.sub_diag.
Qed.

Lemma place_bit_at nd msg digits k j : j < 8 →
  place_bit nd msg digits (8 * k + j)
  = or_at (nd - 1 - (2 * k + j / 4))
      (N.shiftl (N.land (N.shiftr (nth k msg 0%N) (N.of_nat (7 - j))) 1) (N.of_nat (3 - j mod 4))) digits.
Proof.
  intros Hj. unfold place_bit. change (N.to_nat WINTERNITZ_DIGIT_WIDTH) with 4.
  replace ((8 * k + j) / 8) with k.
  2:{ symmetry. rewrite (Nat.mul_comm 8), Nat.div_add_l by done. rewrite Nat.div_small by done. lia. }
  replace ((8 * k + j) mod 8) with j.
  2:{ symmetry. rewrite Nat.add_comm, (Nat.mul_comm 8), Nat.Div0.mod_add. by apply Nat.mod_small. }
  replace ((8 * k + j) / 4) with (2 * k + j / 4).
  2:{ symmetry. replace (8 * k + j) with ((2 * k) * 4 + j) by lia. by rewrite Nat.div_add_l. }
  replace ((8 * k + j) mod 4) with (j mod 4).
  2:{ symmetry. replace (8 * k + j) with (j + (2 * k) * 4) by lia. by rewrite Nat.Div0.mod_add. }
  done.
Qed.

Lemma byte_step n msg k tail :
  k < n → (nth k msg 0 < 256)%N →
  foldl (place_bit (2 * n) msg) (replicate (2 * (n - k)) 0%N ++ tail) (seq (8 * k) 8)
  = replicate (2 * (n - S k)) 0%N ++ [nth k msg 0 mod 16; nth k msg 0 / 16]%N ++ tail.
Proof.
  intros Hk Hb. set (b := nth k msg 0%N) in *. set (r := n - S k).
  replace (2 * (n - k)) with (S (S (2 * r))) by lia.
  rewrite <- high_nibble, <- low_nibble by done.
  replace (seq (8 * k) 8) with ((λ j, 8 * k + j) <$> seq 0 8) by (by rewrite fmap_add_seq, Nat.add_0_r).
  cbn [seq fmap list_fmap foldl]. rewrite !place_bit_at by lia. fold b.
  replace (replicate (S (S (2 * r))) 0%N ++ tail) with (replicate (S (2 * r)) 0%N ++ 0%N :: tail).
  2:{ by rewrite (replicate_S_end (S (2 * r))), <- app_assoc. }
  cbn [Nat.div Nat.divmod Nat.modulo fst snd Nat.sub Nat.add].
  replace (2 * n - 1 - (2 * k + 0)) with (S (2 * r)) by lia.
  replace (2 * n - 1 - (2 * k + 1)) with (2 * r) by lia.
  rewrite !or_at_last.
  rewrite (replicate_S_end (2 * r)), <- app_assoc. cbn [app]. rewrite !or_at_last. done.
Qed.

Lemma message_digits_nibbles msg :
  Forall (λ b, b < 256)%N msg →
  message_digits (8 * length msg) msg = rev (mjoin (nibbles <$> msg)).
Proof.
  intros Hall. unfold message_digits.
  replace (N.to_nat (div_ceil (N.of_nat (8 * length msg)) WINTERNITZ_DIGIT_WIDTH)) with (2 * length msg).
  2:{ unfold div_ceil. change WINTERNITZ_DIGIT_WIDTH with 4%N.
      replace (N.of_nat (8 * length msg) + 4 - 1)%N with (N.of_nat (2 * length msg) * 4 + 3)%N by lia.
      rewrite N.div_add_l by done. change (3 / 4)%N with 0%N. lia. }
  set (n := length msg).
  assert (∀ k, k ≤ n → foldl (place_bit (2 * n) msg) (replicate (2 * n) 0%N) (seq 0 (8 * k))
    = replicate (2 * (n - k)) 0%N ++ rev (mjoin (nibbles <$> take k msg))) as Hk.
  { intros k. induction k as [|k IH]; intros Hkn; [by rewrite Nat.sub_0_r, app_nil_r|].
    replace (8 * S k) with (8 * k + 8) by lia. rewrite seq_app, foldl_app, Nat.add_0_l, IH by lia.
    destruct (lookup_lt_is_Some_2 msg k) as [b Hb]; [done|].
    rewrite byte_step; [|lia|]; rewrite (nth_lookup_Some _ _ _ _ Hb).
    - rewrite (take_S_r _ _ _ Hb), fmap_app, join_app, rev_app_distr. done.
    - exact (Forall_lookup_1 _ _ _ _ Hall Hb). }
  rewrite Hk by done. rewrite Nat.sub_diag. cbn. by rewrite take_ge.
Qed.

(** ** Checksum: lemmas *)

Lemma digit_mask_mod n : N.land n digit_mask = (n mod 16)%N.
Proof. change digit_mask with (N.ones 4). by rewrite N.land_ones. Qed.

Lemma checksum_digits_value k c : (c < 16 ^ N.of_nat k)%N → digits_value (checksum_digits k c) = c.
Proof.
  revert c. induction k as [|k IH]; intros c Hc; cbn [checksum_digits digits_value].
  - change (16 ^ N.of_nat 0)%N with 1%N in Hc. lia.
  - rewrite Nat2N.inj_succ, N.pow_succ_r' in Hc. rewrite digit_mask_mod, IH.
    + change WINTERNITZ_DIGIT_WIDTH with 4%N. rewrite N.shiftr_div_pow2. change (2 ^ 4)%N with 16%N.
      rewrite N.add_comm. symmetry. apply N.div_mod. done.
    + change WINTERNITZ_DIGIT_WIDTH with 4%N. rewrite N.shiftr_div_pow2. change (2 ^ 4)%N with 16%N.
      apply N.Div0.div_lt_upper_bound. lia.
Qed.

Lemma length_checksum_digits k c : length (checksum_digits k c) = k.
Proof. revert c. induction k as [|k IH]; intros c; cbn; [done|]. by rewrite IH. Qed.

Lemma digits_value_mono l l' : Forall2 N.le l l' → (digits_value l ≤ digits_value l')%N.
Proof. induction 1; cbn [digits_value]; lia. Qed.

Lemma sum_mono l l' :
  Forall2 N.le l l' → (foldr N.add 0 l ≤ foldr N.add 0 l')%N ∧
    (foldr N.add 0%N l = foldr N.add 0%N l' → l = l').
Proof.
  induction 1 as [|x y l l' Hxy _ [IHle IHeq]]; cbn; [done|]. split; [lia|].
  intros E. rewrite IHeq by lia. f_equal. lia.
Qed.

Lemma nibbles_inj b b' : nibbles b = nibbles b' → b = b'.
Proof.
  intros [= E1 E2]. rewrite (N.div_mod b 16), (N.div_mod b' 16) by done. by rewrite E1, E2.
Qed.

Lemma nibbles_concat_inj (l l' : list N) :
  mjoin (nibbles <$> l) = mjoin (nibbles <$> l') → l = l'.
Proof.
  revert l'. induction l as [|b l IH]; intros [|b' l'] E; try done.
  change (mjoin (nibbles <$> b :: l)) with (nibbles b ++ mjoin (nibbles <$> l)) in E.
  change (mjoin (nibbles <$> b' :: l')) with (nibbles b' ++ mjoin (nibbles <$> l')) in E.
  injection E as E1 E2 E3.
  rewrite (IH _ E3). f_equal. apply nibbles_inj. unfold nibbles. by rewrite E1, E2.
Qed.

Lemma message_digits_small msg :
  Forall (λ b, b < 256)%N msg → Forall (λ d, d < 16)%N (message_digits (8 * length msg) msg).
Proof.
  intros Hall. rewrite message_digits_nibbles by done. apply Forall_rev.
  apply Forall_join, Forall_fmap. eapply Forall_impl; [exact Hall|]. intros b Hb. cbn in Hb |- *.
  apply Forall_cons; split; [apply N.Div0.div_lt_upper_bound; lia|].
  apply Forall_singleton, N.mod_lt. done.
Qed.

Lemma length_message_digits msg :
  Forall (λ b, b < 256)%N msg → length (message_digits (8 * length msg) msg) = 2 * length msg.
Proof.
  intros Hall. rewrite message_digits_nibbles, length_rev by done. clear Hall.
  induction msg as [|b msg IH]; [done|].
  change (mjoin (nibbles <$> b :: msg)) with (nibbles b ++ mjoin (nibbles <$> msg)).
  rewrite length_app, IH. cbn. lia.
Qed.

(** The checksum of a message of at most 32 bytes fits in its digits. *)
Lemma checksum_fits n : 0 < n ≤ 32 →
  (N.of_nat (2 * n) * WINTERNITZ_MAX_DIGIT < 16 ^ N.of_nat (num_checksum_digits (2 * n)))%N.
Proof.
  intros Hn. assert (Forall (λ n, N.of_nat (2 * n) * WINTERNITZ_MAX_DIGIT
    < 16 ^ N.of_nat (num_checksum_digits (2 * n)))%N (seq 1 32)) as Hall.
  { apply (bool_decide_unpack _). vm_compute. exact I. }
  rewrite Forall_forall in Hall. apply Hall, elem_of_seq. lia.
Qed.

Lemma checksum_val_small digits : length digits ≤ 64 →
  checksum_val digits = (N.of_nat (length digits) * WINTERNITZ_MAX_DIGIT - foldr N.add 0 digits)%N.
Proof.
  intros Hl. apply N.mod_small. change WINTERNITZ_MAX_DIGIT with 31%N.
  change (2 ^ 32)%N with 4294967296%N. lia.
Qed.

(** ** Hash chains: lemmas *)

Lemma chain_chain `{Hash160Lib} j k x : chain j (chain k x) = chain (j + k) x.
Proof. unfold chain. symmetry. apply Nat.iter_add. Qed.

Lemma length_chain `{Hash160Lib} `{!Hash160Laws} k x : length x = 20 → length (chain k x) = 20.
Proof. intros Hx. destruct k; [done|]. apply hash160_length. Qed.

Lemma length_segment i l : 20 * S i ≤ length l → length (segment i l) = 20.
Proof. intros Hl. unfold segment. rewrite length_take, length_drop. lia. Qed.

Lemma segment_join (l : list (list N)) i x :
  Forall (λ y, length y = 20) l → l !! i = Some x → segment i (mjoin l) = x.
Proof.
  intros Hall. revert i. induction Hall as [|y l Hy Hall IH]; intros [|i] Hi; try done; cbn in Hi.
  - injection Hi as <-. unfold segment. change (mjoin (y :: l)) with (y ++ mjoin l).
    change (drop (20 * 0) (y ++ mjoin l)) with (y ++ mjoin l). by apply take_app_length'.
  - rewrite <- (IH i Hi). unfold segment. change (mjoin (y :: l)) with (y ++ mjoin l).
    replace (20 * S i) with (length y + 20 * i) by lia. by rewrite drop_app_add.
Qed.

Lemma checksum_digits_small k c : Forall (λ d, d < 16)%N (checksum_digits k c).
Proof.
  revert c. induction k as [|k IH]; intros c; cbn [checksum_digits]; constructor; [|apply IH].
  rewrite digit_mask_mod. apply N.mod_lt. done.
Qed.

Lemma length_signed_digits_256 msg :
  Forall (λ b, b < 256)%N msg → length msg = 32 → length (signed_digits 256 msg) = 68.
Proof.
  intros Hm Hlen. pose proof (length_message_digits msg Hm) as Hl. rewrite Hlen in Hl.
  change (8 * 32) with 256 in Hl. unfold signed_digits.
  rewrite length_app, length_checksum_digits, Hl. vm_compute. reflexivity.
Qed.

Lemma signed_digits_256 msg idx :
  Forall (λ b, b < 256)%N msg → length msg = 32 → idx < 68 →
  ∃ d, signed_digits 256 msg !! idx = Some d ∧ (d < 16)%N.
Proof.
  intros Hm Hlen Hidx. destruct (lookup_lt_is_Some_2 (signed_digits 256 msg) idx) as [d Hd].
  { by rewrite length_signed_digits_256. }
  exists d. split; [done|]. refine (Forall_lookup_1 (λ d, d < 16)%N _ _ _ _ Hd).
  unfold signed_digits. apply Forall_app. split; [|apply checksum_digits_small].
  change 256 with (8 * 32). rewrite <- Hlen. by apply message_digits_small.
Qed.

Lemma wots_sign_naive_segment `{Hash160Lib} `{!Hash160Laws} msg secret_key idx d :
  Forall (λ b, b < 256)%N msg → length msg = 32 → length secret_key = 20 * 68 →
  signed_digits 256 msg !! idx = Some d →
  segment idx (wots_sign_naive 256 msg secret_key) =
    chain (N.to_nat (WINTERNITZ_MAX_DIGIT - d)) (segment idx secret_key).
Proof.
  intros Hm Hlen Hsk Hd. apply segment_join.
  - apply Forall_lookup_2. intros i x Hi. rewrite list_lookup_imap in Hi.
    apply fmap_Some in Hi as (e & He & ->). apply lookup_lt_Some in He.
    rewrite length_signed_digits_256 in He by done. apply length_chain, length_segment. lia.
  - by rewrite list_lookup_imap, Hd.
Qed.

Lemma wots_public_key_segment `{Hash160Lib} `{!Hash160Laws} ps secret_key pk idx :
  PARAMS_256 = Val ps → length secret_key = 20 * 68 →
  wots_public_key 68 ps secret_key = Val pk → idx < 68 →
  segment idx pk = chain 16 (segment idx secret_key).
Proof.
  intros [= <-] Hsk Hpk Hidx.
  apply comp_bind_Val in Hpk as (segments & Hseg & Hpk). injection Hpk as <-.
  change (N.to_nat (total_length _)) with 68. rewrite app_nil_r.
  apply mapM_comp_Val in Hseg. change (N.to_nat (total_length _)) with 68 in Hseg.
  assert (∀ i x, segments !! i = Some x → i < 68 ∧ x = chain 16 (segment i secret_key)) as Hx.
  { intros i x Hi. destruct (Forall2_lookup_r _ _ _ _ _ Hseg Hi) as (j & Hj & E).
    apply lookup_seq in Hj as [-> Hlt]. cbn [Nat.add] in E. rewrite decide_True in E by done.
    injection E as <-. done. }
  apply segment_join.
  - apply Forall_lookup_2. intros i x Hi. destruct (Hx i x Hi) as [Hlt ->].
    apply length_chain, length_segment. lia.
  - destruct (lookup_lt_is_Some_2 segments idx) as [x Hi].
    { rewrite <- (Forall2_length _ _ _ Hseg), length_seq. done. }
    rewrite Hi. f_equal. by apply Hx.
Qed.

(** ** Properties *)

(** [log_base_ceil] returns the least exponent that is enough, for every [u32] and every base
    of at least two; and the three ways in which the program computes the width of a key agree
    for the two sizes of messages it signs. *)
Theorem wots_widths n base :
  (2 ≤ base)%N → (n < 2 ^ 32)%N →
  (n ≤ base ^ log_base_ceil n base)%N ∧ (∀ k, k < log_base_ceil n base → base ^ k < n)%N ∧
  (total_length <$> PARAMS_256 = Val (key_width 256 WINTERNITZ_DIGIT_WIDTH) ∧
   total_length <$> PARAMS_128 = Val (key_width 128 WINTERNITZ_DIGIT_WIDTH)) ∧
  key_width 256 WINTERNITZ_DIGIT_WIDTH = 68%N ∧ key_width 128 WINTERNITZ_DIGIT_WIDTH = 36%N.
Proof.
  intros Hb Hn. destruct (log_base_ceil_least n base) as [H1 H2]; [done|lia|].
  split_and!; [done|done|vm_compute; reflexivity..].
Qed.

(** C40: The digits that [wots_sign_naive] signs are the nibbles of the message, the least
    significant one first, followed by a checksum.  For two different messages of the same
    length, of up to 256 bits, the digits of one are never all at most those of the other:
    whoever knows a signature can only walk the hash chains towards lower digits, so a
    signature of one message does not give a signature of another. *)
Theorem checksum_prevents_forgery msg msg' :
  Forall (λ b, b < 256)%N msg → Forall (λ b, b < 256)%N msg' →
  length msg' = length msg → length msg ≤ 32 →
  take (2 * length msg) (signed_digits (8 * length msg) msg) = rev (mjoin (nibbles <$> msg)) ∧
  (Forall2 N.le (signed_digits (8 * length msg) msg') (signed_digits (8 * length msg) msg) → msg' = msg).
Proof.
  intros Hm Hm' Hlen Hle. split.
  { unfold signed_digits. rewrite take_app_length' by by rewrite length_message_digits.
    by apply message_digits_nibbles. }
  unfold signed_digits. rewrite <- Hlen at 1. intros Hall. rewrite Hlen in Hall.
  pose proof (length_message_digits msg Hm) as Hl. pose proof (length_message_digits msg' Hm') as Hl'.
  rewrite Hlen in Hl'. destruct (decide (length msg = 0)) as [H0|H0].
  { apply nil_length_inv in H0 as ->. by destruct msg'. }
  apply Forall2_app_inv in Hall as [Hd Hc]; [|by rewrite Hl, Hl'].
  pose proof (digits_value_mono _ _ Hc) as Hv. destruct (sum_mono _ _ Hd) as [Hs Heq].
  pose proof (checksum_fits (length msg) ltac:(lia)) as Hfit.
  rewrite Hl, Hl' in Hv. rewrite !checksum_digits_value in Hv.
  - rewrite !checksum_val_small in Hv by (rewrite ?Hl, ?Hl'; lia). rewrite Hl, Hl' in Hv.
    assert (message_digits (8 * length msg) msg' = message_digits (8 * length msg) msg) as E.
    { apply Heq. assert (foldr N.add 0 (message_digits (8 * length msg) msg)
        ≤ N.of_nat (2 * length msg) * WINTERNITZ_MAX_DIGIT)%N; [|lia].
      rewrite <- Hl. pose proof (message_digits_small msg Hm) as Hsm.
      clear -Hsm. induction Hsm as [|d l Hd _ IH]; [done|]. cbn [length foldr].
      change WINTERNITZ_MAX_DIGIT with 31%N in *. lia. }
    rewrite <- Hlen in E at 1. rewrite !message_digits_nibbles in E by done.
    apply nibbles_concat_inj. rewrite <- (rev_involutive (mjoin _)), E. apply rev_involutive.
  - rewrite checksum_val_small by (rewrite Hl; lia). rewrite Hl. lia.
  - rewrite checksum_val_small by (rewrite Hl'; lia). rewrite Hl'. lia.
Qed.

(** The two halves of the scheme disagree on the largest digit.  Segment [idx] of a signature
    of [wots_sign_naive], hashed as often as its digit says, is the secret hashed 31 times, for
    every message; the same segment of the key that [wots_public_key] derives from the same
    secret is the secret hashed 16 times, so the completed signature is the public key hashed
    another 15 times.  A key with the parameters of the crate does not verify these signatures,
    unless the hash is periodic on the secret. *)
Theorem naive_signature_overshoots `{Hash160Lib} `{!Hash160Laws} ps msg secret_key pk idx :
  PARAMS_256 = Val ps → Forall (λ b, b < 256)%N msg → length msg = 32 →
  length secret_key = 20 * 68 → wots_public_key 68 ps secret_key = Val pk → idx < 68 →
  let signature := wots_sign_naive 256 msg secret_key in
  ∃ d, signed_digits 256 msg !! idx = Some d ∧ (d < 16)%N ∧
    chain (N.to_nat d) (segment idx signature) = chain 31 (segment idx secret_key) ∧
    segment idx pk = chain 16 (segment idx secret_key) ∧
    chain (N.to_nat d) (segment idx signature) = chain 15 (segment idx pk).
Proof.
  intros Hps Hm Hlen Hsk Hpk Hidx signature.
  destruct (signed_digits_256 msg idx Hm Hlen Hidx) as (d & Hd & Hd16).
  pose proof (wots_public_key_segment ps secret_key pk idx Hps Hsk Hpk Hidx) as E.
  pose proof (wots_sign_naive_segment msg secret_key idx d Hm Hlen Hsk Hd) as E'.
  exists d. unfold signature. rewrite E', E. change WINTERNITZ_MAX_DIGIT with 31%N.
  rewrite !chain_chain. split_and!; [done|done| |done|]; f_equal; lia.
Qed.

(** ** Witnesses *)

Lemma wots_widths_witness :
  (1000 ≤ 256 ^ log_base_ceil 1000 256)%N ∧ (∀ k, k < log_base_ceil 1000 256 → 256 ^ k < 1000)%N.
Proof. destruct (wots_widths 1000 256) as (H1 & H2 & _); [lia|lia|]. exact (conj H1 H2). Defined.

Lemma checksum_prevents_forgery_witness :
  take 4 (signed_digits 16 [0xAB; 0xCD]%N) = [0xD; 0xC; 0xB; 0xA]%N ∧
  (Forall2 N.le (signed_digits 16 [0xAB; 0xCC]%N) (signed_digits 16 [0xAB; 0xCD]%N) →
    [0xAB; 0xCC]%N = [0xAB; 0xCD]%N).
Proof.
  apply (checksum_prevents_forgery [0xAB; 0xCD]%N [0xAB; 0xCC]%N);
    [repeat constructor; lia|repeat constructor; lia|done|cbn; lia].
Defined.

(** A hash whose chains are easy to follow: it keeps 20 bytes and increments the first. *)
Definition example_hash160 : Hash160Lib :=
  λ l, (nth 0 l 0 + 1)%N :: take 19 (drop 1 l ++ replicate 19 0%N).

Definition example_wots_key : list N :=
  mjoin (replicate 68 (@chain example_hash160 16 (replicate 20 0%N))).

Lemma example_hash160_laws : @Hash160Laws example_hash160.
Proof.
  intros l. unfold hash160, example_hash160. cbn [length]. f_equal.
  rewrite length_take, length_app, length_replicate. lia.
Qed.

Lemma naive_signature_overshoots_witness :
  let secret_key := replicate (20 * 68) 0%N in
  ∃ pk, @wots_public_key example_hash160 68 (mkParameters 64 4 4) secret_key = Val pk ∧
    ∃ d, signed_digits 256 (replicate 32 0xFF%N) !! 5 = Some d ∧
    @chain example_hash160 (N.to_nat d)
      (segment 5 (@wots_sign_naive example_hash160 256 (replicate 32 0xFF%N) secret_key)) =
      @chain example_hash160 15 (segment 5 pk).
Proof.
  intros secret_key.
  exists example_wots_key.
  assert (@wots_public_key example_hash160 68 (mkParameters 64 4 4) secret_key
    = Val example_wots_key) as E by (vm_compute; reflexivity).
  split; [exact E|].
  destruct (@naive_signature_overshoots example_hash160 example_hash160_laws (mkParameters 64 4 4)
    (replicate 32 0xFF%N) secret_key example_wots_key 5) as (d & Hd & _ & _ & _ & Hc).
  - vm_compute. reflexivity.
  - apply Forall_replicate. lia.
  - reflexivity.
  - reflexivity.
  - exact E.
  - lia.
  - exact (ex_intro _ d (conj Hd Hc)).
Defined.
