(* ===== verification/Wots.v ===== *)
(** * Winternitz keys and signatures ([primitives/src/wots.rs], [primitives/src/scripts/commitments.rs])

    The WOTS keys of a peg-out graph: one for the withdrawal fulfillment, one for the public
    inputs of the proof, and one per element of the proof; how the keys and signatures derive
    from an operator's master key, how the keys travel between operators, and how they are
    stored.

    The theorems: no two keys of an operator are derived from the same seed, so no one-time key
    signs twice, and every signature is made with the secret behind the public key of its
    position; the keys survive the conversion to the messages of the p2p library and back, and
    the serialization, whose errors and announced lengths are given exactly. *)

From stdpp Require Import pretty.
From S2P Require Import Prelude Bitcoin Winternitz.

(** ** Data *)

(** A key is an array of 20-byte hashes, one per digit of the message and its checksum; a
    signature is an array of 21 bytes per digit, a hash and the digit. *)
Definition WOTS_HASH_DIGEST_SIZE : nat := 20.
Definition WOTS_SIGNATURE_SIZE : nat := WOTS_HASH_DIGEST_SIZE + 1.

Abbreviation Wots256PublicKey := (list (list N)) (only parsing).
Abbreviation WotsHashPublicKey := (list (list N)) (only parsing).
Abbreviation Wots256Sig := (list (list N)) (only parsing).
Abbreviation WotsHashSig := (list (list N)) (only parsing).

(** [bitvm]'s numbers of public inputs, field elements and hashes of a proof. *)
Definition NUM_PUBS : nat := 1.
Definition NUM_U256 : nat := 14.
Definition NUM_HASH : nat := 363.

Record Groth16PublicKeys := mkGroth16PublicKeys {
  g16_public_inputs : vec Wots256PublicKey NUM_PUBS;
  g16_fqs : vec Wots256PublicKey NUM_U256;
  g16_hashes : vec WotsHashPublicKey NUM_HASH;
}.

Record PublicKeys := mkPublicKeys {
  withdrawal_fulfillment : Wots256PublicKey;
  groth16 : Groth16PublicKeys;
}.

Record Groth16Sigs := mkGroth16Sigs {
  sig_public_inputs : vec Wots256Sig NUM_PUBS;
  sig_field_elems : vec Wots256Sig NUM_U256;
  sig_hashes : vec WotsHashSig NUM_HASH;
}.

Record Signatures := mkSignatures {
  sig_withdrawal_fulfillment : Wots256Sig;
  sig_groth16 : Groth16Sigs;
}.

(** The data a set of signatures commits to. *)
Record Assertions := mkAssertions {
  assert_withdrawal_fulfillment : list N;
  assert_public_inputs : vec (list N) NUM_PUBS;
  assert_field_elems : vec (list N) NUM_U256;
  assert_hashes : vec (list N) NUM_HASH;
}.

#[global] Instance Groth16PublicKeys_eq_dec : EqDecision Groth16PublicKeys.
Proof. solve_decision. Defined.
#[global] Instance PublicKeys_eq_dec : EqDecision PublicKeys.
Proof. solve_decision. Defined.
#[global] Instance Groth16Sigs_eq_dec : EqDecision Groth16Sigs.
Proof. solve_decision. Defined.

(** [std::array::from_fn]. *)
Fixpoint array_from_fn {A} (n : nat) (i : nat) (f : nat → A) : vec A n :=
  match n with
  | 0 => [#]
  | S n => f i ::: array_from_fn n (S i) f
  end.

(** ** Derivation ([commitments.rs]) *)

(** [Txid]'s [Display], [Sha256] of a string's bytes, and [bitvm]'s key generation and signing
    for messages of 32 and of 16 bytes. *)
Class WotsLib := {
  txid_display : Txid → string;
  sha256_str : string → list N;
  wots256_generate_public_key : list N → Wots256PublicKey;
  wots_hash_generate_public_key : list N → WotsHashPublicKey;
  wots256_sign : list N → list N → Wots256Sig;
  wots_hash_sign : list N → list N → WotsHashSig;
}.

(** A txid has 32 bytes, and is displayed as 64 hexadecimal digits. *)
Definition txid_wf (txid : Txid) : Prop := (txid < 16 ^ 64)%N.

Class WotsLaws `{WotsLib} : Prop := {
  txid_display_length : ∀ txid, txid_wf txid → String.length (txid_display txid) = 64;
  txid_display_inj : ∀ txid txid', txid_wf txid → txid_wf txid' →
    txid_display txid = txid_display txid' → txid = txid';
}.

Section derivation.
Context `{WotsLib}.

Definition get_deposit_master_secret_key (msk : string) (deposit_txid : Txid) : string :=
  msk +:+ ":" +:+ txid_display deposit_txid.

Definition secret_key_from_msk (msk var : string) : list N := sha256_str (msk +:+ ":" +:+ var).

Definition secret_key_for_bridge_out_txid (msk : string) : list N :=
  secret_key_from_msk msk "bridge_out_txid".
Definition secret_key_for_public_inputs_hash (msk : string) : list N :=
  secret_key_from_msk msk "public_inputs_hash".
Definition secret_key_for_proof_element (msk : string) (id : nat) : list N :=
  secret_key_from_msk msk ("proof_element_" +:+ pretty (N.of_nat id)).

Definition public_key_for_bridge_out_txid (msk : string) : Wots256PublicKey :=
  wots256_generate_public_key (secret_key_for_bridge_out_txid msk).
Definition public_key_for_public_inputs_hash (msk : string) : Wots256PublicKey :=
  wots256_generate_public_key (secret_key_for_bridge_out_txid msk).

Definition Wots256PublicKey_new (msk : string) (txid : Txid) : Wots256PublicKey :=
  wots256_generate_public_key
    (secret_key_for_bridge_out_txid (get_deposit_master_secret_key msk txid)).

Definition Groth16PublicKeys_new (msk : string) (deposit_txid : Txid) : Groth16PublicKeys :=
  let deposit_msk := get_deposit_master_secret_key msk deposit_txid in
  mkGroth16PublicKeys
    [# wots256_generate_public_key (secret_key_for_public_inputs_hash deposit_msk)]
    (array_from_fn NUM_U256 0
       (λ i, wots256_generate_public_key (secret_key_for_proof_element deposit_msk i)))
    (array_from_fn NUM_HASH 0
       (λ i, wots_hash_generate_public_key (secret_key_for_proof_element deposit_msk (i + 40)))).

Definition PublicKeys_new (msk : string) (deposit_txid : Txid) : PublicKeys :=
  mkPublicKeys (Wots256PublicKey_new msk deposit_txid) (Groth16PublicKeys_new msk deposit_txid).

Definition Wots256Sig_new (msk : string) (seed_txid : Txid) (data : list N) : Wots256Sig :=
  wots256_sign (secret_key_for_bridge_out_txid (get_deposit_master_secret_key msk seed_txid)) data.

Definition Groth16Sigs_new (msk : string) (deposit_txid : Txid) (assertions : Assertions)
    : Groth16Sigs :=
  let deposit_msk := get_deposit_master_secret_key msk deposit_txid in
  mkGroth16Sigs
    [# wots256_sign (secret_key_for_public_inputs_hash deposit_msk)
         (Vector.hd (assert_public_inputs assertions))]
    (array_from_fn NUM_U256 0 (λ i, wots256_sign (secret_key_for_proof_element deposit_msk i)
       (default [] (vec_to_list (assert_field_elems assertions) !! i))))
    (array_from_fn NUM_HASH 0 (λ i, wots_hash_sign (secret_key_for_proof_element deposit_msk (i + 40))
       (default [] (vec_to_list (assert_hashes assertions) !! i)))).

Definition Signatures_new (msk : string) (deposit_txid : Txid) (assertions : Assertions) : Signatures :=
  mkSignatures (Wots256Sig_new msk deposit_txid (assert_withdrawal_fulfillment assertions))
    (Groth16Sigs_new msk deposit_txid assertions).

End derivation.

(** ** Conversions to and from the messages of the p2p library *)

(** [strata_p2p_types]' keys: vectors whose lengths the sender chooses. *)
Record P2PGroth16PublicKeys := mkP2PGroth16PublicKeys {
  p2p_public_inputs : list Wots256PublicKey;
  p2p_fqs : list Wots256PublicKey;
  p2p_hashes : list WotsHashPublicKey;
}.

Record P2PWotsPublicKeys := mkP2PWotsPublicKeys {
  p2p_withdrawal_fulfillment : Wots256PublicKey;
  p2p_groth16 : P2PGroth16PublicKeys;
}.

Definition conversion_error (what : string) (len : nat) : string :=
  "Could not convert groth 16 keys: invalid length of " +:+ what +:+ " ("
    +:+ pretty (N.of_nat len) +:+ ")".

(** [std::array::from_fn(|i| v[i])]: indexing past the end panics. *)
Fixpoint array_of {A} (n : nat) (v : list A) : comp (vec A n) :=
  match n, v with
  | 0, _ => Val [#]
  | S n, [] => Panic
  | S n, x :: v => xs ← array_of n v; Val (x ::: xs)
  end.

Definition Groth16PublicKeys_try_from (g16_keys : P2PGroth16PublicKeys)
    : comp ((string * P2PGroth16PublicKeys) + Groth16PublicKeys) :=
  if decide (length (p2p_public_inputs g16_keys) ≠ NUM_PUBS) then
    Val (inl (conversion_error "public inputs" (length (p2p_public_inputs g16_keys)), g16_keys))
  else
  public_inputs ← array_of NUM_PUBS (p2p_public_inputs g16_keys);
  if decide (length (p2p_fqs g16_keys) ≠ NUM_U256) then
    Val (inl (conversion_error "fqs" (length (p2p_fqs g16_keys)), g16_keys))
  else
  fqs ← array_of NUM_U256 (p2p_fqs g16_keys);
  if decide (length (p2p_hashes g16_keys) ≠ NUM_HASH) then
    Val (inl (conversion_error "hashes" (length (p2p_hashes g16_keys)), g16_keys))
  else
  hashes ← array_of NUM_HASH (p2p_hashes g16_keys);
  Val (inr (mkGroth16PublicKeys public_inputs fqs hashes)).

Definition Groth16PublicKeys_into (value : Groth16PublicKeys) : P2PGroth16PublicKeys :=
  mkP2PGroth16PublicKeys (vec_to_list (g16_public_inputs value)) (vec_to_list (g16_fqs value))
    (vec_to_list (g16_hashes value)).

Definition PublicKeys_try_from (value : P2PWotsPublicKeys)
    : comp ((string * P2PWotsPublicKeys) + PublicKeys) :=
  r ← Groth16PublicKeys_try_from (p2p_groth16 value);
  match r with
  | inl (e, keys) => Val (inl (e, mkP2PWotsPublicKeys (p2p_withdrawal_fulfillment value) keys))
  | inr groth16 => Val (inr (mkPublicKeys (p2p_withdrawal_fulfillment value) groth16))
  end.

Definition PublicKeys_into (value : PublicKeys) : P2PWotsPublicKeys :=
  mkP2PWotsPublicKeys (withdrawal_fulfillment value) (Groth16PublicKeys_into (groth16 value)).

(** ** Serialization *)

(** What a serializer is given: the announced length of the sequence, and its elements. *)
Record SerSeq := mkSerSeq {
  ser_len : option nat;
  ser_elements : list N;
}.

(** [size_of] of a struct that holds one [Arc]. *)
Definition size_of_Arc : nat := 8.

Definition wots_key_width (num_bits : N) : nat := N.to_nat (key_width num_bits WINTERNITZ_DIGIT_WIDTH).

Definition Wots256PublicKey_serialize (key : Wots256PublicKey) : SerSeq :=
  mkSerSeq (Some size_of_Arc) (mjoin key).

Definition Groth16PublicKeys_serialize (keys : Groth16PublicKeys) : SerSeq :=
  mkSerSeq (Some size_of_Arc)
    (mjoin (mjoin <$> vec_to_list (g16_public_inputs keys))
      ++ mjoin (mjoin <$> vec_to_list (g16_fqs keys))
      ++ mjoin (mjoin <$> vec_to_list (g16_hashes keys))).

(** [seq.next_element()]: [invalid_length] when the sequence is over. *)
Definition next_element (err : nat) (seq : list N) : nat + (N * list N) :=
  match seq with
  | [] => inl err
  | b :: seq => inr (b, seq)
  end.

(** The loops [for (idx, x) in packed.iter_mut().enumerate()]. *)
Fixpoint read_array {A} (n : nat) (read : nat → list N → nat + (A * list N)) (idx : nat) (seq : list N)
    : nat + (vec A n * list N) :=
  match n with
  | 0 => inr ([#], seq)
  | S n =>
      match read idx seq with
      | inl e => inl e
      | inr (x, seq) =>
          match read_array n read (S idx) seq with
          | inl e => inl e
          | inr (xs, seq) => inr (x ::: xs, seq)
          end
      end
  end.

(** A key of [width] segments; [scale] is what the error multiplies the position in the key by. *)
Definition read_key (width scale : nat) (seq : list N) : nat + (list (list N) * list N) :=
  match read_array width
      (λ key_idx seq,
        match read_array WOTS_HASH_DIGEST_SIZE
            (λ byte_idx, next_element (scale * (key_idx + 1) * (byte_idx + 1))) 0 seq with
        | inl e => inl e
        | inr (bytes, seq) => inr (vec_to_list bytes, seq)
        end) 0 seq with
  | inl e => inl e
  | inr (key, seq) => inr (vec_to_list key, seq)
  end.

Definition Wots256PublicKey_visit_seq (seq : list N) : nat + (Wots256PublicKey * list N) :=
  read_key (wots_key_width 256) 1 seq.

Definition Groth16PublicKeys_visit_seq (seq : list N) : nat + (Groth16PublicKeys * list N) :=
  match read_array NUM_PUBS (λ input_idx, read_key (wots_key_width 256) (input_idx + 1)) 0 seq with
  | inl e => inl e
  | inr (public_inputs, seq) =>
  match read_array NUM_U256 (λ fq_idx, read_key (wots_key_width 256) (fq_idx + 1)) 0 seq with
  | inl e => inl e
  | inr (fqs, seq) =>
  match read_array NUM_HASH (λ hash_idx, read_key (wots_key_width 128) (hash_idx + 1)) 0 seq with
  | inl e => inl e
  | inr (hashes, seq) => inr (mkGroth16PublicKeys public_inputs fqs hashes, seq)
  end end end.

(** The types [[[u8; 20]; width]] of the keys. *)
Definition key_wf (width : nat) (key : list (list N)) : Prop :=
  length key = width ∧ Forall (λ seg, length seg = WOTS_HASH_DIGEST_SIZE) key.

Definition groth16_wf (keys : Groth16PublicKeys) : Prop :=
  Forall (key_wf (wots_key_width 256)) (vec_to_list (g16_public_inputs keys)) ∧
  Forall (key_wf (wots_key_width 256)) (vec_to_list (g16_fqs keys)) ∧
  Forall (key_wf (wots_key_width 128)) (vec_to_list (g16_hashes keys)).

(** ** All the keys of a deposit, in one list *)

Definition wots_vars : list string :=
  "bridge_out_txid" :: "public_inputs_hash"
    :: ((λ i, "proof_element_" +:+ pretty (N.of_nat i)) <$> (seq 0 NUM_U256 ++ seq 40 NUM_HASH)).

Definition wots_seeds `{WotsLib} (msk : string) (txid : Txid) : list string :=
  (λ var, get_deposit_master_secret_key msk txid +:+ ":" +:+ var) <$> wots_vars.

Definition wots_keys (keys : PublicKeys) : list (list (list N)) :=
  withdrawal_fulfillment keys :: vec_to_list (g16_public_inputs (groth16 keys))
    ++ vec_to_list (g16_fqs (groth16 keys)) ++ vec_to_list (g16_hashes (groth16 keys)).

Definition wots_sigs (sigs : Signatures) : list (list (list N)) :=
  sig_withdrawal_fulfillment sigs :: vec_to_list (sig_public_inputs (sig_groth16 sigs))
    ++ vec_to_list (sig_field_elems (sig_groth16 sigs)) ++ vec_to_list (sig_hashes (sig_groth16 sigs)).

Definition wots_data (assertions : Assertions) : list (list N) :=
  assert_withdrawal_fulfillment assertions :: vec_to_list (assert_public_inputs assertions)
    ++ vec_to_list (assert_field_elems assertions) ++ vec_to_list (assert_hashes assertions).

(** The first keys sign messages of 32 bytes, the others hashes of 16. *)
Definition wots_keygen `{WotsLib} (i : nat) : list N → list (list N) :=
  if decide (i < 2 + NUM_U256) then wots256_generate_public_key else wots_hash_generate_public_key.
Definition wots_sign `{WotsLib} (i : nat) : list N → list N → list (list N) :=
  if decide (i < 2 + NUM_U256) then wots256_sign else wots_hash_sign.

(** ** Lemmas *)

Lemma array_of_Val {A} n (v : list A) :
  length v = n → ∃ xs, array_of n v = Val xs ∧ vec_to_list xs = v.
Proof.
  revert n. induction v as [|x v IH]; intros [|n] Hn; try done; cbn [array_of].
  { by exists [#]. }
  destruct (IH n) as (xs & E & Hxs); [by injection Hn|]. exists (x ::: xs). rewrite E. cbn.
  by rewrite Hxs.
Qed.

Lemma array_of_to_list {A n} (v : vec A n) : array_of n (vec_to_list v) = Val v.
Proof.
  destruct (array_of_Val n (vec_to_list v)) as (xs & E & Hxs); [apply length_vec_to_list|].
  rewrite E. f_equal. by apply vec_to_list_inj2.
Qed.

Lemma array_from_fn_list {A} n i (f : nat → A) : vec_to_list (array_from_fn n i f) = f <$> seq i n.
Proof. revert i. induction n as [|n IH]; intros i; cbn; [done|]. by rewrite IH. Qed.

Lemma append_inj (s1 s2 t1 t2 : string) :
  String.length s1 = String.length s2 → s1 +:+ t1 = s2 +:+ t2 → s1 = s2 ∧ t1 = t2.
Proof.
  revert s2. induction s1 as [|a s1 IH]; intros [|b s2] Hlen E; try done.
  injection Hlen as Hlen. injection E as -> E. destruct (IH s2 Hlen E) as [-> ->]. done.
Qed.

Lemma append_assoc (s t u : string) : (s +:+ t) +:+ u = s +:+ (t +:+ u).
Proof. induction s as [|a s IH]; [done|]. exact (f_equal (String a) IH). Qed.

(** A seed determines the deposit and the variable. *)
Lemma seed_inj `{WotsLib} `{!WotsLaws} msk txid txid' var var' :
  txid_wf txid → txid_wf txid' →
  get_deposit_master_secret_key msk txid +:+ ":" +:+ var =
    get_deposit_master_secret_key msk txid' +:+ ":" +:+ var' → txid = txid' ∧ var = var'.
Proof.
  intros Hwf Hwf'. unfold get_deposit_master_secret_key. rewrite !append_assoc. intros E.
  apply append_inj in E as [_ E]; [|done]. apply append_inj in E as [_ E]; [|done].
  apply append_inj in E as [E E']; [|by rewrite !txid_display_length by done].
  apply append_inj in E' as [_ ->]; [|done]. split; [|done]. by apply txid_display_inj.
Qed.

Lemma wots_vars_NoDup : NoDup wots_vars.
Proof. apply (bool_decide_unpack _). vm_compute. exact I. Qed.

Lemma wots_seeds_NoDup `{WotsLib} `{!WotsLaws} msk txids :
  Forall txid_wf txids → NoDup txids → NoDup (txids ≫= wots_seeds msk).
Proof.
  intros Hwf. induction 1 as [|txid txids Hnin _ IH]; [constructor|].
  apply Forall_cons in Hwf as [Htx Hwf].
  change (NoDup (wots_seeds msk txid ++ (txids ≫= wots_seeds msk))). apply NoDup_app. split_and!.
  - apply NoDup_fmap_2_strong; [|apply wots_vars_NoDup].
    intros var var' _ _ E. by apply seed_inj in E as [_ ->].
  - intros seed (var & -> & Hvar)%list_elem_of_fmap (txid' & Hin & Htx')%list_elem_of_bind.
    apply list_elem_of_fmap in Hin as (var' & E & _). rewrite Forall_forall in Hwf.
    apply seed_inj in E as [<- _]; auto.
  - auto.
Qed.

(** Reading what was written. *)
Lemma read_array_write {A} n (read : nat → list N → nat + (A * list N)) (write : A → list N) idx
    (v : vec A n) rest :
  Forall (λ x, ∀ idx rest, read idx (write x ++ rest) = inr (x, rest)) (vec_to_list v) →
  read_array n read idx (mjoin (write <$> vec_to_list v) ++ rest) = inr (v, rest).
Proof.
  revert idx. induction v as [|x n v IH]; intros idx; [done|].
  cbn [vec_to_list]. intros [Hx Hv]%Forall_cons. cbn [read_array].
  change (mjoin (write <$> x :: vec_to_list v)) with (write x ++ mjoin (write <$> vec_to_list v)).
  by rewrite <- app_assoc, Hx, IH.
Qed.

Lemma read_bytes_write err (v : vec N WOTS_HASH_DIGEST_SIZE) rest :
  read_array _ (λ byte_idx, next_element (err byte_idx)) 0 (vec_to_list v ++ rest) = inr (v, rest).
Proof.
  pose proof (read_array_write _ (λ byte_idx, next_element (err byte_idx)) (λ b, [b]) 0 v rest) as E.
  replace (mjoin ((λ b, [b]) <$> vec_to_list v)) with (vec_to_list v) in E.
  - apply E. apply Forall_true. done.
  - clear E. induction (vec_to_list v) as [|b l IH]; [done|]. exact (f_equal (cons b) IH).
Qed.

Lemma read_key_write width scale key rest :
  key_wf width key → read_key width scale (mjoin key ++ rest) = inr (key, rest).
Proof.
  intros [<- Hall]. unfold read_key.
  rewrite <- (vec_to_list_to_vec key) at 2. rewrite <- (list_fmap_id (vec_to_list _)).
  rewrite read_array_write; [by rewrite vec_to_list_to_vec|].
  rewrite vec_to_list_to_vec. eapply Forall_impl; [exact Hall|]. intros seg Hseg idx rest'. cbn beta.
  unfold id. revert Hseg. rewrite <- (vec_to_list_to_vec seg) at 2 3. intros Hseg.
  revert Hseg. generalize (list_to_vec seg) as v.
  intros v Hseg. revert v. rewrite Hseg. intros v. by rewrite read_bytes_write.
Qed.

(** Reading a sequence that is too short. *)
Lemma read_bytes_short n c idx seq :
  length seq < n →
  read_array n (λ byte_idx, next_element (c * (byte_idx + 1))) idx seq = inl (c * (idx + length seq + 1)).
Proof.
  revert idx seq. induction n as [|n IH]; intros idx seq Hlen; [lia|].
  destruct seq as [|b seq]; cbn [read_array next_element length]; [do 2 f_equal; lia|].
  rewrite IH by (cbn in Hlen; lia). do 2 f_equal. lia.
Qed.

Lemma read_key_short width scale seq :
  length seq < WOTS_HASH_DIGEST_SIZE * width →
  read_key width scale seq = inl (scale * (length seq / 20 + 1) * (length seq mod 20 + 1)).
Proof.
  unfold read_key. change WOTS_HASH_DIGEST_SIZE with 20. set (read := λ key_idx seq, _).
  assert (∀ idx, length seq < 20 * width →
    read_array width read idx seq = inl (scale * (idx + length seq / 20 + 1) * (length seq mod 20 + 1))) as Hread;
    [|intros Hlen; by rewrite (Hread 0 Hlen)].
  revert seq. induction width as [|width IH]; intros seq idx Hlen; [lia|]. cbn [read_array].
  destruct (decide (length seq < 20)) as [Hlt|Hge].
  - unfold read at 1. rewrite read_bytes_short, Nat.div_small, Nat.mod_small by lia. f_equal. lia.
  - unfold read at 1. rewrite <- (take_drop 20 seq) at 1.
    destruct (array_of_Val 20 (take 20 seq)) as (xs & _ & Hv); [rewrite length_take; lia|].
    rewrite <- Hv. rewrite read_bytes_write, IH by (rewrite length_drop; lia).
    rewrite length_drop. replace (length seq) with (1 * 20 + (length seq - 20)) at 3 4 by lia.
    rewrite Nat.div_add_l, (Nat.add_comm (1 * 20)), Nat.Div0.mod_add by lia. do 2 f_equal. lia.
Qed.

Lemma length_mjoin_const {A} (m : nat) (l : list (list A)) :
  Forall (λ x, length x = m) l → length (mjoin l) = m * length l.
Proof.
  induction 1 as [|x l Hx _ IH]; [cbn; lia|]. change (mjoin (x :: l)) with (x ++ mjoin l).
  rewrite length_app, IH, Hx. cbn [length]. lia.
Qed.

Lemma Groth16PublicKeys_try_from_into keys :
  Groth16PublicKeys_try_from (Groth16PublicKeys_into keys) = Val (inr keys).
Proof.
  unfold Groth16PublicKeys_try_from, Groth16PublicKeys_into.
  cbn [p2p_public_inputs p2p_fqs p2p_hashes]. rewrite !length_vec_to_list.
  rewrite !decide_False by (intros Hn; by apply Hn). rewrite !array_of_to_list. by destruct keys.
Qed.

Lemma Groth16PublicKeys_try_from_spec keys :
  (∃ g16, Groth16PublicKeys_try_from keys = Val (inr g16) ∧ Groth16PublicKeys_into g16 = keys) ∨
  ((length (p2p_public_inputs keys) ≠ NUM_PUBS ∨ length (p2p_fqs keys) ≠ NUM_U256
      ∨ length (p2p_hashes keys) ≠ NUM_HASH) ∧
   ∃ e, Groth16PublicKeys_try_from keys = Val (inl (e, keys))).
Proof.
  unfold Groth16PublicKeys_try_from. destruct (decide (length (p2p_public_inputs keys) ≠ NUM_PUBS)) as [Hn|Hi].
  { right. eauto. }
  apply dec_stable in Hi. destruct (array_of_Val _ _ Hi) as (ins & -> & His). cbn [mbind comp_bind].
  destruct (decide (length (p2p_fqs keys) ≠ NUM_U256)) as [Hn|Hf]; [right; eauto|].
  apply dec_stable in Hf. destruct (array_of_Val _ _ Hf) as (fs & -> & Hfs). cbn [mbind comp_bind].
  destruct (decide (length (p2p_hashes keys) ≠ NUM_HASH)) as [Hn|Hh]; [right; eauto|].
  apply dec_stable in Hh. destruct (array_of_Val _ _ Hh) as (hs & -> & Hhs). left.
  eexists. split; [reflexivity|]. unfold Groth16PublicKeys_into. cbn. rewrite His, Hfs, Hhs.
  by destruct keys.
Qed.

Lemma imap_block {A} (F : nat → string → A) (g : nat → string) (f : nat → A) s n :
  (∀ j, j < n → F j (g (s + j)) = f j) → imap F (g <$> seq s n) = f <$> seq 0 n.
Proof.
  intros HF. apply list_eq. intros j. rewrite list_lookup_imap, !list_lookup_fmap.
  destruct (decide (j < n)) as [Hj|Hj].
  - rewrite !lookup_seq_lt by done. cbn. by rewrite HF.
  - by rewrite !lookup_seq_ge by lia.
Qed.

Lemma wots_data_field assertions j : j < NUM_U256 →
  wots_data assertions !! S (S j) = vec_to_list (assert_field_elems assertions) !! j.
Proof.
  intros Hj. unfold wots_data. rewrite lookup_cons_ne_0 by lia. cbn [Nat.pred].
  rewrite lookup_app_r by (rewrite length_vec_to_list; unfold NUM_PUBS; lia).
  rewrite length_vec_to_list. replace (S j - NUM_PUBS) with j by (unfold NUM_PUBS; lia).
  by rewrite lookup_app_l by by rewrite length_vec_to_list.
Qed.

Lemma wots_data_hash assertions j :
  wots_data assertions !! (16 + j) = vec_to_list (assert_hashes assertions) !! j.
Proof.
  unfold wots_data. rewrite lookup_cons_ne_0 by lia. cbn [Nat.add Nat.pred].
  rewrite lookup_app_r, length_vec_to_list by (rewrite length_vec_to_list; unfold NUM_PUBS; lia).
  rewrite lookup_app_r, length_vec_to_list by (rewrite length_vec_to_list; unfold NUM_PUBS, NUM_U256; lia).
  f_equal. unfold NUM_PUBS, NUM_U256. lia.
Qed.

Lemma public_inputs_one {A} (v : vec A NUM_PUBS) : vec_to_list v = [Vector.hd v].
Proof. apply (vec_S_inv (λ v, vec_to_list v = [Vector.hd v])). intros x w. by inv_vec w. Qed.

(** The list of seeds, block by block. *)
Lemma imap_wots_seeds `{WotsLib} {A} (F : nat → string → A) msk txid (fq fh : nat → A) :
  let seed var := get_deposit_master_secret_key msk txid +:+ ":" +:+ var in
  let element i := seed ("proof_element_" +:+ pretty (N.of_nat i)) in
  (∀ j, j < NUM_U256 → F (S (S j)) (element j) = fq j) →
  (∀ j, j < NUM_HASH → F (16 + j) (element (40 + j)) = fh j) →
  imap F (wots_seeds msk txid) =
    F 0 (seed "bridge_out_txid") :: F 1 (seed "public_inputs_hash")
      :: vec_to_list (array_from_fn NUM_U256 0 fq) ++ vec_to_list (array_from_fn NUM_HASH 0 fh).
Proof.
  intros seed element Hfq Hfh. rewrite !array_from_fn_list.
  unfold wots_seeds, wots_vars. rewrite !fmap_cons, fmap_app, fmap_app, <- !list_fmap_compose.
  rewrite !imap_cons, imap_app. do 3 f_equal; [by apply imap_block|]. apply imap_block.
  intros j Hj. rewrite length_fmap, length_seq. by apply Hfh.
Qed.

(** ** Properties *)

(** No one-time key is used twice.  For any set of deposits, the seeds from which an operator
    derives their keys are pairwise different, over all the deposits and all the variables of a
    deposit; the keys of a deposit are generated from its seeds, position by position; and the
    signature of a position is made with the secret that the key of the same position was
    generated from, over the datum of that position. *)
Theorem wots_keys_are_one_time `{WotsLib} `{!WotsLaws} msk txids txid assertions :
  Forall txid_wf txids → NoDup txids →
  NoDup (txids ≫= wots_seeds msk) ∧
  length (wots_seeds msk txid) = 379 ∧
  wots_keys (PublicKeys_new msk txid) =
    imap (λ i seed, wots_keygen i (sha256_str seed)) (wots_seeds msk txid) ∧
  wots_sigs (Signatures_new msk txid assertions) =
    imap (λ i seed, wots_sign i (sha256_str seed) (default [] (wots_data assertions !! i)))
      (wots_seeds msk txid).
Proof.
  intros Hwf Hnd. split_and!; [by apply wots_seeds_NoDup|by unfold wots_seeds; rewrite length_fmap|..].
  - rewrite (imap_wots_seeds _ _ _
      (λ i, wots256_generate_public_key (secret_key_for_proof_element (get_deposit_master_secret_key msk txid) i))
      (λ i, wots_hash_generate_public_key
         (secret_key_for_proof_element (get_deposit_master_secret_key msk txid) (i + 40))));
      [done|intros j Hj; unfold wots_keygen..].
    + by rewrite decide_True by (unfold NUM_U256 in *; lia).
    + rewrite decide_False by (unfold NUM_U256; lia). by rewrite (Nat.add_comm j 40).
  - rewrite (imap_wots_seeds _ _ _
      (λ i, wots256_sign (secret_key_for_proof_element (get_deposit_master_secret_key msk txid) i)
         (default [] (vec_to_list (assert_field_elems assertions) !! i)))
      (λ i, wots_hash_sign
         (secret_key_for_proof_element (get_deposit_master_secret_key msk txid) (i + 40))
         (default [] (vec_to_list (assert_hashes assertions) !! i))));
      [|intros j Hj; unfold wots_sign..].
    + unfold wots_data, wots_sigs, Signatures_new, Groth16Sigs_new.
      cbn [sig_withdrawal_fulfillment sig_groth16 sig_public_inputs sig_field_elems sig_hashes vec_to_list app].
      by rewrite public_inputs_one.
    + by rewrite decide_True, wots_data_field by (unfold NUM_U256 in *; lia).
    + rewrite decide_False, wots_data_hash by (unfold NUM_U256; lia). by rewrite (Nat.add_comm j 40).
Qed.

(** A set of keys survives the trip through the p2p library's messages, and a message gives
    keys exactly when it has the right number of keys of each kind; otherwise the conversion
    fails, without a panic, and hands the message back. *)
Theorem wots_keys_cross_p2p :
  (∀ keys, PublicKeys_try_from (PublicKeys_into keys) = Val (inr keys)) ∧
  ∀ value,
    (∃ keys, PublicKeys_try_from value = Val (inr keys) ∧ PublicKeys_into keys = value) ∨
    ((length (p2p_public_inputs (p2p_groth16 value)) ≠ NUM_PUBS
        ∨ length (p2p_fqs (p2p_groth16 value)) ≠ NUM_U256
        ∨ length (p2p_hashes (p2p_groth16 value)) ≠ NUM_HASH) ∧
     ∃ e, PublicKeys_try_from value = Val (inl (e, value))).
Proof.
  unfold PublicKeys_try_from. split.
  - intros [wf g16]. cbn [PublicKeys_into p2p_groth16 groth16].
    by rewrite Groth16PublicKeys_try_from_into.
  - intros [wf keys]. cbn [p2p_groth16 p2p_withdrawal_fulfillment].
    destruct (Groth16PublicKeys_try_from_spec keys) as [(g16 & -> & E)|(Hlen & e & ->)].
    + left. eexists. split; [reflexivity|]. unfold PublicKeys_into. cbn. by rewrite E.
    + right. split; [done|]. by exists e.
Qed.

(** The keys survive serialization, whatever follows them in the sequence.  A sequence that is
    too short is an error, which reports the product of the positions at which it ends, not the
    number of elements read; and the length announced to the serializer is the size of a
    pointer, not the 1360 bytes of the key that follow. *)
Theorem wots_keys_serde :
  (∀ key rest, key_wf (wots_key_width 256) key →
    Wots256PublicKey_visit_seq (ser_elements (Wots256PublicKey_serialize key) ++ rest) = inr (key, rest) ∧
    length (ser_elements (Wots256PublicKey_serialize key)) = 1360 ∧
    ser_len (Wots256PublicKey_serialize key) = Some 8) ∧
  (∀ keys rest, groth16_wf keys →
    Groth16PublicKeys_visit_seq (ser_elements (Groth16PublicKeys_serialize keys) ++ rest)
      = inr (keys, rest)) ∧
  (∀ seq, length seq < 1360 →
    Wots256PublicKey_visit_seq seq = inl ((length seq / 20 + 1) * (length seq mod 20 + 1))).
Proof.
  split_and!.
  - intros key rest Hwf. split_and!; [by apply read_key_write| |done].
    cbn [ser_elements Wots256PublicKey_serialize]. destruct Hwf as [Hlen Hall].
    rewrite (length_mjoin_const 20) by done. rewrite Hlen. vm_compute. reflexivity.
  - intros keys rest (Hi & Hf & Hh). unfold Groth16PublicKeys_visit_seq.
    cbn [ser_elements Groth16PublicKeys_serialize]. rewrite <- !app_assoc.
    rewrite !read_array_write; [by destruct keys|..];
      (eapply Forall_impl; [eassumption|]; intros key Hkey idx rest'; by apply read_key_write).
  - intros seq Hlen. unfold Wots256PublicKey_visit_seq. rewrite read_key_short by exact Hlen.
    f_equal. lia.
Qed.

(** ** Witnesses *)

(** The digits of a number, the least significant first. *)
Fixpoint example_display (k : nat) (n : N) : string :=
  match k with
  | 0 => ""%string
  | S k => String (Ascii.ascii_of_N (n mod 16)) (example_display k (n / 16))
  end.

Lemma length_example_display k n : String.length (example_display k n) = k.
Proof. revert n. induction k as [|k IH]; intros n; [done|]. cbn. by rewrite IH. Qed.

Lemma example_display_inj k n n' :
  (n < 16 ^ N.of_nat k)%N → (n' < 16 ^ N.of_nat k)%N →
  example_display k n = example_display k n' → n = n'.
Proof.
  revert n n'. induction k as [|k IH]; intros n n' Hn Hn' E.
  { change (16 ^ N.of_nat 0)%N with 1%N in *. lia. }
  rewrite Nat2N.inj_succ, N.pow_succ_r' in Hn, Hn'. cbn [example_display] in E.
  injection E as E1 E2.
  rewrite (N.div_mod n 16), (N.div_mod n' 16) by done. f_equal.
  - f_equal. apply IH; [apply N.Div0.div_lt_upper_bound; lia..|done].
  - apply (f_equal Ascii.N_of_ascii) in E1. rewrite !Ascii.N_ascii_embedding in E1; [done|..];
      (etrans; [apply N.mod_lt; done|done]).
Qed.

Definition example_wots : WotsLib := {|
  txid_display := example_display 64;
  sha256_str := λ s, N.of_nat ∘ Ascii.nat_of_ascii <$> String.list_ascii_of_string s;
  wots256_generate_public_key := λ sk, [sk];
  wots_hash_generate_public_key := λ sk, [sk; sk];
  wots256_sign := λ sk data, [sk; data];
  wots_hash_sign := λ sk data, [data; sk];
|}.

#[global] Instance example_wots_laws : @WotsLaws example_wots.
Proof. split; [intros txid _; apply length_example_display|intros txid txid'; apply (example_display_inj 64)]. Qed.

Definition example_assertions : Assertions :=
  mkAssertions [1]%N (vreplicate NUM_PUBS [2]%N) (vreplicate NUM_U256 [3]%N) (vreplicate NUM_HASH [4]%N).

Lemma wots_keys_are_one_time_witness :
  NoDup ([5; 6; 7]%N ≫= @wots_seeds example_wots "msk") ∧
  wots_sigs (@Signatures_new example_wots "msk" 6%N example_assertions) =
    imap (λ i seed, @wots_sign example_wots i (@sha256_str example_wots seed)
      (default [] (wots_data example_assertions !! i))) (@wots_seeds example_wots "msk" 6%N).
Proof.
  destruct (@wots_keys_are_one_time example_wots example_wots_laws "msk" [5; 6; 7]%N 6%N
    example_assertions) as (H1 & _ & _ & H2).
  - repeat (apply Forall_cons; split; [vm_compute; reflexivity|]). apply Forall_nil. done.
  - apply (bool_decide_unpack _). vm_compute. exact I.
  - exact (conj H1 H2).
Defined.
