(* ===== verification/TxTypes.v ===== *)
(** * Parameters and transaction data shared by the components

    The consensus parameters ([params/src]), partially signed transactions and the covenant
    transactions built on them ([tx-graph/src/transactions/covenant_tx.rs],
    [primitives/src/scripts/taproot.rs]), the deposit transaction and its request
    ([tx-graph/src/transactions/deposit.rs]), the withdrawal fulfillment transaction
    ([.../withdrawal_fulfillment.rs]), the data that stake transactions
    ([stake-chain/src]) and peg-out graphs ([tx-graph/src/peg_out_graph.rs]) are made from. *)

From S2P Require Import Prelude Bitcoin Wots.

(** ** Parameters *)

(** A tag is exactly four bytes ([params/src/types.rs]). *)
Definition TAG_SIZE : nat := 4.
Definition Tag : Type := vec N TAG_SIZE.

Inductive TagError := InvalidSize (size : nat) | ConversionFailed.

(** [TryFrom<Vec<u8>>] and [TryFrom<&[u8]>]. *)
Definition Tag_try_from (bytes : list N) : result TagError Tag :=
  match decide (length bytes = TAG_SIZE) with
  | left H => Ok (eq_rect (length bytes) (vec N) (list_to_vec bytes) TAG_SIZE H)
  | right _ => Err (InvalidSize (length bytes))
  end.

Definition as_bytes (tag : Tag) : list N := vec_to_list tag.
Definition Tag_is_empty (tag : Tag) : bool := forallb (λ b, bool_decide (b = 0%N)) (as_bytes tag).

Record ConnectorParams := mkConnectorParams {
  payout_optimistic_timelock : N;
  pre_assert_timelock : N;
  payout_timelock : N;
}.

Definition ConnectorParams_default : ConnectorParams := mkConnectorParams 1008 1152 1008.

Record StakeChainParams := mkStakeChainParams {
  stake_amount : Amount;
  burn_amount : Amount;
  delta : N;
  slash_stake_count : nat;
}.

Definition BTC : N := 100000000.

Definition StakeChainParams_default : StakeChainParams := mkStakeChainParams (3 * BTC) (1 * BTC) 6 24.

Record PegOutGraphParams := mkPegOutGraphParams {
  tag : Tag;
  deposit_amount : Amount;
  operator_fee : Amount;
  challenge_cost : Amount;
  refund_delay : N;
}.

(** The bytes of ["alpn"]. *)
Definition BRIDGE_TAG : Tag := [# 97; 108; 112; 110]%N.

Definition PegOutGraphParams_default : PegOutGraphParams :=
  mkPegOutGraphParams BRIDGE_TAG (10 * BTC) 10000000 (1 * BTC) (144 * 7).

(** ** Partially signed transactions *)

Inductive TapSighashType :=
| SighashDefault
| SighashAll
| SighashNone
| SighashSingle
| SighashAllPlusAnyoneCanPay
| SighashNonePlusAnyoneCanPay
| SighashSinglePlusAnyoneCanPay.

#[global] Instance TapSighashType_eq_dec : EqDecision TapSighashType.
Proof. solve_decision. Defined.

(** Schnorr signatures are 64 bytes; [taproot::Signature::serialize] adds the byte of a hash type
    other than the default one. *)
Abbreviation SchnorrSignature := N (only parsing).

Record TaprootSignature := mkTaprootSignature {
  signature : SchnorrSignature;
  sig_sighash_type : TapSighashType;
}.

Definition sighash_byte (t : TapSighashType) : N :=
  match t with
  | SighashDefault => 0x00 | SighashAll => 0x01 | SighashNone => 0x02 | SighashSingle => 0x03
  | SighashAllPlusAnyoneCanPay => 0x81 | SighashNonePlusAnyoneCanPay => 0x82
  | SighashSinglePlusAnyoneCanPay => 0x83
  end.

Definition serialize_schnorr (s : SchnorrSignature) : list N := to_be_bytes 64 s.
Definition serialize_taproot (s : TaprootSignature) : list N :=
  serialize_schnorr (signature s)
    ++ match sig_sighash_type s with SighashDefault => [] | t => [sighash_byte t] end.

(** What the program sets of a [psbt::Input]. *)
Record PsbtInput := mkPsbtInput {
  witness_utxo : option TxOut;
  sighash_type : option TapSighashType;
  final_script_witness : option (list (list N));
}.

Record Psbt := mkPsbt { unsigned_tx : Transaction; psbt_inputs : list PsbtInput }.

(** [Psbt::from_unsigned_tx]: one empty input record per input.  It fails only on a transaction
    with a script signature or a witness, which [create_tx_ins] never sets. *)
Definition from_unsigned_tx (tx : Transaction) : Psbt :=
  mkPsbt tx (replicate (length (input tx)) (mkPsbtInput None None None)).

(** [primitives/src/scripts/taproot.rs]: [finalize_input]. *)
Definition finalize_input (i : PsbtInput) (witnesses : list (list N)) : PsbtInput :=
  mkPsbtInput (witness_utxo i) None (Some witnesses).

(** [extract_tx_unchecked_fee_rate]: the transaction with the final witnesses. *)
Definition extract_tx (p : Psbt) : Transaction :=
  mkTransaction (version (unsigned_tx p)) (lock_time (unsigned_tx p))
    (zip_with (λ txin pin, mkTxIn (previous_output txin) (script_sig txin) (sequence txin)
       (default [] (final_script_witness pin))) (input (unsigned_tx p)) (psbt_inputs p))
    (output (unsigned_tx p)).

(** ** Signature hashes *)

Abbreviation Message := N (only parsing).

(** [SighashCache]: the hash an input's signature commits to, by the key path or by the path of
    a script; [None] is an error, such as an input index out of range. *)
Class SighashLib := {
  taproot_key_spend_signature_hash :
    Transaction → nat → list TxOut → TapSighashType → option Message;
  taproot_script_spend_signature_hash :
    Transaction → nat → list TxOut → ScriptBuf → TapSighashType → option Message;
}.

Definition create_message_hash `{SighashLib} (tx : Transaction) (prevouts : list TxOut)
    (witness_type : TaprootWitness) (sighash_type : TapSighashType) (input_index : nat)
    : option Message :=
  match witness_type with
  | Script script_buf _ =>
      taproot_script_spend_signature_hash tx input_index prevouts script_buf sighash_type
  | _ => taproot_key_spend_signature_hash tx input_index prevouts sighash_type
  end.

(** A transaction that needs N-of-N signatures on its first [n] inputs. *)
Record CovenantTx (n : nat) := mkCovenantTx {
  psbt : Psbt;
  prevouts : list TxOut;
  witnesses : vec TaprootWitness n;
}.
Arguments mkCovenantTx {_} _ _ _.
Arguments psbt {_} _.
Arguments prevouts {_} _.
Arguments witnesses {_} _.

(** The first [n] elements of a slice as an array ([get(..n)] and [try_into]). *)
Fixpoint first_n {A} (n : nat) (l : list A) : option (vec A n) :=
  match n with
  | 0 => Some [#]
  | S n =>
      match l with
      | [] => None
      | x :: l => vcons x <$> first_n n l
      end
  end.

Definition sighash_types {n} (tx : CovenantTx n) : comp (vec TapSighashType n) :=
  expect (vmap (λ i, default SighashDefault (sighash_type i)) <$> first_n n (psbt_inputs (psbt tx))).

(** An array of computations, in order. *)
Fixpoint vmapM_comp {A B} (f : nat → A → comp B) {n} (i : nat) (v : vec A n) : comp (vec B n) :=
  match v with
  | [#] => Val [#]
  | x ::: v => y ← f i x; w ← vmapM_comp f (S i) v; Val (y ::: w)
  end.

Definition sighashes `{SighashLib} {n} (tx : CovenantTx n) : comp (vec Message n) :=
  types ← sighash_types tx;
  vmapM_comp (λ i '(sighash_type, witness_type),
    expect (create_message_hash (unsigned_tx (psbt tx)) (prevouts tx) witness_type sighash_type i))
    0 (vzip_with pair types (witnesses tx)).

(** [Amount]'s [Sum]: a wrapping or panicking [u64] sum. *)
Definition amount_sum `{BuildProfile} (l : list Amount) : comp Amount := foldlM u64_add 0%N l.

Definition input_amount `{BuildProfile} {n} (tx : CovenantTx n) : comp Amount :=
  values ← mapM (λ i, value <$> expect (witness_utxo i)) (psbt_inputs (psbt tx));
  amount_sum values.

Definition covenant_txid `{BitcoinLib} {n} (tx : CovenantTx n) : Txid :=
  compute_txid (unsigned_tx (psbt tx)).

(** ** Withdrawal fulfillment *)

(** [bitcoin_bosd::Descriptor]: the script a descriptor stands for, and the address on a
    network, which may not exist. *)
Abbreviation Descriptor := N (only parsing).

Class DescriptorLib := {
  to_script : Descriptor → ScriptBuf;
  to_address : Descriptor → Network → option ScriptBuf;
}.

Record WithdrawalMetadata := mkWithdrawalMetadata {
  wm_tag : Tag;
  wm_operator_idx : OperatorIdx;
  wm_deposit_idx : N;
  wm_deposit_txid : Txid;
}.

(** [consensus::encode::serialize] of a txid: its 32 bytes. *)
Definition serialize_txid (txid : Txid) : list N := to_be_bytes 32 txid.

Definition wm_op_return_data (m : WithdrawalMetadata) : list N :=
  as_bytes (wm_tag m) ++ to_be_bytes 4 (wm_operator_idx m) ++ to_be_bytes 4 (wm_deposit_idx m)
    ++ serialize_txid (wm_deposit_txid m).

Definition WithdrawalFulfillment_new `{ScriptLib, DescriptorLib} (metadata : WithdrawalMetadata)
    (sender_outpoints : list OutPoint) (amount : Amount) (change : option TxOut)
    (recipient_desc : Descriptor) : comp Transaction :=
  op_return_script ← op_return_nonce (wm_op_return_data metadata);
  let scripts_and_amounts :=
    [(to_script recipient_desc, amount); (op_return_script, 0%N)]
      ++ match change with Some c => [(script_pubkey c, value c)] | None => [] end in
  Val (create_tx (create_tx_ins sender_outpoints) (create_tx_outs scripts_and_amounts)).

(** ** Stakes and peg-out graphs *)

Record StakeTxData := mkStakeTxData {
  operator_funds : OutPoint;
  stk_hash : Sha256Hash;
  withdrawal_fulfillment_pk : Wots256PublicKey;
  stk_operator_pubkey : XOnlyPublicKey;
}.

Record StakeChainInputs := mkStakeChainInputs {
  stake_inputs : BTreeMap N StakeTxData;
  pre_stake_outpoint : OutPoint;
}.

(** A stake transaction: head or tail of the chain. *)
Record StakeTx := mkStakeTx {
  st_psbt : Psbt;
  st_hash : Sha256Hash;
  st_witnesses : vec TaprootWitness 2;
}.
Inductive StakeTxKind := StakeHead (t : StakeTx) | StakeTail (t : StakeTx).

Definition kind_psbt (k : StakeTxKind) : Psbt :=
  match k with StakeHead t => st_psbt t | StakeTail t => st_psbt t end.
Definition stake_txid_of `{BitcoinLib} (t : StakeTx) : Txid := compute_txid (unsigned_tx (st_psbt t)).
Definition kind_txid `{BitcoinLib} (k : StakeTxKind) : Txid :=
  match k with StakeHead t => stake_txid_of t | StakeTail t => stake_txid_of t end.

(** [stake-chain/src/prelude.rs]: the outputs of a stake transaction. *)
Definition WITHDRAWAL_FULFILLMENT_VOUT : N := 0.
Definition STAKE_VOUT : N := 2.

Record PegOutGraphInput := mkPegOutGraphInput {
  stake_outpoint : OutPoint;
  withdrawal_fulfillment_outpoint : OutPoint;
  pgi_stake_hash : Sha256Hash;
  wots_public_keys : PublicKeys;
  pgi_operator_pubkey : XOnlyPublicKey;
}.

Definition NUM_ASSERT_DATA_TX : nat := 39.

Record PegOutGraphSummary := mkPegOutGraphSummary {
  stake_txid : Txid;
  claim_txid : Txid;
  payout_optimistic_txid : Txid;
  pre_assert_txid : Txid;
  assert_data_txids : vec Txid NUM_ASSERT_DATA_TX;
  post_assert_txid : Txid;
  payout_txid : Txid;
  slash_stake_txids : list Txid;
}.

#[global] Instance PegOutGraphInput_eq_dec : EqDecision PegOutGraphInput.
Proof. solve_decision. Defined.

(** The outputs of a claim transaction ([transactions/claim.rs]) and the input of a disprove
    transaction that spends the post-assert ([transactions/disprove.rs]). *)
Definition CHALLENGE_VOUT : N := 1.
Definition POST_ASSERT_INPUT_INDEX : nat := 1.
