(* ===== verification/Taproot.v ===== *)
(** * Taproot addresses ([primitives/src/scripts/taproot.rs])

    [build_taptree] computes a depth for every script and hands the scripts to the [bitcoin]
    crate's builder, which accepts leaves in depth-first order and only when they make a
    complete binary tree.  The development shows that they always do, and that no leaf is
    deeper than it has to be. *)

From S2P Require Import Prelude Bitcoin.

(** ** The library *)

(** [TaprootBuilder] (adding leaves with their depth and finalizing; [None] is an error),
    [TaprootSpendInfo], [Address::p2tr], [TapNodeHash::from_script], and the key without a
    known secret of [strata_primitives]. *)
Class TaprootLib := {
  TaprootSpendInfo : Type;
  finalize_taptree : XOnlyPublicKey → list (nat * ScriptBuf) → option TaprootSpendInfo;
  merkle_root : TaprootSpendInfo → option TapNodeHash;
  control_block : TaprootSpendInfo → ScriptBuf → option N;
  p2tr : XOnlyPublicKey → option TapNodeHash → Network → ScriptBuf;
  tapnode_from_script : ScriptBuf → TapNodeHash;
  UNSPENDABLE_PUBLIC_KEY : XOnlyPublicKey;
}.

(** A binary tree with scripts in its leaves, and its leaves in depth-first order with their
    depths when its root is at depth [d]. *)
Inductive taptree := Leaf (script : ScriptBuf) | Node (l r : taptree).

Fixpoint leaves (d : nat) (t : taptree) : list (nat * ScriptBuf) :=
  match t with
  | Leaf s => [(d, s)]
  | Node l r => leaves (S d) l ++ leaves (S d) r
  end.

Fixpoint height (t : taptree) : nat :=
  match t with
  | Leaf _ => 0
  | Node l r => S (height l `max` height r)
  end.

(** What the program relies on: the builder accepts the depth-first leaves of a tree that is no
    higher than BIP341 allows, accepts no leaves at all (a key-only output), and knows a control
    block for every leaf; the merkle root of a single leaf is the leaf's hash, and without leaves
    there is no root. *)
Definition TAPROOT_CONTROL_MAX_NODE_COUNT : nat := 128.

Class TaprootLaws `{TaprootLib} : Prop := {
  taptree_accepts : ∀ key t, height t ≤ TAPROOT_CONTROL_MAX_NODE_COUNT →
    ∃ info, finalize_taptree key (leaves 0 t) = Some info ∧
      ∀ d s, (d, s) ∈ leaves 0 t → is_Some (control_block info s);
  taptree_empty : ∀ key, is_Some (finalize_taptree key []);
  merkle_root_single : ∀ key s info,
    finalize_taptree key [(0, s)] = Some info → merkle_root info = Some (tapnode_from_script s);
  merkle_root_empty : ∀ key info, finalize_taptree key [] = Some info → merkle_root info = None;
}.

(** ** Definitions *)

Inductive SpendPath :=
| KeySpend (internal_key : XOnlyPublicKey)
| ScriptSpend (scripts : list ScriptBuf)
| Both (internal_key : XOnlyPublicKey) (scripts : list ScriptBuf).

Inductive BridgeTxBuilderError := EmptyTapscript | TaprootBuilderError.

(** The depth of each of [num_scripts] leaves. *)
Definition max_depth (num_scripts : nat) : nat :=
  if decide (1 < num_scripts) then Nat.log2 (num_scripts - 1) + 1 else 0.

Definition leaf_depth (num_scripts script_idx : nat) : nat :=
  let max_num_scripts := 2 ^ max_depth num_scripts in
  let num_penultimate_scripts := max_num_scripts - num_scripts in
  let num_deepest_scripts := num_scripts - num_penultimate_scripts in
  if decide (script_idx < num_deepest_scripts) then max_depth num_scripts
  else max_depth num_scripts - 1.

Definition taptree_leaves (scripts : list ScriptBuf) : list (nat * ScriptBuf) :=
  imap (λ script_idx script, (leaf_depth (length scripts) script_idx, script)) scripts.

Section addresses.
Context `{TaprootLib}.

(** The address, as its [script_pubkey], and the spend info. *)
Definition build_taptree (internal_key : XOnlyPublicKey) (network : Network)
    (scripts : list ScriptBuf) : result BridgeTxBuilderError (ScriptBuf * TaprootSpendInfo) :=
  spend_info ← ok_or (finalize_taptree internal_key (taptree_leaves scripts)) TaprootBuilderError;
  Ok (p2tr internal_key (merkle_root spend_info) network, spend_info).

Definition create_taproot_addr (network : Network) (spend_path : SpendPath)
    : result BridgeTxBuilderError (ScriptBuf * TaprootSpendInfo) :=
  match spend_path with
  | KeySpend internal_key => build_taptree internal_key network []
  | ScriptSpend scripts =>
      match scripts with
      | [] => Err EmptyTapscript
      | _ => build_taptree UNSPENDABLE_PUBLIC_KEY network scripts
      end
  | Both internal_key scripts => build_taptree internal_key network scripts
  end.

End addresses.

(** The scripts of a spend path. *)
Definition path_scripts (p : SpendPath) : list ScriptBuf :=
  match p with KeySpend _ => [] | ScriptSpend scripts => scripts | Both _ scripts => scripts end.

(** The tree for the leaves [l], of which the first [deep] (an even number) are one level
    deeper than the others. *)
Fixpoint pack_tree (h deep : nat) (l : list ScriptBuf) : taptree :=
  match h with
  | 0 =>
      match deep with
      | 0 => Leaf (default [] (head l))
      | _ => Node (Leaf (default [] (head l))) (Leaf (default [] (head (drop 1 l))))
      end
  | S h =>
      let left_deep := deep `min` (2 * 2 ^ h) in
      let left_len := 2 ^ h + left_deep / 2 in
      Node (pack_tree h left_deep (take left_len l)) (pack_tree h (deep - left_deep) (drop left_len l))
  end.

(** *** Witness descriptors as text *)

(** [str::split(':')]: the pieces between the colons, one more than there are colons. *)
Fixpoint split_colon (s : string) : list string :=
  match s with
  | EmptyString => [EmptyString]
  | String c s =>
      if decide (c = Ascii.ascii_of_nat 58) then EmptyString :: split_colon s
      else match split_colon s with
           | p :: ps => String c p :: ps
           | [] => [String c EmptyString]
           end
  end.

(** [consensus::encode]'s hex of a script and of a control block's bytes, the hex of a raw
    hash; [ControlBlock::decode] and [TapNodeHash::from_slice] on the bytes of a string. *)
Class HexLib := {
  serialize_hex_script : ScriptBuf → string;
  serialize_hex_control_block : N → string;
  raw_hash_hex : TapNodeHash → string;
  deserialize_hex_script : string → option ScriptBuf;
  decode_control_block : string → option N;
  tapnode_from_slice : string → option TapNodeHash;
}.

Fixpoint has_colon (s : string) : bool :=
  match s with
  | EmptyString => false
  | String c s => bool_decide (c = Ascii.ascii_of_nat 58) || has_colon s
  end.

(** Hex digits are not colons, a hex string has two digits per byte, and a control block is 33
    bytes followed by a whole number of 32-byte hashes. *)
Class HexLaws `{HexLib} : Prop := {
  hex_script_colon : ∀ s, has_colon (serialize_hex_script s) = false;
  hex_control_block_colon : ∀ b, has_colon (serialize_hex_control_block b) = false;
  hex_hash_colon : ∀ h, has_colon (raw_hash_hex h) = false;
  hex_control_block_even : ∀ b, Nat.even (String.length (serialize_hex_control_block b)) = true;
  decode_control_block_size : ∀ s b, decode_control_block s = Some b →
    ∃ k, String.length s = 33 + 32 * k;
}.

Section hex.
Context `{HexLib}.

Definition to_hex (w : TaprootWitness) : string :=
  match w with
  | Key => "key"
  | Script script_buf control_block =>
      "script:" +:+ serialize_hex_script script_buf +:+ ":"
        +:+ serialize_hex_control_block control_block
  | Tweaked tweak => "tweaked:" +:+ raw_hash_hex tweak
  end.

Inductive HexError := InvalidWitnessHex | DecodeError.

Definition from_hex (hex : string) : result HexError TaprootWitness :=
  match split_colon hex with
  | [witness_type; part1; part2] =>
      if decide (witness_type = "key") then Ok Key
      else if decide (witness_type = "script") then
        script_buf ← ok_or (deserialize_hex_script part1) DecodeError;
        control_block ← ok_or (decode_control_block part2) DecodeError;
        Ok (Script script_buf control_block)
      else if decide (witness_type = "tweaked") then
        tweak ← ok_or (tapnode_from_slice part1) DecodeError;
        Ok (Tweaked tweak)
      else Err InvalidWitnessHex
  | _ => Err InvalidWitnessHex
  end.

End hex.

(** A library whose builder checks the depth-first order, for the examples. *)
Fixpoint parse_leaves (fuel d : nat) (l : list (nat * ScriptBuf)) : option (list (nat * ScriptBuf)) :=
  match fuel with
  | 0 => None
  | S fuel =>
      match l with
      | [] => None
      | (d', _) :: rest =>
          if decide (d' = d) then Some rest
          else rest ← parse_leaves fuel (S d) l; parse_leaves fuel (S d) rest
      end
  end.

Definition example_finalize (l : list (nat * ScriptBuf)) : option (list ScriptBuf) :=
  match l with
  | [] => Some []
  | _ => rest ← parse_leaves 130 0 l; if decide (rest = []) then Some (l.*2) else None
  end.

Definition example_taproot : TaprootLib := {|
  TaprootSpendInfo := list ScriptBuf;
  finalize_taptree _ l := example_finalize l;
  merkle_root info :=
    match info with [] => None | [s] => Some (Npos (encode s)) | _ => Some (Npos (encode info)) end;
  control_block info s := if decide (s ∈ info) then Some 0%N else None;
  p2tr key root network := [key; default 0%N root; network];
  tapnode_from_script s := Npos (encode s);
  UNSPENDABLE_PUBLIC_KEY := 0%N;
|}.

(** Hex of short scripts, for the examples. *)
Definition example_hex : HexLib := {|
  serialize_hex_script s := if decide (s = []) then "00" else "0151";
  serialize_hex_control_block _ := "2102";
  raw_hash_hex _ := "ab";
  deserialize_hex_script s := if decide (s = "00") then Some [] else Some [81%N];
  decode_control_block s :=
    if decide (33 ≤ String.length s ∧ (String.length s - 33) mod 32 = 0) then Some 0%N else None;
  tapnode_from_slice s := None;
|}.

(** ** The depths make a tree *)

Lemma pow2_pos h : 0 < 2 ^ h.
Proof. induction h; cbn; lia. Qed.

Lemma pack_tree_leaves d h deep l :
  Nat.even deep = true → deep ≤ 2 * 2 ^ h → length l = 2 ^ h + deep / 2 →
  leaves d (pack_tree h deep l)
  = imap (λ i s, (if decide (i < deep) then S (d + h) else d + h, s)) l.
Proof.
  revert d deep l. induction h as [|h IH]; intros d deep l Hev Hle Hlen.
  - destruct deep as [|[|[|]]]; cbn in Hev, Hle; try done; try lia; cbn in Hlen.
    + destruct l as [|s [|]]; cbn in Hlen; try lia. cbn. by rewrite Nat.add_0_r.
    + destruct l as [|s [|s' [|]]]; cbn in Hlen; try lia. cbn. by rewrite Nat.add_0_r.
  - cbn [pack_tree leaves]. pose proof (pow2_pos h) as Hpos. rewrite Nat.pow_succ_r' in *.
    apply Nat.even_spec in Hev as [k ->].
    set (ld := (2 * k) `min` (2 * 2 ^ h)). set (ll := 2 ^ h + ld / 2).
    assert (∃ j, ld = 2 * j ∧ j = k `min` 2 ^ h) as (j & Hld & Hj) by (exists (k `min` 2 ^ h); lia).
    assert (ld / 2 = j) as Hdiv by (rewrite Hld, Nat.mul_comm; apply Nat.div_mul; lia).
    rewrite (Nat.mul_comm 2 k), Nat.div_mul in Hlen by lia.
    rewrite !IH.
    + rewrite <- (take_drop ll l) at 3. rewrite imap_app, length_take.
      replace (ll `min` length l) with ll by lia. f_equal.
      * apply imap_ext. intros i x Hx. apply lookup_lt_Some in Hx. rewrite length_take in Hx.
        repeat case_decide; try lia; f_equal; lia.
      * apply imap_ext. intros i x Hx. repeat case_decide; try lia; f_equal; lia.
    + replace (2 * k - ld) with (2 * (k - j)) by lia. by rewrite Nat.even_mul.
    + lia.
    + rewrite length_drop. replace (2 * k - ld) with ((k - j) * 2) by lia.
      rewrite Nat.div_mul by lia. lia.
    + rewrite Hld. by rewrite Nat.even_mul.
    + lia.
    + rewrite length_take. lia.
Qed.

Lemma pack_tree_height h deep l : deep ≤ 2 * 2 ^ h →
  height (pack_tree h deep l) = if decide (deep = 0) then h else S h.
Proof.
  revert deep l. induction h as [|h IH]; intros deep l Hle.
  - cbn. destruct deep; [by rewrite decide_True|by rewrite decide_False].
  - cbn [pack_tree height]. rewrite !IH by (cbn in Hle; lia). pose proof (pow2_pos h).
    repeat case_decide; lia.
Qed.

Lemma taptree_leaves_tree scripts :
  scripts ≠ [] →
  ∃ t, leaves 0 t = taptree_leaves scripts ∧ height t = max_depth (length scripts).
Proof.
  intros Hne. unfold taptree_leaves, leaf_depth, max_depth.
  destruct scripts as [|s [|s' scripts]]; [done|by exists (Leaf s)|].
  set (l := s :: s' :: scripts). assert (1 < length l) as Hlen by (cbn; lia).
  rewrite !decide_True by done. set (h := Nat.log2 (length l - 1)).
  destruct (Nat.log2_spec (length l - 1)) as [Hlo Hhi]; [lia|]. fold h in Hlo, Hhi.
  rewrite Nat.add_1_r, Nat.pow_succ_r' in *.
  exists (pack_tree h (2 * (length l - 2 ^ h)) l). split.
  - rewrite pack_tree_leaves.
    + apply imap_ext. intros i x Hx. cbn [Nat.add]. repeat case_decide; try lia; done || (f_equal; lia).
    + by rewrite Nat.even_mul.
    + lia.
    + rewrite (Nat.mul_comm 2), Nat.div_mul by lia. lia.
  - rewrite pack_tree_height by lia. rewrite decide_False by lia. done.
Qed.

Lemma max_depth_optimal n : 1 < n → 2 ^ (max_depth n - 1) < n ≤ 2 ^ max_depth n.
Proof.
  intros Hn. unfold max_depth. rewrite decide_True by done.
  destruct (Nat.log2_spec (n - 1)) as [Hlo Hhi]; [lia|]. rewrite Nat.add_sub, Nat.add_1_r. lia.
Qed.

Lemma leaves_depth_ge d t d' s : (d', s) ∈ leaves d t → d ≤ d'.
Proof.
  revert d. induction t as [s'|l IHl r IHr]; intros d; cbn.
  - intros [= -> _]%list_elem_of_singleton. lia.
  - rewrite elem_of_app. intros [?%IHl|?%IHr]; lia.
Qed.

Lemma leaves_cons d t : ∃ d' s rest, leaves d t = (d', s) :: rest.
Proof.
  revert d. induction t as [s|l IHl r IHr]; intros d; cbn; [by do 3 eexists|].
  destruct (IHl (S d)) as (d' & s & rest & ->). by do 3 eexists.
Qed.

Lemma parse_leaves_tree fuel d t rest :
  height t < fuel → parse_leaves fuel d (leaves d t ++ rest) = Some rest.
Proof.
  revert fuel d rest. induction t as [s|l IHl r IHr]; intros [|fuel] d rest Hf; cbn in Hf; try lia.
  { cbn. by rewrite decide_True. }
  cbn [leaves]. rewrite <- app_assoc.
  destruct (leaves_cons (S d) l) as (d' & s & k & Hl).
  assert (d' ≠ d) as Hd.
  { assert (S d ≤ d'); [|lia]. apply (leaves_depth_ge (S d) l d' s). rewrite Hl. left. }
  assert (parse_leaves fuel (S d) (leaves (S d) l ++ leaves (S d) r ++ rest)
    = Some (leaves (S d) r ++ rest)) as E by (apply IHl; lia).
  rewrite Hl in *. cbn [parse_leaves app]. rewrite decide_False by done.
  rewrite <- app_comm_cons in E. rewrite E. cbn. apply IHr. lia.
Qed.

Lemma example_finalize_tree t :
  height t ≤ TAPROOT_CONTROL_MAX_NODE_COUNT → example_finalize (leaves 0 t) = Some ((leaves 0 t).*2).
Proof.
  intros Ht. pose proof (parse_leaves_tree 130 0 t []) as Hp. rewrite app_nil_r in Hp.
  unfold TAPROOT_CONTROL_MAX_NODE_COUNT in Ht. specialize (Hp ltac:(lia)). unfold example_finalize.
  destruct (leaves_cons 0 t) as (d & s & rest & E). rewrite Hp, E. done.
Qed.

#[global] Instance example_taproot_laws : @TaprootLaws example_taproot.
Proof.
  split.
  - intros key t Ht. exists ((leaves 0 t).*2). split; [by apply example_finalize_tree|].
    intros d s Hin. cbn. rewrite decide_True; [by eexists|].
    apply list_elem_of_fmap. by exists (d, s).
  - intros key. by eexists.
  - intros key s info E. cbv in E. by simplify_eq.
  - intros key info E. cbv in E. by simplify_eq.
Qed.

Lemma split_colon_free s : has_colon s = false → split_colon s = [s].
Proof.
  induction s as [|c s IH]; cbn; [done|]. intros [Hc Hs]%orb_false_elim.
  apply bool_decide_eq_false in Hc. rewrite decide_False by done. by rewrite IH.
Qed.

Lemma split_colon_app a b :
  has_colon a = false → split_colon (a +:+ ":" +:+ b) = a :: split_colon b.
Proof.
  induction a as [|c a IH]; cbn; [done|]. intros [Hc Ha]%orb_false_elim.
  apply bool_decide_eq_false in Hc.
  change (String c a +:+ ?x) with (String c (a +:+ x)). cbn [split_colon].
  rewrite decide_False by done. by rewrite IH.
Qed.

#[global] Instance example_hex_laws : @HexLaws example_hex.
Proof.
  split; try (intros; cbn; case_decide; reflexivity); try (intros; reflexivity).
  intros s b. cbn [decode_control_block example_hex].
  case_decide as Hk; [|done]. destruct Hk as [Hge Hm]. intros _.
  exists ((String.length s - 33) / 32). pose proof (Nat.div_mod_eq (String.length s - 33) 32). lia.
Qed.

(** [build_taptree] never fails, and its address is that of the tree it built. *)
Lemma build_taptree_total `{TaprootLaws} network key scripts :
  (N.of_nat (length scripts) ≤ 2 ^ 128)%N →
  ∃ info, build_taptree key network scripts = Ok (p2tr key (merkle_root info) network, info) ∧
    (∀ s, s ∈ scripts → is_Some (control_block info s)) ∧
    finalize_taptree key (taptree_leaves scripts) = Some info.
Proof.
  intros Hlen. unfold build_taptree. destruct (decide (scripts = [])) as [->|Hne].
  { cbn. destruct (taptree_empty key) as [info ->]. cbn. eexists. split_and!; [done|set_solver|done]. }
  destruct (taptree_leaves_tree scripts Hne) as (t & Ht & Hh).
  destruct (taptree_accepts key t) as (info & Hinfo & Hcb).
  { rewrite Hh. unfold max_depth, TAPROOT_CONTROL_MAX_NODE_COUNT. case_decide; [|lia].
    rewrite Nat.add_1_r. apply Nat.log2_lt_pow2; [lia|].
    pose proof (Nat2N.inj_pow 2 128) as Hp. revert Hp. generalize (2 ^ 128) as p.
    intros p Hp. change (N.of_nat 2 ^ N.of_nat 128)%N with (2 ^ 128)%N in Hp. lia. }
  rewrite <- Ht, Hinfo. cbn. eexists. split_and!; [done| |done]. intros s Hs.
  apply list_elem_of_lookup in Hs as [i Hi].
  apply (Hcb (leaf_depth (length scripts) i)). rewrite Ht.
  apply list_elem_of_lookup. exists i. unfold taptree_leaves. by rewrite list_lookup_imap, Hi.
Qed.

(** ** Properties *)

(** The depths [build_taptree] assigns are those of a complete binary tree with the scripts
    in its leaves from left to right, whose height is the least one that has room for them. *)
Theorem taptree_depths_complete scripts :
  scripts ≠ [] →
  ∃ t, leaves 0 t = taptree_leaves scripts ∧ length scripts ≤ 2 ^ height t ∧
    (1 < length scripts → 2 ^ (height t - 1) < length scripts).
Proof.
  intros Hne. destruct (taptree_leaves_tree scripts Hne) as (t & Ht & Hh). exists t. rewrite Hh.
  split; [done|]. destruct (decide (1 < length scripts)) as [H1|H1].
  - pose proof (max_depth_optimal _ H1). lia.
  - pose proof (pow2_pos (max_depth (length scripts))). destruct scripts as [|? [|]]; cbn in *; lia.
Qed.

(** [create_taproot_addr] returns an address for every spend path with at most 2^128
    scripts, and the address is spendable by each of its scripts, given that the builder accepts
    the leaves of a binary tree; its only error is a script path without scripts. *)
Theorem create_taproot_addr_total `{TaprootLaws} network path :
  (N.of_nat (length (path_scripts path)) ≤ 2 ^ 128)%N →
  match create_taproot_addr network path with
  | Ok (_, info) => ∀ s, s ∈ path_scripts path → is_Some (control_block info s)
  | Err e => e = EmptyTapscript ∧ path = ScriptSpend []
  end.
Proof.
  intros Hlen.
  destruct path as [key|scripts|key scripts]; cbn [create_taproot_addr path_scripts] in *.
  - by destruct (build_taptree_total network key [] Hlen) as (info & -> & Hs & _).
  - destruct scripts as [|s scripts]; [done|].
    by destruct (build_taptree_total network UNSPENDABLE_PUBLIC_KEY (s :: scripts) Hlen)
      as (info & -> & Hs & _).
  - by destruct (build_taptree_total network key scripts Hlen) as (info & -> & Hs & _).
Qed.

(** [TaprootWitness::from_hex] never reads back what [TaprootWitness::to_hex] wrote: a
    descriptor of every kind of witness is refused, so a witness stored through
    [DbTaprootWitness] cannot be loaded. *)
Theorem taproot_witness_hex_never_reads_back `{HexLaws} w :
  is_ok (from_hex (to_hex w)) = false.
Proof.
  unfold from_hex. destruct w as [|s cb|t]; cbn [to_hex]; [done| |].
  - change ("script:" +:+ ?x) with ("script" +:+ ":" +:+ x).
    rewrite split_colon_app by done. rewrite split_colon_app by apply hex_script_colon.
    rewrite split_colon_free by apply hex_control_block_colon.
    rewrite decide_False by done. rewrite decide_True by done.
    destruct (deserialize_hex_script _); cbn; [|done].
    destruct (decode_control_block _) as [b|] eqn:Hd; cbn; [|done]. exfalso.
    apply decode_control_block_size in Hd as [k Hk].
    pose proof (hex_control_block_even cb) as He. rewrite Hk in He.
    replace (33 + 32 * k) with (1 + 2 * (16 + 16 * k)) in He by lia.
    by rewrite Nat.even_add, Nat.even_mul in He.
  - change ("tweaked:" +:+ ?x) with ("tweaked" +:+ ":" +:+ x).
    rewrite split_colon_app by done. by rewrite split_colon_free by apply hex_hash_colon.
Qed.

(** ** Witnesses *)

Lemma taptree_depths_complete_witness :
  taptree_leaves [[1]; [2]; [3]; [4]; [5]]%N = 
    [(3, [1%N]); (3, [2%N]); (2, [3%N]); (2, [4%N]); (2, [5%N])] ∧
  ∃ t, leaves 0 t = taptree_leaves [[1]; [2]; [3]; [4]; [5]]%N.
Proof.
  split; [vm_compute; reflexivity|].
  destruct (taptree_depths_complete [[1]; [2]; [3]; [4]; [5]]%N) as (t & Ht & _); [discriminate|].
  exists t. exact Ht.
Defined.

Lemma create_taproot_addr_total_witness :
  ∃ addr info, @create_taproot_addr example_taproot 0%N (Both 5%N [[1]; [2]; [3]]%N)
    = Ok (addr, info) ∧ is_Some (@control_block example_taproot info [2]%N).
Proof.
  destruct (@create_taproot_addr example_taproot 0%N (Both 5%N [[1]; [2]; [3]]%N))
    as [[addr info]|e] eqn:E; [|vm_compute in E; discriminate].
  exists addr, info. split; [reflexivity|].
  pose proof (@create_taproot_addr_total example_taproot _ 0%N (Both 5%N [[1]; [2]; [3]]%N)) as Ht.
  rewrite E in Ht. apply Ht; [vm_compute; discriminate|]. right. left.
Defined.

Lemma taproot_witness_hex_never_reads_back_witness :
  @to_hex example_hex (Script [] 0%N) = "script:00:2102" ∧
  is_ok (@from_hex example_hex (@to_hex example_hex (Script [] 0%N))) = false.
Proof.
  split; [reflexivity|]. apply (@taproot_witness_hex_never_reads_back example_hex _).
Defined.
