(* ===== verification/Deposit.v ===== *)
(** * Deposits ([tx-graph/src/transactions/deposit.rs], [primitives/src/scripts/metadata.rs])

    A deposit request pays to the N-of-N key with a take-back path for the user, and carries the
    take-back key and the address to mint to in an OP_RETURN output.  [DepositRequestData]
    describes such a request; [DepositTx_new] builds the deposit transaction that spends it. *)

From S2P Require Import Prelude Bitcoin Wots TxTypes Taproot.

(** ** The library *)

(** [XOnlyPublicKey::from_slice] ([None] for bytes that are not a point on the curve) and the
    miniscript "key and older": the user's take-back script. *)
Class DepositLib := {
  xonly_from_slice : list N → option XOnlyPublicKey;
  drt_take_back : XOnlyPublicKey → N → ScriptBuf;
}.

(** Keys of 32 bytes parse back from their serialization, when they are points. *)
Definition SCHNORR_PUBLIC_KEY_SIZE : nat := 32.
Definition serialize_xonly (k : XOnlyPublicKey) : list N := to_be_bytes SCHNORR_PUBLIC_KEY_SIZE k.

(** A key that parses serializes to the bytes it was parsed from. *)
Class DepositLaws `{DepositLib} : Prop :=
  xonly_from_slice_serialize : ∀ bytes k, xonly_from_slice bytes = Some k →
    serialize_xonly k = bytes ∧ (k < 2 ^ 256)%N.

(** ** Metadata *)

Inductive DepositMetadata :=
| DepositRequestMeta (takeback_pubkey : XOnlyPublicKey) (ee_address : list N)
| DepositTxMeta (stake_index : N) (ee_address : list N) (takeback_hash : TapNodeHash)
    (input_amount : Amount).

Record AuxiliaryData := mkAuxiliaryData { aux_tag : Tag; aux_metadata : DepositMetadata }.

Definition AuxiliaryData_to_vec (a : AuxiliaryData) : list N :=
  as_bytes (aux_tag a) ++
  match aux_metadata a with
  | DepositRequestMeta takeback_pubkey ee_address => serialize_xonly takeback_pubkey ++ ee_address
  | DepositTxMeta stake_index ee_address takeback_hash input_amount =>
      to_be_bytes 4 stake_index ++ ee_address ++ to_be_bytes 32 takeback_hash
        ++ to_be_bytes 8 input_amount
  end.

(** [primitives/src/scripts/general.rs]: the OP_RETURN output that carries the metadata. *)
Definition metadata_script `{ScriptLib} (a : AuxiliaryData) : comp ScriptBuf :=
  op_return_nonce (AuxiliaryData_to_vec a).

(** ** Deposit requests *)

Record DepositRequestData := mkDepositRequestData {
  deposit_request_outpoint : OutPoint;
  drd_stake_index : N;
  ee_address : list N;
  total_amount : Amount;
  drd_x_only_public_key : XOnlyPublicKey;
  original_script_pubkey : ScriptBuf;
}.

(** The part of [RollupParams] the bridge reads. *)
Record RollupParams := mkRollupParams { address_length : nat }.

Inductive DepositErr :=
| InvalidTapLeafHash
| InvalidEeAddressSize (got expected : nat)
| TaprootErr (e : BridgeTxBuilderError).

Section deposits.
Context `{ScriptLib, TaprootLib, DepositLib}.

Definition validate (data : DepositRequestData) (ctx : TxBuildContext) (refund_delay : N)
    : comp (result DepositErr unit) :=
  let takeback_script := drt_take_back (drd_x_only_public_key data) refund_delay in
  let spend_path := Both (tbc_aggregated_pubkey ctx) [takeback_script] in
  match create_taproot_addr (tbc_network ctx) spend_path with
  | Err _ => Panic
  | Ok (address, _) =>
      Val (if decide (address = original_script_pubkey data) then Ok tt else Err InvalidTapLeafHash)
  end.

Definition DepositTx : Type := CovenantTx 1.

Definition DepositTx_new (data : DepositRequestData) (ctx : TxBuildContext)
    (params : PegOutGraphParams) (sidesystem_params : RollupParams)
    : comp (result DepositErr DepositTx) :=
  v ← validate data ctx (refund_delay params);
  match v with
  | Err e => Val (Err e)
  | Ok _ =>
      let prevouts := [mkTxOut (total_amount data) (original_script_pubkey data)] in
      let tx_ins := create_tx_ins [deposit_request_outpoint data] in
      let takeback_script := drt_take_back (drd_x_only_public_key data) (refund_delay params) in
      let takeback_script_hash := tapnode_from_script takeback_script in
      let deposit_metadata := DepositTxMeta (drd_stake_index data) (ee_address data)
        takeback_script_hash (total_amount data) in
      if decide (length (ee_address data) = address_length sidesystem_params) then
        metadata_script ← metadata_script (mkAuxiliaryData (tag params) deposit_metadata);
        match create_taproot_addr (tbc_network ctx) (KeySpend (tbc_aggregated_pubkey ctx)) with
        | Err e => Val (Err (TaprootErr e))
        | Ok (bridge_addr, _) =>
            let tx_outs := create_tx_outs
              [(bridge_addr, deposit_amount params); (metadata_script, 0%N)] in
            let unsigned_tx := create_tx tx_ins tx_outs in
            Val (Ok (mkCovenantTx
              (mkPsbt unsigned_tx ((λ p, mkPsbtInput (Some p) (Some SighashDefault) None) <$> prevouts))
              prevouts [# Tweaked takeback_script_hash]))
        end
      else
        Val (Err (InvalidEeAddressSize (length (ee_address data)) (address_length sidesystem_params)))
  end.

End deposits.
