(* ===== verification/Predicates.v ===== *)
(** * Recognising the bridge's transactions ([duty-tracker/src/predicates.rs])

    The predicates decide from a transaction alone what role it plays.  A predicate the source
    builds with a computation that may panic (the subtraction of the operator fee) is a
    computation here. *)

From S2P Require Import Prelude Bitcoin Wots TxTypes Taproot Deposit.

(** ** The library *)

(** [Script::instructions]: the instructions of a script, [None] for one that does not parse. *)
Inductive Instruction := Op (opcode : N) | PushBytes (bytes : list N).

Definition OP_RETURN : N := 0x6a.

Class InstructionsLib := instructions : ScriptBuf → list (option Instruction).

(** The instructions of a script built from OP_RETURN and a push are these two. *)
Class InstructionsLaws `{ScriptLib, InstructionsLib} : Prop :=
  instructions_op_return : ∀ data, (N.of_nat (length data) <= U32_MAX)%N →
    instructions (op_return_push data) = [Some (Op OP_RETURN); Some (PushBytes data)].

(** ** Definitions *)

(** [data.get(a..b)]. *)
Definition slice (l : list N) (a b : nat) : option (list N) :=
  if decide (b ≤ length l) then Some (take (b - a) (drop a l)) else None.

Definition starts_with (data tag : list N) : bool := bool_decide (take (length tag) data = tag).

Section predicates.
Context `{InstructionsLib, BitcoinLib, TaprootLib, DepositLib, DescriptorLib}.

Definition op_return_data (script : ScriptBuf) : option (list N) :=
  match instructions script with
  | Some (Op opcode) :: rest =>
      if decide (opcode = OP_RETURN) then
        match rest with
        | Some (PushBytes bytes) :: _ => Some bytes
        | _ => None
        end
      else None
  | _ => None
  end.

Definition magic_tagged_data (tag : list N) (script : ScriptBuf) : option (list N) :=
  data ← op_return_data script;
  if starts_with data tag then Some (drop (length tag) data) else None.

Definition deposit_request_info (tx : Transaction) (sidesystem_params : RollupParams)
    (params : PegOutGraphParams) (ctx : TxBuildContext) (stake_index : N)
    : comp (option DepositRequestData) :=
  match output tx with
  | [] => Val None
  | deposit_request_output :: _ =>
      if decide (value deposit_request_output <= deposit_amount params)%N then Val None
      else
        let ee_address_size := address_length sidesystem_params in
        match o ← output tx !! 1; magic_tagged_data (as_bytes (tag params)) (script_pubkey o) with
        | None => Val None
        | Some meta =>
            if decide (length meta = SCHNORR_PUBLIC_KEY_SIZE + ee_address_size) then
              recovery_x_only_pk ← expect (xonly_from_slice (take SCHNORR_PUBLIC_KEY_SIZE meta));
              let el_addr := drop SCHNORR_PUBLIC_KEY_SIZE meta in
              let data := mkDepositRequestData (mkOutPoint (compute_txid tx) 0) stake_index el_addr
                (value deposit_request_output) recovery_x_only_pk
                (script_pubkey deposit_request_output) in
              v ← validate data ctx (refund_delay params);
              Val (match v with Ok _ => Some data | Err _ => None end)
            else Val None
        end
  end.

Definition is_challenge (claim_txid : Txid) (tx : Transaction) : bool :=
  match input tx with
  | txin :: _ => bool_decide (previous_output txin = mkOutPoint claim_txid CHALLENGE_VOUT)
  | [] => false
  end && bool_decide (length (output tx) = 1).

Definition is_disprove (post_assert_txid : Txid) (tx : Transaction) : bool :=
  match input tx !! POST_ASSERT_INPUT_INDEX with
  | Some txin => bool_decide (previous_output txin = mkOutPoint post_assert_txid 0)
  | None => false
  end && bool_decide (length (input tx) = 2) && bool_decide (length (output tx) = 2).

(** The check of the metadata in the second output. *)
Definition metadata_ok (tag : list N) (operator_idx : OperatorIdx) (deposit_idx : N)
    (deposit_txid : Txid) (metadata : list N) : bool :=
  let begin_with_tag := starts_with metadata tag in
  let operator_id_offset := length tag in
  let operator_id_valid :=
    bool_decide (slice metadata operator_id_offset (operator_id_offset + 4)
      = Some (to_be_bytes 4 operator_idx)) in
  let deposit_id_offset := operator_id_offset + 4 in
  let deposit_id_valid :=
    bool_decide (slice metadata deposit_id_offset (deposit_id_offset + 4)
      = Some (to_be_bytes 4 deposit_idx)) in
  let deposit_txid_offset := deposit_id_offset + 4 in
  let deposit_txid_valid :=
    bool_decide (slice metadata deposit_txid_offset (deposit_txid_offset + 32)
      = Some (serialize_txid deposit_txid)) in
  begin_with_tag && operator_id_valid && deposit_id_valid && deposit_txid_valid.

Definition is_fulfillment_tx (network : Network) (params : PegOutGraphParams)
    (operator_idx : OperatorIdx) (deposit_idx : N) (deposit_txid : Txid) (recipient : Descriptor)
    (tx : Transaction) : comp bool :=
  output_amount ← amount_sub (deposit_amount params) (operator_fee params);
  let first_output_ok :=
    match to_address recipient network, output tx with
    | Some recipient_addr, out :: _ =>
        bool_decide (script_pubkey out = recipient_addr) && bool_decide (value out = output_amount)
    | _, _ => false
    end in
  let second_output_ok :=
    match out ← output tx !! 1; op_return_data (script_pubkey out) with
    | Some metadata =>
        metadata_ok (as_bytes (tag params)) operator_idx deposit_idx deposit_txid metadata
    | None => false
    end in
  Val (first_output_ok && second_output_ok).

End predicates.

(** The data of a request to deposit, as a wallet would publish it: the request output, the
    metadata, and what follows. *)
Definition deposit_request_tx `{ScriptLib} (tx_ins : list TxIn) (request : TxOut) (tag : Tag)
    (takeback_pubkey : XOnlyPublicKey) (ee_address : list N) (rest : list TxOut)
    : comp Transaction :=
  script ← metadata_script (mkAuxiliaryData tag (DepositRequestMeta takeback_pubkey ee_address));
  Val (create_tx tx_ins (request :: mkTxOut 0 script :: rest)).

(** Small libraries for the examples. *)
Definition example_script : ScriptLib := {|
  minimal_non_dust s := 330%N;
  op_return_push data := OP_RETURN :: data;
|}.
Definition example_instructions : InstructionsLib := λ s,
  match s with
  | opcode :: data => [Some (Op opcode); Some (PushBytes data)]
  | [] => []
  end.
Definition example_descriptor : DescriptorLib := {|
  to_script d := [0; d]%N;
  to_address d n := if decide (n = 1%N) then Some [0; d]%N else None;
|}.
Definition example_deposit : DepositLib := {|
  xonly_from_slice b :=
    let k := from_be_bytes b in
    if decide (serialize_xonly k = b ∧ (0 < k < 2 ^ 256)%N) then Some k else None;
  drt_take_back k d := [k; d];
|}.
Definition example_bitcoin : BitcoinLib := {|
  compute_txid t := lock_time t;
  block_hash b := header_rest b;
  bip34_block_height b := Some (header_rest b);
|}.

Definition example_metadata : WithdrawalMetadata := mkWithdrawalMetadata BRIDGE_TAG 3 7 99.
Definition example_ctx : TxBuildContext := mkTxBuildContext 1 ∅ 5 0.
Definition example_request (key : N) : TxOut :=
  mkTxOut (10 * BTC + 1000)
    (@p2tr example_taproot 5%N (Some (Npos (encode [key; 1008]%N))) 1%N).
Definition example_request_tx (key : N) : Transaction :=
  create_tx [] [example_request key;
    mkTxOut 0 (OP_RETURN :: as_bytes BRIDGE_TAG ++ serialize_xonly key ++ replicate 20 9%N)].

#[global] Instance example_instructions_laws :
  @InstructionsLaws example_script example_instructions.
Proof. by intros data _. Qed.

#[global] Instance example_deposit_laws : @DepositLaws example_deposit.
Proof.
  intros bytes k. cbn. case_decide as Hk; [|done]. intros [= <-]. destruct Hk as [? []]. done.
Qed.

(** ** Slices *)

Lemma slice_app (a b c : list N) : slice (a ++ b ++ c) (length a) (length a + length b) = Some b.
Proof.
  unfold slice. rewrite decide_True by (rewrite !length_app; lia).
  rewrite drop_app_length. replace (length a + length b - length a) with (length b) by lia.
  by rewrite take_app_length.
Qed.

Lemma starts_with_app a b : starts_with (a ++ b) a = true.
Proof. unfold starts_with. rewrite take_app_length. by apply bool_decide_eq_true. Qed.

Lemma length_as_bytes tag : length (as_bytes tag) = TAG_SIZE.
Proof. apply length_vec_to_list. Qed.

Lemma metadata_ok_complete m rest :
  metadata_ok (as_bytes (wm_tag m)) (wm_operator_idx m) (wm_deposit_idx m) (wm_deposit_txid m)
    (wm_op_return_data m ++ rest) = true.
Proof.
  unfold metadata_ok, wm_op_return_data. rewrite <- !app_assoc, starts_with_app.
  set (t := as_bytes (wm_tag m)). set (o := to_be_bytes 4 (wm_operator_idx m)).
  set (d := to_be_bytes 4 (wm_deposit_idx m)). set (x := serialize_txid (wm_deposit_txid m)).
  assert (length o = 4) as Ho by apply length_to_be_bytes.
  assert (length d = 4) as Hd by apply length_to_be_bytes.
  assert (length x = 32) as Hx by apply length_to_be_bytes.
  pose proof (slice_app t o (d ++ x ++ rest)) as E1.
  pose proof (slice_app (t ++ o) d (x ++ rest)) as E2.
  pose proof (slice_app (t ++ o ++ d) x rest) as E3.
  rewrite Ho in E1. rewrite <- app_assoc, length_app, Ho, Hd in E2.
  rewrite <- !app_assoc, !length_app, Ho, Hd, Hx, Nat.add_assoc in E3.
  rewrite E1, E2, E3. by rewrite !bool_decide_eq_true_2.
Qed.

Lemma metadata_ok_sound tag op dep txid metadata :
  metadata_ok tag op dep txid metadata = true →
  slice metadata (length tag) (length tag + 4) = Some (to_be_bytes 4 op) ∧
  slice metadata (length tag + 4) (length tag + 4 + 4) = Some (to_be_bytes 4 dep) ∧
  slice metadata (length tag + 4 + 4) (length tag + 4 + 4 + 32) = Some (serialize_txid txid).
Proof.
  unfold metadata_ok. rewrite !andb_true_iff, !bool_decide_eq_true. tauto.
Qed.

Lemma op_return_data_push `{InstructionsLaws} data :
  (N.of_nat (length data) <= U32_MAX)%N → op_return_data (op_return_push data) = Some data.
Proof. intros Hl. unfold op_return_data. by rewrite instructions_op_return. Qed.

Lemma length_wm_op_return_data m : length (wm_op_return_data m) = 44.
Proof.
  unfold wm_op_return_data, serialize_txid. rewrite !length_app, length_as_bytes, !length_to_be_bytes.
  done.
Qed.

(** ** Properties *)

(** The transaction [WithdrawalFulfillment::new] builds is always built, and it is the one
    [is_fulfillment_tx] looks for: with the denomination less the operator fee as amount, the
    bridge's tag, and a recipient whose address on the network is its script, the predicate
    accepts it for exactly the operator, deposit and deposit txid in its metadata. *)
Theorem fulfillment_recognised `{InstructionsLaws, DescriptorLib} network params m utxos amount
    change recipient :
  wm_tag m = tag params → (amount + operator_fee params = deposit_amount params)%N →
  to_address recipient network = Some (to_script recipient) →
  ∃ tx, WithdrawalFulfillment_new m utxos amount change recipient = Val tx ∧
    is_fulfillment_tx network params (wm_operator_idx m) (wm_deposit_idx m) (wm_deposit_txid m)
      recipient tx = Val true.
Proof.
  intros Htag Hamt Haddr. unfold WithdrawalFulfillment_new, op_return_nonce.
  rewrite length_wm_op_return_data. cbn. eexists. split; [done|].
  unfold is_fulfillment_tx, amount_sub.
  rewrite (proj2 (N.leb_le _ _)) by lia. cbn [mbind comp_bind]. rewrite Haddr. cbn.
  rewrite op_return_data_push by (rewrite length_wm_op_return_data; done).
  rewrite <- Htag, <- (app_nil_r (wm_op_return_data m)), metadata_ok_complete.
  rewrite !bool_decide_eq_true_2; [done|lia|done].
Qed.

(** A transaction fulfills at most one withdrawal: when [is_fulfillment_tx] accepts it for
    two claims of a deposit by an operator, both name the same operator, deposit index and
    deposit txid. *)
Theorem fulfillment_binds `{InstructionsLib, DescriptorLib} network1 network2 params op1 op2 dep1
    dep2 txid1 txid2 recipient1 recipient2 tx :
  (op1 <= U32_MAX)%N → (op2 <= U32_MAX)%N → (dep1 <= U32_MAX)%N → (dep2 <= U32_MAX)%N →
  (txid1 < 2 ^ 256)%N → (txid2 < 2 ^ 256)%N →
  is_fulfillment_tx network1 params op1 dep1 txid1 recipient1 tx = Val true →
  is_fulfillment_tx network2 params op2 dep2 txid2 recipient2 tx = Val true →
  op1 = op2 ∧ dep1 = dep2 ∧ txid1 = txid2.
Proof.
  intros Ho1 Ho2 Hd1 Hd2 Ht1 Ht2. unfold is_fulfillment_tx.
  intros (a1 & _ & [= [_ H1]%andb_true_iff])%comp_bind_Val
    (a2 & _ & [= [_ H2]%andb_true_iff])%comp_bind_Val.
  destruct (out ← output tx !! 1; op_return_data (script_pubkey out)) as [metadata|]; [|done].
  apply metadata_ok_sound in H1 as (E1 & E2 & E3), H2 as (F1 & F2 & F3).
  assert (∀ n, (n <= U32_MAX)%N → (n < 256 ^ N.of_nat 4)%N) as Hu32.
  { intros n Hn. change (256 ^ N.of_nat 4)%N with (U32_MAX + 1)%N. lia. }
  assert (∀ n, (n < 2 ^ 256)%N → (n < 256 ^ N.of_nat 32)%N) as H256 by done.
  rewrite E1 in F1. rewrite E2 in F2. rewrite E3 in F3.
  apply (inj Some) in F1, F2, F3.
  split_and!; [by apply (to_be_bytes_inj 4); auto..|by apply (to_be_bytes_inj 32); auto].
Qed.

(** What is read of a transaction with the outputs of a request. *)
Lemma deposit_request_read `{InstructionsLaws, BitcoinLib, TaprootLib, DepositLaws}
    tx request rest params sidesystem_params ctx stake_index pk ee info :
  (pk < 2 ^ 256)%N → length ee = address_length sidesystem_params →
  (N.of_nat (length ee) <= 4294967000)%N →
  output tx = request :: mkTxOut 0 (op_return_push (as_bytes (tag params) ++ serialize_xonly pk ++ ee)) :: rest →
  create_taproot_addr (tbc_network ctx)
    (Both (tbc_aggregated_pubkey ctx) [drt_take_back pk (refund_delay params)]) = Ok (script_pubkey request, info) →
  deposit_request_info tx sidesystem_params params ctx stake_index =
    if decide (value request <= deposit_amount params)%N then Val None
    else match xonly_from_slice (serialize_xonly pk) with
         | None => Panic
         | Some _ =>
             Val (Some (mkDepositRequestData (mkOutPoint (compute_txid tx) 0) stake_index ee
               (value request) pk (script_pubkey request)))
         end.
Proof.
  intros Hpk256 Hee Hlen Hout Haddr.
  assert (length (serialize_xonly pk) = 32) as Hpk by apply length_to_be_bytes.
  unfold deposit_request_info. rewrite Hout. case_decide; [done|].
  cbn [lookup list_lookup mbind option_bind script_pubkey]. unfold magic_tagged_data.
  rewrite op_return_data_push.
  2: { rewrite !length_app, length_as_bytes, Hpk. unfold TAG_SIZE, U32_MAX. lia. }
  cbn [mbind option_bind]. rewrite starts_with_app, drop_app_length.
  rewrite decide_True by (rewrite length_app, Hpk, Hee; done).
  assert (take SCHNORR_PUBLIC_KEY_SIZE (serialize_xonly pk ++ ee) = serialize_xonly pk) as ->.
  { unfold SCHNORR_PUBLIC_KEY_SIZE. rewrite <- Hpk. apply take_app_length. }
  destruct (xonly_from_slice (serialize_xonly pk)) as [pk'|] eqn:Epk; [|done].
  apply xonly_from_slice_serialize in Epk as [Eser Hlt].
  assert (pk' = pk) as -> by (by eapply (to_be_bytes_inj 32)).
  cbn [mbind comp_bind expect]. unfold validate. cbn [drd_x_only_public_key original_script_pubkey].
  rewrite Haddr, decide_True by done. done.
Qed.

(** [deposit_request_info] reads back the request a wallet publishes: the take-back key,
    the address to mint to, the amount, the outpoint and the script, when the request pays
    more than the denomination to the address of its take-back key; it rejects one that pays
    no more than the denomination; and it panics, rather than rejecting the request, when the
    32 bytes in the key's place are not a public key. *)
Theorem deposit_request_roundtrip `{InstructionsLaws, BitcoinLib, TaprootLib, DepositLaws}
    tx_ins request rest params sidesystem_params ctx stake_index pk ee tx addr info :
  (pk < 2 ^ 256)%N → length ee = address_length sidesystem_params →
  (N.of_nat (length ee) <= 4294967000)%N →
  deposit_request_tx tx_ins request (tag params) pk ee rest = Val tx →
  create_taproot_addr (tbc_network ctx)
    (Both (tbc_aggregated_pubkey ctx) [drt_take_back pk (refund_delay params)]) = Ok (addr, info) →
  script_pubkey request = addr →
  deposit_request_info tx sidesystem_params params ctx stake_index =
    if decide (value request <= deposit_amount params)%N then Val None
    else match xonly_from_slice (serialize_xonly pk) with
         | None => Panic
         | Some _ =>
             Val (Some (mkDepositRequestData (mkOutPoint (compute_txid tx) 0) stake_index ee
               (value request) pk (script_pubkey request)))
         end.
Proof.
  intros Hpk256 Hee Hlen Htx Haddr <-. unfold deposit_request_tx in Htx.
  apply comp_bind_Val in Htx as (script & Hs & [= <-]). eapply deposit_request_read; [done..| |exact Haddr].
  unfold metadata_script, op_return_nonce in Hs. case_match; [|done]. by injection Hs as <-.
Qed.

(** A deposit request that [deposit_request_info] accepts can be deposited:
    [DepositTx::new] builds, without an error, a transaction that spends the request's first
    output, with the amount and script of that output as prevout, and pays the denomination to
    the key-path address of the N-of-N key and nothing else but metadata. *)
Theorem accepted_request_deposits `{InstructionsLib, ScriptLib, BitcoinLib, TaprootLaws, DepositLib}
    tx sidesystem_params params ctx stake_index data :
  deposit_request_info tx sidesystem_params params ctx stake_index = Val (Some data) →
  (N.of_nat (address_length sidesystem_params) <= 4294967000)%N →
  ∃ dtx o script addr info, DepositTx_new data ctx params sidesystem_params = Val (Ok dtx) ∧
    head (output tx) = Some o ∧ prevouts dtx = [o] ∧ (deposit_amount params < value o)%N ∧
    (previous_output <$> input (unsigned_tx (psbt dtx))) = [mkOutPoint (compute_txid tx) 0] ∧
    create_taproot_addr (tbc_network ctx) (KeySpend (tbc_aggregated_pubkey ctx)) = Ok (addr, info) ∧
    output (unsigned_tx (psbt dtx)) = [mkTxOut (deposit_amount params) addr; mkTxOut 0 script].
Proof.
  unfold deposit_request_info. intros Hinfo Hlen.
  destruct (output tx) as [|o outs] eqn:Hout; [done|]. case_decide as Hamt; [done|].
  destruct (o1 ← (o :: outs) !! 1; _) as [meta|]; [|done]. case_decide as Hml; [|done].
  apply comp_bind_Val in Hinfo as (pk & _ & (v & Hv & Hd)%comp_bind_Val).
  destruct v as [[]|]; [|done]. injection Hd as <-.
  unfold DepositTx_new. rewrite Hv. cbn [mbind comp_bind ee_address].
  assert (length (drop SCHNORR_PUBLIC_KEY_SIZE meta) = address_length sidesystem_params) as Hel
    by (rewrite length_drop; lia).
  rewrite decide_True by done. unfold metadata_script, op_return_nonce.
  rewrite (proj2 (N.leb_le _ _)).
  2: { unfold AuxiliaryData_to_vec. cbn [aux_tag aux_metadata].
       rewrite !length_app, !length_to_be_bytes, length_as_bytes, Hel. unfold TAG_SIZE, U32_MAX. lia. }
  cbn [mbind comp_bind create_taproot_addr]. unfold build_taptree. cbn [taptree_leaves imap].
  destruct (taptree_empty (tbc_aggregated_pubkey ctx)) as [info Hi]. rewrite Hi.
  cbn [ok_or mbind result_bind].
  do 5 eexists. split; [done|]. cbn. split_and!; try done; [by destruct o|lia].
Qed.

(** ** Witnesses *)

Lemma fulfillment_recognised_witness :
  ∃ tx, @WithdrawalFulfillment_new example_script example_descriptor example_metadata
      [mkOutPoint 1 0] 990000000 None 42 = Val tx ∧
    @is_fulfillment_tx example_instructions example_descriptor 1 PegOutGraphParams_default 3 7 99 42 tx
      = Val true.
Proof.
  apply (@fulfillment_recognised example_script example_instructions _ example_descriptor 1%N
    PegOutGraphParams_default example_metadata); [reflexivity|vm_compute; reflexivity|reflexivity].
Defined.

Lemma fulfillment_binds_witness :
  let tx := create_tx [] [mkTxOut 990000000 [0; 42]%N;
    mkTxOut 0 (OP_RETURN :: wm_op_return_data example_metadata)] in
  @is_fulfillment_tx example_instructions example_descriptor 1 PegOutGraphParams_default 3 7 99 42 tx
    = Val true ∧ 3%N = wm_operator_idx example_metadata ∧ 7%N = wm_deposit_idx example_metadata ∧
  99%N = wm_deposit_txid example_metadata.
Proof.
  intros tx. split; [vm_compute; reflexivity|].
  apply (@fulfillment_binds example_instructions example_descriptor 1%N 1%N PegOutGraphParams_default
    3%N (wm_operator_idx example_metadata) 7%N (wm_deposit_idx example_metadata)
    99%N (wm_deposit_txid example_metadata) 42%N 42%N tx); try done; vm_compute; reflexivity.
Defined.

Lemma deposit_request_roundtrip_witness :
  @deposit_request_info example_instructions example_bitcoin example_taproot example_deposit
    (example_request_tx 77) (mkRollupParams 20) PegOutGraphParams_default example_ctx 4
  = Val (Some (mkDepositRequestData (mkOutPoint 0 0) 4 (replicate 20 9%N) (10 * BTC + 1000) 77
      (script_pubkey (example_request 77)))) ∧
  @deposit_request_info example_instructions example_bitcoin example_taproot example_deposit
    (example_request_tx 0) (mkRollupParams 20) PegOutGraphParams_default example_ctx 4 = Panic.
Proof.
  split.
  - etrans; [apply (@deposit_request_roundtrip example_script example_instructions _ example_bitcoin
      example_taproot example_deposit _ [] (example_request 77) [] PegOutGraphParams_default
      (mkRollupParams 20) example_ctx 4%N 77%N (replicate 20 9%N) (example_request_tx 77)
      (script_pubkey (example_request 77)) [[77; 1008]]%N)|vm_compute; reflexivity];
      [lia|reflexivity|cbn; lia|vm_compute; reflexivity|vm_compute; reflexivity|reflexivity].
  - etrans; [apply (@deposit_request_roundtrip example_script example_instructions _ example_bitcoin
      example_taproot example_deposit _ [] (example_request 0) [] PegOutGraphParams_default
      (mkRollupParams 20) example_ctx 4%N 0%N (replicate 20 9%N) (example_request_tx 0)
      (script_pubkey (example_request 0)) [[0; 1008]]%N)|vm_compute; reflexivity];
      [lia|reflexivity|cbn; lia|vm_compute; reflexivity|vm_compute; reflexivity|reflexivity].
Defined.

Lemma accepted_request_deposits_witness :
  ∃ dtx, @DepositTx_new example_script example_taproot example_deposit
    (mkDepositRequestData (mkOutPoint 0 0) 4 (replicate 20 9%N) (10 * BTC + 1000) 77
      (script_pubkey (example_request 77))) example_ctx PegOutGraphParams_default (mkRollupParams 20)
    = Val (Ok dtx).
Proof.
  destruct (@accepted_request_deposits example_instructions example_script example_bitcoin
    example_taproot _ example_deposit (example_request_tx 77) (mkRollupParams 20)
    PegOutGraphParams_default example_ctx 4%N
    (mkDepositRequestData (mkOutPoint 0 0) 4 (replicate 20 9%N) (10 * BTC + 1000) 77
      (script_pubkey (example_request 77)))) as (dtx & _ & _ & _ & _ & Hd & _);
    [vm_compute; reflexivity|done|]. exists dtx. exact Hd.
Defined.
