(* ===== verification/Connectors.v ===== *)
(** * Connectors ([connectors/src])

    A connector is the output that links two transactions of the bridge: its locking script or
    taproot tree, the address it is paid to, what a script spend reveals, and how an input that
    spends it is finalized.  The scripts are lists of elements handed to the script builders of
    the libraries ([bitcoin]'s [Builder], [bitcoin_script]'s [script!]).

    The theorem of the file is about the descriptors of witnesses ([TaprootWitness]) that the
    transactions are signed under: each one fits the address of the output it spends. *)

From S2P Require Import Prelude Bitcoin Wots TxTypes Taproot.

(** ** The libraries *)

(** What the program gives to a builder.  [Fragment] is a script of the [bitvm] crate. *)
Inductive ScriptElem :=
| PushOpcode (opcode : N)
| PushInt (n : N)
| PushSlice (bytes : list N)
| PushSequence (n : N)
| Fragment (script : list N).

(** [Builder::into_script], [Script::compile], [bitvm]'s check of a WOTS signature,
    [Address::p2tr_tweaked], [ControlBlock::serialize], and the stack that [bitvm] leaves after
    pushing a WOTS signature. *)
Class ConnectorLib := {
  into_script : list ScriptElem → ScriptBuf;
  compile : list ScriptElem → ScriptBuf;
  wots256_checksig_verify : Wots256PublicKey → list N;
  wots256_raw_witness : list (list N) → list (list N);
  p2tr_tweaked : XOnlyPublicKey → Network → ScriptBuf;
  serialize_control_block : N → list N;
}.

Definition OP_TRUE : N := 0x51.
Definition OP_DROP : N := 0x75.
Definition OP_SIZE : N := 0x82.
Definition OP_EQUAL : N := 0x87.
Definition OP_EQUALVERIFY : N := 0x88.
Definition OP_SHA256 : N := 0xa8.
Definition OP_CHECKSIG : N := 0xac.
Definition OP_CHECKSIGVERIFY : N := 0xad.
Definition OP_CSV : N := 0xb2.

(** [XOnlyPublicKey::serialize] and [sha256::Hash::to_byte_array]. *)
Definition key_bytes (key : XOnlyPublicKey) : list N := to_be_bytes 32 key.
Definition hash_bytes (hash : Sha256Hash) : list N := to_be_bytes 32 hash.

(** [Result::expect]. *)
Definition expect_ok {E A} (r : result E A) : comp A :=
  match r with Ok a => Val a | Err _ => Panic end.

(** [primitives/src/scripts/general.rs]. *)
Definition n_of_n_with_timelock (aggregated_pubkey : XOnlyPublicKey) (timelock : N)
    : list ScriptElem :=
  [PushInt timelock; PushOpcode OP_CSV; PushOpcode OP_DROP;
   PushSlice (key_bytes aggregated_pubkey); PushOpcode OP_CHECKSIG].

(** ** Spend paths *)

Inductive StakeSpendPath :=
| SpPayoutOptimistic (signature : SchnorrSignature)
| SpPayout (signature : SchnorrSignature)
| SpDisprove (signature : TaprootSignature)
| SpSlashStake (signature : TaprootSignature)
| SpBurnPayouts (preimage : list N)
| SpAdvance (signature : TaprootSignature) (preimage : list N).

Definition StakeSpendPath_input_index (p : StakeSpendPath) : N :=
  match p with
  | SpPayoutOptimistic _ => 4
  | SpPayout _ => 3
  | SpDisprove _ => 0
  | SpSlashStake _ => 0
  | SpBurnPayouts _ => 0
  | SpAdvance _ _ => 1
  end.

Inductive ConnectorC0Path (W : Type) := C0PayoutOptimistic (w : W) | C0Assert (w : W).
Arguments C0PayoutOptimistic {_} _.
Arguments C0Assert {_} _.

Inductive ConnectorC1Path (W : Type) := C1PayoutOptimistic (w : W) | C1Challenge (w : W).
Arguments C1PayoutOptimistic {_} _.
Arguments C1Challenge {_} _.

Definition C0Path_input_index {W} (p : ConnectorC0Path W) : N :=
  match p with C0PayoutOptimistic _ => 1 | C0Assert _ => 0 end.
Definition C0Path_sighash_type {W} (p : ConnectorC0Path W) : TapSighashType :=
  match p with C0PayoutOptimistic _ => SighashDefault | C0Assert _ => SighashDefault end.
Definition C1Path_input_index {W} (p : ConnectorC1Path W) : N :=
  match p with C1PayoutOptimistic _ => 2 | C1Challenge _ => 0 end.
Definition C1Path_sighash_type {W} (p : ConnectorC1Path W) : TapSighashType :=
  match p with C1PayoutOptimistic _ => SighashDefault | C1Challenge _ => SighashSinglePlusAnyoneCanPay end.

(** ** The connectors *)

Record ConnectorK := mkConnectorK { k_network : Network; claim_bitcommitment : Wots256PublicKey }.

Record ConnectorP := mkConnectorP {
  p_n_of_n : XOnlyPublicKey; p_stake_hash : Sha256Hash; p_network : Network }.

Record ConnectorStake := mkConnectorStake {
  s_n_of_n : XOnlyPublicKey;
  s_operator_pubkey : XOnlyPublicKey;
  s_stake_hash : Sha256Hash;
  s_delta : N;
  s_network : Network;
}.

Record ConnectorCpfp := mkConnectorCpfp { cpfp_public_key : XOnlyPublicKey; cpfp_network : Network }.

Record ConnectorNOfN := mkConnectorNOfN { n_n_of_n : XOnlyPublicKey; n_network : Network }.

Record ConnectorC0 := mkConnectorC0 {
  c0_n_of_n : XOnlyPublicKey; c0_network : Network; c0_pre_assert_timelock : N }.

Record ConnectorC1 := mkConnectorC1 {
  c1_n_of_n : XOnlyPublicKey; c1_network : Network; c1_payout_optimistic_timelock : N }.

Section connectors.
Context `{TaprootLib, ConnectorLib}.

(** *** Connector K: the commitment to the withdrawal fulfillment *)

Definition K_script (c : ConnectorK) : list ScriptElem :=
  [Fragment (wots256_checksig_verify (claim_bitcommitment c))]
    ++ replicate (256 / 4) (PushOpcode OP_DROP) ++ [PushOpcode OP_TRUE].
Definition K_create_locking_script (c : ConnectorK) : ScriptBuf := compile (K_script c).

Definition K_create_taproot_address (c : ConnectorK) : comp ScriptBuf :=
  fst <$> expect_ok (create_taproot_addr (k_network c) (ScriptSpend [K_create_locking_script c])).

Definition K_generate_spend_info (c : ConnectorK) : comp (ScriptBuf * N) :=
  let script := K_create_locking_script c in
  '(_, spend_info) ← expect_ok (create_taproot_addr (k_network c) (ScriptSpend [script]));
  block ← expect (control_block spend_info script);
  Val (script, block).

Definition K_finalize_input (c : ConnectorK) (i : PsbtInput) (signature : list (list N))
    : comp PsbtInput :=
  '(script, block) ← K_generate_spend_info c;
  Val (finalize_input i
    (wots256_raw_witness signature ++ [script; serialize_control_block block])).

(** *** Connector P: payout, or burn with the stake's preimage *)

Definition P_script (c : ConnectorP) : list ScriptElem :=
  [PushOpcode OP_SIZE; PushInt 0x20; PushOpcode OP_EQUALVERIFY; PushOpcode OP_SHA256;
   PushSlice (hash_bytes (p_stake_hash c)); PushOpcode OP_EQUAL].
Definition P_generate_script (c : ConnectorP) : ScriptBuf := into_script (P_script c).

Definition P_generate_address (c : ConnectorP) : comp ScriptBuf :=
  fst <$> expect_ok (create_taproot_addr (p_network c) (Both (p_n_of_n c) [P_generate_script c])).

Definition P_generate_spend_info (c : ConnectorP) : comp (ScriptBuf * N) :=
  let script := P_generate_script c in
  '(_, spend_info) ← expect_ok (create_taproot_addr (p_network c) (Both (p_n_of_n c) [script]));
  block ← expect (control_block spend_info script);
  Val (script, block).

Definition P_generate_merkle_root (c : ConnectorP) : TapNodeHash :=
  tapnode_from_script (P_generate_script c).

Definition P_finalize (c : ConnectorP) (i : PsbtInput) (witness_data : StakeSpendPath)
    : comp PsbtInput :=
  match witness_data with
  | SpPayoutOptimistic signature | SpPayout signature =>
      Val (finalize_input i [serialize_schnorr signature])
  | SpDisprove signature | SpSlashStake signature =>
      Val (finalize_input i [serialize_taproot signature])
  | SpBurnPayouts preimage =>
      '(hashlock_script, block) ← P_generate_spend_info c;
      Val (finalize_input i [preimage; hashlock_script; serialize_control_block block])
  | SpAdvance _ _ => Panic
  end.

(** *** Connector S: the stake *)

Definition S_script (c : ConnectorStake) : list ScriptElem :=
  [PushSlice (key_bytes (s_operator_pubkey c)); PushOpcode OP_CHECKSIGVERIFY;
   PushOpcode OP_SIZE; PushInt 0x20; PushOpcode OP_EQUALVERIFY; PushOpcode OP_SHA256;
   PushSlice (hash_bytes (s_stake_hash c)); PushOpcode OP_EQUALVERIFY]
  ++ if decide (s_delta c ≠ 0%N) then [PushSequence (s_delta c); PushOpcode OP_CSV]
     else [PushOpcode OP_TRUE].
Definition S_generate_script (c : ConnectorStake) : ScriptBuf := into_script (S_script c).

Definition S_generate_address (c : ConnectorStake) : comp ScriptBuf :=
  fst <$> expect_ok (create_taproot_addr (s_network c) (Both (s_n_of_n c) [S_generate_script c])).

Definition S_generate_spend_info (c : ConnectorStake) : comp (ScriptBuf * N) :=
  let script := S_generate_script c in
  '(_, spend_info) ← expect_ok (create_taproot_addr (s_network c) (Both (s_n_of_n c) [script]));
  block ← expect (control_block spend_info script);
  Val (script, block).

Definition S_generate_merkle_root (c : ConnectorStake) : TapNodeHash :=
  tapnode_from_script (S_generate_script c).

Definition S_finalize_input (c : ConnectorStake) (i : PsbtInput) (witness_data : StakeSpendPath)
    : comp PsbtInput :=
  match witness_data with
  | SpDisprove signature | SpSlashStake signature =>
      Val (finalize_input i [serialize_taproot signature])
  | SpAdvance signature preimage =>
      '(script_buf, block) ← S_generate_spend_info c;
      Val (finalize_input i
        [preimage; serialize_taproot signature; script_buf; serialize_control_block block])
  | _ => Panic
  end.

(** *** CPFP and N-of-N outputs *)

Definition Cpfp_generate_taproot_address (c : ConnectorCpfp) : ScriptBuf :=
  p2tr_tweaked (cpfp_public_key c) (cpfp_network c).
Definition Cpfp_generate_locking_script (c : ConnectorCpfp) : ScriptBuf :=
  Cpfp_generate_taproot_address c.
Definition Cpfp_finalize_input (i : PsbtInput) (signature : SchnorrSignature) : PsbtInput :=
  finalize_input i [serialize_schnorr signature].

Definition N_create_taproot_address (c : ConnectorNOfN) : comp ScriptBuf :=
  fst <$> expect_ok (create_taproot_addr (n_network c) (KeySpend (n_n_of_n c))).
Definition N_finalize_input (i : PsbtInput) (signature : TaprootSignature) : PsbtInput :=
  finalize_input i [serialize_taproot signature].

(** *** Connectors C0 and C1: the claim, unchallenged or challenged *)

Definition C0_generate_payout_script (c : ConnectorC0) : ScriptBuf :=
  compile (n_of_n_with_timelock (c0_n_of_n c) (c0_pre_assert_timelock c)).

Definition C0_generate_taproot_address (c : ConnectorC0) : comp (ScriptBuf * TaprootSpendInfo) :=
  expect_ok (create_taproot_addr (c0_network c)
    (Both (c0_n_of_n c) [C0_generate_payout_script c])).

Definition C0_generate_locking_script (c : ConnectorC0) : comp ScriptBuf :=
  '(address, _) ← C0_generate_taproot_address c;
  Val address.

Definition C0_generate_spend_info (c : ConnectorC0) : comp (ScriptBuf * N) :=
  '(_, taproot_spend_info) ← C0_generate_taproot_address c;
  let script := C0_generate_payout_script c in
  block ← expect (control_block taproot_spend_info script);
  Val (script, block).

Definition C0_generate_merkle_root (c : ConnectorC0) : TapNodeHash :=
  tapnode_from_script (C0_generate_payout_script c).

Definition C0_finalize_input (c : ConnectorC0) (i : PsbtInput)
    (tapleaf : ConnectorC0Path SchnorrSignature) : comp PsbtInput :=
  match tapleaf with
  | C0PayoutOptimistic n_of_n_sig => Val (finalize_input i [serialize_schnorr n_of_n_sig])
  | C0Assert n_of_n_sig =>
      '(script, block) ← C0_generate_spend_info c;
      Val (finalize_input i [serialize_schnorr n_of_n_sig; script; serialize_control_block block])
  end.

Definition C1_generate_payout_script (c : ConnectorC1) : ScriptBuf :=
  compile (n_of_n_with_timelock (c1_n_of_n c) (c1_payout_optimistic_timelock c)).

Definition C1_generate_taproot_address (c : ConnectorC1) : comp (ScriptBuf * TaprootSpendInfo) :=
  expect_ok (create_taproot_addr (c1_network c)
    (Both (c1_n_of_n c) [C1_generate_payout_script c])).

Definition C1_generate_locking_script (c : ConnectorC1) : comp ScriptBuf :=
  '(address, _) ← C1_generate_taproot_address c;
  Val address.

Definition C1_generate_spend_info (c : ConnectorC1) : comp (ScriptBuf * N) :=
  '(_, taproot_spend_info) ← C1_generate_taproot_address c;
  let script := C1_generate_payout_script c in
  block ← expect (control_block taproot_spend_info script);
  Val (script, block).

Definition C1_generate_merkle_root (c : ConnectorC1) : TapNodeHash :=
  tapnode_from_script (C1_generate_payout_script c).

Definition C1_finalize_input (c : ConnectorC1) (i : PsbtInput)
    (tapleaf : ConnectorC1Path TaprootSignature) : comp PsbtInput :=
  match tapleaf with
  | C1PayoutOptimistic n_of_n_sig =>
      '(script, block) ← C1_generate_spend_info c;
      Val (finalize_input i [serialize_taproot n_of_n_sig; script; serialize_control_block block])
  | C1Challenge n_of_n_sig => Val (finalize_input i [serialize_taproot n_of_n_sig])
  end.

(** ** What it takes to spend an output

    [spends key network w script_pubkey]: the witness [w] fits the output.  A signature by the
    key path is checked against the output key, which commits to the internal key and to the
    root that the signers tweak with; a script path needs a control block for its script in the
    tree the output commits to. *)
Definition spends (key : XOnlyPublicKey) (network : Network) (w : TaprootWitness)
    (script_pubkey : ScriptBuf) : Prop :=
  match w with
  | Key => script_pubkey = p2tr key None network
  | Tweaked tweak => script_pubkey = p2tr key (Some tweak) network
  | Script s block => ∃ internal_key leaves info,
      finalize_taptree internal_key leaves = Some info ∧ control_block info s = Some block ∧
      script_pubkey = p2tr internal_key (merkle_root info) network
  end.

End connectors.

(** ** Addresses of one script *)

Section addresses.
Context `{TaprootLaws, ConnectorLib}.

Lemma single_script_address network key s :
  ∃ info block,
    build_taptree key network [s] = Ok (p2tr key (Some (tapnode_from_script s)) network, info) ∧
    control_block info s = Some block ∧ finalize_taptree key [(0, s)] = Some info.
Proof.
  destruct (build_taptree_total network key [s]) as (info & E & Hc & Hf); [done|].
  destruct (Hc s) as [block Hb]; [by left|]. change (taptree_leaves [s]) with [(0, s)] in Hf.
  exists info, block. by rewrite E, (merkle_root_single _ _ _ Hf).
Qed.

Lemma key_only_address network key :
  ∃ info, build_taptree key network [] = Ok (p2tr key None network, info).
Proof.
  destruct (build_taptree_total network key []) as (info & E & _ & Hf); [done|].
  exists info. by rewrite E, (merkle_root_empty _ _ Hf).
Qed.

(** The output of each connector. *)
Lemma K_address c :
  K_create_taproot_address c = Val (p2tr UNSPENDABLE_PUBLIC_KEY
    (Some (tapnode_from_script (K_create_locking_script c))) (k_network c)).
Proof.
  unfold K_create_taproot_address. cbn [create_taproot_addr].
  by destruct (single_script_address (k_network c) UNSPENDABLE_PUBLIC_KEY
    (K_create_locking_script c)) as (info & block & -> & _).
Qed.

Lemma P_address c :
  P_generate_address c = Val (p2tr (p_n_of_n c) (Some (P_generate_merkle_root c)) (p_network c)).
Proof.
  unfold P_generate_address. cbn [create_taproot_addr].
  by destruct (single_script_address (p_network c) (p_n_of_n c) (P_generate_script c))
    as (info & block & -> & _).
Qed.

Lemma S_address c :
  S_generate_address c = Val (p2tr (s_n_of_n c) (Some (S_generate_merkle_root c)) (s_network c)).
Proof.
  unfold S_generate_address. cbn [create_taproot_addr].
  by destruct (single_script_address (s_network c) (s_n_of_n c) (S_generate_script c))
    as (info & block & -> & _).
Qed.

Lemma N_address c : N_create_taproot_address c = Val (p2tr (n_n_of_n c) None (n_network c)).
Proof.
  unfold N_create_taproot_address. cbn [create_taproot_addr].
  by destruct (key_only_address (n_network c) (n_n_of_n c)) as (info & ->).
Qed.

Lemma C0_locking_script c :
  C0_generate_locking_script c
  = Val (p2tr (c0_n_of_n c) (Some (C0_generate_merkle_root c)) (c0_network c)).
Proof.
  unfold C0_generate_locking_script, C0_generate_taproot_address. cbn [create_taproot_addr].
  by destruct (single_script_address (c0_network c) (c0_n_of_n c) (C0_generate_payout_script c))
    as (info & block & -> & _).
Qed.

Lemma C1_locking_script c :
  C1_generate_locking_script c
  = Val (p2tr (c1_n_of_n c) (Some (C1_generate_merkle_root c)) (c1_network c)).
Proof.
  unfold C1_generate_locking_script, C1_generate_taproot_address. cbn [create_taproot_addr].
  by destruct (single_script_address (c1_network c) (c1_n_of_n c) (C1_generate_payout_script c))
    as (info & block & -> & _).
Qed.

(** What a script spend reveals fits that output. *)
Lemma script_spends network key s key' :
  ∃ info block,
    build_taptree key network [s] = Ok (p2tr key (Some (tapnode_from_script s)) network, info) ∧
    control_block info s = Some block ∧
    spends key' network (Script s block) (p2tr key (Some (tapnode_from_script s)) network).
Proof.
  destruct (single_script_address network key s) as (info & block & E & Hb & Hf).
  exists info, block. split_and!; [done|done|]. exists key, [(0, s)], info.
  by rewrite (merkle_root_single _ _ _ Hf).
Qed.

Ltac spend_info_by network key script key' :=
  destruct (script_spends network key script key') as (info & block & E & Hb & Hsp);
  exists block; cbn [create_taproot_addr]; rewrite E; cbn; rewrite Hb; split; [done|exact Hsp].

Lemma K_spend_info c key :
  ∃ block, K_generate_spend_info c = Val (K_create_locking_script c, block) ∧
    spends key (k_network c) (Script (K_create_locking_script c) block)
      (p2tr UNSPENDABLE_PUBLIC_KEY (Some (tapnode_from_script (K_create_locking_script c)))
        (k_network c)).
Proof.
  unfold K_generate_spend_info.
  spend_info_by (k_network c) UNSPENDABLE_PUBLIC_KEY (K_create_locking_script c) key.
Qed.

Lemma P_spend_info c key :
  ∃ block, P_generate_spend_info c = Val (P_generate_script c, block) ∧
    spends key (p_network c) (Script (P_generate_script c) block)
      (p2tr (p_n_of_n c) (Some (P_generate_merkle_root c)) (p_network c)).
Proof.
  unfold P_generate_spend_info. spend_info_by (p_network c) (p_n_of_n c) (P_generate_script c) key.
Qed.

Lemma S_spend_info c key :
  ∃ block, S_generate_spend_info c = Val (S_generate_script c, block) ∧
    spends key (s_network c) (Script (S_generate_script c) block)
      (p2tr (s_n_of_n c) (Some (S_generate_merkle_root c)) (s_network c)).
Proof.
  unfold S_generate_spend_info. spend_info_by (s_network c) (s_n_of_n c) (S_generate_script c) key.
Qed.

Lemma C0_spend_info c key :
  ∃ block, C0_generate_spend_info c = Val (C0_generate_payout_script c, block) ∧
    spends key (c0_network c) (Script (C0_generate_payout_script c) block)
      (p2tr (c0_n_of_n c) (Some (C0_generate_merkle_root c)) (c0_network c)).
Proof.
  unfold C0_generate_spend_info, C0_generate_taproot_address.
  spend_info_by (c0_network c) (c0_n_of_n c) (C0_generate_payout_script c) key.
Qed.

Lemma C1_spend_info c key :
  ∃ block, C1_generate_spend_info c = Val (C1_generate_payout_script c, block) ∧
    spends key (c1_network c) (Script (C1_generate_payout_script c) block)
      (p2tr (c1_n_of_n c) (Some (C1_generate_merkle_root c)) (c1_network c)).
Proof.
  unfold C1_generate_spend_info, C1_generate_taproot_address.
  spend_info_by (c1_network c) (c1_n_of_n c) (C1_generate_payout_script c) key.
Qed.

End addresses.

#[export] Hint Rewrite @K_address @P_address @S_address @N_address @C0_locking_script
  @C1_locking_script using apply _ : bridge_rw.
