(* ===== verification/Script.v ===== *)
(** * Bitcoin Script, as far as the bridge uses it

    An interpreter for the elements that the connectors give to the script builders: numbers as
    minimal little-endian byte strings, the main and the alternative stack, conditionals, hash
    and signature checks, and relative timelocks.  Signature checks, hashes and the scripts of
    the [bitvm] crate are parameters.

    The scripts of [primitives/src/scripts/transform.rs] follow, and the theorems about what
    they compute; the scripts of the connectors are verified in [SpendConditions]. *)

From S2P Require Import Prelude Bitcoin Wots TxTypes Taproot Connectors.

(** ** Numbers *)

(** The little-endian digits of a number in base 256, with fuel for the digits of a [u64]. *)
Fixpoint le_bytes (fuel : nat) (n : N) : list N :=
  match fuel with
  | 0 => []
  | S fuel => if (n =? 0)%N then [] else (n mod 256)%N :: le_bytes fuel (n / 256)
  end.

(** A number is pushed as the little-endian bytes of its absolute value, with the sign in the top
    bit of the last one, for which a byte is added when that bit is in use. *)
Definition num_encode (z : Z) : list N :=
  let bytes := le_bytes 9 (Z.abs_N z) in
  let sign := if (z <? 0)%Z then 128%N else 0%N in
  match last bytes with
  | Some b =>
      if (b <? 128)%N then take (length bytes - 1) bytes ++ [(b + sign)%N] else bytes ++ [sign]
  | None => []
  end.

Fixpoint le_value (bytes : list N) : N :=
  match bytes with [] => 0 | b :: bytes => b + 256 * le_value bytes end.

(** The number of a byte string of at most [max] bytes, with its sign. *)
Definition num_decode (max : nat) (bytes : list N) : option Z :=
  if decide (length bytes ≤ max) then
    match last bytes with
    | None => Some 0%Z
    | Some b =>
        if (b <? 128)%N then Some (Z.of_N (le_value bytes))
        else Some (- (Z.of_N (le_value bytes) - Z.of_N (128 * 256 ^ N.of_nat (length bytes - 1))))%Z
    end
  else None.

Definition bool_push (b : bool) : list N := if b then [1%N] else [].

(** A byte string is false when all its bytes are zero (or, for the last, the sign bit). *)
Fixpoint cast_bool (bytes : list N) : bool :=
  match bytes with
  | [] => false
  | [b] => negb ((b =? 0) || (b =? 0x80))%N
  | b :: bytes => negb (b =? 0)%N || cast_bool bytes
  end.

(** ** Execution *)

Definition OP_IF : N := 0x63.
Definition OP_ELSE : N := 0x67.
Definition OP_ENDIF : N := 0x68.
Definition OP_TOALTSTACK : N := 0x6b.
Definition OP_FROMALTSTACK : N := 0x6c.
Definition OP_2DUP : N := 0x6e.
Definition OP_ROLL : N := 0x7a.
Definition OP_ROT : N := 0x7b.
Definition OP_SWAP : N := 0x7c.
Definition OP_TUCK : N := 0x7d.
Definition OP_NOT : N := 0x91.
Definition OP_ADD : N := 0x93.
Definition OP_SUB : N := 0x94.
Definition OP_BOOLAND : N := 0x9a.
Definition OP_GREATERTHAN : N := 0xa0.
Definition OP_GREATERTHANOREQUAL : N := 0xa2.

(** The stacks, top first, and the branches that are open. *)
Record ScriptState := mkScriptState {
  main : list (list N);
  alt : list (list N);
  conds : list bool;
}.

(** The input that is spent: its sequence and the version of its transaction, and what the
    signatures and hashes of the witness are checked with; and what the scripts of the [bitvm]
    crate do to the stacks. *)
Class ScriptContext := {
  tx_version : N;
  txin_sequence : N;
  check_schnorr : list N → list N → bool;
  sha256_bytes : list N → list N;
  run_fragment : list N → list (list N) → list (list N) → option (list (list N) * list (list N));
}.

(** BIP 112, for an argument of at most five bytes. *)
Definition csv_ok `{ScriptContext} (n : N) : bool :=
  if N.testbit n 31 then true
  else
    (2 <=? tx_version)%N && negb (N.testbit txin_sequence 31)
    && Bool.eqb (N.testbit n 22) (N.testbit txin_sequence 22)
    && (N.land n 0xFFFF <=? N.land txin_sequence 0xFFFF)%N.

(** A signature check of tapscript: an empty signature is false, any other has to be valid. *)
Definition check_sig `{ScriptContext} (key sig : list N) : option bool :=
  match sig with
  | [] => Some false
  | _ => if check_schnorr key sig then Some true else None
  end.

Section execution.
Context `{ScriptContext}.

(** The operation of an opcode on the stacks; [None] is failure. *)
Definition exec_op (op : N) (m a : list (list N)) : option (list (list N) * list (list N)) :=
  let unop f := match m with
    | x :: m => n ← num_decode 4 x; r ← f n; Some (r :: m, a) | _ => None end in
  let binop f := match m with
    | y :: x :: m => v ← num_decode 4 x; w ← num_decode 4 y; r ← f v w; Some (r :: m, a)
    | _ => None end in
  if decide (op = OP_TRUE) then Some ([1%N] :: m, a)
  else if decide (op = OP_DROP) then match m with _ :: m => Some (m, a) | _ => None end
  else if decide (op = OP_SIZE) then
    match m with x :: m => Some (num_encode (Z.of_nat (length x)) :: x :: m, a) | _ => None end
  else if decide (op = OP_EQUAL) then
    match m with y :: x :: m => Some (bool_push (bool_decide (x = y)) :: m, a) | _ => None end
  else if decide (op = OP_EQUALVERIFY) then
    match m with y :: x :: m => if decide (x = y) then Some (m, a) else None | _ => None end
  else if decide (op = OP_SHA256) then
    match m with x :: m => Some (sha256_bytes x :: m, a) | _ => None end
  else if decide (op = OP_CHECKSIG) then
    match m with key :: sig :: m => b ← check_sig key sig; Some (bool_push b :: m, a) | _ => None end
  else if decide (op = OP_CHECKSIGVERIFY) then
    match m with
    | key :: sig :: m => b ← check_sig key sig; if (b : bool) then Some (m, a) else None
    | _ => None end
  else if decide (op = OP_CSV) then
    match m with
    | x :: _ => n ← num_decode 5 x; if (0 <=? n)%Z && csv_ok (Z.to_N n) then Some (m, a) else None
    | _ => None end
  else if decide (op = OP_TOALTSTACK) then match m with x :: m => Some (m, x :: a) | _ => None end
  else if decide (op = OP_FROMALTSTACK) then match a with x :: a => Some (x :: m, a) | _ => None end
  else if decide (op = OP_2DUP) then
    match m with y :: x :: m => Some (y :: x :: y :: x :: m, a) | _ => None end
  else if decide (op = OP_ROLL) then
    match m with
    | x :: m =>
        n ← num_decode 4 x;
        if (n <? 0)%Z then None
        else let i := Z.to_nat n in e ← m !! i; Some (e :: delete i m, a)
    | _ => None end
  else if decide (op = OP_ROT) then
    match m with z :: y :: x :: m => Some (x :: z :: y :: m, a) | _ => None end
  else if decide (op = OP_SWAP) then match m with y :: x :: m => Some (x :: y :: m, a) | _ => None end
  else if decide (op = OP_TUCK) then match m with y :: x :: m => Some (y :: x :: y :: m, a) | _ => None end
  else if decide (op = OP_NOT) then unop (λ n, Some (bool_push (n =? 0)%Z))
  else if decide (op = OP_ADD) then binop (λ v w, Some (num_encode (v + w)))
  else if decide (op = OP_SUB) then binop (λ v w, Some (num_encode (v - w)))
  else if decide (op = OP_BOOLAND) then
    binop (λ v w, Some (bool_push (negb (v =? 0)%Z && negb (w =? 0)%Z)))
  else if decide (op = OP_GREATERTHAN) then binop (λ v w, Some (bool_push (w <? v)%Z))
  else if decide (op = OP_GREATERTHANOREQUAL) then binop (λ v w, Some (bool_push (w <=? v)%Z))
  else None.

Definition running (s : ScriptState) : bool := forallb id (conds s).

(** One element.  In a branch that is not taken only the conditionals count; the condition of
    [OP_IF] has to be minimal. *)
Definition exec_elem (e : ScriptElem) (s : ScriptState) : option ScriptState :=
  let keep r := '(m, a) ← r; Some (mkScriptState m a (conds s)) in
  match e with
  | PushOpcode op =>
      if decide (op = OP_IF) then
        if running s then
          match main s with
          | x :: m =>
              if decide (x = []) then Some (mkScriptState m (alt s) (false :: conds s))
              else if decide (x = [1%N]) then Some (mkScriptState m (alt s) (true :: conds s))
              else None
          | [] => None
          end
        else Some (mkScriptState (main s) (alt s) (false :: conds s))
      else if decide (op = OP_ELSE) then
        match conds s with
        | c :: cs => Some (mkScriptState (main s) (alt s) (negb c :: cs))
        | [] => None
        end
      else if decide (op = OP_ENDIF) then
        match conds s with
        | _ :: cs => Some (mkScriptState (main s) (alt s) cs)
        | [] => None
        end
      else if running s then keep (exec_op op (main s) (alt s)) else Some s
  | PushInt n | PushSequence n =>
      if running s then keep (Some (num_encode (Z.of_N n) :: main s, alt s)) else Some s
  | PushSlice bytes => if running s then keep (Some (bytes :: main s, alt s)) else Some s
  | Fragment script =>
      if running s then keep (run_fragment script (main s) (alt s)) else Some s
  end.

Definition exec (script : list ScriptElem) (s : ScriptState) : option ScriptState :=
  foldl (λ r e, s ← r; exec_elem e s) (Some s) script.

(** A script path spend: the elements of the witness before the script and the control block are
    the initial stack, the last one on top, and one true element has to remain. *)
Definition script_succeeds (script : list ScriptElem) (witness : list (list N)) : bool :=
  match exec script (mkScriptState (rev witness) [] []) with
  | Some (mkScriptState [x] _ []) => cast_bool x
  | _ => false
  end.

End execution.

(** ** The scripts of [transform.rs] *)

(** [bitvm]'s [NMUL(n)]. *)
Class NmulLib := NMUL : N → list N.

(** It multiplies the top of the stack, by a power of two by doubling it: the last doubling may
    leave five bytes. *)
Class NmulLaws `{ScriptContext, NmulLib} : Prop :=
  nmul_doubles : ∀ k v m a, (0 ≤ v)%Z → (v * 2 ^ Z.of_N k < 2 ^ 32)%Z →
    run_fragment (NMUL (2 ^ k)) (num_encode v :: m) a = Some (num_encode (v * 2 ^ Z.of_N k) :: m, a).

Abbreviation OP := PushOpcode (only parsing).

Section transform.
Context `{NmulLib}.

(** [script!]'s loops. *)
Definition script_for {A} (l : list A) (f : A → list ScriptElem) : list ScriptElem := l ≫= f.

Definition split_round (window index i : nat) : list ScriptElem :=
  [OP OP_TUCK; PushInt (2 ^ N.of_nat (window - i - 1)); OP OP_GREATERTHANOREQUAL; OP OP_TUCK; OP OP_ADD]
  ++ (if decide (i < index - 1) then [Fragment (NMUL 2)] else [])
  ++ [OP OP_ROT; OP OP_ROT; OP OP_IF; PushInt (2 ^ N.of_nat (window - i - 1)); OP OP_SUB; OP OP_ENDIF].

Definition split_digit (window index : nat) : list ScriptElem :=
  [PushInt 0; OP OP_SWAP] ++ script_for (seq 0 index) (split_round window index) ++ [OP OP_SWAP].

Definition ts_from_nibbles : list ScriptElem :=
  script_for (seq 1 7) (λ _, [OP OP_TOALTSTACK])
  ++ script_for (seq 1 7) (λ _, [Fragment (NMUL (2 ^ 4)); OP OP_FROMALTSTACK; OP OP_ADD]).

(** [U254::N_BITS] and [U254::N_LIMBS]. *)
Definition U254_N_BITS : nat := 254.
Definition U254_N_LIMBS : nat := 9.

Definition fq_from_nibbles : list ScriptElem :=
  let WINDOW := 4 in
  let LIMB_SIZE := 29 in
  let N_DIGITS := (U254_N_BITS + WINDOW - 1) / WINDOW in
  script_for (rev (seq 1 N_DIGITS)) (λ i,
    if decide ((i * WINDOW) mod LIMB_SIZE = 0) then [OP OP_TOALTSTACK]
    else if decide ((i * WINDOW) mod LIMB_SIZE < WINDOW) then
      [OP OP_SWAP] ++ split_digit WINDOW ((i * WINDOW) mod LIMB_SIZE)
      ++ [OP OP_ROT; Fragment (NMUL (2 ^ N.of_nat ((i * WINDOW) mod LIMB_SIZE))); OP OP_ADD;
          OP OP_TOALTSTACK]
    else if decide (i ≠ N_DIGITS) then [Fragment (NMUL (2 ^ N.of_nat WINDOW)); OP OP_ADD]
    else [])
  ++ script_for (seq 1 (U254_N_LIMBS - 1)) (λ _, [OP OP_FROMALTSTACK])
  ++ script_for (seq 1 (U254_N_LIMBS - 1)) (λ i, [PushInt (N.of_nat i); OP OP_ROLL]).

Definition flip_byte_nibbles : list ScriptElem :=
  script_for (seq 1 4) (λ i,
    [PushInt (2 ^ N.of_nat (8 - i)); OP OP_2DUP; OP OP_GREATERTHAN; OP OP_IF; OP OP_SUB;
     PushInt (2 ^ N.of_nat (4 - i)); OP OP_ELSE; OP OP_DROP; PushInt 0; OP OP_ENDIF;
     OP OP_TOALTSTACK])
  ++ [Fragment (NMUL (2 ^ 4))]
  ++ script_for (seq 0 4) (λ _, [OP OP_FROMALTSTACK; OP OP_ADD]).

Definition hash_to_bn254_fq : list ScriptElem :=
  script_for (seq 1 3) (λ i,
    [PushInt (2 ^ N.of_nat (8 - i)); OP OP_2DUP; OP OP_GREATERTHAN; OP OP_IF; OP OP_SUB;
     OP OP_ELSE; OP OP_DROP; OP OP_ENDIF]).

Definition add_bincode_padding_bytes32 : list ScriptElem :=
  script_for (replicate 7 0%N) (λ b, [PushInt b]) ++ [PushInt 32].

End transform.

(** The committed bytes of a WOTS signature: the digits without the four of the checksum, last
    first, two to a byte, the second one the high half.  An odd digit is left over. *)
Fixpoint byte_chunks (nibs : list N) : list N :=
  match nibs with
  | lo :: hi :: nibs => ((N.shiftl hi 4 mod 256 + lo) mod 256)%N :: byte_chunks nibs
  | _ => []
  end.
Definition wots_to_byte_array (signature : list (list N)) : list N :=
  byte_chunks (rev (take (length signature - 4) ((λ sig, default 0%N (last sig)) <$> signature))).

(** ** Lemmas: numbers *)

Lemma le_value_bytes fuel n : (n < 256 ^ N.of_nat fuel)%N → le_value (le_bytes fuel n) = n.
Proof.
  revert n. induction fuel as [|fuel IH]; intros n Hn.
  { change (256 ^ N.of_nat 0)%N with 1%N in Hn. cbn. lia. }
  rewrite Nat2N.inj_succ, N.pow_succ_r' in Hn. cbn [le_bytes].
  destruct (N.eqb_spec n 0) as [->|Hz]; [done|]. cbn [le_value].
  rewrite IH by (apply N.Div0.div_lt_upper_bound; lia). rewrite N.add_comm. symmetry. by apply N.div_mod.
Qed.

Lemma length_le_bytes fuel n k : (n < 256 ^ N.of_nat k)%N → length (le_bytes fuel n) ≤ k.
Proof.
  revert n k. induction fuel as [|fuel IH]; intros n k Hn; cbn [le_bytes]; [cbn; lia|].
  destruct (N.eqb_spec n 0) as [->|Hz]; [cbn; lia|]. destruct k as [|k].
  { change (256 ^ N.of_nat 0)%N with 1%N in Hn. lia. }
  cbn [length]. apply le_n_S, IH. rewrite Nat2N.inj_succ, N.pow_succ_r' in Hn.
  apply N.Div0.div_lt_upper_bound. lia.
Qed.

Lemma le_bytes_small fuel n : Forall (λ b, b < 256)%N (le_bytes fuel n).
Proof.
  revert n. induction fuel as [|fuel IH]; intros n; cbn [le_bytes]; [constructor|].
  destruct (n =? 0)%N; constructor; [|apply IH]. apply N.mod_lt. done.
Qed.

Lemma le_bytes_nil fuel n : le_bytes (S fuel) n = [] → n = 0%N.
Proof. cbn [le_bytes]. by destruct (N.eqb_spec n 0). Qed.

Lemma le_value_app l l' : le_value (l ++ l') = (le_value l + 256 ^ N.of_nat (length l) * le_value l')%N.
Proof.
  induction l as [|b l IH]; [cbn; destruct (le_value l'); done|]. cbn [le_value app length].
  rewrite IH, Nat2N.inj_succ, N.pow_succ_r'. lia.
Qed.

Lemma le_value_bound l : Forall (λ b, b < 256)%N l → (le_value l < 256 ^ N.of_nat (length l))%N.
Proof.
  induction 1 as [|b l Hb _ IH]; [done|]. cbn [le_value length]. rewrite Nat2N.inj_succ, N.pow_succ_r'. lia.
Qed.

(** The number of a byte string comes back, in the range of the operations on numbers. *)
Lemma num_decode_encode j n :
  j < 8 → (n < 128 * 256 ^ N.of_nat j)%N → num_decode (S j) (num_encode (Z.of_N n)) = Some (Z.of_N n).
Proof.
  intros Hj Hn. unfold num_encode. destruct (Z.ltb_spec (Z.of_N n) 0) as [|_]; [lia|].
  replace (Z.abs_N (Z.of_N n)) with n by lia.
  assert (n < 256 ^ N.of_nat (S j))%N as Hn'. { rewrite Nat2N.inj_succ, N.pow_succ_r'. lia. }
  assert (le_value (le_bytes 9 n) = n) as Hval.
  { apply le_value_bytes. etrans; [exact Hn'|]. apply N.pow_lt_mono_r; lia. }
  pose proof (length_le_bytes 9 n (S j) Hn') as Hlen. pose proof (le_bytes_small 9 n) as Hsmall.
  destruct (le_bytes 9 n) as [|b l _] eqn:E using rev_ind.
  { apply le_bytes_nil in E as ->. done. }
  rewrite last_snoc. rewrite length_app in *. cbn [length] in *. unfold num_decode.
  rewrite le_value_app in Hval. cbn [le_value] in Hval.
  destruct (N.ltb_spec b 128) as [Hb|Hb].
  - rewrite Nat.add_sub, take_app_length, N.add_0_r. rewrite decide_True by (rewrite length_app; cbn; lia).
    rewrite last_snoc. destruct (N.ltb_spec b 128); [|lia]. rewrite le_value_app. cbn [le_value].
    do 2 f_equal. lia.
  - assert (N.of_nat (length l) < N.of_nat j)%N.
    { apply (N.pow_lt_mono_r_iff 256); [lia|]. nia. }
    rewrite decide_True by (rewrite !length_app; cbn; lia). rewrite last_snoc.
    rewrite !le_value_app, length_app. cbn [le_value N.ltb N.compare].
    do 2 f_equal. lia.
Qed.

Corollary num_decode_encode_4 z : (0 ≤ z < 2 ^ 31)%Z → num_decode 4 (num_encode z) = Some z.
Proof.
  intros Hz. rewrite <- (Z2N.id z) by lia. apply num_decode_encode; [lia|].
  change (128 * 256 ^ N.of_nat 3)%N with 2147483648%N. lia.
Qed.

Lemma forall_bytes (P : N → Prop) : Forall P (N.of_nat <$> seq 0 256) → ∀ b, (b < 256)%N → P b.
Proof.
  rewrite Forall_forall. intros Hall b Hb. apply Hall, list_elem_of_fmap. exists (N.to_nat b).
  split; [lia|]. apply elem_of_seq. lia.
Qed.

(** ** Lemmas: execution *)

Section execution_lemmas.
Context `{ScriptContext}.

Lemma exec_app l l' s : exec (l ++ l') s = (s' ← exec l s; exec l' s').
Proof.
  unfold exec. rewrite foldl_app. destruct (foldl _ (Some s) l) as [s'|]; [done|]. cbn.
  by induction l'.
Qed.

Lemma exec_cons e l s : exec (e :: l) s = (s' ← exec_elem e s; exec l s').
Proof. exact (exec_app [e] l s). Qed.

Lemma exec_nil s : exec [] s = Some s.
Proof. done. Qed.

(** The steps, in branches that are taken. *)
Context (cs : list bool) (Hcs : forallb id cs = true).

Lemma step_op op m a r :
  op ≠ OP_IF → op ≠ OP_ELSE → op ≠ OP_ENDIF → exec_op op m a = Some r →
  exec_elem (PushOpcode op) (mkScriptState m a cs) = Some (mkScriptState (fst r) (snd r) cs).
Proof.
  intros H1 H2 H3 E. unfold exec_elem, running. cbn [conds main alt].
  rewrite !decide_False by done. rewrite Hcs, E. by destruct r.
Qed.

Lemma step_int n m a :
  exec_elem (PushInt n) (mkScriptState m a cs) = Some (mkScriptState (num_encode (Z.of_N n) :: m) a cs).
Proof. unfold exec_elem, running. cbn [conds]. by rewrite Hcs. Qed.

Lemma step_swap x y m a :
  exec_elem (PushOpcode OP_SWAP) (mkScriptState (y :: x :: m) a cs) = Some (mkScriptState (x :: y :: m) a cs).
Proof. by apply (step_op OP_SWAP _ _ (_, _)). Qed.

Lemma step_tuck x y m a :
  exec_elem (PushOpcode OP_TUCK) (mkScriptState (y :: x :: m) a cs) = Some (mkScriptState (y :: x :: y :: m) a cs).
Proof. by apply (step_op OP_TUCK _ _ (_, _)). Qed.

Lemma step_rot x y z m a :
  exec_elem (PushOpcode OP_ROT) (mkScriptState (z :: y :: x :: m) a cs) = Some (mkScriptState (x :: z :: y :: m) a cs).
Proof. by apply (step_op OP_ROT _ _ (_, _)). Qed.

Lemma step_drop x m a :
  exec_elem (PushOpcode OP_DROP) (mkScriptState (x :: m) a cs) = Some (mkScriptState m a cs).
Proof. by apply (step_op OP_DROP _ _ (_, _)). Qed.

Lemma step_toalt x m a :
  exec_elem (PushOpcode OP_TOALTSTACK) (mkScriptState (x :: m) a cs) = Some (mkScriptState m (x :: a) cs).
Proof. by apply (step_op OP_TOALTSTACK _ _ (_, _)). Qed.

Lemma step_fromalt x m a :
  exec_elem (PushOpcode OP_FROMALTSTACK) (mkScriptState m (x :: a) cs) = Some (mkScriptState (x :: m) a cs).
Proof. by apply (step_op OP_FROMALTSTACK _ _ (_, _)). Qed.

Lemma step_add v w m a : (0 ≤ v < 2 ^ 31)%Z → (0 ≤ w < 2 ^ 31)%Z →
  exec_elem (PushOpcode OP_ADD) (mkScriptState (num_encode w :: num_encode v :: m) a cs)
    = Some (mkScriptState (num_encode (v + w) :: m) a cs).
Proof.
  intros Hv Hw. apply (step_op OP_ADD _ _ (_, _)); [done..|].
  change (exec_op OP_ADD (num_encode w :: num_encode v :: m) a) with
    (v' ← num_decode 4 (num_encode v); w' ← num_decode 4 (num_encode w);
     Some (num_encode (v' + w') :: m, a)).
  by rewrite !num_decode_encode_4.
Qed.

Lemma step_sub v w m a : (0 ≤ v < 2 ^ 31)%Z → (0 ≤ w < 2 ^ 31)%Z →
  exec_elem (PushOpcode OP_SUB) (mkScriptState (num_encode w :: num_encode v :: m) a cs)
    = Some (mkScriptState (num_encode (v - w) :: m) a cs).
Proof.
  intros Hv Hw. apply (step_op OP_SUB _ _ (_, _)); [done..|].
  change (exec_op OP_SUB (num_encode w :: num_encode v :: m) a) with
    (v' ← num_decode 4 (num_encode v); w' ← num_decode 4 (num_encode w);
     Some (num_encode (v' - w') :: m, a)).
  by rewrite !num_decode_encode_4.
Qed.

Lemma step_gte v w m a : (0 ≤ v < 2 ^ 31)%Z → (0 ≤ w < 2 ^ 31)%Z →
  exec_elem (PushOpcode OP_GREATERTHANOREQUAL) (mkScriptState (num_encode w :: num_encode v :: m) a cs)
    = Some (mkScriptState (num_encode (Z.b2z (w <=? v)%Z) :: m) a cs).
Proof.
  intros Hv Hw. apply (step_op OP_GREATERTHANOREQUAL _ _ (_, _)); [done..|].
  change (exec_op OP_GREATERTHANOREQUAL (num_encode w :: num_encode v :: m) a) with
    (v' ← num_decode 4 (num_encode v); w' ← num_decode 4 (num_encode w);
     Some (bool_push (w' <=? v')%Z :: m, a)).
  rewrite !num_decode_encode_4 by done. cbn. by destruct (w <=? v)%Z.
Qed.

Lemma step_nmul `{!NmulLib, !NmulLaws} k v m a : (0 ≤ v)%Z → (v * 2 ^ Z.of_N k < 2 ^ 32)%Z →
  exec_elem (Fragment (NMUL (2 ^ k))) (mkScriptState (num_encode v :: m) a cs)
    = Some (mkScriptState (num_encode (v * 2 ^ Z.of_N k) :: m) a cs).
Proof.
  intros Hv Hk. unfold exec_elem, running. cbn [conds main alt]. by rewrite Hcs, nmul_doubles.
Qed.

End execution_lemmas.

(** Runs the elements of a script one after the other. *)
Ltac script_step :=
  rewrite exec_cons;
  first
    [ rewrite step_int by done | rewrite step_swap by done | rewrite step_tuck by done
    | rewrite step_rot by done | rewrite step_drop by done | rewrite step_toalt by done
    | rewrite step_fromalt by done | rewrite step_add by (done || lia)
    | rewrite step_sub by (done || lia) | rewrite step_gte by (done || lia)
    | rewrite step_nmul by (done || lia) ];
  cbn [mbind option_bind].
Ltac script_run := rewrite <- ?app_comm_cons; repeat script_step; rewrite ?exec_nil; cbn [mbind option_bind].

(** [OP_IF c OP_SUB OP_ENDIF] subtracts when the flag on the stack is set. *)
Lemma exec_if_sub `{ScriptContext} c (b : bool) v m a :
  (0 ≤ v < 2 ^ 31)%Z → (Z.of_N c < 2 ^ 31)%Z →
  exec [OP OP_IF; PushInt c; OP OP_SUB; OP OP_ENDIF]
      (mkScriptState (num_encode (Z.b2z b) :: num_encode v :: m) a [])
    = Some (mkScriptState (num_encode (v - Z.b2z b * Z.of_N c) :: m) a []).
Proof.
  intros Hv Hc. destruct b; [|by rewrite Z.mul_0_l, Z.sub_0_r].
  rewrite exec_cons. change (exec_elem (OP OP_IF) _)
    with (Some (mkScriptState (num_encode v :: m) a [true])). cbn [mbind option_bind].
  do 2 script_step. rewrite Z.mul_1_l. done.
Qed.

(** The loop of [split_digit], at bit [k] of the window. *)
Lemma exec_split_body `{NmulLaws} k v A m a (dbl : bool) :
  (0 ≤ v < 2 ^ 30)%Z → (0 ≤ A < 2 ^ 30)%Z → (k < 30)%N →
  let b := (2 ^ Z.of_N k <=? v)%Z in
  let A' := (A + Z.b2z b)%Z in
  exec ([OP OP_TUCK; PushInt (2 ^ k); OP OP_GREATERTHANOREQUAL; OP OP_TUCK; OP OP_ADD]
       ++ (if dbl then [Fragment (NMUL 2)] else [])
       ++ [OP OP_ROT; OP OP_ROT; OP OP_IF; PushInt (2 ^ k); OP OP_SUB; OP OP_ENDIF])
      (mkScriptState (num_encode v :: num_encode A :: m) a [])
    = Some (mkScriptState (num_encode (v - Z.b2z b * 2 ^ Z.of_N k)
        :: num_encode (if dbl then A' * 2 else A') :: m) a []).
Proof.
  intros Hv HA Hk b A'.
  assert (0 < 2 ^ Z.of_N k < 2 ^ 31)%Z as Hc by (split; [lia|apply Z.pow_lt_mono_r; lia]).
  assert (Z.of_N (2 ^ k) = 2 ^ Z.of_N k)%Z as Hp by (rewrite N2Z.inj_pow; done).
  assert (0 ≤ Z.b2z b ≤ 1)%Z as Hb by (destruct b; cbn; lia).
  rewrite exec_app. script_run. rewrite Hp. fold b. script_run.
  assert (∀ X, exec [OP OP_ROT; OP OP_ROT; OP OP_IF; PushInt (2 ^ k); OP OP_SUB; OP OP_ENDIF]
      (mkScriptState (num_encode X :: num_encode (Z.b2z b) :: num_encode v :: m) a [])
    = Some (mkScriptState (num_encode (v - Z.b2z b * 2 ^ Z.of_N k) :: num_encode X :: m) a [])) as Hrest.
  { intros X. script_run. rewrite exec_if_sub by lia. by rewrite Hp. }
  rewrite exec_app. destruct dbl.
  - change (NMUL 2) with (NMUL (2 ^ 1)). script_run. by rewrite Hrest.
  - script_run. by rewrite Hrest.
Qed.

Lemma script_for_snoc {A} (f : A → list ScriptElem) l x : script_for (l ++ [x]) f = script_for l f ++ f x.
Proof. unfold script_for. rewrite bind_app. cbn. by rewrite app_nil_r. Qed.

(** The next bit of a number. *)
Lemma div_mod_bit v k :
  (0 ≤ v)%Z → (0 ≤ k)%Z →
  let c := (2 ^ k)%Z in
  let b := (c <=? v mod 2 ^ (k + 1))%Z in
  ((v mod 2 ^ (k + 1)) - Z.b2z b * c = v mod c)%Z ∧ (v / 2 ^ (k + 1) * 2 + Z.b2z b = v / c)%Z.
Proof.
  intros Hv Hk c b. assert (0 < c)%Z as Hc by (apply Z.pow_pos_nonneg; lia).
  unfold b. rewrite Z.pow_add_r, Z.pow_1_r by lia. fold c.
  rewrite Z.rem_mul_r, <- Z.div_div by lia.
  pose proof (Z.mod_pos_bound v c Hc). pose proof (Z.mod_pos_bound (v / c) 2 ltac:(lia)).
  pose proof (Z.div_mod (v / c) 2 ltac:(lia)) as E.
  destruct (Z.leb_spec c (v mod c + c * ((v / c) mod 2))); cbn [Z.b2z];
    (assert ((v / c) mod 2 = 0 ∨ (v / c) mod 2 = 1)%Z as [E'|E'] by lia); rewrite E' in *; lia.
Qed.

(** The value and its high bits after [i] rounds. *)
Lemma exec_split_loop `{NmulLaws} window index v m a :
  window ≤ 30 → index ≤ window → (0 ≤ v < 2 ^ Z.of_nat window)%Z →
  ∀ i, i ≤ index →
  exec (script_for (seq 0 i) (split_round window index)) (mkScriptState (num_encode v :: num_encode 0 :: m) a [])
    = Some (mkScriptState (num_encode (v mod 2 ^ Z.of_nat (window - i))
        :: num_encode ((v / 2 ^ Z.of_nat (window - i)) * (if decide (i < index) then 2 else 1)) :: m) a []).
Proof.
  intros Hw Hidx Hv. induction i as [|i IH]; intros Hi.
  { rewrite Nat.sub_0_r. by rewrite Z.mod_small, Z.div_small by done. }
  rewrite seq_S, script_for_snoc, exec_app, IH by lia. cbn [mbind option_bind Nat.add].
  rewrite decide_True by lia. set (k := window - i - 1).
  replace (Z.of_nat (window - i)) with (Z.of_nat k + 1)%Z by lia.
  replace (window - S i) with k by lia.
  destruct (div_mod_bit v (Z.of_nat k)) as [E1 E2]; [lia..|].
  assert (2 ^ Z.of_nat k ≤ 2 ^ 29)%Z as Hk by (apply Z.pow_le_mono_r; lia).
  assert (0 < 2 ^ Z.of_nat k)%Z as Hk' by (apply Z.pow_pos_nonneg; lia).
  assert (2 ^ (Z.of_nat k + 1) = 2 * 2 ^ Z.of_nat k)%Z as Hk2 by (rewrite Z.pow_add_r; lia).
  assert (v < 2 ^ 30)%Z as Hv30 by (eapply Z.lt_le_trans; [apply Hv|apply Z.pow_le_mono_r; lia]).
  pose proof (Z.mod_pos_bound v (2 ^ (Z.of_nat k + 1)) ltac:(lia)) as Hm.
  assert (0 ≤ v / 2 ^ (Z.of_nat k + 1) * 2 < 2 ^ 30)%Z as Hd.
  { split; [apply Z.mul_nonneg_nonneg; [apply Z.div_pos; lia|lia]|].
    eapply Z.le_lt_trans; [|exact Hv30]. rewrite Hk2.
    pose proof (Z.mul_div_le v (2 * 2 ^ Z.of_nat k) ltac:(lia)).
    pose proof (Z.div_pos v (2 * 2 ^ Z.of_nat k) ltac:(lia) ltac:(lia)). nia. }
  pose proof (λ dbl, exec_split_body (N.of_nat k) (v mod 2 ^ (Z.of_nat k + 1))
    (v / 2 ^ (Z.of_nat k + 1) * 2) m a dbl ltac:(lia) Hd ltac:(lia)) as Hbody.
  cbv zeta in Hbody. rewrite nat_N_Z, E1, E2 in Hbody. unfold split_round. fold k.
  destruct (decide (i < index - 1)) as [Hlt|Hge].
  - rewrite decide_True by lia. exact (Hbody true).
  - rewrite decide_False, Z.mul_1_r by lia. exact (Hbody false).
Qed.

Lemma exec_split_digit `{NmulLaws} window index v m a :
  window ≤ 30 → index ≤ window → (0 ≤ v < 2 ^ Z.of_nat window)%Z →
  exec (split_digit window index) (mkScriptState (num_encode v :: m) a [])
    = Some (mkScriptState (num_encode (v / 2 ^ Z.of_nat (window - index))
        :: num_encode (v mod 2 ^ Z.of_nat (window - index)) :: m) a []).
Proof.
  intros Hw Hidx Hv. unfold split_digit. rewrite exec_app. script_run.
  rewrite exec_app, exec_split_loop by lia. cbn [mbind option_bind].
  rewrite decide_False, Z.mul_1_r by lia. by script_run.
Qed.

(** Numbers that are too long to be operands. *)
Lemma num_decode_encode_long z : (2 ^ 31 ≤ z < 2 ^ 32)%Z → num_decode 4 (num_encode z) = None.
Proof.
  intros Hz. unfold num_decode, num_encode. destruct (Z.ltb_spec z 0) as [|_]; [lia|].
  set (n := Z.abs_N z). assert (2 ^ 31 ≤ n < 2 ^ 32)%N as Hn.
  { unfold n. change (2 ^ 31)%N with (Z.to_N (2 ^ 31)). change (2 ^ 32)%N with (Z.to_N (2 ^ 32)). lia. }
  assert (le_value (le_bytes 9 n) = n) as Hval.
  { apply le_value_bytes. etrans; [apply Hn|]. done. }
  assert (length (le_bytes 9 n) ≤ 4) as Hlen by (apply length_le_bytes; apply Hn).
  pose proof (le_bytes_small 9 n) as Hsmall.
  destruct (le_bytes 9 n) as [|b l _] eqn:E using rev_ind; [cbn in Hval; lia|].
  apply Forall_app in Hsmall as [Hl Hb]. rewrite Forall_singleton in Hb.
  rewrite last_snoc. rewrite length_app in *. cbn [length] in *.
  rewrite le_value_app in Hval. cbn [le_value] in Hval. pose proof (le_value_bound l Hl) as Hbound.
  assert (length l = 3) as H3.
  { destruct (decide (length l ≤ 2)) as [H2|]; [|lia].
    assert (256 ^ N.of_nat (length l) ≤ 256 ^ 2)%N by (apply N.pow_le_mono_r; lia).
    change (256 ^ 2)%N with 65536%N in *. change (2 ^ 31)%N with 2147483648%N in *. nia. }
  rewrite H3 in *. change (256 ^ N.of_nat 3)%N with 16777216%N in *.
  change (2 ^ 31)%N with 2147483648%N in *.
  destruct (N.ltb_spec b 128); [lia|]. rewrite decide_False; [done|]. rewrite !length_app, H3. cbn. lia.
Qed.

(** The digits of a number in base 16, the least significant first. *)
Fixpoint nibbles_value (l : list Z) : Z :=
  match l with [] => 0 | d :: l => d + 16 * nibbles_value l end.

Lemma exec_ts_from_nibbles `{NmulLaws} d0 d1 d2 d3 d4 d5 d6 d7 m a :
  let l := [d0; d1; d2; d3; d4; d5; d6; d7] in
  Forall (λ d, 0 ≤ d < 16)%Z l →
  exec ts_from_nibbles (mkScriptState ((num_encode <$> l) ++ m) a [])
    = if (nibbles_value l <? 2 ^ 31)%Z
      then Some (mkScriptState (num_encode (nibbles_value l) :: m) a []) else None.
Proof.
  intros l Hl. unfold l in *. rewrite !Forall_cons in Hl. destruct_and! Hl.
  unfold ts_from_nibbles, script_for. cbn [seq mbind list_bind app fmap list_fmap].
  script_run. change (2 ^ Z.of_N 4)%Z with 16%Z. cbn [nibbles_value].
  match goal with |- exec _ (mkScriptState (_ :: num_encode ?x :: _) _ _) = _ => set (acc := x) end.
  destruct (Z.ltb_spec (d0 + 16 * (d1 + 16 * (d2 + 16 * (d3 + 16 * (d4 + 16 * (d5 + 16 *
    (d6 + 16 * (d7 + 16 * 0)))))))) (2 ^ 31)) as [Hlt|Hge].
  - unfold acc. script_step. do 4 f_equal. lia.
  - rewrite exec_cons. change (exec_elem (OP OP_ADD) (mkScriptState (num_encode d0 :: num_encode acc :: m) a []))
      with ('(m, a) ← (v' ← num_decode 4 (num_encode acc); w' ← num_decode 4 (num_encode d0);
        Some (num_encode (v' + w') :: m, a)); Some (mkScriptState m a [])).
    rewrite (num_decode_encode_long acc) by (unfold acc; lia). done.
Qed.

(** The first loop of [flip_byte_nibbles]. *)
Definition flip_high (b : N) : N := if (b =? 0)%N then 0 else (b - 1) / 16.

Lemma exec_flip_loop `{ScriptContext} b m a :
  (b < 256)%N →
  exec (script_for (seq 1 4) (λ i,
    [PushInt (2 ^ N.of_nat (8 - i)); OP OP_2DUP; OP OP_GREATERTHAN; OP OP_IF; OP OP_SUB;
     PushInt (2 ^ N.of_nat (4 - i)); OP OP_ELSE; OP OP_DROP; PushInt 0; OP OP_ENDIF;
     OP OP_TOALTSTACK])) (mkScriptState (num_encode (Z.of_N b) :: m) a [])
  = Some (mkScriptState (num_encode (Z.of_N (b - 16 * flip_high b)) :: m)
      (((λ k, num_encode (Z.of_N (N.land (flip_high b) (2 ^ k)))) <$> [0; 1; 2; 3]%N) ++ a) []).
Proof.
  intros Hb. revert b Hb. apply forall_bytes. cbn [seq fmap list_fmap]. repeat constructor.
Qed.

Lemma land_bits n : (n < 16)%N →
  (N.land n 1 + N.land n 2 + N.land n 4 + N.land n 8 = n)%N.
Proof.
  intros Hn. assert (Forall (λ n, N.land n 1 + N.land n 2 + N.land n 4 + N.land n 8 = n)%N
    (N.of_nat <$> seq 0 16)) as Hall by (cbn [seq fmap list_fmap]; repeat constructor).
  rewrite Forall_forall in Hall. apply Hall, list_elem_of_fmap. exists (N.to_nat n).
  split; [lia|]. apply elem_of_seq. lia.
Qed.

Lemma exec_flip_byte_nibbles `{NmulLaws} b m a :
  (b < 256)%N →
  exec flip_byte_nibbles (mkScriptState (num_encode (Z.of_N b) :: m) a [])
    = Some (mkScriptState (num_encode (Z.of_N ((b - 16 * flip_high b) * 16 + flip_high b)) :: m) a []).
Proof.
  intros Hb. unfold flip_byte_nibbles. rewrite exec_app, exec_flip_loop by done. cbn [mbind option_bind].
  assert (flip_high b < 16)%N as Hh.
  { unfold flip_high. destruct (b =? 0)%N; [lia|]. apply N.Div0.div_lt_upper_bound. lia. }
  assert (b - 16 * flip_high b ≤ 16)%N as Hl.
  { unfold flip_high. destruct (N.eqb_spec b 0); [lia|]. pose proof (N.div_mod (b - 1) 16). pose proof (N.mod_lt (b - 1) 16). lia. }
  pose proof (land_bits (flip_high b) Hh) as Hbits.
  unfold script_for. cbn [seq mbind list_bind app fmap list_fmap].
  change (2 ^ 0)%N with 1%N. change (2 ^ 1)%N with 2%N. change (2 ^ 2)%N with 4%N. change (2 ^ 3)%N with 8%N.
  generalize dependent (flip_high b). intros h Hh Hl Hbits. script_run.
  do 4 f_equal. change (2 ^ Z.of_N 4)%Z with 16%Z. lia.
Qed.

(** The byte that [hash_to_bn254_fq] leaves. *)
Definition fq_top_byte (b : N) : N := if decide (b ≠ 0 ∧ b mod 32 = 0)%N then 32 else b mod 32.

Lemma exec_mask `{ScriptContext} b m a :
  (b < 256)%N →
  exec hash_to_bn254_fq (mkScriptState (num_encode (Z.of_N b) :: m) a [])
    = Some (mkScriptState (num_encode (Z.of_N (fq_top_byte b)) :: m) a []).
Proof.
  intros Hb. revert b Hb. apply forall_bytes. cbn [seq fmap list_fmap]. repeat constructor.
Qed.

(** [hash_to_bn254_fq], which the locking script of the disprove transaction applies to the
    hash of the public inputs, is meant to clear the three top bits of the first byte.  For
    every byte and whatever is below it on the stacks, it leaves the byte modulo 32, except for
    the seven nonzero multiples of 32, for which it leaves 32 where 0 is meant: the comparisons
    are strict. *)
Theorem hash_to_bn254_fq_masks `{ScriptContext} b m a :
  (b < 256)%N →
  exec hash_to_bn254_fq (mkScriptState (num_encode (Z.of_N b) :: m) a [])
    = Some (mkScriptState (num_encode (Z.of_N (fq_top_byte b)) :: m) a []).
Proof. apply exec_mask. Qed.

(** What [flip_byte_nibbles] leaves: the flipped byte, except for the nonzero multiples of 16. *)
Definition flipped (b : N) : N :=
  if decide (b ≠ 0 ∧ b mod 16 = 0)%N then 256 + b / 16 - 1 else b mod 16 * 16 + b / 16.

Lemma flip_high_flipped b : (b < 256)%N → ((b - 16 * flip_high b) * 16 + flip_high b)%N = flipped b.
Proof. revert b. apply forall_bytes. cbn [seq fmap list_fmap]. repeat constructor. Qed.

(** The other scripts of the transformations.  [split_digit] splits a number at a bit.
    [ts_from_nibbles] puts eight nibbles together, and fails on the words of which the top bit
    is set, which are too large to be operands.  [flip_byte_nibbles] flips the halves of a byte,
    but leaves a number that is not a byte for the nonzero multiples of 16, because its
    comparisons are strict. *)
Theorem transform_scripts_compute `{NmulLaws} m a :
  (∀ window index v, window ≤ 30 → index ≤ window → (0 ≤ v < 2 ^ Z.of_nat window)%Z →
    exec (split_digit window index) (mkScriptState (num_encode v :: m) a [])
      = Some (mkScriptState (num_encode (v / 2 ^ Z.of_nat (window - index))
          :: num_encode (v mod 2 ^ Z.of_nat (window - index)) :: m) a [])) ∧
  (∀ l, length l = 8 → Forall (λ d, 0 ≤ d < 16)%Z l →
    exec ts_from_nibbles (mkScriptState ((num_encode <$> l) ++ m) a [])
      = if (nibbles_value l <? 2 ^ 31)%Z
        then Some (mkScriptState (num_encode (nibbles_value l) :: m) a []) else None) ∧
  (∀ b, (b < 256)%N →
    exec flip_byte_nibbles (mkScriptState (num_encode (Z.of_N b) :: m) a [])
      = Some (mkScriptState (num_encode (Z.of_N (flipped b)) :: m) a [])).
Proof.
  split_and!.
  - intros window index v. apply exec_split_digit.
  - intros l Hlen Hl. do 8 (destruct l as [|? l]; [done|]). destruct l; [|done].
    by apply exec_ts_from_nibbles.
  - intros b Hb. by rewrite exec_flip_byte_nibbles, flip_high_flipped.
Qed.

(** ** Witnesses *)

Definition example_script_context : ScriptContext := {|
  tx_version := 3; txin_sequence := 10; check_schnorr key sig := bool_decide (sig = key);
  sha256_bytes l := [foldr N.add 0%N l];
  run_fragment f m a :=
    match f, m with
    | [n], x :: m => v ← num_decode 5 x; Some (num_encode (v * Z.of_N n) :: m, a)
    | _, _ => None
    end;
|}.
Definition example_nmul : NmulLib := λ n, [n].

Lemma nmul_decodes k v :
  (0 ≤ v)%Z → (v * 2 ^ Z.of_N k < 2 ^ 32)%Z →
  (v' ← num_decode 5 (num_encode v); Some (num_encode (v' * Z.of_N (2 ^ k)))) = Some (num_encode (v * 2 ^ Z.of_N k)).
Proof.
  intros Hv Hk. assert (1 ≤ 2 ^ Z.of_N k)%Z by (pose proof (Z.pow_pos_nonneg 2 (Z.of_N k)); lia).
  rewrite <- (Z2N.id v) at 1 by lia. rewrite num_decode_encode; [|lia|].
  - cbn. by rewrite Z2N.id, N2Z.inj_pow by lia.
  - change (128 * 256 ^ N.of_nat 4)%N with 549755813888%N. nia.
Qed.

Lemma example_nmul_laws : @NmulLaws example_script_context example_nmul.
Proof.
  intros k v m a Hv Hk. pose proof (nmul_decodes k v Hv Hk) as E.
  change (run_fragment (NMUL (2 ^ k)) (num_encode v :: m) a) with
    (v' ← num_decode 5 (num_encode v); Some (num_encode (v' * Z.of_N (2 ^ k)) :: m, a)).
  destruct (num_decode 5 (num_encode v)); [|done]. cbn in E |- *. by injection E as ->.
Qed.

Lemma hash_to_bn254_fq_masks_witness :
  @exec example_script_context hash_to_bn254_fq (mkScriptState [num_encode 0xE0; [7%N]] [] [])
    = Some (mkScriptState [num_encode 32; [7%N]] [] []).
Proof. apply (@hash_to_bn254_fq_masks example_script_context 0xE0 [[7%N]] []). reflexivity. Defined.

Lemma transform_scripts_compute_witness :
  @exec example_script_context (@flip_byte_nibbles example_nmul) (mkScriptState [num_encode 0xF9] [] [])
    = Some (mkScriptState [num_encode 0x9F] [] []) ∧
  @exec example_script_context (@ts_from_nibbles example_nmul)
      (mkScriptState (num_encode <$> [0; 0; 0; 0; 0; 0; 0; 8]%Z) [] []) = None.
Proof.
  destruct (@transform_scripts_compute example_script_context example_nmul example_nmul_laws [] [])
    as (_ & Hts & Hflip). split.
  - exact (Hflip 0xF9%N eq_refl).
  - rewrite <- (app_nil_r (num_encode <$> _)). rewrite Hts; [reflexivity|reflexivity|].
    repeat (apply Forall_cons; split; [lia|]). apply Forall_nil. done.
Defined.
