(* ===== verification/StakeChain.v ===== *)
(** * Stake chains ([stake-chain/src])

    The stake transaction of every deposit spends the stake output of the one before; the first
    one spends a pre-stake transaction.  [Head_new] and [Tail_new] build them, [advance] builds
    the next one from the previous one, and [StakeChain_new] builds a chain from the inputs of
    an operator up to the first one that is missing.

    The theorems: what a chain is made of and where it ends; its transactions link up, with the
    stake moving unchanged from one to the next and every witness fitting the output it spends;
    every stake transaction pays out exactly what it takes in. *)

From S2P Require Import Prelude Bitcoin Wots TxTypes Taproot Connectors.

(** ** Constants ([primitives/src/constants.rs], [transactions/constants.rs]) *)

Definition SEGWIT_MIN_AMOUNT : Amount := 330.
Definition FUNDING_AMOUNT : Amount := 2 * 39 * 330 + 330 + 3 * 330.
Definition OPERATOR_FUNDS : Amount :=
  330 * 2 * N.of_nat NUM_ASSERT_DATA_TX + 330 * 2 + 330 + 330 + 330 + 330.
Definition PAYOUT_VOUT : N := 1.

(** [transaction::Version(3)]. *)
Definition VERSION_THREE : N := 3.

(** [Sequence::from_height(delta.to_consensus_u32() as u16)]. *)
Definition from_height (delta : N) : N := delta mod 2 ^ 16.

(** ** Transactions ([transactions/stake.rs]) *)

(** [tx.version = v] and [tx.input[i].sequence = s]; indexing out of bounds panics. *)
Definition with_version (v : N) (tx : Transaction) : Transaction :=
  mkTransaction v (lock_time tx) (input tx) (output tx).
Definition with_sequence (i : nat) (s : N) (tx : Transaction) : comp Transaction :=
  txin ← expect (input tx !! i);
  Val (mkTransaction (version tx) (lock_time tx)
    (<[i := mkTxIn (previous_output txin) (script_sig txin) s (witness txin)]> (input tx)) (output tx)).

(** [psbt.inputs[i].witness_utxo = Some(utxo)]. *)
Definition with_witness_utxo (i : nat) (utxo : TxOut) (p : Psbt) : comp Psbt :=
  pin ← expect (psbt_inputs p !! i);
  Val (mkPsbt (unsigned_tx p)
    (<[i := mkPsbtInput (Some utxo) (sighash_type pin) (final_script_witness pin)]> (psbt_inputs p))).

Section stake.
Context `{TaprootLib, ConnectorLib, ScriptLib, BitcoinLib}.
Implicit Types (context : TxBuildContext) (params : StakeChainParams) (data : StakeTxData).

(** [StakeTx::<Head>::new]. *)
Definition Head_new context params (hash : Sha256Hash) (withdrawal_fulfillment_pk : Wots256PublicKey)
    (pre_stake operator_funds : OutPoint) (operator_pubkey : XOnlyPublicKey) : comp StakeTx :=
  let tx_ins := create_tx_ins [operator_funds; pre_stake] in
  let connector_k := mkConnectorK (tbc_network context) withdrawal_fulfillment_pk in
  let connector_p := mkConnectorP (tbc_aggregated_pubkey context) hash (tbc_network context) in
  let connector_s := mkConnectorStake (tbc_aggregated_pubkey context) operator_pubkey hash
    (delta params) (tbc_network context) in
  let connector_cpfp := mkConnectorCpfp operator_pubkey (tbc_network context) in
  connector_p_addr ← P_generate_address connector_p;
  let cpfp_addr := Cpfp_generate_taproot_address connector_cpfp in
  k_addr ← K_create_taproot_address connector_k;
  k_amount ← amount_sub OPERATOR_FUNDS (2 * 330);
  s_addr ← S_generate_address connector_s;
  let tx_outs := create_tx_outs
    [(k_addr, k_amount);
     (connector_p_addr, minimal_non_dust connector_p_addr);
     (s_addr, stake_amount params);
     (cpfp_addr, minimal_non_dust cpfp_addr)] in
  let tx := with_version VERSION_THREE (create_tx tx_ins tx_outs) in
  Val (mkStakeTx (from_unsigned_tx tx) hash [# Key; Key]).

(** [StakeTx::<Tail>::new]. *)
Definition Tail_new context params data (prev_hash : Sha256Hash) (prev_stake : OutPoint)
    : comp StakeTx :=
  let tx_ins := create_tx_ins [operator_funds data; prev_stake] in
  let connector_k := mkConnectorK (tbc_network context) (withdrawal_fulfillment_pk data) in
  let connector_p :=
    mkConnectorP (tbc_aggregated_pubkey context) (stk_hash data) (tbc_network context) in
  let connector_s := mkConnectorStake (tbc_aggregated_pubkey context) (stk_operator_pubkey data)
    (stk_hash data) (delta params) (tbc_network context) in
  let connector_cpfp := mkConnectorCpfp (stk_operator_pubkey data) (tbc_network context) in
  k_addr ← K_create_taproot_address connector_k;
  p_addr ← P_generate_address connector_p;
  s_addr ← S_generate_address connector_s;
  let tx_outs := create_tx_outs
    [(k_addr, FUNDING_AMOUNT);
     (p_addr, minimal_non_dust p_addr);
     (s_addr, stake_amount params);
     (Cpfp_generate_taproot_address connector_cpfp, SEGWIT_MIN_AMOUNT)] in
  tx ← with_sequence 1 (from_height (delta params))
    (with_version VERSION_THREE (create_tx tx_ins tx_outs));
  let prev_stake_connector := mkConnectorStake (tbc_aggregated_pubkey context)
    (stk_operator_pubkey data) prev_hash (delta params) (tbc_network context) in
  prev_addr ← S_generate_address prev_stake_connector;
  p ← with_witness_utxo 1 (mkTxOut (stake_amount params) prev_addr) (from_unsigned_tx tx);
  '(script_buf, block) ← S_generate_spend_info prev_stake_connector;
  Val (mkStakeTx p (stk_hash data) [# Key; Script script_buf block]).

(** [StakeTx::advance]. *)
Definition advance (self : StakeTx) context params data : comp StakeTx :=
  let prev_stake := mkOutPoint (stake_txid_of self) STAKE_VOUT in
  let tx_ins := create_tx_ins [operator_funds data; prev_stake] in
  let connector_k := mkConnectorK (tbc_network context) (withdrawal_fulfillment_pk data) in
  let connector_p :=
    mkConnectorP (tbc_aggregated_pubkey context) (stk_hash data) (tbc_network context) in
  let connector_s := mkConnectorStake (tbc_aggregated_pubkey context) (stk_operator_pubkey data)
    (stk_hash data) (delta params) (tbc_network context) in
  let connector_cpfp := mkConnectorCpfp (stk_operator_pubkey data) (tbc_network context) in
  k_addr ← K_create_taproot_address connector_k;
  p_addr ← P_generate_address connector_p;
  s_addr ← S_generate_address connector_s;
  let tx_outs := create_tx_outs
    [(k_addr, FUNDING_AMOUNT);
     (p_addr, minimal_non_dust p_addr);
     (s_addr, stake_amount params);
     (Cpfp_generate_taproot_address connector_cpfp, SEGWIT_MIN_AMOUNT)] in
  tx ← with_sequence 1 (from_height (delta params))
    (with_version VERSION_THREE (create_tx tx_ins tx_outs));
  let prev_stake_connector := mkConnectorStake (tbc_aggregated_pubkey context)
    (stk_operator_pubkey data) (st_hash self) (delta params) (tbc_network context) in
  prev_addr ← S_generate_address prev_stake_connector;
  p ← with_witness_utxo 1 (mkTxOut (stake_amount params) prev_addr) (from_unsigned_tx tx);
  '(script_buf, block) ← S_generate_spend_info prev_stake_connector;
  Val (mkStakeTx p (stk_hash data) [# Key; Script script_buf block]).

(** *** Signature hashes and finalization *)

(** [compute_sighash_with_prevouts]: as many hashes as inputs, made an array of two. *)
Definition compute_sighash_with_prevouts `{SighashLib} (self : StakeTx) (prevouts : list TxOut)
    : comp (vec Message 2) :=
  hashes ← mapM (λ '(input_index, pin),
      w ← expect (vec_to_list (st_witnesses self) !! input_index);
      expect (create_message_hash (unsigned_tx (st_psbt self)) prevouts w
        (default SighashDefault (sighash_type pin)) input_index))
    (imap pair (psbt_inputs (st_psbt self)));
  match hashes with [h1; h2] => Val [# h1; h2] | _ => Panic end.

Definition Head_sighashes `{SighashLib} (self : StakeTx) (stake_amount : Amount)
    (prevouts : vec ScriptBuf 2) : comp (vec Message 2) :=
  compute_sighash_with_prevouts self
    (zip_with (λ script_pubkey amount, mkTxOut amount script_pubkey) (vec_to_list prevouts)
       [OPERATOR_FUNDS; stake_amount]).

Definition Tail_sighashes `{SighashLib} (self : StakeTx) (funding_script : ScriptBuf)
    : comp (vec Message 2) :=
  pin ← expect (psbt_inputs (st_psbt self) !! 1);
  prev ← expect (witness_utxo pin);
  compute_sighash_with_prevouts self
    (zip_with (λ script_pubkey value, mkTxOut value script_pubkey)
       [funding_script; script_pubkey prev] [OPERATOR_FUNDS; value prev]).

(** [finalize_input] on the [i]th input. *)
Definition finalize_nth (i : nat) (witness : list (list N)) (p : Psbt) : comp Psbt :=
  pin ← expect (psbt_inputs p !! i);
  Val (mkPsbt (unsigned_tx p) (<[i := finalize_input pin witness]> (psbt_inputs p))).

Definition Head_finalize_unchecked (self : StakeTx) (funds_signature stake_signature : SchnorrSignature)
    : comp Transaction :=
  p ← finalize_nth 0 [serialize_schnorr funds_signature] (st_psbt self);
  p ← finalize_nth 1 [serialize_schnorr stake_signature] p;
  Val (extract_tx p).

Definition Tail_finalize_unchecked (self : StakeTx) (prev_preimage : list N)
    (funds_signature stake_signature : SchnorrSignature) (prev_connector_s : ConnectorStake)
    : comp Transaction :=
  '(locking_script, block) ← S_generate_spend_info prev_connector_s;
  p ← finalize_nth 0 [serialize_schnorr funds_signature] (st_psbt self);
  p ← finalize_nth 1 [prev_preimage; serialize_schnorr stake_signature; locking_script;
    serialize_control_block block] p;
  Val (extract_tx p).

(** ** The chain ([stake_chain.rs]) *)

Record StakeChain := mkStakeChain { chain_head : option StakeTx; chain_tail : list StakeTx }.

(** The [for] loop over the indices from 2, with its [break] at the first gap; [tail.last()] is
    never empty. *)
Fixpoint extend_tail context params (stake_inputs : BTreeMap N StakeTxData) (indices : list nat)
    (tail : list StakeTx) : comp (list StakeTx) :=
  match indices with
  | [] => Val tail
  | stake_index :: indices =>
      match stake_inputs !! N.of_nat stake_index with
      | Some stake_input =>
          last_tx ← expect (last tail);
          next_stake_tx ← advance last_tx context params stake_input;
          extend_tail context params stake_inputs indices (tail ++ [next_stake_tx])
      | None => Val tail
      end
  end.

Definition StakeChain_new context (inputs : StakeChainInputs) params : comp StakeChain :=
  let stake_inputs := stake_inputs inputs in
  match stake_inputs !! 0%N with
  | None => Val (mkStakeChain None [])
  | Some first_stake_inputs =>
      first_stake_tx ← Head_new context params (stk_hash first_stake_inputs)
        (withdrawal_fulfillment_pk first_stake_inputs) (pre_stake_outpoint inputs)
        (operator_funds first_stake_inputs) (stk_operator_pubkey first_stake_inputs);
      match stake_inputs !! 1%N with
      | None => Val (mkStakeChain (Some first_stake_tx) [])
      | Some next_stake_input =>
          next_stake_tx ← advance first_stake_tx context params next_stake_input;
          let num_inputs := size stake_inputs in
          tail ← extend_tail context params stake_inputs (seq 2 (num_inputs - 2)) [next_stake_tx];
          Val (mkStakeChain (Some first_stake_tx) tail)
      end
  end.

Definition chain_len (c : StakeChain) : nat :=
  match chain_head c with Some _ => 1 + length (chain_tail c) | None => 0 end.
Definition chain_is_empty (c : StakeChain) : bool :=
  match chain_head c with Some _ => false | None => true end.

(** Accessors of the inputs. *)
Definition stake_hashes (inputs : StakeChainInputs) : list Sha256Hash :=
  stk_hash <$> bt_values (stake_inputs inputs).
Definition stake_hash_at_index (inputs : StakeChainInputs) (index : nat) : option Sha256Hash :=
  stk_hash <$> bt_values (stake_inputs inputs) !! index.
Definition operator_funds_at_index (inputs : StakeChainInputs) (index : nat) : option OutPoint :=
  operator_funds <$> bt_values (stake_inputs inputs) !! index.

(** ** Reference: the chain by recursion on the index *)

(** The transactions of a chain, the head first. *)
Definition chain_txs (c : StakeChain) : list StakeTx := opt_list (chain_head c) ++ chain_tail c.

(** The [n]th stake transaction of an operator, when all the inputs up to it are there. *)
Fixpoint nth_stake context params (inputs : StakeChainInputs) (n : nat) : option (comp StakeTx) :=
  data ← stake_inputs inputs !! N.of_nat n;
  match n with
  | 0 => Some (Head_new context params (stk_hash data) (withdrawal_fulfillment_pk data)
      (pre_stake_outpoint inputs) (operator_funds data) (stk_operator_pubkey data))
  | S m =>
      prev ← nth_stake context params inputs m;
      Some (prev_tx ← prev; advance prev_tx context params data)
  end.

End stake.

(** The dust limit of a taproot output is 330 sats. *)
Class DustLaws `{TaprootLib, ConnectorLib, ScriptLib} : Prop := {
  p2tr_dust : ∀ key root network, minimal_non_dust (p2tr key root network) = 330%N;
  p2tr_tweaked_dust : ∀ key network, minimal_non_dust (p2tr_tweaked key network) = 330%N;
}.

(** A small instance of the libraries, for the examples. *)
Definition elem_bytes (e : ScriptElem) : list N :=
  match e with
  | PushOpcode op => [op]
  | PushInt n | PushSequence n => [1; n]%N
  | PushSlice bytes => N.of_nat (length bytes) :: bytes
  | Fragment script => script
  end.
Definition example_connectors : ConnectorLib := {|
  into_script l := l ≫= elem_bytes;
  compile l := l ≫= elem_bytes;
  wots256_checksig_verify pk := mjoin pk;
  wots256_raw_witness sig := sig;
  p2tr_tweaked key network := [key; network];
  serialize_control_block block := [block];
|}.
Definition example_dust : ScriptLib := {| minimal_non_dust _ := 330; op_return_push l := 106 :: l |}%N.
Definition example_txids : BitcoinLib := {|
  compute_txid t :=
    foldr (λ i acc, 3 * op_txid (previous_output i) + op_vout (previous_output i) + acc)%N 1%N (input t);
  block_hash b := header_rest b;
  bip34_block_height b := Some (header_rest b);
|}.
Definition example_stake (n : N) : StakeTxData := mkStakeTxData (mkOutPoint (10 + n) 0) (100 + n) [[n]] 7.
Definition example_stakes (l : list N) : StakeChainInputs :=
  mkStakeChainInputs (bt_collect ((λ n, (n, example_stake n)) <$> l)) (mkOutPoint 5 1).
Definition example_context : TxBuildContext := mkTxBuildContext 1 ∅ 50 0.

#[global] Instance example_dust_laws : @DustLaws example_taproot example_connectors example_dust.
Proof. by split. Qed.

(** ** What the builders return *)

Section builders.
Context `{TaprootLaws, ConnectorLib, ScriptLib, BitcoinLib}.
Implicit Types (context : TxBuildContext) (params : StakeChainParams) (data : StakeTxData).

(** The outputs of a stake transaction. *)
Definition K_out context (pk : Wots256PublicKey) : TxOut :=
  mkTxOut FUNDING_AMOUNT (p2tr UNSPENDABLE_PUBLIC_KEY
    (Some (tapnode_from_script (K_create_locking_script (mkConnectorK (tbc_network context) pk))))
    (tbc_network context)).
Definition P_out context (hash : Sha256Hash) : TxOut :=
  let script := p2tr (tbc_aggregated_pubkey context) (Some (P_generate_merkle_root
    (mkConnectorP (tbc_aggregated_pubkey context) hash (tbc_network context)))) (tbc_network context) in
  mkTxOut (minimal_non_dust script) script.
Definition S_out context params (opk : XOnlyPublicKey) (hash : Sha256Hash) : TxOut :=
  mkTxOut (stake_amount params) (p2tr (tbc_aggregated_pubkey context) (Some (S_generate_merkle_root
    (mkConnectorStake (tbc_aggregated_pubkey context) opk hash (delta params) (tbc_network context))))
    (tbc_network context)).

Definition stake_inputs_of (t : StakeTx) : list TxIn := input (unsigned_tx (st_psbt t)).
Definition stake_outputs_of (t : StakeTx) : list TxOut := output (unsigned_tx (st_psbt t)).

(** A list is the chain of the inputs up to its length. *)
Definition chain_prefix context params inputs (l : list StakeTx) : Prop :=
  ∀ i t, l !! i = Some t → nth_stake context params inputs i = Some (Val t).

Lemma Head_new_spec context params hash pk pre_stake funds opk :
  let cpfp := p2tr_tweaked opk (tbc_network context) in
  Head_new context params hash pk pre_stake funds opk
  = Val (mkStakeTx (from_unsigned_tx (mkTransaction VERSION_THREE LOCKTIME_ZERO
      (create_tx_ins [funds; pre_stake])
      [K_out context pk; P_out context hash; S_out context params opk hash;
       mkTxOut (minimal_non_dust cpfp) cpfp])) hash [# Key; Key]).
Proof. unfold Head_new. by rewrite P_address, K_address, S_address. Qed.

Lemma Tail_new_spec context params data prev_hash prev_stake :
  ∃ block,
    let prev_connector := mkConnectorStake (tbc_aggregated_pubkey context)
      (stk_operator_pubkey data) prev_hash (delta params) (tbc_network context) in
    Tail_new context params data prev_hash prev_stake
    = Val (mkStakeTx (mkPsbt (mkTransaction VERSION_THREE LOCKTIME_ZERO
        [mkTxIn (operator_funds data) [] ENABLE_RBF_NO_LOCKTIME [];
         mkTxIn prev_stake [] (from_height (delta params)) []]
        [K_out context (withdrawal_fulfillment_pk data); P_out context (stk_hash data);
         S_out context params (stk_operator_pubkey data) (stk_hash data);
         mkTxOut SEGWIT_MIN_AMOUNT (p2tr_tweaked (stk_operator_pubkey data) (tbc_network context))])
        [mkPsbtInput None None None;
         mkPsbtInput (Some (S_out context params (stk_operator_pubkey data) prev_hash)) None None])
        (stk_hash data) [# Key; Script (S_generate_script prev_connector) block]) ∧
    spends (tbc_aggregated_pubkey context) (tbc_network context)
      (Script (S_generate_script prev_connector) block)
      (script_pubkey (S_out context params (stk_operator_pubkey data) prev_hash)).
Proof.
  destruct (S_spend_info (mkConnectorStake (tbc_aggregated_pubkey context)
      (stk_operator_pubkey data) prev_hash (delta params) (tbc_network context))
      (tbc_aggregated_pubkey context)) as (block & E & Hs).
  exists block. split; [|exact Hs]. unfold Tail_new.
  rewrite !S_address, K_address, P_address. unfold_comp. cbn. by rewrite E.
Qed.

Lemma advance_spec self context params data :
  advance self context params data
  = Tail_new context params data (st_hash self) (mkOutPoint (stake_txid_of self) STAKE_VOUT).
Proof. reflexivity. Qed.

(** ** The loop and the reference *)

Lemma advance_total self context params data : ∃ t, advance self context params data = Val t.
Proof.
  rewrite advance_spec.
  destruct (Tail_new_spec context params data (st_hash self)
    (mkOutPoint (stake_txid_of self) STAKE_VOUT)) as (block & E & _). eauto.
Qed.

Lemma nth_stake_Some context params inputs n :
  (∀ i, i ≤ n → is_Some (stake_inputs inputs !! N.of_nat i)) →
  ∃ t, nth_stake context params inputs n = Some (Val t).
Proof.
  induction n as [|n IH]; intros Hi; destruct (Hi _ (le_n _)) as [data E]; cbn [nth_stake]; rewrite E.
  - cbn [mbind option_bind]. rewrite Head_new_spec. by eexists.
  - destruct IH as [t Ht]; [auto|]. cbn [mbind option_bind]. rewrite Ht. cbn [mbind option_bind comp_bind].
    destruct (advance_total t context params data) as [t' ->]. by eexists.
Qed.

Lemma nth_stake_inputs context params inputs n :
  is_Some (nth_stake context params inputs n) →
  ∀ i, i ≤ n → is_Some (stake_inputs inputs !! N.of_nat i).
Proof.
  induction n as [|n IH]; cbn [nth_stake]; intros [c Hc] i Hi;
    apply bind_Some in Hc as (data & E & Hc).
  - replace i with 0 by lia. by eexists.
  - apply bind_Some in Hc as (prev & Hprev & _).
    destruct (decide (i = S n)) as [->|]; [by eexists|]. apply IH; [by eexists|lia].
Qed.

(** The keys 0, ..., [n-1] are at most as many as the keys of the map. *)
Lemma contiguous_size {V} (m : gmap N V) n :
  (∀ i, i < n → is_Some (m !! N.of_nat i)) → n ≤ size m.
Proof.
  intros Hi. rewrite <- size_dom.
  replace n with (size (list_to_set (N.of_nat <$> seq 0 n) : gset N)).
  - apply subseteq_size. intros x. rewrite elem_of_list_to_set, list_elem_of_fmap, elem_of_dom.
    intros (i & -> & Hin%elem_of_seq). apply Hi. lia.
  - rewrite size_list_to_set; [by rewrite length_fmap, length_seq|].
    apply NoDup_fmap_2; [apply _|apply NoDup_seq].
Qed.

Lemma chain_prefix_snoc context params inputs l prev data t :
  chain_prefix context params inputs l → last l = Some prev →
  stake_inputs inputs !! N.of_nat (length l) = Some data →
  advance prev context params data = Val t → chain_prefix context params inputs (l ++ [t]).
Proof.
  intros Hl Hlast Hdata Ht i t'. rewrite lookup_app_Some, list_lookup_singleton_Some.
  intros [Hi|(Hle & Hi & <-)]; [auto|]. replace i with (length l) by lia.
  rewrite last_lookup in Hlast. pose proof (Hl _ _ Hlast) as Hprev.
  destruct l as [|x l]; [done|]. cbn [length] in *. cbn [Nat.pred] in Hprev. cbn [nth_stake].
  rewrite Hdata. cbn [mbind option_bind]. rewrite Hprev. cbn [mbind option_bind comp_bind].
  by rewrite Ht.
Qed.

Lemma extend_tail_spec context params inputs first tail k :
  tail ≠ [] → chain_prefix context params inputs (first :: tail) →
  ∃ tail', extend_tail context params (stake_inputs inputs) (seq (1 + length tail) k) tail = Val tail' ∧
    chain_prefix context params inputs (first :: tail') ∧
    (length tail' = length tail + k ∨ stake_inputs inputs !! N.of_nat (1 + length tail') = None).
Proof.
  revert tail. induction k as [|k IH]; intros tail Hne Hpre; cbn [seq extend_tail].
  { exists tail. split_and!; [done|done|]. left. lia. }
  destruct (stake_inputs inputs !! N.of_nat (1 + length tail)) as [data|] eqn:E.
  2:{ exists tail. by split_and!; [| |right]. }
  destruct (last tail) as [prev|] eqn:Hlast; [|by apply last_None in Hlast].
  destruct (advance_total prev context params data) as [t Ht]. unfold_comp. cbn [expect]. rewrite Ht.
  assert (chain_prefix context params inputs (first :: tail ++ [t])) as Hpre'.
  { eapply (chain_prefix_snoc _ _ _ (first :: tail)); [done| |done|done].
    rewrite last_cons, Hlast. done. }
  destruct (IH (tail ++ [t])) as (tail' & E' & Hp' & Hend); [by destruct tail|done|].
  rewrite length_app in E', Hend. cbn [length] in E', Hend. rewrite Nat.add_1_r in E', Hend.
  exists tail'. split_and!; [done|done|]. destruct Hend; [left; lia|by right].
Qed.

Lemma StakeChain_new_spec context inputs params :
  ∃ c, StakeChain_new context inputs params = Val c ∧
    chain_prefix context params inputs (chain_txs c) ∧
    stake_inputs inputs !! N.of_nat (length (chain_txs c)) = None ∧
    chain_len c = length (chain_txs c).
Proof.
  unfold StakeChain_new. destruct (stake_inputs inputs !! 0%N) as [d0|] eqn:E0.
  2:{ eexists. split_and!; [done| |done|done]. by intros i t. }
  rewrite Head_new_spec. unfold_comp. set (first := mkStakeTx _ _ _).
  assert (chain_prefix context params inputs [first]) as Hp0.
  { intros i t. rewrite list_lookup_singleton_Some. intros (-> & <-). cbn [nth_stake].
    change (N.of_nat 0) with 0%N. rewrite E0. cbn [mbind option_bind]. by rewrite Head_new_spec. }
  destruct (stake_inputs inputs !! 1%N) as [d1|] eqn:E1.
  2:{ eexists. by split_and!. }
  destruct (advance_total first context params d1) as [second Ha]. rewrite Ha.
  assert (chain_prefix context params inputs [first; second]) as Hp1.
  { by eapply (chain_prefix_snoc _ _ _ [first]). }
  destruct (extend_tail_spec context params inputs first [second] (size (stake_inputs inputs) - 2))
    as (tail' & E & Hp & Hend); [done|done|]. cbn [length Nat.add] in E. rewrite E.
  eexists. split_and!; [done|done| |done]. cbn. destruct Hend as [Hlen|Hnone]; [|done].
  apply eq_None_not_Some. intros Hsome.
  assert (S (S (length tail')) ≤ size (stake_inputs inputs)) as Hc; [|cbn in Hlen; lia].
  apply contiguous_size. intros i Hi. destruct (decide (i = S (length tail'))) as [->|]; [done|].
  destruct (lookup_lt_is_Some_2 (first :: tail') i) as [t Ht]; [cbn; lia|].
  by eapply (nth_stake_inputs _ _ _ i); [eexists; by eapply Hp|].
Qed.

(** *** The transactions of a chain *)

Lemma nth_stake_data context params inputs n t :
  nth_stake context params inputs n = Some (Val t) →
  ∃ data cpfp, stake_inputs inputs !! N.of_nat n = Some data ∧ st_hash t = stk_hash data ∧
    head (previous_output <$> stake_inputs_of t) = Some (operator_funds data) ∧
    stake_outputs_of t = [K_out context (withdrawal_fulfillment_pk data); P_out context (stk_hash data);
      S_out context params (stk_operator_pubkey data) (stk_hash data); cpfp] ∧
    script_pubkey cpfp = p2tr_tweaked (stk_operator_pubkey data) (tbc_network context) ∧
    (value cpfp = minimal_non_dust (script_pubkey cpfp) ∨ value cpfp = SEGWIT_MIN_AMOUNT).
Proof.
  destruct n as [|n]; cbn [nth_stake]; intros (data & E & Hn)%bind_Some.
  - rewrite Head_new_spec in Hn. simplify_eq. exists data. eexists. by split_and!; [..|left].
  - apply bind_Some in Hn as (prev & _ & Hn). simplify_eq.
    apply comp_bind_Val in Hn as (prev_tx & -> & Hn). rewrite advance_spec in Hn.
    destruct (Tail_new_spec context params data (st_hash prev_tx)
      (mkOutPoint (stake_txid_of prev_tx) STAKE_VOUT)) as (block & Et & _).
    rewrite Et in Hn. simplify_eq. exists data. eexists. by split_and!; [..|right].
Qed.

Lemma nth_stake_S context params inputs n t :
  nth_stake context params inputs (S n) = Some (Val t) →
  ∃ prev data, nth_stake context params inputs n = Some (Val prev) ∧
    stake_inputs inputs !! N.of_nat (S n) = Some data ∧ advance prev context params data = Val t.
Proof.
  cbn [nth_stake]. intros (data & E & (prev & Hp & Hn)%bind_Some)%bind_Some. simplify_eq.
  apply comp_bind_Val in Hn as (prev_tx & -> & Hn). eauto.
Qed.

End builders.

(** ** Properties *)

(** [StakeChain::new] always returns a chain.  It holds the stake transactions of the inputs
    0, 1, 2, ... up to the first index without an input, each one the advancement of the one
    before. *)
Theorem stake_chain_until_first_gap `{TaprootLaws, ConnectorLib, ScriptLib, BitcoinLib}
    context inputs params :
  ∃ c, StakeChain_new context inputs params = Val c ∧
    (∀ n t, chain_txs c !! n = Some t ↔ nth_stake context params inputs n = Some (Val t)) ∧
    (∀ n, n < chain_len c ↔ ∀ i, i ≤ n → is_Some (stake_inputs inputs !! N.of_nat i)).
Proof.
  destruct (StakeChain_new_spec context inputs params) as (c & E & Hp & Hend & Hcl). exists c.
  assert (∀ n, n < length (chain_txs c) ↔ ∀ i, i ≤ n → is_Some (stake_inputs inputs !! N.of_nat i))
    as Hlen.
  { intros n. split.
    - intros [t Ht]%lookup_lt_is_Some_2. apply (nth_stake_inputs context params).
      eexists. by apply Hp.
    - intros Hi. destruct (decide (n < length (chain_txs c))) as [|Hge]; [done|].
      destruct (Hi (length (chain_txs c))) as [d Hd]; [lia|]. congruence. }
  split_and!; [done| |].
  - intros n t. split; [apply Hp|]. intros Hn.
    destruct (lookup_lt_is_Some_2 (chain_txs c) n) as [t' Ht'].
    + apply Hlen. eapply nth_stake_inputs. by eexists.
    + pose proof (Hp _ _ Ht'). congruence.
  - intros n. by rewrite Hcl.
Qed.

(** The transactions of a stake chain link up.  Each one spends the stake output of the one
    before, after the relative timelock, and the first one spends the pre-stake.  When the
    operator keeps their key, the output that the signature of the next transaction commits to
    is the one it spends, with the whole stake, and the script it reveals can spend it. *)
Theorem stake_chain_links `{TaprootLaws, ConnectorLib, ScriptLib, BitcoinLib} context inputs params c :
  StakeChain_new context inputs params = Val c →
  (∀ t, chain_txs c !! 0 = Some t →
     previous_output <$> stake_inputs_of t !! 1 = Some (pre_stake_outpoint inputs)) ∧
  (∀ n t t', chain_txs c !! n = Some t → chain_txs c !! S n = Some t' →
     (λ i, (previous_output i, sequence i)) <$> stake_inputs_of t' !! 1
       = Some (mkOutPoint (stake_txid_of t) STAKE_VOUT, from_height (delta params)) ∧
     (stk_operator_pubkey <$> stake_inputs inputs !! N.of_nat n
        = stk_operator_pubkey <$> stake_inputs inputs !! N.of_nat (S n) →
      ∃ stake, stake_outputs_of t !! N.to_nat STAKE_VOUT = Some stake ∧
        value stake = stake_amount params ∧
        witness_utxo <$> psbt_inputs (st_psbt t') !! 1 = Some (Some stake) ∧
        spends (tbc_aggregated_pubkey context) (tbc_network context)
          (st_witnesses t' !!! 1%fin) (script_pubkey stake))).
Proof.
  intros E. destruct (StakeChain_new_spec context inputs params) as (c' & E' & Hp & _).
  rewrite E in E'. injection E' as <-. split.
  - intros t Ht%Hp. cbn [nth_stake] in Ht. apply bind_Some in Ht as (data & Hd & Ht).
    rewrite Head_new_spec in Ht. by simplify_eq.
  - intros n t t' Ht%Hp (prev & data & Hprev & Hd & Hadv)%Hp%nth_stake_S. simplify_eq.
    apply nth_stake_data in Ht as (data0 & cpfp & Hd0 & Hh & _ & Houts & _).
    rewrite advance_spec in Hadv.
    destruct (Tail_new_spec context params data (st_hash t)
      (mkOutPoint (stake_txid_of t) STAKE_VOUT)) as (block & Et & Hs).
    rewrite Et in Hadv. simplify_eq. split; [done|]. rewrite Hd0, Hd. intros Hk. simplify_eq/=.
    rewrite Houts. eexists. split_and!; [done|done| |].
    + cbn. by rewrite Hh, Hk.
    + cbn. rewrite <- Hk, <- Hh. rewrite <- Hk in Hs. exact Hs.
Qed.

(** Every stake transaction pays out exactly what it takes in, the operator's funds and the
    stake, so it pays no fee itself; its first output funds all the dust of the peg-out graph. *)
Theorem stake_tx_pays_no_fee `{TaprootLaws, ConnectorLib, ScriptLib, BitcoinLib, !DustLaws}
    context inputs params c t :
  StakeChain_new context inputs params = Val c → t ∈ chain_txs c →
  foldr N.add 0%N (value <$> stake_outputs_of t) = (OPERATOR_FUNDS + stake_amount params)%N ∧
  value <$> stake_outputs_of t !! N.to_nat WITHDRAWAL_FULFILLMENT_VOUT = Some FUNDING_AMOUNT.
Proof.
  intros E [n Hn]%list_elem_of_lookup.
  destruct (StakeChain_new_spec context inputs params) as (c' & E' & Hp & _).
  rewrite E in E'. injection E' as <-.
  apply Hp, nth_stake_data in Hn as (data & cpfp & _ & _ & _ & -> & Hs & Hv). split; [|done].
  assert (value cpfp = 330%N) as Hc.
  { destruct Hv as [->| ->]; [rewrite Hs; apply p2tr_tweaked_dust|done]. }
  cbn [fmap list_fmap foldr value K_out P_out S_out]. rewrite Hc, p2tr_dust.
  unfold FUNDING_AMOUNT, OPERATOR_FUNDS, NUM_ASSERT_DATA_TX. lia.
Qed.

(** ** Witnesses *)

Section witnesses.
#[local] Existing Instances example_taproot example_connectors example_dust example_txids.

Lemma stake_chain_until_first_gap_witness :
  ∃ chain, StakeChain_new example_context (example_stakes [0; 1; 2; 4]%N) StakeChainParams_default
    = Val chain ∧ 2 < chain_len chain ∧ ¬ 3 < chain_len chain.
Proof.
  destruct (stake_chain_until_first_gap example_context (example_stakes [0; 1; 2; 4]%N)
    StakeChainParams_default) as (chain & E & _ & Hlen).
  exists chain. split_and!; [exact E| |].
  - apply Hlen. intros [|[|[|i]]] Hi; [by eexists..|lia].
  - rewrite Hlen. intros Hi. destruct (Hi 3 (le_n 3)) as [d Hd]. vm_compute in Hd. discriminate.
Defined.

Lemma stake_chain_links_witness :
  let c := StakeChain_new example_context (example_stakes [0; 1; 2; 4]%N) StakeChainParams_default in
  ∃ chain t t', c = Val chain ∧ chain_txs chain !! 1 = Some t ∧ chain_txs chain !! 2 = Some t' ∧
    ∃ stake, stake_outputs_of t !! 2 = Some stake ∧ value stake = (3 * BTC)%N ∧
      spends 50 1 (st_witnesses t' !!! 1%fin) (script_pubkey stake).
Proof.
  intros c. destruct c as [chain|] eqn:E; [|vm_compute in E; discriminate].
  destruct (chain_txs chain !! 1) as [t|] eqn:E1; [|vm_compute in E; simplify_eq; discriminate].
  destruct (chain_txs chain !! 2) as [t'|] eqn:E2; [|vm_compute in E; simplify_eq; discriminate].
  exists chain, t, t'. split_and!; [reflexivity|exact E1|exact E2|].
  destruct (stake_chain_links example_context (example_stakes [0; 1; 2; 4]%N)
    StakeChainParams_default chain E) as [_ Hl].
  destruct (Hl 1 t t' E1 E2) as [_ Hs]. destruct Hs as (stake & H1 & H2 & _ & H3);
    [vm_compute; reflexivity|]. exists stake. split_and!; [exact H1|exact H2|exact H3].
Defined.

Lemma stake_tx_pays_no_fee_witness :
  let c := StakeChain_new example_context (example_stakes [0; 1]%N) StakeChainParams_default in
  ∃ chain t, c = Val chain ∧ t ∈ chain_txs chain ∧
    foldr N.add 0%N (value <$> stake_outputs_of t) = 300027720%N.
Proof.
  intros c. destruct c as [chain|] eqn:E; [|vm_compute in E; discriminate].
  destruct (chain_txs chain) as [|t l] eqn:E1; [vm_compute in E; simplify_eq; discriminate|].
  exists chain, t. split_and!; [reflexivity|rewrite E1; left|].
  destruct (stake_tx_pays_no_fee example_context (example_stakes [0; 1]%N)
    StakeChainParams_default chain t E) as [Hv _]; [rewrite E1; left|].
  rewrite Hv. vm_compute. reflexivity.
Defined.

End witnesses.
