(* ===== verification/SpendConditions.v ===== *)
(** * What it takes to spend a connector by its script

    The scripts of the connectors ([Connectors]) run by the interpreter ([Script]): exactly which
    witnesses they accept, and that the witnesses which [finalize_input] builds are among them. *)

From S2P Require Import Prelude Bitcoin Wots TxTypes Taproot Connectors Script StakeChain.

(** ** One opcode at a time, failures included *)

Section opcodes.
Context `{ScriptContext}.

Lemma run_size l m a :
  exec (OP OP_SIZE :: l) (mkScriptState m a [])
  = match m with
    | x :: m => exec l (mkScriptState (num_encode (Z.of_nat (length x)) :: x :: m) a [])
    | [] => None
    end.
Proof. rewrite exec_cons. by destruct m. Qed.

Lemma run_int n l m a :
  exec (PushInt n :: l) (mkScriptState m a []) = exec l (mkScriptState (num_encode (Z.of_N n) :: m) a []).
Proof. by rewrite exec_cons. Qed.

Lemma run_sequence n l m a :
  exec (PushSequence n :: l) (mkScriptState m a []) = exec l (mkScriptState (num_encode (Z.of_N n) :: m) a []).
Proof. by rewrite exec_cons. Qed.

Lemma run_slice bytes l m a :
  exec (PushSlice bytes :: l) (mkScriptState m a []) = exec l (mkScriptState (bytes :: m) a []).
Proof. by rewrite exec_cons. Qed.

Lemma run_equalverify x y l m a :
  exec (OP OP_EQUALVERIFY :: l) (mkScriptState (y :: x :: m) a [])
  = if decide (x = y) then exec l (mkScriptState m a []) else None.
Proof.
  rewrite exec_cons. change (exec_elem _ _) with
    ('(m, a) ← (if decide (x = y) then Some (m, a) else None); Some (mkScriptState m a [])).
  by destruct (decide (x = y)).
Qed.

Lemma run_equal x y l m a :
  exec (OP OP_EQUAL :: l) (mkScriptState (y :: x :: m) a [])
  = exec l (mkScriptState (bool_push (bool_decide (x = y)) :: m) a []).
Proof. by rewrite exec_cons. Qed.

Lemma run_sha256 x l m a :
  exec (OP OP_SHA256 :: l) (mkScriptState (x :: m) a []) = exec l (mkScriptState (sha256_bytes x :: m) a []).
Proof. by rewrite exec_cons. Qed.

Lemma run_drop x l m a :
  exec (OP OP_DROP :: l) (mkScriptState (x :: m) a []) = exec l (mkScriptState m a []).
Proof. by rewrite exec_cons. Qed.

Lemma run_true l m a : exec (OP OP_TRUE :: l) (mkScriptState m a []) = exec l (mkScriptState ([1%N] :: m) a []).
Proof. by rewrite exec_cons. Qed.

Lemma run_checksig key l m a :
  exec (OP OP_CHECKSIG :: l) (mkScriptState (key :: m) a [])
  = match m with
    | sig :: m => b ← check_sig key sig; exec l (mkScriptState (bool_push b :: m) a [])
    | [] => None
    end.
Proof.
  rewrite exec_cons. destruct m as [|sig m]; [done|]. change (exec_elem _ _) with
    ('(m, a) ← (b ← check_sig key sig; Some (bool_push b :: m, a)); Some (mkScriptState m a [])).
  by destruct (check_sig key sig).
Qed.

Lemma run_checksigverify key l m a :
  exec (OP OP_CHECKSIGVERIFY :: l) (mkScriptState (key :: m) a [])
  = match m with
    | sig :: m => b ← check_sig key sig; if (b : bool) then exec l (mkScriptState m a []) else None
    | [] => None
    end.
Proof.
  rewrite exec_cons. destruct m as [|sig m]; [done|]. change (exec_elem _ _) with
    ('(m, a) ← (b ← check_sig key sig; if (b : bool) then Some (m, a) else None);
      Some (mkScriptState m a [])).
  by destruct (check_sig key sig) as [[]|].
Qed.

(** Timelocks of up to 32 bits are in the range of [OP_CSV]. *)
Lemma run_csv n l m a :
  (n < 2 ^ 32)%N →
  exec (OP OP_CSV :: l) (mkScriptState (num_encode (Z.of_N n) :: m) a [])
  = if csv_ok n then exec l (mkScriptState (num_encode (Z.of_N n) :: m) a []) else None.
Proof.
  intros Hn. rewrite exec_cons. change (exec_elem _ _) with
    ('(m, a) ← (z ← num_decode 5 (num_encode (Z.of_N n));
       if (0 <=? z)%Z && csv_ok (Z.to_N z) then Some (num_encode (Z.of_N n) :: m, a) else None);
     Some (mkScriptState m a [])).
  rewrite num_decode_encode; [|lia|change (128 * 256 ^ N.of_nat 4)%N with (2 ^ 39)%N; etrans; [exact Hn|done]].
  cbn [mbind option_bind]. rewrite N2Z.id. destruct (Z.leb_spec 0 (Z.of_N n)); [|lia].
  by destruct (csv_ok n).
Qed.

(** A script that leaves the result of a comparison, or of a signature check, on an empty stack. *)
Lemma succeeds_bool b a : (match Some (mkScriptState [bool_push b] a []) with
    | Some (mkScriptState [x] _ []) => cast_bool x | _ => false end) = b.
Proof. by destruct b. Qed.

End opcodes.

(** Only the number 32 is pushed as this byte. *)
Lemma num_encode_32 n : num_encode (Z.of_nat n) = [0x20%N] ↔ n = 32.
Proof.
  split; [|intros ->; done]. unfold num_encode. destruct (Z.ltb_spec (Z.of_nat n) 0) as [|_]; [lia|].
  set (k := Z.abs_N (Z.of_nat n)). destruct (le_bytes 9 k) as [|b l _] eqn:E using rev_ind; [done|].
  rewrite last_snoc, length_app. cbn [length]. destruct (b <? 128)%N.
  - rewrite Nat.add_sub, take_app_length, N.add_0_r. intros El. rewrite El in E. cbn [le_bytes] in E.
    destruct (N.eqb_spec k 0); [done|]. injection E as E1 E2.
    destruct (N.eqb_spec (k / 256) 0); [|done]. pose proof (N.div_mod k 256 ltac:(lia)). lia.
  - intros El. apply (f_equal last) in El. by rewrite last_snoc in El.
Qed.

Lemma rev_eq_iff {A} (w l : list A) : w = l ↔ rev w = rev l.
Proof. split; [by intros ->|]. intros E. by rewrite <- (rev_involutive w), E, rev_involutive. Qed.

(** A nonzero number is true. *)
Lemma cast_bool_false l :
  cast_bool l = false → (le_value l = 0%N ∧ default 0%N (last l) = 0%N) ∨ last l = Some 128%N ∧ le_value l = (128 * 256 ^ N.of_nat (length l - 1))%N.
Proof.
  induction l as [|b [|b' l] IH]; intros E; [by left|..].
  - cbn in E. destruct (N.eqb_spec b 0) as [->|]; [by left|].
    destruct (N.eqb_spec b 128) as [->|]; [by right|done].
  - cbn [cast_bool] in E. apply orb_false_iff in E as [Eb E].
    destruct (N.eqb_spec b 0) as [->|]; [|done].
    destruct (IH E) as [[Hz Hlast]|[Hlast Hv]]; [left; cbn [le_value] in *; split; [lia|done]|right].
    split; [done|].
    change (le_value (0%N :: b' :: l)) with (0 + 256 * le_value (b' :: l))%N. rewrite Hv.
    cbn [length]. replace (S (S (length l)) - 1) with (S (S (length l) - 1)) by lia.
    rewrite Nat2N.inj_succ, N.pow_succ_r'. lia.
Qed.

Lemma num_encode_true n : n ≠ 0%N → (n < 2 ^ 32)%N → cast_bool (num_encode (Z.of_N n)) = true.
Proof.
  intros Hnz Hn. assert (num_decode 5 (num_encode (Z.of_N n)) = Some (Z.of_N n)) as Hd.
  { apply num_decode_encode; [lia|]. etrans; [exact Hn|done]. }
  destruct (cast_bool (num_encode (Z.of_N n))) eqn:E; [done|]. exfalso. revert Hd. unfold num_decode.
  destruct (decide (length (num_encode (Z.of_N n)) ≤ 5)); [|done].
  destruct (cast_bool_false _ E) as [[Hz Hlast]|[Hlast Hv]].
  - rewrite Hz. destruct (last _) as [b|]; [|intros [= ?]; lia]. cbn in Hlast. subst b.
    intros [= Ez]. lia.
  - rewrite Hlast, Hv. cbn [N.ltb N.compare]. intros [= Ez]. lia.
Qed.

Section conditions.
Context `{TaprootLaws, ConnectorLib, ScriptContext}.

(** What a signature check accepts. *)
Definition signed_by (key : XOnlyPublicKey) (sig : list N) : Prop :=
  sig ≠ [] ∧ check_schnorr (key_bytes key) sig = true.

(** What opens a hash lock. *)
Definition preimage_of (hash : Sha256Hash) (preimage : list N) : Prop :=
  length preimage = 32 ∧ sha256_bytes preimage = hash_bytes hash.

Lemma check_sig_true key sig : check_sig (key_bytes key) sig = Some true ↔ signed_by key sig.
Proof.
  unfold check_sig, signed_by. destruct sig as [|b sig]; [by split; [|intros []]|].
  destruct (check_schnorr (key_bytes key) (b :: sig)); naive_solver.
Qed.

Lemma timelock_script_accepts key timelock w :
  (timelock < 2 ^ 32)%N →
  script_succeeds (n_of_n_with_timelock key timelock) w = true ↔
    ∃ sig, w = [sig] ∧ signed_by key sig ∧ csv_ok timelock = true.
Proof.
  intros Ht. unfold script_succeeds, n_of_n_with_timelock.
  rewrite run_int, run_csv by done. rewrite run_drop, run_slice, run_checksig.
  setoid_rewrite <- check_sig_true. setoid_rewrite (rev_eq_iff w).
  destruct (csv_ok timelock); [|naive_solver]. destruct (rev w) as [|sig m]; [naive_solver|].
  destruct (check_sig (key_bytes key) sig) as [b|] eqn:E; cbn [mbind option_bind rev app];
    rewrite ?exec_nil.
  - destruct m; [rewrite succeeds_bool; naive_solver|destruct b; naive_solver].
  - naive_solver.
Qed.

Lemma P_script_accepts c w :
  script_succeeds (P_script c) w = true ↔ ∃ preimage, w = [preimage] ∧ preimage_of (p_stake_hash c) preimage.
Proof.
  unfold script_succeeds, P_script. setoid_rewrite (rev_eq_iff w). rewrite run_size.
  destruct (rev w) as [|x m]; [naive_solver|]. rewrite run_int, run_equalverify. unfold preimage_of.
  setoid_rewrite <- num_encode_32. change (num_encode (Z.of_N 32)) with [0x20%N]. cbn [rev app].
  destruct (decide (num_encode (Z.of_nat (length x)) = [0x20%N])) as [E|]; [|naive_solver].
  rewrite run_sha256, run_slice, run_equal, exec_nil.
  destruct m; [rewrite succeeds_bool, bool_decide_eq_true; naive_solver|naive_solver].
Qed.

Lemma S_script_accepts c w :
  (s_delta c < 2 ^ 32)%N →
  script_succeeds (S_script c) w = true ↔
    ∃ preimage sig, w = [preimage; sig] ∧ signed_by (s_operator_pubkey c) sig ∧
      preimage_of (s_stake_hash c) preimage ∧ (s_delta c ≠ 0%N → csv_ok (s_delta c) = true).
Proof.
  intros Hd. unfold script_succeeds, S_script. setoid_rewrite (rev_eq_iff w). cbn [app].
  rewrite run_slice, run_checksigverify. setoid_rewrite <- check_sig_true. cbn [rev app].
  destruct (rev w) as [|sig m]; [naive_solver|].
  destruct (check_sig _ sig) as [[]|] eqn:E; cbn [mbind option_bind]; [|naive_solver..].
  rewrite run_size. destruct m as [|x m]; [naive_solver|].
  rewrite run_int, run_equalverify. unfold preimage_of. setoid_rewrite <- num_encode_32.
  change (num_encode (Z.of_N 32)) with [0x20%N].
  destruct (decide (num_encode (Z.of_nat (length x)) = [0x20%N])) as [El|]; [|naive_solver].
  rewrite run_sha256, run_slice, run_equalverify.
  destruct (decide (sha256_bytes x = hash_bytes (s_stake_hash c))) as [Eh|]; [|naive_solver].
  destruct (decide (s_delta c ≠ 0%N)) as [Hnz|Hz].
  - rewrite run_sequence, run_csv by done. destruct (csv_ok (s_delta c)); [|naive_solver].
    rewrite exec_nil. destruct m; [|naive_solver]. rewrite num_encode_true by done. naive_solver.
  - rewrite run_true, exec_nil. destruct m; naive_solver.
Qed.

(** Dropping the committed nibbles. *)
Lemma run_drops n l m a :
  exec (replicate n (OP OP_DROP) ++ l) (mkScriptState m a [])
  = if decide (n ≤ length m) then exec l (mkScriptState (drop n m) a []) else None.
Proof.
  revert m. induction n as [|n IH]; intros m; [by rewrite decide_True by lia|]. cbn [replicate app].
  destruct m as [|x m].
  - rewrite decide_False by (cbn; lia). by rewrite exec_cons.
  - rewrite run_drop, IH. cbn [drop length]. destruct (decide (n ≤ length m)).
    + by rewrite decide_True by lia.
    + by rewrite decide_False by lia.
Qed.

Lemma K_script_accepts c w :
  script_succeeds (K_script c) w = true ↔
    ∃ nibbles a, run_fragment (wots256_checksig_verify (claim_bitcommitment c)) (rev w) [] = Some (nibbles, a) ∧
      length nibbles = 64.
Proof.
  unfold script_succeeds, K_script. cbn [app]. rewrite exec_cons. change (exec_elem _ _) with
    ('(m, a) ← run_fragment (wots256_checksig_verify (claim_bitcommitment c)) (rev w) [];
      Some (mkScriptState m a [])).
  destruct (run_fragment _ (rev w) []) as [[m a]|]; [|naive_solver]. cbn [mbind option_bind].
  rewrite run_drops. change (256 / 4) with 64.
  destruct (decide (64 ≤ length m)) as [Hle|Hlt]; [|split; [done|intros (? & ? & [= -> ->] & ?); lia]].
  rewrite run_true, exec_nil. destruct (drop 64 m) as [|x l] eqn:E.
  - apply (f_equal length) in E. rewrite length_drop in E. cbn in E. split; [|done].
    intros _. exists m, a. split; [done|]. lia.
  - apply (f_equal length) in E. rewrite length_drop in E. cbn in E. split; [done|].
    intros (? & ? & [= <- <-] & ?). lia.
Qed.

(** A sequence that a height was truncated to meets a timelock, unless that is a duration. *)
Lemma testbit_above n t : (t < 2 ^ n)%N → N.testbit t n = false.
Proof.
  intros Ht. destruct (decide (t = 0%N)) as [->|]; [done|]. apply N.bits_above_log2, N.log2_lt_pow2; lia.
Qed.

Lemma csv_ok_from_height t :
  (2 <= tx_version)%N → txin_sequence = from_height t →
  csv_ok t = N.testbit t 31 || negb (N.testbit t 22).
Proof.
  intros Hv Hs. unfold csv_ok. rewrite Hs. unfold from_height.
  rewrite !N.mod_pow2_bits_high by done. destruct (N.testbit t 31); [done|].
  apply N.leb_le in Hv as ->. change 0xFFFF%N with (N.ones 16). rewrite !N.land_ones, N.Div0.mod_mod, N.leb_refl.
  by destruct (N.testbit t 22).
Qed.

End conditions.

(** ** Properties *)

(** Which witnesses the scripts of the connectors accept, exactly.  The hash lock of the
    payout connector: the 32-byte preimage of the stake hash, and nothing else.  The stake: the
    preimage and a signature by the operator, after the timelock of the stake chain.  The claim
    outputs: an N-of-N signature, after the timelock.  The kickoff: a Winternitz signature,
    which leaves the 64 nibbles that it commits to. *)
Theorem connector_scripts_accept `{ConnectorLib, ScriptContext} w :
  (∀ c, script_succeeds (P_script c) w = true ↔
    ∃ preimage, w = [preimage] ∧ preimage_of (p_stake_hash c) preimage) ∧
  (∀ c, (s_delta c < 2 ^ 32)%N → script_succeeds (S_script c) w = true ↔
    ∃ preimage sig, w = [preimage; sig] ∧ signed_by (s_operator_pubkey c) sig ∧
      preimage_of (s_stake_hash c) preimage ∧ (s_delta c ≠ 0%N → csv_ok (s_delta c) = true)) ∧
  (∀ key timelock, (timelock < 2 ^ 32)%N →
    script_succeeds (n_of_n_with_timelock key timelock) w = true ↔
    ∃ sig, w = [sig] ∧ signed_by key sig ∧ csv_ok timelock = true) ∧
  (∀ c, script_succeeds (K_script c) w = true ↔
    ∃ nibbles a, run_fragment (wots256_checksig_verify (claim_bitcommitment c)) (rev w) [] = Some (nibbles, a) ∧
      length nibbles = 64).
Proof.
  split_and!.
  - intros c. apply P_script_accepts.
  - intros c. apply S_script_accepts.
  - intros key timelock. apply timelock_script_accepts.
  - intros c. apply K_script_accepts.
Qed.

(** Advancing the stake.  The witness that [finalize_input] puts on the input of the next stake
    transaction is the script of the stake connector with a control block, after a stack that
    the script accepts exactly when the signature is the operator's, the preimage opens the hash
    lock, and the timelock is no duration: the sequence of the input is set as a number of
    blocks, so that a [delta] in units of time can never be met. *)
Theorem advancing_stake_accepted `{TaprootLaws, ConnectorLib, ScriptContext} c i i' signature preimage :
  (2 <= tx_version)%N → txin_sequence = from_height (s_delta c) → (s_delta c < 2 ^ 31)%N →
  S_finalize_input c i (SpAdvance signature preimage) = Val i' →
  ∃ stack block, final_script_witness i' = Some (stack ++ [S_generate_script c; serialize_control_block block]) ∧
    spends (s_n_of_n c) (s_network c) (Script (S_generate_script c) block)
      (p2tr (s_n_of_n c) (Some (S_generate_merkle_root c)) (s_network c)) ∧
    (script_succeeds (S_script c) stack = true ↔
      signed_by (s_operator_pubkey c) (serialize_taproot signature) ∧
      preimage_of (s_stake_hash c) preimage ∧ N.testbit (s_delta c) 22 = false).
Proof.
  intros Hv Hs Hd Hf. destruct (S_spend_info c (s_n_of_n c)) as (block & Ei & Hsp).
  cbn [S_finalize_input] in Hf. rewrite Ei in Hf. cbn [mbind comp_bind] in Hf. injection Hf as <-.
  exists [preimage; serialize_taproot signature], block. split_and!; [done|done|].
  rewrite S_script_accepts by (etrans; [exact Hd|done]). rewrite csv_ok_from_height by done.
  rewrite testbit_above by done.
  cbn [orb]. split.
  - intros (p & sig & [= <- <-] & Hsig & Hp & Hdelta). split_and!; [done|done|].
    destruct (decide (s_delta c = 0%N)) as [->|Hnz]; [done|]. specialize (Hdelta Hnz).
    by destruct (N.testbit (s_delta c) 22).
  - intros (Hsig & Hp & Hdelta). exists preimage, (serialize_taproot signature).
    rewrite Hdelta. split_and!; done.
Qed.

(** ** Witnesses *)

Definition example_advance : ConnectorStake := mkConnectorStake 50 7 100 10 0.
Definition example_advanced : PsbtInput :=
  match @S_finalize_input example_taproot example_connectors example_advance (mkPsbtInput None None None)
    (SpAdvance (mkTaprootSignature 5 SighashDefault) [1%N]) with
  | Val i => i
  | Panic => mkPsbtInput None None None
  end.

Lemma advancing_stake_accepted_witness :
  ∃ stack block, final_script_witness example_advanced
    = Some (stack ++ [@S_generate_script example_connectors example_advance;
        @serialize_control_block example_connectors block]) ∧
    (@script_succeeds example_script_context (@S_script example_advance) stack = true ↔
      @signed_by example_script_context 7 (serialize_taproot (mkTaprootSignature 5 SighashDefault)) ∧
      @preimage_of example_script_context 100 [1%N] ∧ N.testbit 10 22 = false).
Proof.
  destruct (@advancing_stake_accepted example_taproot example_taproot_laws example_connectors
    example_script_context example_advance (mkPsbtInput None None None) example_advanced
    (mkTaprootSignature 5 SighashDefault) [1%N]) as (stack & block & H1 & _ & H2).
  - vm_compute. discriminate.
  - vm_compute. reflexivity.
  - vm_compute. reflexivity.
  - vm_compute. reflexivity.
  - exact (ex_intro _ stack (ex_intro _ block (conj H1 H2))).
Defined.
