(* ===== verification/ConnectorsAssert.v ===== *)
(** * Connectors of the assertion ([connectors/src/connectors_a.rs], [connector_a3.rs])

    The connectors by which an operator commits to a proof, and the one by which the proof is
    disproved: [A256] and [AHash] check the Winternitz signatures of field elements and hashes,
    [A3] is spent by the payout after a timelock, or by whoever shows that one of the steps of
    the verification of the proof fails or that its public inputs are wrong. *)

From S2P Require Import Prelude Bitcoin Wots TxTypes Taproot Connectors Script.

(** ** Constants ([primitives/src/constants.rs]) *)

Definition NUM_FIELD_ELEMS_PER_CONNECTOR_BATCH_1 : nat := 5.
Definition NUM_FIELD_CONNECTORS_BATCH_1 : nat := 3.
Definition NUM_FIELD_ELEMS_PER_CONNECTOR_BATCH_2 : nat := 0.
Definition NUM_FIELD_CONNECTORS_BATCH_2 : nat := 0.
Definition NUM_HASH_ELEMS_PER_CONNECTOR_BATCH_1 : nat := 10.
Definition NUM_HASH_CONNECTORS_BATCH_1 : nat := 33.
Definition NUM_HASH_ELEMS_PER_CONNECTOR_BATCH_2 : nat := 11.
Definition NUM_HASH_CONNECTORS_BATCH_2 : nat := 3.

Definition NUM_PKS_A256 : nat := NUM_U256 + NUM_PUBS.
Definition NUM_PKS_A_HASH : nat := NUM_HASH.

Definition TOTAL_CONNECTORS : nat :=
  NUM_FIELD_CONNECTORS_BATCH_1 + NUM_FIELD_CONNECTORS_BATCH_2
  + NUM_HASH_CONNECTORS_BATCH_1 + NUM_HASH_CONNECTORS_BATCH_2.

Definition NUM_FIELD_ELEMENTS : nat :=
  NUM_FIELD_CONNECTORS_BATCH_1 * NUM_FIELD_ELEMS_PER_CONNECTOR_BATCH_1
  + NUM_FIELD_CONNECTORS_BATCH_2 * NUM_FIELD_ELEMS_PER_CONNECTOR_BATCH_2.
Definition NUM_HASH_ELEMENTS : nat :=
  NUM_HASH_CONNECTORS_BATCH_1 * NUM_HASH_ELEMS_PER_CONNECTOR_BATCH_1
  + NUM_HASH_CONNECTORS_BATCH_2 * NUM_HASH_ELEMS_PER_CONNECTOR_BATCH_2.
Definition TOTAL_VALUES : nat := NUM_FIELD_ELEMENTS + NUM_HASH_ELEMENTS.

(** The bytes of the messages of the two kinds of signatures. *)
Definition MSG_LEN : nat := 32.
Definition HASH_LEN : nat := 16.

(** ** The library *)

(** [bitvm]: the checks of a WOTS signature of a hash and of a compact signature, the stacks that
    the corresponding witness scripts leave, the change of the size of limbs, BLAKE3, and the
    scripts for the steps of the verifier. *)
Class AssertLib := {
  wots_hash_checksig_verify : WotsHashPublicKey → list N;
  wots_hash_raw_witness : WotsHashSig → list (list N);
  wots256_compact_checksig_verify : Wots256PublicKey → list N;
  wots256_compact_raw_witness : Wots256Sig → list (list N);
  transform_limbsize : N → N → list N;
  blake3_compute_script : N → list N;
  NUM_TAPS : nat;
  api_generate_full_tapscripts : Groth16PublicKeys → vec ScriptBuf NUM_TAPS;
}.

(** ** Connectors A256 and AHash *)

Record ConnectorA256 := mkConnectorA256 { a256_network : Network; a256_public_keys : list Wots256PublicKey }.
Record ConnectorAHash := mkConnectorAHash { ahash_network : Network; ahash_public_keys : list WotsHashPublicKey }.

Record ConnectorA256Factory := mkConnectorA256Factory {
  f256_network : Network; f256_public_keys : list Wots256PublicKey }.
Record ConnectorAHashFactory := mkConnectorAHashFactory {
  fhash_network : Network; fhash_public_keys : list WotsHashPublicKey }.

(** [&v[start..end]]. *)
Definition slice {A} (start stop : nat) (l : list A) : comp (list A) :=
  if decide (start ≤ stop ∧ stop ≤ length l) then Val (take (stop - start) (drop start l)) else Panic.

Definition A256_create_connectors (n1 e1 n2 e2 : nat) (f : ConnectorA256Factory)
    : comp (list ConnectorA256 * list ConnectorA256) :=
  connectors1 ← mapM (λ i, mkConnectorA256 (f256_network f) <$> slice (i * e1) ((i + 1) * e1) (f256_public_keys f))
    (seq 0 n1);
  let offset := n1 * e1 in
  connectors2 ← mapM (λ i, mkConnectorA256 (f256_network f)
    <$> slice (offset + i * e2) (offset + (i + 1) * e2) (f256_public_keys f)) (seq 0 n2);
  Val (connectors1, connectors2).

Definition AHash_create_connectors (n1 e1 n2 e2 : nat) (f : ConnectorAHashFactory)
    : comp (list ConnectorAHash * list ConnectorAHash) :=
  connectors1 ← mapM (λ i, mkConnectorAHash (fhash_network f) <$> slice (i * e1) ((i + 1) * e1) (fhash_public_keys f))
    (seq 0 n1);
  let offset := n1 * e1 in
  connectors2 ← mapM (λ i, mkConnectorAHash (fhash_network f)
    <$> slice (offset + i * e2) (offset + (i + 1) * e2) (fhash_public_keys f)) (seq 0 n2);
  Val (connectors1, connectors2).

Section connectors_a.
Context `{TaprootLib, ConnectorLib, AssertLib}.

Definition A256_script (c : ConnectorA256) : list ScriptElem :=
  script_for (rev (a256_public_keys c)) (λ public_key,
    Fragment (wots256_checksig_verify public_key) :: replicate (MSG_LEN * 8 / 4) (OP OP_DROP))
  ++ [OP OP_TRUE].
Definition A256_create_locking_script (c : ConnectorA256) : ScriptBuf := compile (A256_script c).

Definition A256_create_taproot_address (c : ConnectorA256) : comp ScriptBuf :=
  fst <$> expect_ok (create_taproot_addr (a256_network c) (ScriptSpend [A256_create_locking_script c])).

Definition A256_generate_spend_info (c : ConnectorA256) : comp (ScriptBuf * N) :=
  let script := A256_create_locking_script c in
  '(_, spend_info) ← expect_ok (create_taproot_addr (a256_network c) (ScriptSpend [script]));
  block ← expect (control_block spend_info script);
  Val (script, block).

Definition A256_finalize_input (c : ConnectorA256) (i : PsbtInput) (signatures : list Wots256Sig)
    : comp PsbtInput :=
  '(script, block) ← A256_generate_spend_info c;
  Val (finalize_input i ((signatures ≫= wots256_raw_witness) ++ [script; serialize_control_block block])).

Definition AHash_script (c : ConnectorAHash) : list ScriptElem :=
  script_for (rev (ahash_public_keys c)) (λ public_key,
    Fragment (wots_hash_checksig_verify public_key) :: replicate (HASH_LEN * 8 / 4) (OP OP_DROP))
  ++ [OP OP_TRUE].
Definition AHash_create_locking_script (c : ConnectorAHash) : ScriptBuf := compile (AHash_script c).

Definition AHash_create_taproot_address (c : ConnectorAHash) : comp ScriptBuf :=
  fst <$> expect_ok (create_taproot_addr (ahash_network c) (ScriptSpend [AHash_create_locking_script c])).

Definition AHash_create_spend_info (c : ConnectorAHash) : comp (ScriptBuf * N) :=
  let script := AHash_create_locking_script c in
  '(_, spend_info) ← expect_ok (create_taproot_addr (ahash_network c) (ScriptSpend [script]));
  block ← expect (control_block spend_info script);
  Val (script, block).

Definition AHash_finalize_input (c : ConnectorAHash) (i : PsbtInput) (signatures : list WotsHashSig)
    : comp PsbtInput :=
  '(script, block) ← AHash_create_spend_info c;
  Val (finalize_input i ((signatures ≫= wots_hash_raw_witness) ++ [script; serialize_control_block block])).

End connectors_a.

(** ** Connector A3 *)

(** The two signatures that the public inputs are disproved with. *)
Record DisprovePublicInputsCommitmentWitness := mkDisproveWitness {
  sig_withdrawal_fulfillment_txid : Wots256Sig;
  sig_public_inputs_hash : Wots256Sig;
}.

(** A witness script of [bitvm] is given by the stack it leaves. *)
Inductive ConnectorA3Leaf :=
| A3Payout (sig : option SchnorrSignature)
| A3DisproveProof (disprove_script : ScriptBuf) (witness_script : option (list (list N)))
| A3DisprovePublicInputsCommitment (deposit_txid : Txid)
    (witness : option DisprovePublicInputsCommitmentWitness).

Definition A3Leaf_input_index (leaf : ConnectorA3Leaf) : N :=
  match leaf with
  | A3Payout _ => 1
  | A3DisproveProof _ _ | A3DisprovePublicInputsCommitment _ _ => 0
  end.
Definition A3Leaf_sighash_type (leaf : ConnectorA3Leaf) : TapSighashType :=
  match leaf with
  | A3Payout _ => SighashDefault
  | A3DisproveProof _ _ | A3DisprovePublicInputsCommitment _ _ => SighashSingle
  end.

Record ConnectorA3 `{TaprootLib} := mkConnectorA3 {
  a3_wots_public_keys : PublicKeys;
  a3_n_of_n : XOnlyPublicKey;
  a3_payout_timelock : N;
  a3_output_address : ScriptBuf;
  a3_spend_info : TaprootSpendInfo;
}.

Arguments mkConnectorA3 {_} _ _ _ _ _.

Section connector_a3.
Context `{TaprootLib, ConnectorLib, AssertLib, NmulLib}.

Abbreviation times n op := (script_for (seq 0 n) (λ _, [OP op])) (only parsing).

(** [for i in (1..=n).rev() { { i } OP_ROLL OP_TOALTSTACK }]. *)
Definition roll_to_alt (n : nat) : list ScriptElem :=
  script_for (rev (seq 1 n)) (λ i, [PushInt (N.of_nat i); OP OP_ROLL; OP OP_TOALTSTACK]).

(** The committed withdrawal fulfillment txid as 64 nibbles and the committed hash as 32 bytes,
    both put aside. *)
Definition public_inputs_commitments (withdrawal_fulfillment public_inputs_hash : Wots256PublicKey)
    : list ScriptElem :=
  [Fragment (wots256_compact_checksig_verify withdrawal_fulfillment)]
  ++ times 64 OP_TOALTSTACK
  ++ [Fragment (wots256_compact_checksig_verify public_inputs_hash)]
  ++ script_for (seq 0 32) (λ _, [Fragment (NMUL (2 ^ 4)); OP OP_ADD; OP OP_TOALTSTACK])
  ++ times 32 OP_FROMALTSTACK
  ++ times 64 OP_FROMALTSTACK
  ++ script_for (seq 0 32) (λ _, [PushInt 64; OP OP_ROLL; OP OP_TOALTSTACK]).

(** The deposit txid and the committed txid, as words for BLAKE3, and their hash as 32 bytes. *)
Definition public_inputs_hash_script (deposit_txid : Txid) : list ScriptElem :=
  script_for (rev (serialize_txid deposit_txid)) (λ b, [PushInt b])
  ++ [Fragment (transform_limbsize 8 4)]
  ++ roll_to_alt 127 ++ [OP OP_TOALTSTACK]
  ++ script_for (seq 0 16) (λ _, times 8 OP_FROMALTSTACK ++ roll_to_alt 7 ++ times 7 OP_FROMALTSTACK)
  ++ [Fragment (transform_limbsize 4 29)]
  ++ times 9 OP_TOALTSTACK
  ++ [Fragment (transform_limbsize 4 29)]
  ++ times 9 OP_FROMALTSTACK
  ++ [Fragment (blake3_compute_script (2 * 32))]
  ++ [Fragment (transform_limbsize 4 8)]
  ++ roll_to_alt 31
  ++ times 31 OP_FROMALTSTACK
  ++ hash_to_bn254_fq.

(** The comparison of the two hashes, which succeeds when they differ. *)
Definition public_inputs_compare : list ScriptElem :=
  times 32 OP_FROMALTSTACK
  ++ script_for (rev (seq 1 31)) (λ i, [PushInt (N.of_nat (i + 1)); OP OP_ROLL; OP OP_EQUAL; OP OP_TOALTSTACK])
  ++ [OP OP_EQUAL]
  ++ script_for (seq 1 31) (λ _, [OP OP_FROMALTSTACK; OP OP_BOOLAND])
  ++ [OP OP_NOT].

Definition public_inputs_script (withdrawal_fulfillment public_inputs_hash : Wots256PublicKey)
    (deposit_txid : Txid) : list ScriptElem :=
  public_inputs_commitments withdrawal_fulfillment public_inputs_hash
  ++ public_inputs_hash_script deposit_txid ++ public_inputs_compare.

Definition A3Leaf_generate_locking_script (leaf : ConnectorA3Leaf) (n_of_n_agg_pubkey : XOnlyPublicKey)
    (wots_public_keys : PublicKeys) (payout_timelock : N) : ScriptBuf :=
  match leaf with
  | A3Payout _ => compile (n_of_n_with_timelock n_of_n_agg_pubkey payout_timelock)
  | A3DisprovePublicInputsCommitment deposit_txid _ =>
      compile (public_inputs_script (withdrawal_fulfillment wots_public_keys)
        (Vector.hd (g16_public_inputs (groth16 wots_public_keys))) deposit_txid)
  | A3DisproveProof disprove_script _ => disprove_script
  end.

(** The stack that the witness script leaves. *)
Definition A3Leaf_generate_witness_script (leaf : ConnectorA3Leaf) : comp (list (list N)) :=
  match leaf with
  | A3DisprovePublicInputsCommitment _ (Some w) =>
      Val (wots256_compact_raw_witness (sig_public_inputs_hash w)
        ++ wots256_compact_raw_witness (sig_withdrawal_fulfillment_txid w))
  | A3DisproveProof _ (Some witness_script) => Val witness_script
  | A3Payout sig => sig ← expect sig; Val [serialize_schnorr sig]
  | _ => Panic
  end.

Definition A3_generate_taproot_address (network : Network) (wots_public_keys : PublicKeys)
    (n_of_n_agg_pubkey : XOnlyPublicKey) (payout_timelock : N) (disprove_scripts : list ScriptBuf)
    (deposit_txid : Txid) : comp (ScriptBuf * TaprootSpendInfo) :=
  let locking_script leaf :=
    A3Leaf_generate_locking_script leaf n_of_n_agg_pubkey wots_public_keys payout_timelock in
  let scripts := locking_script <$> [A3Payout None; A3DisprovePublicInputsCommitment deposit_txid None] in
  let invalidate_proof_tapleaves :=
    (λ disprove_script, locking_script (A3DisproveProof disprove_script None)) <$> disprove_scripts in
  expect_ok (create_taproot_addr network (ScriptSpend (scripts ++ invalidate_proof_tapleaves))).

Definition A3_new (network : Network) (deposit_txid : Txid) (n_of_n_agg_pubkey : XOnlyPublicKey)
    (wots_public_keys : PublicKeys) (payout_timelock : N) : comp ConnectorA3 :=
  let disprove_scripts := vec_to_list (api_generate_full_tapscripts (groth16 wots_public_keys)) in
  '(output_address, spend_info) ← A3_generate_taproot_address network wots_public_keys
    n_of_n_agg_pubkey payout_timelock disprove_scripts deposit_txid;
  Val (mkConnectorA3 wots_public_keys n_of_n_agg_pubkey payout_timelock output_address spend_info).

Definition A3_generate_locking_script (c : ConnectorA3) : ScriptBuf := a3_output_address c.

Definition A3_generate_spend_info (c : ConnectorA3) (tapleaf : ConnectorA3Leaf) : comp (ScriptBuf * N) :=
  let script := A3Leaf_generate_locking_script tapleaf (a3_n_of_n c) (a3_wots_public_keys c)
    (a3_payout_timelock c) in
  block ← expect (control_block (a3_spend_info c) script);
  Val (script, block).

Definition A3_finalize_input (c : ConnectorA3) (i : PsbtInput) (tapleaf : ConnectorA3Leaf) : comp PsbtInput :=
  '(script, block) ← A3_generate_spend_info c tapleaf;
  witness_stack ← A3Leaf_generate_witness_script tapleaf;
  Val (finalize_input i (witness_stack ++ [script; serialize_control_block block])).

End connector_a3.
