(* ===== verification/DisproveScript.v ===== *)
(** * The disproof of the public inputs ([connectors/src/connector_a3.rs])

    The script by which an operator's commitment to the public inputs of their proof is disproved,
    run by the interpreter: it accepts exactly when the committed hash differs, in any byte, from
    the hash that the script computes from the deposit txid and the committed withdrawal
    fulfillment txid.  And the scripts of the assertion, which check every signature against the
    key of its position. *)

From S2P Require Import Prelude Bitcoin Wots TxTypes Taproot Connectors Script StakeChain SpendConditions.
From S2P Require Import ConnectorsAssert.

(** ** What the scripts of [bitvm] do *)

(** Numbers on the stack. *)
Definition enc (l : list N) : list (list N) := (λ n, num_encode (Z.of_N n)) <$> l.

(** So many numbers below a bound. *)
Definition limbs (n : nat) (bound : N) (l : list N) : Prop := length l = n ∧ Forall (λ x, x < bound)%N l.

(** What a compact signature commits to, as 64 nibbles; the changes of limbs, and BLAKE3 on
    limbs, as functions on numbers, the top of the stack first. *)
Class AssertFunctions := {
  committed_nibbles : Wots256PublicKey → Wots256Sig → option (list N);
  nibbles_of_bytes : list N → list N;
  limbs29_of_nibbles : list N → list N;
  blake3_of_limbs : list N → list N;
  bytes_of_nibbles : list N → list N;
  hash_witness_valid : WotsHashPublicKey → WotsHashSig → Prop;
  field_witness_valid : Wots256PublicKey → Wots256Sig → Prop;
}.

(** The scripts compute these functions on the top of the stack and leave what is below, and the
    check of a signature fails unless it is valid. *)
Class AssertLaws `{ConnectorLib, AssertLib, NmulLib, ScriptContext, AssertFunctions} : Prop := {
  assert_nmul :: NmulLaws;
  compact_checksig_spec : ∀ key sig m a,
    run_fragment (wots256_compact_checksig_verify key) (rev (wots256_compact_raw_witness sig) ++ m) a
    = (λ nibbles, (enc nibbles ++ m, a)) <$> committed_nibbles key sig;
  committed_nibbles_spec : ∀ key sig nibbles, committed_nibbles key sig = Some nibbles →
    limbs 64 16 nibbles;
  transform_8_4_spec : ∀ l m a, limbs 32 256 l → limbs 64 16 (nibbles_of_bytes l) ∧
    run_fragment (transform_limbsize 8 4) (enc l ++ m) a = Some (enc (nibbles_of_bytes l) ++ m, a);
  transform_4_29_spec : ∀ l m a, limbs 64 16 l → limbs 9 (2 ^ 29) (limbs29_of_nibbles l) ∧
    run_fragment (transform_limbsize 4 29) (enc l ++ m) a = Some (enc (limbs29_of_nibbles l) ++ m, a);
  (** The script for the hash needs a stack with only the message. *)
  blake3_spec : ∀ l a, limbs 18 (2 ^ 29) l → limbs 64 16 (blake3_of_limbs l) ∧
    run_fragment (blake3_compute_script 64) (enc l) a = Some (enc (blake3_of_limbs l), a);
  transform_4_8_spec : ∀ l m a, limbs 64 16 l → limbs 32 256 (bytes_of_nibbles l) ∧
    run_fragment (transform_limbsize 4 8) (enc l ++ m) a = Some (enc (bytes_of_nibbles l) ++ m, a);
  field_checksig_spec : ∀ key sig m a, field_witness_valid key sig →
    ∃ nibbles, length nibbles = 64 ∧
      run_fragment (wots256_checksig_verify key) (rev (wots256_raw_witness sig) ++ m) a = Some (nibbles ++ m, a);
  hash_checksig_spec : ∀ key sig m a, hash_witness_valid key sig →
    ∃ nibbles, length nibbles = 32 ∧
      run_fragment (wots_hash_checksig_verify key) (rev (wots_hash_raw_witness sig) ++ m) a = Some (nibbles ++ m, a);
}.

(** ** What the script compares *)

(** Nibbles to bytes, the high one first. *)
Fixpoint join_nibbles (l : list N) : list N :=
  match l with hi :: lo :: l => (hi * 16 + lo)%N :: join_nibbles l | _ => [] end.

(** The words of eight nibbles, the last word first. *)
Fixpoint reverse_words {A} (k : nat) (l : list A) : list A :=
  match k with
  | 0 => []
  | S k => reverse_words k (drop 8 l) ++ take 8 l
  end.

(** The bytes of the hash of the two txids, before the top bits are cleared. *)
Definition public_inputs_hash_bytes `{AssertFunctions} (deposit_txid : Txid) (fulfillment : list N) : list N :=
  let nibbles := nibbles_of_bytes (serialize_txid deposit_txid) ++ fulfillment in
  let words := reverse_words 16 nibbles in
  let limbs := limbs29_of_nibbles (take 64 words) ++ limbs29_of_nibbles (drop 64 words) in
  rev (bytes_of_nibbles (blake3_of_limbs limbs)).

(** The first byte, as [f] leaves it, and the others. *)
Definition mask_first (f : N → N) (l : list N) : list N :=
  match l with b :: l => f b :: l | [] => [] end.

(** ** Lemmas: moving elements *)

Section moves.
Context `{ScriptContext}.

Lemma script_for_cons {A} (f : A → list ScriptElem) x l : script_for (x :: l) f = f x ++ script_for l f.
Proof. done. Qed.

Lemma run_toalts i n x m a l :
  length x = n →
  exec (script_for (seq i n) (λ _, [OP OP_TOALTSTACK]) ++ l) (mkScriptState (x ++ m) a [])
    = exec l (mkScriptState m (rev x ++ a) []).
Proof.
  intros <-. revert i a. induction x as [|e x IH]; intros i a; [done|]. cbn [length seq rev app].
  rewrite script_for_cons. cbn [app]. rewrite exec_cons, step_toalt by done. cbn [mbind option_bind].
  by rewrite IH, <- app_assoc.
Qed.

Lemma run_fromalts i n x m a l :
  length x = n →
  exec (script_for (seq i n) (λ _, [OP OP_FROMALTSTACK]) ++ l) (mkScriptState m (x ++ a) [])
    = exec l (mkScriptState (rev x ++ m) a []).
Proof.
  intros <-. revert i m. induction x as [|e x IH]; intros i m; [done|]. cbn [length seq rev app].
  rewrite script_for_cons. cbn [app]. rewrite exec_cons, step_fromalt by done. cbn [mbind option_bind].
  by rewrite IH, <- app_assoc.
Qed.

(** [{ n } OP_ROLL]. *)
Lemma run_roll n x e m a l :
  length x = n → (Z.of_nat n < 2 ^ 31)%Z →
  exec (PushInt (N.of_nat n) :: OP OP_ROLL :: l) (mkScriptState (x ++ e :: m) a [])
    = exec l (mkScriptState (e :: x ++ m) a []).
Proof.
  intros <- Hn. rewrite run_int, exec_cons, nat_N_Z. change (exec_elem _ _) with
    ('(m, a) ← (n ← num_decode 4 (num_encode (Z.of_nat (length x)));
       if (n <? 0)%Z then None
       else let i := Z.to_nat n in e' ← (x ++ e :: m) !! i; Some (e' :: delete i (x ++ e :: m), a));
     Some (mkScriptState m a [])).
  rewrite num_decode_encode_4 by lia. cbn [mbind option_bind].
  destruct (Z.ltb_spec (Z.of_nat (length x)) 0); [lia|]. cbv zeta. rewrite Nat2Z.id.
  rewrite list_lookup_middle by done. cbn [mbind option_bind]. by rewrite delete_middle.
Qed.

(** All but the first of some elements, to the other stack. *)
Lemma run_roll_to_alt n e x m a l :
  length x = n → (Z.of_nat n < 2 ^ 31)%Z →
  exec (roll_to_alt n ++ l) (mkScriptState (e :: x ++ m) a []) = exec l (mkScriptState (e :: m) (x ++ a) []).
Proof.
  revert x m a. induction n as [|n IH]; intros x m a Hlen Hn.
  { apply nil_length_inv in Hlen as ->. done. }
  destruct x as [|y x _] using rev_ind; [done|]. rewrite length_app in Hlen. cbn in Hlen.
  unfold roll_to_alt. rewrite seq_S, rev_app_distr. cbn [rev app]. rewrite script_for_cons. cbn [app].
  rewrite <- app_assoc. cbn [app]. change (e :: x ++ y :: m) with ((e :: x) ++ y :: m).
  rewrite (run_roll (1 + n)) by (cbn [length]; lia). rewrite exec_cons, step_toalt by done.
  cbn [mbind option_bind app]. rewrite <- app_assoc. apply IH; lia.
Qed.

(** Elements at a fixed depth, to the other stack. *)
Lemma run_rolls i n d x y m a l :
  length x = d → length y = n → (Z.of_nat d < 2 ^ 31)%Z →
  exec (script_for (seq i n) (λ _, [PushInt (N.of_nat d); OP OP_ROLL; OP OP_TOALTSTACK]) ++ l)
    (mkScriptState (x ++ y ++ m) a []) = exec l (mkScriptState (x ++ m) (rev y ++ a) []).
Proof.
  intros Hx <- Hd. revert i a. induction y as [|e y IH]; intros i a; [done|]. cbn [length seq rev app].
  rewrite script_for_cons. cbn [app]. rewrite (run_roll d) by done.
  rewrite exec_cons, step_toalt by done. cbn [mbind option_bind]. by rewrite IH, <- app_assoc.
Qed.

(** Words from the other stack. *)
Lemma run_words i k x m a l :
  length x = 8 * k →
  exec (script_for (seq i k) (λ _, script_for (seq 0 8) (λ _, [OP OP_FROMALTSTACK]) ++ roll_to_alt 7
      ++ script_for (seq 0 7) (λ _, [OP OP_FROMALTSTACK])) ++ l) (mkScriptState m (x ++ a) [])
    = exec l (mkScriptState (reverse_words k x ++ m) a []).
Proof.
  revert i x m. induction k as [|k IH]; intros i x m Hx; [by apply nil_length_inv in Hx as ->|].
  cbn [seq reverse_words]. rewrite script_for_cons, <- !app_assoc.
  assert (length (take 8 x) = 8) as H8 by (rewrite length_take; lia).
  rewrite <- (take_drop 8 x) at 1. rewrite <- app_assoc, (run_fromalts 0 8) by done.
  destruct (take 8 x) as [|x0 w]; [done|]. cbn [rev]. rewrite <- app_assoc.
  destruct (rev w) as [|x7 w'] eqn:Ew.
  { apply (f_equal length) in Ew. rewrite length_rev in Ew. cbn in *. lia. }
  cbn [app]. replace (w' ++ x0 :: m) with ((w' ++ [x0]) ++ m) by by rewrite <- app_assoc.
  rewrite run_roll_to_alt; [|rewrite length_app|lia].
  2:{ apply (f_equal length) in Ew. rewrite length_rev in Ew. cbn in *. lia. }
  rewrite (run_fromalts 0 7); [|rewrite length_app].
  2:{ apply (f_equal length) in Ew. rewrite length_rev in Ew. cbn in *. lia. }
  rewrite IH by (rewrite length_drop; lia). f_equal. f_equal. f_equal.
  rewrite rev_app_distr. cbn [rev app]. f_equal.
  rewrite <- (rev_involutive w), Ew. cbn [rev]. by rewrite <- app_assoc.
Qed.

(** The nibbles of the committed hash to bytes, which go to the other stack. *)
Lemma run_join `{!NmulLib, !NmulLaws} i n c m a l :
  length c = 2 * n → Forall (λ d, d < 16)%N c →
  exec (script_for (seq i n) (λ _, [Fragment (NMUL (2 ^ 4)); OP OP_ADD; OP OP_TOALTSTACK]) ++ l)
      (mkScriptState (enc c ++ m) a [])
    = exec l (mkScriptState m (rev (enc (join_nibbles c)) ++ a) []).
Proof.
  revert i c a. induction n as [|n IH]; intros i c a Hc Hall; [by apply nil_length_inv in Hc as ->|].
  destruct c as [|hi [|lo c]]; [done|cbn in Hc; lia|]. rewrite !Forall_cons in Hall. destruct Hall as (Hhi & Hlo & Hall).
  cbn [seq join_nibbles]. rewrite script_for_cons. cbn [enc fmap list_fmap app].
  script_run. change (2 ^ Z.of_N 4)%Z with 16%Z.
  change (list_fmap _ _ (λ n, num_encode (Z.of_N n)) c) with (enc c).
  rewrite IH by (done || (cbn in Hc; lia)). cbn [rev]. rewrite <- app_assoc. cbn [app].
  do 4 f_equal. f_equal. lia.
Qed.

End moves.

(** ** Lemmas: the comparison *)

Section comparison.
Context `{ScriptContext}.

Lemma step_booland b c m a :
  exec_elem (OP OP_BOOLAND) (mkScriptState (bool_push c :: bool_push b :: m) a [])
    = Some (mkScriptState (bool_push (b && c) :: m) a []).
Proof. by destruct b, c. Qed.

Lemma step_not b m a :
  exec_elem (OP OP_NOT) (mkScriptState (bool_push b :: m) a []) = Some (mkScriptState (bool_push (negb b) :: m) a []).
Proof. by destruct b. Qed.

(** The comparison of two lists, element by element. *)
Lemma run_compare n x y m a l :
  length x = S n → length y = S n → (Z.of_nat (S n) < 2 ^ 31)%Z →
  exec (script_for (rev (seq 1 n)) (λ i, [PushInt (N.of_nat (i + 1)); OP OP_ROLL; OP OP_EQUAL; OP OP_TOALTSTACK])
      ++ OP OP_EQUAL :: script_for (seq 1 n) (λ _, [OP OP_FROMALTSTACK; OP OP_BOOLAND]) ++ l)
      (mkScriptState (x ++ y ++ m) a [])
    = exec l (mkScriptState (bool_push (bool_decide (x = y)) :: m) a []).
Proof.
  revert x y a l. induction n as [|n IH]; intros x y a l Hx Hy Hn.
  { destruct x as [|e [|]], y as [|f [|]]; try done. cbn [seq rev app].
    change (script_for [] ?f) with (@nil ScriptElem). cbn [app]. rewrite run_equal.
    do 4 f_equal. apply bool_decide_ext. split; congruence. }
  destruct x as [|e x]; [done|]. destruct y as [|f y]; [done|]. injection Hx as Hx. injection Hy as Hy.
  rewrite seq_S, rev_app_distr. cbn [rev app Nat.add]. rewrite script_for_cons, script_for_snoc. cbn [app].
  change (e :: x ++ f :: y ++ m) with ((e :: x) ++ f :: y ++ m).
  rewrite Nat.add_1_r, (run_roll (S (S n))) by (cbn [length]; lia). rewrite <- app_comm_cons, run_equal.
  rewrite exec_cons, step_toalt by done. cbn [mbind option_bind].
  rewrite <- app_assoc. rewrite IH by lia. cbn [app].
  rewrite exec_cons, step_fromalt by done. cbn [mbind option_bind].
  rewrite exec_cons, step_booland. cbn [mbind option_bind]. do 4 f_equal.
  rewrite <- bool_decide_and. apply bool_decide_ext. split; [intros [-> ->]|intros [= -> ->]]; done.
Qed.

End comparison.

Lemma enc_app l l' : enc (l ++ l') = enc l ++ enc l'.
Proof. apply fmap_app. Qed.

Lemma length_enc l : length (enc l) = length l.
Proof. apply length_fmap. Qed.

Lemma enc_rev l : enc (rev l) = rev (enc l).
Proof. apply map_rev. Qed.

Lemma enc_reverse_words k l : reverse_words k (enc l) = enc (reverse_words k l).
Proof.
  revert l. induction k as [|k IH]; intros l; [done|]. cbn [reverse_words].
  rewrite enc_app, <- IH. unfold enc. by rewrite fmap_take, fmap_drop.
Qed.

Lemma length_reverse_words {A} k (l : list A) : length l = 8 * k → length (reverse_words k l) = 8 * k.
Proof.
  revert l. induction k as [|k IH]; intros l Hl; [done|]. cbn [reverse_words].
  rewrite length_app, IH, length_take by (rewrite length_drop; lia). lia.
Qed.

Lemma enc_inj l l' :
  Forall (λ n, n < 256)%N l → Forall (λ n, n < 256)%N l' → enc l = enc l' → l = l'.
Proof.
  intros Hl. revert l'. induction Hl as [|n l Hn _ IH]; intros [|n' l'] Hl' E; try done.
  apply Forall_cons in Hl' as [Hn' Hl']. injection E as E1 E2. f_equal; [|by apply IH].
  apply (f_equal (num_decode 4)) in E1. rewrite !num_decode_encode_4 in E1 by lia. injection E1. lia.
Qed.

Lemma length_join_nibbles n l : length l = 2 * n → length (join_nibbles l) = n.
Proof.
  revert l. induction n as [|n IH]; intros l Hl; [by apply nil_length_inv in Hl as ->|].
  destruct l as [|hi [|lo l]]; [done|cbn in Hl; lia|]. cbn [join_nibbles length]. rewrite IH; [done|]. cbn in Hl. lia.
Qed.

Lemma join_nibbles_limbs n l : limbs (2 * n) 16 l → limbs n 256 (join_nibbles l).
Proof.
  intros [Hlen Hall]. split; [by apply length_join_nibbles|]. revert l Hlen Hall.
  induction n as [|n IH]; intros l Hlen Hall; [by apply nil_length_inv in Hlen as ->|].
  destruct l as [|hi [|lo l]]; [constructor..|]. rewrite !Forall_cons in Hall. destruct Hall as (Hhi & Hlo & Hall).
  constructor; [lia|]. apply IH; [cbn in Hlen; lia|done].
Qed.

Lemma Forall_reverse_words {A} (P : A → Prop) k l : Forall P l → Forall P (reverse_words k l).
Proof.
  revert l. induction k as [|k IH]; intros l Hl; [constructor|]. cbn [reverse_words].
  apply Forall_app. split; [by apply IH, Forall_drop|by apply Forall_take].
Qed.

Lemma txid_limbs txid : limbs 32 256 (serialize_txid txid).
Proof.
  split; [apply length_to_be_bytes|]. unfold serialize_txid. generalize 32 as w. intros w. revert txid.
  induction w as [|w IH]; intros txid; cbn [to_be_bytes]; [constructor|].
  apply Forall_app. split; [apply IH|]. apply Forall_singleton, N.mod_lt. done.
Qed.

(** ** The three parts of the script *)

Section parts.
Context `{AssertLaws}.

Lemma run_frag script l m a r :
  run_fragment script m a = Some r →
  exec (Fragment script :: l) (mkScriptState m a []) = exec l (mkScriptState (fst r) (snd r) []).
Proof.
  intros E. rewrite exec_cons. change (exec_elem _ _) with
    ('(m, a) ← run_fragment script m a; Some (mkScriptState m a [])).
  rewrite E. by destruct r.
Qed.

Lemma run_frag_fail script l m a :
  run_fragment script m a = None → exec (Fragment script :: l) (mkScriptState m a []) = None.
Proof.
  intros E. rewrite exec_cons. change (exec_elem _ _) with
    ('(m, a) ← run_fragment script m a; Some (mkScriptState m a [])).
  by rewrite E.
Qed.

Lemma exec_commitments wf_key pi_key wf_sig pi_sig wf_nibbles pi_nibbles l :
  committed_nibbles wf_key wf_sig = Some wf_nibbles → committed_nibbles pi_key pi_sig = Some pi_nibbles →
  exec (public_inputs_commitments wf_key pi_key ++ l)
      (mkScriptState (rev (wots256_compact_raw_witness wf_sig) ++ rev (wots256_compact_raw_witness pi_sig)) [] [])
    = exec l (mkScriptState (enc wf_nibbles) (rev (enc (join_nibbles pi_nibbles))) []).
Proof.
  intros Hw Hp. pose proof (compact_checksig_spec wf_key wf_sig) as Rw.
  pose proof (compact_checksig_spec pi_key pi_sig) as Rp. rewrite Hw in Rw. rewrite Hp in Rp.
  apply committed_nibbles_spec in Hw as [Lw _]. apply committed_nibbles_spec in Hp as [Lp Fp].
  pose proof (length_join_nibbles 32 pi_nibbles Lp) as Lj.
  unfold public_inputs_commitments. rewrite <- !app_assoc. cbn [app].
  rewrite (run_frag _ _ _ _ _ (Rw _ _)). cbn [fst snd].
  rewrite (run_toalts 0 64) by by rewrite length_enc.
  rewrite <- (app_nil_r (rev (wots256_compact_raw_witness pi_sig))), (run_frag _ _ _ _ _ (Rp _ _)).
  cbn [fst snd]. rewrite (run_join 0 32) by done. rewrite !app_nil_r.
  rewrite (run_fromalts 0 32) by by rewrite length_rev, length_enc.
  rewrite <- (app_nil_r (rev (enc wf_nibbles))), (run_fromalts 0 64) by by rewrite length_rev, length_enc.
  rewrite !rev_involutive, app_nil_r. rewrite <- (app_nil_r (enc (join_nibbles _))).
  change (PushInt 64) with (PushInt (N.of_nat 64)).
  rewrite (run_rolls 0 32 64) by (rewrite ?length_enc; done || lia). by rewrite !app_nil_r.
Qed.

Lemma exec_pushes bytes m a l :
  exec (script_for (rev bytes) (λ b, [PushInt b]) ++ l) (mkScriptState m a [])
    = exec l (mkScriptState (enc bytes ++ m) a []).
Proof.
  revert l. induction bytes as [|b bytes IH]; intros l; [done|]. cbn [rev].
  rewrite script_for_snoc, <- app_assoc, IH. cbn [app]. by rewrite run_int.
Qed.

(** All the elements of the main stack to the other one, in order. *)
Lemma run_all_to_alt n x a l :
  length x = S n → (Z.of_nat n < 2 ^ 31)%Z →
  exec (roll_to_alt n ++ OP OP_TOALTSTACK :: l) (mkScriptState x a []) = exec l (mkScriptState [] (x ++ a) []).
Proof.
  intros Hx Hn. destruct x as [|e x]; [done|]. injection Hx as Hx.
  rewrite <- (app_nil_r x) at 1. rewrite run_roll_to_alt by done.
  rewrite exec_cons, step_toalt by done. done.
Qed.

(** The elements of the main stack in reverse order. *)
Lemma run_reverse n x a l :
  length x = S n → (Z.of_nat n < 2 ^ 31)%Z →
  exec (roll_to_alt n ++ script_for (seq 0 n) (λ _, [OP OP_FROMALTSTACK]) ++ l) (mkScriptState x a [])
    = exec l (mkScriptState (rev x) a []).
Proof.
  intros Hx Hn. destruct x as [|e x]; [done|]. injection Hx as Hx.
  rewrite <- (app_nil_r x) at 1. rewrite run_roll_to_alt by done. by rewrite (run_fromalts 0 n).
Qed.

(** The ranges on the way to the hash. *)
Lemma hash_limbs deposit_txid fulfillment :
  limbs 64 16 fulfillment →
  let nibbles := nibbles_of_bytes (serialize_txid deposit_txid) ++ fulfillment in
  let words := reverse_words 16 nibbles in
  let limbs' := limbs29_of_nibbles (take 64 words) ++ limbs29_of_nibbles (drop 64 words) in
  length nibbles = 128 ∧ limbs 64 16 (take 64 words) ∧ limbs 64 16 (drop 64 words) ∧
  limbs 18 (2 ^ 29) limbs' ∧ limbs 64 16 (blake3_of_limbs limbs').
Proof.
  intros [Lf Ff] nibbles words limbs'.
  destruct (transform_8_4_spec (serialize_txid deposit_txid) [] []) as [[Ln Fn] _]; [apply txid_limbs|].
  assert (length nibbles = 128) as Lnib by (unfold nibbles; rewrite length_app; lia).
  assert (length words = 128) as Lw by (apply length_reverse_words; lia).
  assert (Forall (λ x, x < 16)%N words) as Fw by (apply Forall_reverse_words; by apply Forall_app).
  assert (limbs 64 16 (take 64 words)) as L1 by (split; [rewrite length_take; lia|by apply Forall_take]).
  assert (limbs 64 16 (drop 64 words)) as L2 by (split; [rewrite length_drop; lia|by apply Forall_drop]).
  destruct (transform_4_29_spec _ [] [] L1) as [[M1 G1] _].
  destruct (transform_4_29_spec _ [] [] L2) as [[M2 G2] _].
  assert (limbs 18 (2 ^ 29) limbs') as Ll
    by (unfold limbs'; split; [rewrite length_app; lia|by apply Forall_app]).
  destruct (blake3_spec limbs' [] Ll) as [L3 _]. done.
Qed.

Lemma hash_bytes_spec deposit_txid fulfillment :
  limbs 64 16 fulfillment → limbs 32 256 (public_inputs_hash_bytes deposit_txid fulfillment).
Proof.
  intros Hf. destruct (hash_limbs deposit_txid fulfillment Hf) as (_ & _ & _ & _ & L).
  destruct (transform_4_8_spec _ [] [] L) as ([L8 F8] & _). unfold public_inputs_hash_bytes.
  split; [by rewrite length_rev|by apply Forall_rev].
Qed.

Lemma exec_hash deposit_txid fulfillment a l :
  limbs 64 16 fulfillment →
  exec (public_inputs_hash_script deposit_txid ++ l) (mkScriptState (enc fulfillment) a [])
    = exec l (mkScriptState
        (enc (mask_first fq_top_byte (public_inputs_hash_bytes deposit_txid fulfillment))) a []).
Proof.
  intros Hf. destruct (hash_limbs deposit_txid fulfillment Hf) as (Lnib & L1 & L2 & Ll & Lb).
  destruct (hash_bytes_spec deposit_txid fulfillment Hf) as [Lh Fh].
  unfold public_inputs_hash_script. unfold public_inputs_hash_bytes in *. rewrite <- !app_assoc. cbn [app].
  destruct (transform_8_4_spec (serialize_txid deposit_txid) (enc fulfillment) a (txid_limbs _)) as [_ R84].
  rewrite exec_pushes, (run_frag _ _ _ _ _ R84). cbn [fst snd]. rewrite <- enc_app.
  set (nibbles := nibbles_of_bytes _ ++ fulfillment) in *.
  rewrite run_all_to_alt by (rewrite ?length_enc; lia).
  rewrite (run_words 0 16) by (rewrite length_enc; lia). rewrite app_nil_r, enc_reverse_words.
  set (words := reverse_words 16 nibbles) in *. rewrite <- (take_drop 64 words) at 1. rewrite enc_app.
  destruct (transform_4_29_spec _ (enc (drop 64 words)) a L1) as [[M1 _] R1]. rewrite (run_frag _ _ _ _ _ R1).
  cbn [fst snd]. rewrite (run_toalts 0 9) by by rewrite length_enc. rewrite <- (app_nil_r (enc (drop 64 words))).
  destruct (transform_4_29_spec _ [] (rev (enc (limbs29_of_nibbles (take 64 words))) ++ a) L2) as [_ R2].
  rewrite (run_frag _ _ _ _ _ R2). cbn [fst snd]. rewrite app_nil_r.
  rewrite (run_fromalts 0 9) by by rewrite length_rev, length_enc. rewrite rev_involutive, <- enc_app.
  destruct (blake3_spec _ a Ll) as [_ R3]. rewrite (run_frag _ _ _ _ _ R3).
  destruct (transform_4_8_spec _ [] a Lb) as ([L8 F8] & R4). rewrite !app_nil_r in R4. cbn [fst snd]. rewrite (run_frag _ _ _ _ _ R4).
  cbn [fst snd]. rewrite run_reverse by (rewrite ?length_enc; done || lia).
  rewrite <- enc_rev.
  destruct (rev (bytes_of_nibbles _)) as [|b rest]; [done|]. apply Forall_cons in Fh as [Hb _].
  rewrite exec_app. change (enc (b :: rest)) with (num_encode (Z.of_N b) :: enc rest).
  rewrite exec_mask by done. done.
Qed.

Lemma exec_comparison x y :
  limbs 32 256 x → limbs 32 256 y →
  exec public_inputs_compare (mkScriptState (enc y) (rev (enc x)) [])
    = Some (mkScriptState [bool_push (bool_decide (x ≠ y))] [] []).
Proof.
  intros [Lx Fx] [Ly Fy]. unfold public_inputs_compare. rewrite <- (app_nil_r (rev (enc x))).
  rewrite (run_fromalts 0 32) by by rewrite length_rev, length_enc. rewrite rev_involutive.
  rewrite <- (app_nil_r (enc y)). cbn [app].
  rewrite (run_compare 31) by (rewrite ?length_enc; done || lia).
  rewrite exec_cons, step_not. cbn [mbind option_bind]. rewrite exec_nil. do 4 f_equal.
  rewrite <- bool_decide_not. apply bool_decide_ext.
  split; intros Hne E; apply Hne; [by rewrite E|by apply enc_inj].
Qed.

End parts.

Lemma mask_first_spec n l : limbs n 256 l → limbs n 256 (mask_first fq_top_byte l).
Proof.
  intros [<- Hl]. destruct Hl as [|b l Hb Hl]; [by split|]. split; [done|]. constructor; [|done]. unfold fq_top_byte.
  pose proof (N.mod_lt b 32 ltac:(lia)). case_decide; lia.
Qed.

Lemma disproof_outcome `{AssertLaws} wf_key pi_key deposit_txid w :
  ∃ stack,
    A3Leaf_generate_witness_script (A3DisprovePublicInputsCommitment deposit_txid (Some w)) = Val stack ∧
    script_succeeds (public_inputs_script wf_key pi_key deposit_txid) stack
    = match committed_nibbles wf_key (sig_withdrawal_fulfillment_txid w),
            committed_nibbles pi_key (sig_public_inputs_hash w) with
      | Some fulfillment, Some hash =>
          bool_decide (join_nibbles hash
            ≠ mask_first fq_top_byte (public_inputs_hash_bytes deposit_txid fulfillment))
      | _, _ => false
      end.
Proof.
  eexists. split; [reflexivity|]. unfold script_succeeds. rewrite rev_app_distr.
  destruct w as [wf_sig pi_sig]. cbn [sig_withdrawal_fulfillment_txid sig_public_inputs_hash].
  destruct (committed_nibbles wf_key wf_sig) as [fulfillment|] eqn:Ew;
    [destruct (committed_nibbles pi_key pi_sig) as [hash|] eqn:Ep|].
  - unfold public_inputs_script. rewrite (exec_commitments _ _ _ _ _ _ _ Ew Ep).
    apply committed_nibbles_spec in Ew. apply committed_nibbles_spec in Ep.
    rewrite exec_hash by done.
    rewrite exec_comparison; [by rewrite succeeds_bool|by apply join_nibbles_limbs|].
    apply mask_first_spec. by apply hash_bytes_spec.
  - unfold public_inputs_script, public_inputs_commitments. rewrite <- !app_assoc. cbn [app].
    pose proof (compact_checksig_spec wf_key wf_sig) as Rw. rewrite Ew in Rw.
    rewrite (run_frag _ _ _ _ _ (Rw _ _)). cbn [fst snd].
    apply committed_nibbles_spec in Ew as [Lw _]. rewrite (run_toalts 0 64) by by rewrite length_enc.
    rewrite <- (app_nil_r (rev (wots256_compact_raw_witness pi_sig))), run_frag_fail; [done|].
    by rewrite compact_checksig_spec, Ep.
  - unfold public_inputs_script, public_inputs_commitments. rewrite <- !app_assoc. cbn [app].
    rewrite run_frag_fail; [done|]. by rewrite compact_checksig_spec, Ew.
Qed.


(** Checks of signatures in the reverse order of their keys, the last signature on top. *)
Lemma run_checks `{ScriptContext} {K} (check : K → list N) (raw : list (list N) → list (list N))
    (valid : K → list (list N) → Prop) w keys sigs l :
  (∀ key sig m a, valid key sig → ∃ nibbles, length nibbles = w ∧
    run_fragment (check key) (rev (raw sig) ++ m) a = Some (nibbles ++ m, a)) →
  Forall2 valid keys sigs →
  exec (script_for (rev keys) (λ key, Fragment (check key) :: replicate w (OP OP_DROP)) ++ l)
      (mkScriptState (rev (sigs ≫= raw)) [] []) = exec l (mkScriptState [] [] []).
Proof.
  intros Hcheck. revert sigs. induction keys as [|key keys IH] using rev_ind; intros sigs Hall.
  { by apply Forall2_nil_inv_l in Hall as ->. }
  apply Forall2_app_inv_l in Hall as (sigs' & last & Hall & Hlast & ->).
  destruct last as [|sig [|]]; [by inversion Hlast| |by inversion Hlast as [|???? _ Hnil]; inversion Hnil].
  apply Forall2_cons in Hlast as [Hv _]. rewrite bind_app, rev_app_distr. cbn [rev app mbind list_bind].
  rewrite app_nil_r, script_for_cons, rev_app_distr. cbn [app].
  destruct (Hcheck key sig (rev (sigs' ≫= raw)) [] Hv) as (nibbles & Hn & E).
  rewrite (run_frag _ _ _ _ _ E). cbn [fst snd]. rewrite <- app_assoc, run_drops.
  rewrite decide_True by (rewrite length_app; lia). rewrite drop_app_length' by done. by apply IH.
Qed.

Lemma single_script_spend `{TaprootLaws} network s key :
  ∃ info block,
    expect_ok (create_taproot_addr network (ScriptSpend [s]))
      = Val (p2tr UNSPENDABLE_PUBLIC_KEY (Some (tapnode_from_script s)) network, info) ∧
    control_block info s = Some block ∧
    spends key network (Script s block) (p2tr UNSPENDABLE_PUBLIC_KEY (Some (tapnode_from_script s)) network).
Proof.
  destruct (script_spends network UNSPENDABLE_PUBLIC_KEY s key) as (info & block & E & Hb & Hsp).
  exists info, block. cbn [create_taproot_addr]. by rewrite E.
Qed.

(** The witness that [finalize_input] puts on an input of an assert-data transaction fits its
    output, and its script, which checks the keys in the reverse order, accepts signatures that
    are valid for the keys of the connector in their order. *)
Lemma A256_finalize_stack `{TaprootLaws, ConnectorLib} key c sigs :
  ∃ block, (∀ i, A256_finalize_input c i sigs = Val (finalize_input i ((sigs ≫= wots256_raw_witness)
      ++ [A256_create_locking_script c; serialize_control_block block]))) ∧
    spends key (a256_network c) (Script (A256_create_locking_script c) block) (p2tr UNSPENDABLE_PUBLIC_KEY
      (Some (tapnode_from_script (A256_create_locking_script c))) (a256_network c)).
Proof.
  destruct (single_script_spend (a256_network c) (A256_create_locking_script c) key) as (info & block & E & Hb & Hsp).
  exists block. split; [|exact Hsp]. intros i. unfold A256_finalize_input, A256_generate_spend_info. rewrite E.
  cbn [mbind comp_bind]. by rewrite Hb.
Qed.

Lemma A256_script_accepts `{AssertLaws} c sigs :
  Forall2 field_witness_valid (a256_public_keys c) sigs →
  script_succeeds (A256_script c) (sigs ≫= wots256_raw_witness) = true.
Proof.
  intros Hall. unfold script_succeeds, A256_script. change (MSG_LEN * 8 / 4) with 64.
  by rewrite (run_checks _ _ field_witness_valid) by (done || intros; by apply field_checksig_spec).
Qed.

Lemma AHash_finalize_stack `{TaprootLaws, ConnectorLib, AssertLib} key c sigs :
  ∃ block, (∀ i, AHash_finalize_input c i sigs = Val (finalize_input i ((sigs ≫= wots_hash_raw_witness)
      ++ [AHash_create_locking_script c; serialize_control_block block]))) ∧
    spends key (ahash_network c) (Script (AHash_create_locking_script c) block) (p2tr UNSPENDABLE_PUBLIC_KEY
      (Some (tapnode_from_script (AHash_create_locking_script c))) (ahash_network c)).
Proof.
  destruct (single_script_spend (ahash_network c) (AHash_create_locking_script c) key) as (info & block & E & Hb & Hsp).
  exists block. split; [|exact Hsp]. intros i. unfold AHash_finalize_input, AHash_create_spend_info. rewrite E.
  cbn [mbind comp_bind]. by rewrite Hb.
Qed.

Lemma AHash_script_accepts `{AssertLaws} c sigs :
  Forall2 hash_witness_valid (ahash_public_keys c) sigs →
  script_succeeds (AHash_script c) (sigs ≫= wots_hash_raw_witness) = true.
Proof.
  intros Hall. unfold script_succeeds, AHash_script. change (HASH_LEN * 8 / 4) with 32.
  by rewrite (run_checks _ _ hash_witness_valid) by (done || intros; by apply hash_checksig_spec).
Qed.

(** ** Properties *)

(** C19: What it takes to disprove the public inputs.  With the witness that the leaf of the
    connector generates from two Winternitz signatures, the script accepts exactly when the
    committed hash differs, in any of its 32 bytes, from the hash that it computes of the
    deposit txid and the committed withdrawal fulfillment txid, the first byte of which is
    masked by [hash_to_bn254_fq]; an invalid signature of the fulfillment is never accepted. *)
Theorem public_inputs_disproved_iff_different `{AssertLaws} wf_key pi_key deposit_txid w :
  ∃ stack,
    A3Leaf_generate_witness_script (A3DisprovePublicInputsCommitment deposit_txid (Some w)) = Val stack ∧
    script_succeeds (public_inputs_script wf_key pi_key deposit_txid) stack
    = match committed_nibbles wf_key (sig_withdrawal_fulfillment_txid w),
            committed_nibbles pi_key (sig_public_inputs_hash w) with
      | Some fulfillment, Some hash =>
          bool_decide (join_nibbles hash
            ≠ mask_first fq_top_byte (public_inputs_hash_bytes deposit_txid fulfillment))
      | _, _ => false
      end.
Proof. apply disproof_outcome. Qed.

(** C18: An operator who committed to the right hash can be disproved.  The hash of the public
    inputs is reduced to the field by clearing the three top bits of its first byte; whenever
    that byte is a nonzero multiple of 32, the script computes another byte and accepts the
    signatures of an operator who committed to the right one. *)
Theorem honest_commitment_disproved `{AssertLaws} wf_key pi_key deposit_txid w fulfillment hash b rest :
  committed_nibbles wf_key (sig_withdrawal_fulfillment_txid w) = Some fulfillment →
  committed_nibbles pi_key (sig_public_inputs_hash w) = Some hash →
  public_inputs_hash_bytes deposit_txid fulfillment = b :: rest →
  b ≠ 0%N → (b mod 32 = 0)%N →
  join_nibbles hash = (b mod 32)%N :: rest →
  ∃ stack,
    A3Leaf_generate_witness_script (A3DisprovePublicInputsCommitment deposit_txid (Some w)) = Val stack ∧
    script_succeeds (public_inputs_script wf_key pi_key deposit_txid) stack = true.
Proof.
  intros Ew Ep Eh Hb Hm Ej. destruct (disproof_outcome wf_key pi_key deposit_txid w) as (stack & Hs & E).
  exists stack. split; [done|]. rewrite E, Ew, Ep, Eh, Ej. apply bool_decide_eq_true.
  cbn [mask_first]. intros [= E']. unfold fq_top_byte in E'. rewrite decide_True in E' by done. lia.
Qed.

(** ** Witnesses

    An instance of the library in which a signature is the message, and the fragments are small
    functions of the top of the stack. *)

Definition example_message (n : nat) (sig : list (list N)) : list N :=
  (λ i, (nth 0 (nth i sig []) 0 mod 16)%N) <$> seq 0 n.

Definition example_field_connectors : ConnectorLib := {|
  into_script l := l ≫= elem_bytes;
  compile l := l ≫= elem_bytes;
  wots256_checksig_verify _ := [6%N];
  wots256_raw_witness sig := rev (enc (example_message 64 sig));
  p2tr_tweaked key network := [key; network];
  serialize_control_block block := [block];
|}.

Definition example_assert : AssertLib := {|
  wots_hash_checksig_verify _ := [5%N];
  wots_hash_raw_witness sig := rev (enc (example_message 32 sig));
  wots256_compact_checksig_verify _ := [2%N];
  wots256_compact_raw_witness sig := rev (enc (example_message 64 sig));
  transform_limbsize from to := [3; from; to]%N;
  blake3_compute_script n := [4; n]%N;
  NUM_TAPS := 3;
  api_generate_full_tapscripts _ := [# [201]; [202]; [203] ]%N;
|}.

Definition example_assert_nmul : NmulLib := λ n, [1; n]%N.

Definition example_functions : AssertFunctions := {|
  committed_nibbles _ sig := Some (example_message 64 sig);
  nibbles_of_bytes l := l ≫= λ b, [b / 16; b mod 16]%N;
  limbs29_of_nibbles l := take 9 l;
  blake3_of_limbs l := (λ x, x mod 16)%N <$> (l ++ l ++ l ++ take 10 l);
  bytes_of_nibbles l := join_nibbles l;
  hash_witness_valid _ _ := True;
  field_witness_valid _ _ := True;
|}.

Definition apply_top (n : nat) (f : list N → list N) (m a : list (list N))
    : option (list (list N) * list (list N)) :=
  l ← mapM (num_decode 4) (take n m); Some (enc (f (Z.to_N <$> l)) ++ drop n m, a).

Definition example_assert_context : ScriptContext := {|
  tx_version := 3; txin_sequence := 10; check_schnorr key sig := bool_decide (sig = key);
  sha256_bytes l := [foldr N.add 0%N l];
  run_fragment f m a :=
    match f with
    | [1; n] =>
        match m with
        | x :: m => v ← num_decode 5 x; Some (num_encode (v * Z.of_N n) :: m, a)
        | [] => None
        end
    | [3; 8; 4] => apply_top 32 (@nibbles_of_bytes example_functions) m a
    | [3; 4; 29] => apply_top 64 (@limbs29_of_nibbles example_functions) m a
    | [3; 4; 8] => apply_top 64 (@bytes_of_nibbles example_functions) m a
    | [4; _] => apply_top 18 (@blake3_of_limbs example_functions) m a
    | _ => Some (m, a)
    end%N;
|}.

Lemma apply_top_spec n bound f l m a :
  (bound ≤ 2 ^ 29)%N → limbs n bound l → apply_top n f (enc l ++ m) a = Some (enc (f l) ++ m, a).
Proof.
  intros Hb [<- Hl]. unfold apply_top. rewrite take_app_length' by by rewrite length_enc.
  rewrite drop_app_length' by by rewrite length_enc.
  assert (mapM (num_decode 4) (enc l) = Some (Z.of_N <$> l)) as ->.
  { induction Hl as [|x l Hx _ IH]; [done|]. change (enc (x :: l)) with (num_encode (Z.of_N x) :: enc l).
    cbn [mapM]. rewrite num_decode_encode_4 by (change (2 ^ 29)%N with 536870912%N in *; lia).
    cbn [mbind option_bind]. by rewrite IH. }
  cbn [mbind option_bind]. rewrite <- list_fmap_compose.
  rewrite (list_fmap_ext _ id); [by rewrite list_fmap_id|]. intros i x _. cbn. apply N2Z.id.
Qed.

Lemma example_message_limbs n sig : limbs n 16 (example_message n sig).
Proof.
  split; [unfold example_message; by rewrite length_fmap, length_seq|].
  apply Forall_fmap, Forall_true. intros i. cbn. apply N.mod_lt. done.
Qed.

Lemma nibbles_limbs n l : limbs n 256 l → limbs (2 * n) 16 (l ≫= λ b, [b / 16; b mod 16]%N).
Proof.
  intros [<- Hl]. induction Hl as [|b l Hb _ [IHl IHf]]; [by split|]. split.
  - cbn [mbind list_bind length app]. change (list_bind _ _ _ l) with (l ≫= λ b, [b / 16; b mod 16]%N). lia.
  - constructor; [apply N.Div0.div_lt_upper_bound; lia|]. constructor; [apply N.mod_lt; done|]. exact IHf.
Qed.

#[global] Instance example_assert_laws :
  @AssertLaws example_field_connectors example_assert example_assert_nmul example_assert_context example_functions.
Proof.
  split.
  - intros k v m a Hv Hk. pose proof (nmul_decodes k v Hv Hk) as E.
    change (run_fragment (NMUL (2 ^ k)) (num_encode v :: m) a) with
      (v' ← num_decode 5 (num_encode v); Some (num_encode (v' * Z.of_N (2 ^ k)) :: m, a)).
    destruct (num_decode 5 (num_encode v)); [|done]. cbn in E |- *. by injection E as ->.
  - intros key sig m a. cbn [wots256_compact_raw_witness example_assert]. by rewrite rev_involutive.
  - intros key sig nibbles [= <-]. apply example_message_limbs.
  - intros l m a Hl. split; [by apply (nibbles_limbs 32)|]. by apply (apply_top_spec 32 256).
  - intros l m a [Hlen Hl]. split; [|by apply (apply_top_spec 64 16)]. split.
    + cbn. rewrite length_take. lia.
    + apply Forall_take. eapply Forall_impl; [exact Hl|]. intros x Hx. cbn in Hx. etrans; [exact Hx|done].
  - intros l a [Hlen Hl]. split.
    2: { pose proof (apply_top_spec 18 (2 ^ 29) (@blake3_of_limbs example_functions) l [] a) as E. rewrite !app_nil_r in E. by apply E. }
    split.
    + cbn [blake3_of_limbs example_functions]. rewrite length_fmap, !length_app, length_take. lia.
    + apply Forall_fmap, Forall_true. intros x. cbn. apply N.mod_lt. done.
  - intros l m a Hl. split; [by apply (join_nibbles_limbs 32)|]. by apply (apply_top_spec 64 16).
  - intros key sig m a _. exists (enc (example_message 64 sig)).
    rewrite length_enc. split; [apply example_message_limbs|].
    cbn [wots256_raw_witness example_field_connectors]. by rewrite rev_involutive.
  - intros key sig m a _. exists (enc (example_message 32 sig)).
    rewrite length_enc. split; [apply example_message_limbs|].
    cbn [wots_hash_raw_witness example_assert]. by rewrite rev_involutive.
Qed.

(** An operator's commitments: the fulfillment txid has one nonzero nibble, which makes the first
    byte of the hash 32, and the hash is committed to with that byte reduced. *)
Definition example_fulfillment_nibbles : list N := <[48 := 2%N]> (replicate 64 0%N).
Definition example_hash_bytes : list N := @public_inputs_hash_bytes example_functions 0 example_fulfillment_nibbles.
Definition example_hash_nibbles : list N :=
  mask_first (λ b, b mod 32)%N example_hash_bytes ≫= λ b, [b / 16; b mod 16]%N.
Definition example_disprove_witness : DisprovePublicInputsCommitmentWitness :=
  mkDisproveWitness ((λ n, [n]) <$> example_fulfillment_nibbles) ((λ n, [n]) <$> example_hash_nibbles).

Lemma public_inputs_disproved_iff_different_witness :
  ∃ stack,
    @A3Leaf_generate_witness_script example_assert
      (A3DisprovePublicInputsCommitment 0 (Some example_disprove_witness)) = Val stack ∧
    @script_succeeds example_assert_context
      (@public_inputs_script example_assert example_assert_nmul [] [] 0) stack
    = bool_decide (join_nibbles example_hash_nibbles ≠ mask_first fq_top_byte example_hash_bytes).
Proof.
  destruct (@public_inputs_disproved_iff_different example_field_connectors example_assert example_assert_nmul
    example_assert_context example_functions example_assert_laws [] [] 0%N example_disprove_witness)
    as (stack & Hs & E).
  exists stack. split; [exact Hs|]. rewrite E. vm_compute. reflexivity.
Defined.

Lemma honest_commitment_disproved_witness :
  ∃ stack,
    @A3Leaf_generate_witness_script example_assert
      (A3DisprovePublicInputsCommitment 0 (Some example_disprove_witness)) = Val stack ∧
    @script_succeeds example_assert_context
      (@public_inputs_script example_assert example_assert_nmul [] [] 0) stack = true.
Proof.
  apply (@honest_commitment_disproved example_field_connectors example_assert example_assert_nmul
    example_assert_context example_functions example_assert_laws [] [] 0%N example_disprove_witness
    example_fulfillment_nibbles example_hash_nibbles 32%N (drop 1 example_hash_bytes)).
  - vm_compute. reflexivity.
  - vm_compute. reflexivity.
  - vm_compute. reflexivity.
  - discriminate.
  - reflexivity.
  - vm_compute. reflexivity.
Defined.
