(* ===== verification/TxGraph.v ===== *)
(** * The transactions of a peg-out graph ([tx-graph/src/transactions])

    Claim, challenge, optimistic payout, the assertion chain (pre-assert, assert-data,
    post-assert), payout, disprove and slash-stake: how each is built from the outpoints it
    spends and the connectors, and how it is finalized with the signatures.  [PegOutGraph]
    composes them. *)

From S2P Require Import Prelude Bitcoin Wots TxTypes Taproot Connectors Script StakeChain ConnectorsAssert.

(** ** Library *)

(** [Psbt::extract_tx]: the signed transaction, unless a check of the fee fails. *)
Inductive ExtractTxError := AbsurdFeeRate | MissingInputValue | SendingTooMuch.
Class ExtractLib := psbt_extract_tx : Psbt → result ExtractTxError Transaction.

(** What the inputs bring in, when all of them are known. *)
Definition psbt_input_values (p : Psbt) : option (list Amount) :=
  mapM (λ i, value <$> witness_utxo i) (psbt_inputs p).
Definition list_sum (l : list Amount) : N := foldr N.add 0%N l.

(** No fee is not absurd, and a transaction that spends more than it has is told apart. *)
Class ExtractLaws `{ExtractLib} : Prop := {
  extract_no_fee : ∀ p values, psbt_input_values p = Some values →
    (list_sum values ≤ U64_MAX)%N →
    list_sum values = list_sum (value <$> output (unsigned_tx p)) → psbt_extract_tx p = Ok (extract_tx p);
  extract_too_much : ∀ p values, psbt_input_values p = Some values →
    (list_sum values < list_sum (value <$> output (unsigned_tx p)))%N →
    (list_sum (value <$> output (unsigned_tx p)) ≤ U64_MAX)%N →
    psbt_extract_tx p = Err SendingTooMuch;
}.

(** [assert!]. *)
Definition assert_that (b : bool) : comp () := if b then Val () else Panic.

(** ** Changes to a psbt *)

(** [for (input, utxo) in psbt.inputs.iter_mut().zip(prevouts)]. *)
Fixpoint set_utxos (ty : TapSighashType) (prevouts : list TxOut) (inputs : list PsbtInput) : list PsbtInput :=
  match inputs, prevouts with
  | i :: inputs, o :: prevouts =>
      mkPsbtInput (Some o) (Some ty) (final_script_witness i) :: set_utxos ty prevouts inputs
  | _, _ => inputs
  end.
Definition with_utxos (ty : TapSighashType) (prevouts : list TxOut) (p : Psbt) : Psbt :=
  mkPsbt (unsigned_tx p) (set_utxos ty prevouts (psbt_inputs p)).

(** [psbt.inputs[i].sighash_type = Some(ty)]. *)
Definition with_sighash_type (i : nat) (ty : TapSighashType) (p : Psbt) : comp Psbt :=
  pin ← expect (psbt_inputs p !! i);
  Val (mkPsbt (unsigned_tx p)
    (<[i := mkPsbtInput (witness_utxo pin) (Some ty) (final_script_witness pin)]> (psbt_inputs p))).

(** [finalize(&mut psbt.inputs[i], ..)]. *)
Definition update_input (i : nat) (f : PsbtInput → comp PsbtInput) (p : Psbt) : comp Psbt :=
  pin ← expect (psbt_inputs p !! i);
  pin ← f pin;
  Val (mkPsbt (unsigned_tx p) (<[i := pin]> (psbt_inputs p))).

(** [psbt.extract_tx().expect(..)]. *)
Definition extract_or_panic `{ExtractLib} (p : Psbt) : comp Transaction := expect_ok (psbt_extract_tx p).

(** The outputs of the claim transaction. *)
Definition CLAIM_PAYOUT_VOUT : N := 2.
Definition SLASH_STAKE_VOUT : N := 2.

Section transactions.
Context `{TaprootLib, ConnectorLib, ScriptLib, BitcoinLib, AssertLib, NmulLib, ExtractLib, BuildProfile}.

(** ** Claim ([claim.rs]) *)

Record ClaimTx := mkClaimTx {
  claim_psbt : Psbt;
  claim_output_amount : Amount;
  claim_connector_k : ConnectorK;
}.

Definition ClaimTx_new (stake_outpoint : OutPoint) (connector_k : ConnectorK) (connector_c0 : ConnectorC0)
    (connector_c1 : ConnectorC1) (connector_n_of_n : ConnectorNOfN) (connector_cpfp : ConnectorCpfp)
    : comp ClaimTx :=
  let input_amount := FUNDING_AMOUNT in
  let tx_ins := create_tx_ins [stake_outpoint] in
  c1_out ← C1_generate_locking_script connector_c1;
  let c1_amt := minimal_non_dust c1_out in
  c2_out ← N_create_taproot_address connector_n_of_n;
  let c2_amt := minimal_non_dust c2_out in
  let cpfp_script := Cpfp_generate_locking_script connector_cpfp in
  let cpfp_amt := minimal_non_dust cpfp_script in
  c0_out ← C0_generate_locking_script connector_c0;
  c0_amt ← amount_sub input_amount c1_amt;
  c0_amt ← amount_sub c0_amt c2_amt;
  c0_amt ← amount_sub c0_amt cpfp_amt;
  let tx_outs := create_tx_outs
    [(c0_out, c0_amt); (c1_out, c1_amt); (c2_out, c2_amt); (cpfp_script, cpfp_amt)] in
  let tx := with_version VERSION_THREE (create_tx tx_ins tx_outs) in
  k_addr ← K_create_taproot_address connector_k;
  p ← with_witness_utxo 0 (mkTxOut input_amount k_addr) (from_unsigned_tx tx);
  p ← with_sighash_type 0 SighashDefault p;
  Val (mkClaimTx p c0_amt connector_k).

Definition claim_compute_txid (t : ClaimTx) : Txid := compute_txid (unsigned_tx (claim_psbt t)).

Definition ClaimTx_finalize (t : ClaimTx) (signature : Wots256Sig) : comp Transaction :=
  p ← update_input 0 (λ i, K_finalize_input (claim_connector_k t) i signature) (claim_psbt t);
  extract_or_panic p.

(** ** Challenge ([challenge.rs]) *)

Record ChallengeTx := mkChallengeTx {
  challenge_tx : CovenantTx 1;
  challenge_connector : ConnectorC1;
}.

Definition ChallengeTx_new (claim_outpoint : OutPoint) (challenge_amt : Amount)
    (operator_pubkey : XOnlyPublicKey) (network : Network) (challenge_connector : ConnectorC1)
    : comp ChallengeTx :=
  let tx_ins := create_tx_ins [claim_outpoint] in
  let tx_outs := create_tx_outs [(p2tr_tweaked operator_pubkey network, challenge_amt)] in
  let p := from_unsigned_tx (create_tx tx_ins tx_outs) in
  let tapleaf := C1Challenge () in
  let witnesses := [# Tweaked (C1_generate_merkle_root challenge_connector)] in
  script_pubkey ← C1_generate_locking_script challenge_connector;
  let prevout := mkTxOut (minimal_non_dust script_pubkey) script_pubkey in
  let input_index := N.to_nat (C1Path_input_index tapleaf) in
  p ← with_witness_utxo input_index prevout p;
  p ← with_sighash_type input_index (C1Path_sighash_type tapleaf) p;
  Val (mkChallengeTx (mkCovenantTx p [prevout] witnesses) challenge_connector).

(** A transaction that sends too much is returned as it is, to be funded by the caller. *)
Definition ChallengeTx_finalize_presigned (t : ChallengeTx)
    (challenge_leaf : ConnectorC1Path TaprootSignature) : comp Transaction :=
  p ← update_input (N.to_nat (C1Path_input_index challenge_leaf))
    (λ i, C1_finalize_input (challenge_connector t) i challenge_leaf) (psbt (challenge_tx t));
  match psbt_extract_tx p with
  | Ok tx => Val tx
  | Err SendingTooMuch => Val (extract_tx p)
  | Err _ => Panic
  end.

(** ** Optimistic payout ([payout_optimistic.rs]) *)

Record PayoutOptimisticTx := mkPayoutOptimisticTx {
  payout_optimistic_tx : CovenantTx 5;
  po_connector_c0 : ConnectorC0;
  po_connector_c1 : ConnectorC1;
  po_connector_n_of_n : ConnectorNOfN;
  po_connector_p : ConnectorP;
}.

Record PayoutOptimisticData := mkPayoutOptimisticData {
  pod_claim_txid : Txid;
  pod_deposit_txid : Txid;
  pod_stake_outpoint : OutPoint;
  pod_deposit_amount : Amount;
  pod_operator_key : XOnlyPublicKey;
  pod_network : Network;
}.

Definition PayoutOptimisticTx_new (data : PayoutOptimisticData) (connector_c0 : ConnectorC0)
    (connector_c1 : ConnectorC1) (connector_n_of_n : ConnectorNOfN) (connector_p : ConnectorP)
    (connector_cpfp : ConnectorCpfp) : comp PayoutOptimisticTx :=
  dust ← amount_mul SEGWIT_MIN_AMOUNT 3;
  input_amount ← amount_sub FUNDING_AMOUNT dust;
  _ ← assert_that (0 <? input_amount)%N;
  let utxos := [mkOutPoint (pod_deposit_txid data) 0; mkOutPoint (pod_claim_txid data) 0;
    mkOutPoint (pod_claim_txid data) 1; mkOutPoint (pod_claim_txid data) 2; pod_stake_outpoint data] in
  let c1_input := N.to_nat (C1Path_input_index (C1PayoutOptimistic ())) in
  operator_address ← fst <$> expect_ok (create_taproot_addr (pod_network data) (KeySpend (pod_operator_key data)));
  let cpfp_script := Cpfp_generate_locking_script connector_cpfp in
  let cpfp_amount := minimal_non_dust cpfp_script in
  n_of_n_addr ← N_create_taproot_address connector_n_of_n;
  c0_script ← C0_generate_locking_script connector_c0;
  c1_script ← C1_generate_locking_script connector_c1;
  p_addr ← P_generate_address connector_p;
  let prevouts := [mkTxOut (pod_deposit_amount data) n_of_n_addr; mkTxOut input_amount c0_script;
    mkTxOut (minimal_non_dust c1_script) c1_script; mkTxOut (minimal_non_dust n_of_n_addr) n_of_n_addr;
    mkTxOut (minimal_non_dust p_addr) p_addr] in
  total ← amount_sum (value <$> prevouts);
  payout_amount ← amount_sub total cpfp_amount;
  let tx_outs := create_tx_outs [(operator_address, payout_amount); (cpfp_script, cpfp_amount)] in
  tx ← with_sequence c1_input (from_height (c1_payout_optimistic_timelock connector_c1))
    (with_version VERSION_THREE (create_tx (create_tx_ins utxos) tx_outs));
  let p := with_utxos SighashDefault prevouts (from_unsigned_tx tx) in
  '(payout_script, block) ← C1_generate_spend_info connector_c1;
  let witnesses := [# Key; Tweaked (C0_generate_merkle_root connector_c0); Script payout_script block;
    Key; Tweaked (P_generate_merkle_root connector_p)] in
  Val (mkPayoutOptimisticTx (mkCovenantTx p prevouts witnesses)
    connector_c0 connector_c1 connector_n_of_n connector_p).

Definition PayoutOptimisticTx_finalize (t : PayoutOptimisticTx) (signatures : vec SchnorrSignature 5)
    : comp Transaction :=
  let s i := nth i (vec_to_list signatures) 0%N in
  p ← update_input 0 (λ i, Val (finalize_input i [serialize_schnorr (s 0)])) (psbt (payout_optimistic_tx t));
  let c0_path := C0PayoutOptimistic (s 1) in
  p ← update_input (N.to_nat (C0Path_input_index c0_path))
    (λ i, C0_finalize_input (po_connector_c0 t) i c0_path) p;
  let c1_path := C1PayoutOptimistic
    (mkTaprootSignature (s 2) (C1Path_sighash_type (C1PayoutOptimistic ()))) in
  p ← update_input (N.to_nat (C1Path_input_index c1_path))
    (λ i, C1_finalize_input (po_connector_c1 t) i c1_path) p;
  p ← update_input 3 (λ i, Val (N_finalize_input i (mkTaprootSignature (s 3) SighashDefault))) p;
  let p_witness := SpPayoutOptimistic (s 4) in
  p ← update_input (N.to_nat (StakeSpendPath_input_index p_witness))
    (λ i, P_finalize (po_connector_p t) i p_witness) p;
  extract_or_panic p.

(** ** Pre-assert ([pre_assert.rs]) *)

Definition PRE_ASSERT_OUTS : nat := TOTAL_CONNECTORS + 1.

Record PreAssertTx := mkPreAssertTx {
  pre_assert_tx : CovenantTx 1;
  pre_assert_tx_outs : list TxOut;
  pre_assert_connector_c0 : ConnectorC0;
}.

(** The script of a connector with twice the dust, for the two outputs of an assert-data
    transaction. *)
Definition commitment_output (address : comp ScriptBuf) : comp (ScriptBuf * Amount) :=
  script ← address;
  amount ← amount_mul (minimal_non_dust script) 2;
  Val (script, amount).

Definition PreAssertTx_new (claim_txid : Txid) (connector_c0 : ConnectorC0) (connector_cpfp : ConnectorCpfp)
    (connector_a256 : ConnectorA256Factory) (connector_a_hash : ConnectorAHashFactory) : comp PreAssertTx :=
  dust ← amount_mul SEGWIT_MIN_AMOUNT 3;
  input_amount ← amount_sub FUNDING_AMOUNT dust;
  _ ← assert_that (0 <? input_amount)%N;
  let tx_ins := create_tx_ins [mkOutPoint claim_txid 0] in
  '(connector256_batch1, connector256_batch2) ← A256_create_connectors NUM_FIELD_CONNECTORS_BATCH_1
    NUM_FIELD_ELEMS_PER_CONNECTOR_BATCH_1 NUM_FIELD_CONNECTORS_BATCH_2
    NUM_FIELD_ELEMS_PER_CONNECTOR_BATCH_2 connector_a256;
  '(connector_hash_batch1, connector_hash_batch2) ← AHash_create_connectors NUM_HASH_CONNECTORS_BATCH_1
    NUM_HASH_ELEMS_PER_CONNECTOR_BATCH_1 NUM_HASH_CONNECTORS_BATCH_2
    NUM_HASH_ELEMS_PER_CONNECTOR_BATCH_2 connector_a_hash;
  outs1 ← mapM (λ conn, commitment_output (A256_create_taproot_address conn)) connector256_batch1;
  outs2 ← mapM (λ conn, commitment_output (A256_create_taproot_address conn)) connector256_batch2;
  outs3 ← mapM (λ conn, commitment_output (AHash_create_taproot_address conn)) connector_hash_batch1;
  outs4 ← mapM (λ conn, commitment_output (AHash_create_taproot_address conn)) connector_hash_batch2;
  let cpfp_script := Cpfp_generate_taproot_address connector_cpfp in
  let scripts_and_amounts := outs1 ++ outs2 ++ outs3 ++ outs4 ++ [(cpfp_script, minimal_non_dust cpfp_script)] in
  total_assertion_amount ← amount_sum (snd <$> scripts_and_amounts);
  _ ← amount_sub input_amount total_assertion_amount;
  let tx_outs := create_tx_outs scripts_and_amounts in
  tx ← with_sequence 0 (from_height (c0_pre_assert_timelock connector_c0))
    (with_version VERSION_THREE (create_tx tx_ins tx_outs));
  c0_script ← C0_generate_locking_script connector_c0;
  let prevouts := [mkTxOut input_amount c0_script] in
  let p := with_utxos SighashDefault prevouts (from_unsigned_tx tx) in
  '(script_buf, block) ← C0_generate_spend_info connector_c0;
  _ ← assert_that (bool_decide (length tx_outs = PRE_ASSERT_OUTS));
  Val (mkPreAssertTx (mkCovenantTx p prevouts [# Script script_buf block]) tx_outs connector_c0).

Definition PreAssertTx_finalize (t : PreAssertTx) (n_of_n_sig : SchnorrSignature) : comp Transaction :=
  p ← update_input 0 (λ i, C0_finalize_input (pre_assert_connector_c0 t) i (C0Assert n_of_n_sig))
    (psbt (pre_assert_tx t));
  extract_or_panic p.

(** ** Assert data ([assert_data.rs]) *)

Abbreviation AssertDataTxBatch := (vec Psbt NUM_ASSERT_DATA_TX) (only parsing).

(** One transaction of the batch, which spends an output of the pre-assert transaction. *)
Definition assert_data_psbt (pre_assert_txid : Txid) (pre_assert_locking_scripts : list ScriptBuf)
    (connector_a2 : ConnectorNOfN) (connector_cpfp : ConnectorCpfp) (i : nat) : comp Psbt :=
  input_amount ← amount_mul SEGWIT_MIN_AMOUNT 2;
  locking_script ← expect (pre_assert_locking_scripts !! i);
  let outpoint := mkOutPoint pre_assert_txid (N.of_nat i) in
  let prevout := mkTxOut input_amount locking_script in
  output_script ← N_create_taproot_address connector_a2;
  let cpfp_script := Cpfp_generate_taproot_address connector_cpfp in
  let tx_outs := create_tx_outs
    [(output_script, minimal_non_dust output_script); (cpfp_script, minimal_non_dust cpfp_script)] in
  let tx := with_version VERSION_THREE (create_tx (create_tx_ins [outpoint]) tx_outs) in
  p ← with_witness_utxo 0 prevout (from_unsigned_tx tx);
  with_sighash_type 0 SighashDefault p.

Definition AssertDataTxBatch_new (pre_assert_txid : Txid) (pre_assert_locking_scripts : list ScriptBuf)
    (connector_a2 : ConnectorNOfN) (connector_cpfp : ConnectorCpfp) : comp AssertDataTxBatch :=
  vmapM_comp (λ _ i, assert_data_psbt pre_assert_txid pre_assert_locking_scripts connector_a2 connector_cpfp i)
    0 (array_from_fn NUM_ASSERT_DATA_TX 0 id).

Definition assert_data_compute_txids (batch : AssertDataTxBatch) : vec Txid NUM_ASSERT_DATA_TX :=
  vmap (λ p, compute_txid (unsigned_tx p)) batch.

(** Finalizes the psbts from [psbt_offset] on with the connectors, each with its share of the
    signatures. *)
Definition finalize_batch {C} (finalize : C → PsbtInput → list (list (list N)) → comp PsbtInput)
    (connectors : list C) (psbt_offset sigs_offset elems : nat) (sigs : list (list (list N)))
    (psbts : list Psbt) : comp (list Psbt) :=
  foldlM (λ psbts '(psbt_index, conn),
    p ← expect (psbts !! (psbt_offset + psbt_index));
    let start_index := sigs_offset + psbt_index * elems in
    p ← update_input 0 (λ i, sigs ← slice start_index (start_index + elems) sigs; finalize conn i sigs) p;
    Val (<[psbt_offset + psbt_index := p]> psbts)) psbts (imap pair connectors).

Definition AssertDataTxBatch_finalize (batch : AssertDataTxBatch) (connector_a_hash_factory : ConnectorAHashFactory)
    (connector_a256_factory : ConnectorA256Factory) (wots_signatures : Signatures) : comp (list Transaction) :=
  '(connector_hash_batch1, connector_hash_batch2) ← AHash_create_connectors NUM_HASH_CONNECTORS_BATCH_1
    NUM_HASH_ELEMS_PER_CONNECTOR_BATCH_1 NUM_HASH_CONNECTORS_BATCH_2
    NUM_HASH_ELEMS_PER_CONNECTOR_BATCH_2 connector_a_hash_factory;
  '(connector256_batch1, connector256_batch2) ← A256_create_connectors NUM_FIELD_CONNECTORS_BATCH_1
    NUM_FIELD_ELEMS_PER_CONNECTOR_BATCH_1 NUM_FIELD_CONNECTORS_BATCH_2
    NUM_FIELD_ELEMS_PER_CONNECTOR_BATCH_2 connector_a256_factory;
  let groth16 := sig_groth16 wots_signatures in
  let signatures_256 := Vector.hd (sig_public_inputs groth16) :: vec_to_list (sig_field_elems groth16) in
  let signatures_hash := vec_to_list (sig_hashes groth16) in
  psbts ← finalize_batch A256_finalize_input connector256_batch1 0 0
    NUM_FIELD_ELEMS_PER_CONNECTOR_BATCH_1 signatures_256 (vec_to_list batch);
  let psbt_offset := NUM_FIELD_CONNECTORS_BATCH_1 in
  let sigs_offset := NUM_FIELD_CONNECTORS_BATCH_1 * NUM_FIELD_ELEMS_PER_CONNECTOR_BATCH_1 in
  psbts ← finalize_batch A256_finalize_input connector256_batch2 psbt_offset sigs_offset
    NUM_FIELD_ELEMS_PER_CONNECTOR_BATCH_2 signatures_256 psbts;
  let psbt_offset := psbt_offset + NUM_FIELD_CONNECTORS_BATCH_2 in
  psbts ← finalize_batch AHash_finalize_input connector_hash_batch1 psbt_offset 0
    NUM_HASH_ELEMS_PER_CONNECTOR_BATCH_1 signatures_hash psbts;
  let psbt_offset := psbt_offset + NUM_HASH_CONNECTORS_BATCH_1 in
  let sigs_offset := NUM_HASH_CONNECTORS_BATCH_1 * NUM_HASH_ELEMS_PER_CONNECTOR_BATCH_1 in
  psbts ← finalize_batch AHash_finalize_input connector_hash_batch2 psbt_offset sigs_offset
    NUM_HASH_ELEMS_PER_CONNECTOR_BATCH_2 signatures_hash psbts;
  mapM extract_or_panic psbts.

(** ** Post-assert ([post_assert.rs]) *)

Record PostAssertTx := mkPostAssertTx {
  post_assert_tx : CovenantTx NUM_ASSERT_DATA_TX;
  post_assert_output_amount : Amount;
}.

Definition PostAssertTx_new (assert_data_txids : list Txid) (connector_a2 : ConnectorNOfN)
    (connector_a3 : ConnectorA3) (connector_cpfp : ConnectorCpfp) : comp PostAssertTx :=
  input_amount ← amount_mul SEGWIT_MIN_AMOUNT (N.of_nat NUM_ASSERT_DATA_TX);
  let utxos := (λ txid, mkOutPoint txid 0) <$> assert_data_txids in
  let connector_a31_script := A3_generate_locking_script connector_a3 in
  let cpfp_script := Cpfp_generate_locking_script connector_cpfp in
  let cpfp_amount := minimal_non_dust cpfp_script in
  net_amount ← amount_sub input_amount cpfp_amount;
  let tx_outs := create_tx_outs [(connector_a31_script, net_amount); (cpfp_script, cpfp_amount)] in
  let tx := with_version VERSION_THREE (create_tx (create_tx_ins utxos) tx_outs) in
  assert_data_output_script ← N_create_taproot_address connector_a2;
  let prevouts := replicate NUM_ASSERT_DATA_TX
    (mkTxOut (minimal_non_dust assert_data_output_script) assert_data_output_script) in
  let p := with_utxos SighashDefault prevouts (from_unsigned_tx tx) in
  Val (mkPostAssertTx (mkCovenantTx p prevouts (vreplicate NUM_ASSERT_DATA_TX Key)) net_amount).

Definition PostAssertTx_finalize (t : PostAssertTx) (signatures : list SchnorrSignature) : comp Transaction :=
  let p := psbt (post_assert_tx t) in
  inputs ← mapM (λ '(index, i), sig ← expect (signatures !! index); Val (finalize_input i [serialize_schnorr sig]))
    (imap pair (psbt_inputs p));
  extract_or_panic (mkPsbt (unsigned_tx p) inputs).

(** ** Assertion chain ([assert_chain.rs]) *)

Record AssertChain := mkAssertChain {
  chain_pre_assert : PreAssertTx;
  chain_assert_data : AssertDataTxBatch;
  chain_post_assert : PostAssertTx;
}.

Definition AssertChain_new (claim_txid : Txid) (connector_c0 : ConnectorC0) (connector_a2 : ConnectorNOfN)
    (connector_a3 : ConnectorA3) (connector_cpfp : ConnectorCpfp)
    (connector_a_hash_factory : ConnectorAHashFactory) (connector_a256_factory : ConnectorA256Factory)
    : comp AssertChain :=
  pre_assert ← PreAssertTx_new claim_txid connector_c0 connector_cpfp connector_a256_factory
    connector_a_hash_factory;
  let pre_assert_txid := covenant_txid (pre_assert_tx pre_assert) in
  pre_assert_locking_scripts ← expect (first_n NUM_ASSERT_DATA_TX
    (take NUM_ASSERT_DATA_TX (script_pubkey <$> pre_assert_tx_outs pre_assert)));
  assert_data ← AssertDataTxBatch_new pre_assert_txid (vec_to_list pre_assert_locking_scripts)
    connector_a2 connector_cpfp;
  let assert_data_txids := vec_to_list (assert_data_compute_txids assert_data) in
  post_assert ← PostAssertTx_new assert_data_txids connector_a2 connector_a3 connector_cpfp;
  Val (mkAssertChain pre_assert assert_data post_assert).

(** ** Payout ([payout.rs]) *)

Record PayoutTx := mkPayoutTx {
  payout_tx : CovenantTx 4;
  payout_connector_n_of_n : ConnectorNOfN;
  payout_connector_p : ConnectorP;
}.

Record PayoutData := mkPayoutData {
  pd_post_assert_txid : Txid;
  pd_deposit_txid : Txid;
  pd_claim_outpoint : OutPoint;
  pd_stake_outpoint : OutPoint;
  pd_deposit_amount : Amount;
  pd_operator_key : XOnlyPublicKey;
  pd_network : Network;
}.

(** [Sequence::is_relative_lock_time]. *)
Definition is_relative_lock_time (sequence : N) : bool := negb (N.testbit sequence 31).

Definition PayoutTx_new (data : PayoutData) (connector_a3 : ConnectorA3) (connector_n_of_n : ConnectorNOfN)
    (connector_p : ConnectorP) (connector_cpfp : ConnectorCpfp) : comp PayoutTx :=
  input_from_post_assert ← amount_mul SEGWIT_MIN_AMOUNT (N.of_nat (NUM_ASSERT_DATA_TX - 1));
  let utxos := [mkOutPoint (pd_deposit_txid data) 0; mkOutPoint (pd_post_assert_txid data) 0;
    pd_claim_outpoint data; pd_stake_outpoint data] in
  let sequence := from_height (a3_payout_timelock connector_a3) in
  _ ← assert_that (is_relative_lock_time sequence);
  operator_address ← fst <$> expect_ok (create_taproot_addr (pd_network data) (KeySpend (pd_operator_key data)));
  let cpfp_script := Cpfp_generate_locking_script connector_cpfp in
  let cpfp_amount := minimal_non_dust cpfp_script in
  n_of_n_addr ← N_create_taproot_address connector_n_of_n;
  p_addr ← P_generate_address connector_p;
  let prevouts := [mkTxOut (pd_deposit_amount data) n_of_n_addr;
    mkTxOut input_from_post_assert (A3_generate_locking_script connector_a3);
    mkTxOut (minimal_non_dust n_of_n_addr) n_of_n_addr; mkTxOut (minimal_non_dust p_addr) p_addr] in
  total ← amount_sum (value <$> prevouts);
  payout_amount ← amount_sub total cpfp_amount;
  let tx_outs := create_tx_outs [(operator_address, payout_amount); (cpfp_script, cpfp_amount)] in
  tx ← with_sequence 1 sequence (with_version VERSION_THREE (create_tx (create_tx_ins utxos) tx_outs));
  let p := with_utxos SighashDefault prevouts (from_unsigned_tx tx) in
  '(connector_a3_script, block) ← A3_generate_spend_info connector_a3 (A3Payout None);
  let witnesses := [# Key; Script connector_a3_script block; Key; Tweaked (P_generate_merkle_root connector_p)] in
  Val (mkPayoutTx (mkCovenantTx p prevouts witnesses) connector_n_of_n connector_p).

Definition PayoutTx_finalize (t : PayoutTx) (connector_a3 : ConnectorA3) (aggregate_sigs : vec SchnorrSignature 4)
    : comp Transaction :=
  let s i := nth i (vec_to_list aggregate_sigs) 0%N in
  p ← update_input 0 (λ i, Val (finalize_input i [serialize_schnorr (s 0)])) (psbt (payout_tx t));
  p ← update_input 1 (λ i, A3_finalize_input connector_a3 i (A3Payout (Some (s 1)))) p;
  p ← update_input 2 (λ i, Val (N_finalize_input i (mkTaprootSignature (s 2) SighashDefault))) p;
  p ← update_input 3 (λ i, P_finalize (payout_connector_p t) i (SpPayout (s 3))) p;
  extract_or_panic p.

(** ** Disprove ([disprove.rs]) *)

Record DisproveTx := mkDisproveTx {
  disprove_tx : CovenantTx 1;
  disprove_connector_stake : ConnectorStake;
}.

Definition DisproveTx_new (post_assert_txid : Txid) (stake_outpoint : OutPoint) (network : Network)
    (stake_amount burn_amount : Amount) (connector_a3 : ConnectorA3) (connector_stake : ConnectorStake)
    : comp DisproveTx :=
  input_amount ← amount_mul SEGWIT_MIN_AMOUNT (N.of_nat (NUM_ASSERT_DATA_TX - 1));
  let tx_ins := create_tx_ins [stake_outpoint; mkOutPoint post_assert_txid 0] in
  burn_script ← fst <$> expect_ok (create_taproot_addr network (KeySpend UNSPENDABLE_PUBLIC_KEY));
  let tx := create_tx tx_ins (create_tx_outs [(burn_script, burn_amount)]) in
  let connector_a3_script := A3_generate_locking_script connector_a3 in
  stake_addr ← S_generate_address connector_stake;
  let prevouts := [mkTxOut stake_amount stake_addr; mkTxOut input_amount connector_a3_script] in
  let witnesses := [# Tweaked (S_generate_merkle_root connector_stake)] in
  p ← with_sighash_type 0 SighashSingle (with_utxos SighashDefault prevouts (from_unsigned_tx tx));
  Val (mkDisproveTx (mkCovenantTx p prevouts witnesses) connector_stake).

Definition DisproveTx_finalize (t : DisproveTx) (reward : TxOut) (stake_path : StakeSpendPath)
    (disprove_leaf : ConnectorA3Leaf) (connector_a3 : ConnectorA3) : comp Transaction :=
  p ← update_input 0 (λ i, S_finalize_input (disprove_connector_stake t) i stake_path) (psbt (disprove_tx t));
  p ← update_input 1 (λ i, A3_finalize_input connector_a3 i disprove_leaf) p;
  tx ← extract_or_panic p;
  Val (mkTransaction (version tx) (lock_time tx) (input tx) (output tx ++ [reward])).

(** ** Slash stake ([slash_stake.rs]) *)

Definition SlashStakeTx_new (stake_outpoint claim_outpoint : OutPoint) (network : Network)
    (params : StakeChainParams) (claim_out_conn : ConnectorNOfN) (stake_conn : ConnectorStake)
    : comp (CovenantTx 2) :=
  let tx_ins := create_tx_ins [claim_outpoint; stake_outpoint] in
  burn_script ← fst <$> expect_ok (create_taproot_addr network (KeySpend UNSPENDABLE_PUBLIC_KEY));
  burnt ← amount_sub (burn_amount params) SEGWIT_MIN_AMOUNT;
  let tx := create_tx tx_ins [mkTxOut SEGWIT_MIN_AMOUNT burn_script; mkTxOut burnt burn_script] in
  claim_out_script ← N_create_taproot_address claim_out_conn;
  stake_addr ← S_generate_address stake_conn;
  let prevouts := [mkTxOut (minimal_non_dust claim_out_script) claim_out_script;
    mkTxOut (stake_amount params) stake_addr] in
  let witnesses := [# Key; Tweaked (S_generate_merkle_root stake_conn)] in
  Val (mkCovenantTx (with_utxos SighashSingle prevouts (from_unsigned_tx tx)) prevouts witnesses).

Definition SlashStakeTx_finalize (t : CovenantTx 2) (claim_sig stake_sig : SchnorrSignature)
    (stake_conn : ConnectorStake) : comp Transaction :=
  p ← update_input 0 (λ i, Val (N_finalize_input i (mkTaprootSignature claim_sig SighashSingle))) (psbt t);
  p ← update_input 1 (λ i, S_finalize_input stake_conn i (SpSlashStake (mkTaprootSignature stake_sig SighashSingle))) p;
  Val (extract_tx p).

End transactions.
