(* ===== verification/GraphSpec.v ===== *)
(** * What the builders of a peg-out graph return

    Every transaction and connector of a graph, written out: what the builders of [TxGraph] and
    [PegOutGraph_generate] return, panics included. *)

From S2P Require Import Prelude Bitcoin PogMusig Wots TxTypes Taproot Deposit Connectors Script StakeChain.
From S2P Require Import SpendConditions ConnectorsAssert DisproveScript TxGraph PegOutGraph.

(** The amounts that do not depend on the arguments. *)
Ltac constant_amounts :=
  change (amount_mul SEGWIT_MIN_AMOUNT 3) with (Val 990%N);
  change (amount_mul SEGWIT_MIN_AMOUNT 2) with (Val 660%N);
  change (amount_mul SEGWIT_MIN_AMOUNT (N.of_nat NUM_ASSERT_DATA_TX)) with (Val 12870%N);
  change (amount_mul SEGWIT_MIN_AMOUNT (N.of_nat (NUM_ASSERT_DATA_TX - 1))) with (Val 12540%N);
  cbn [mbind comp_bind];
  change (amount_sub FUNDING_AMOUNT 990) with (Val 26070%N);
  cbn [mbind comp_bind];
  change (assert_that (0 <? 26070)%N) with (Val tt);
  cbn [mbind comp_bind].

(** ** What the builders return *)

Lemma amount_sum_small `{BuildProfile} l : (list_sum l ≤ U64_MAX)%N → amount_sum l = Val (list_sum l).
Proof.
  intros Hl. unfold amount_sum.
  enough (∀ a, (a + list_sum l ≤ U64_MAX)%N → foldlM u64_add a l = Val (a + list_sum l)%N) as Hs by by apply Hs.
  clear Hl. induction l as [|x l IH]; intros a Hl; cbn [foldlM]; [by rewrite N.add_0_r|].
  change (list_sum (x :: l)) with (x + list_sum l)%N in *. rewrite u64_add_small by lia. cbn [mbind comp_bind]. rewrite IH by lia.
  by rewrite N.add_assoc.
Qed.

Lemma amount_sub_le a b : (b ≤ a)%N → amount_sub a b = Val (a - b)%N.
Proof. intros Hle. unfold amount_sub. by apply N.leb_le in Hle as ->. Qed.

Lemma vmapM_comp_array {B} (f : nat → nat → comp B) (g : nat → B) n i :
  (∀ j, i ≤ j < i + n → f j j = Val (g j)) →
  vmapM_comp f i (array_from_fn n i id) = Val (array_from_fn n i g).
Proof.
  revert i. induction n as [|n IH]; intros i Hf; cbn [array_from_fn vmapM_comp]; [done|].
  change (id i) with i. rewrite (Hf i) by lia. cbn [mbind comp_bind]. by rewrite IH by (intros; apply Hf; lia).
Qed.

Lemma first_n_take {A} n (l : list A) : n ≤ length l → ∃ v, first_n n l = Some v ∧ vec_to_list v = take n l.
Proof.
  revert l. induction n as [|n IH]; intros l Hl; [by exists [#]|].
  destruct l as [|x l]; cbn in *; [lia|]. destruct (IH l) as (v & -> & Hv); [lia|].
  exists (x ::: v). cbn. by rewrite Hv.
Qed.

Lemma slice_in {A} start n (l : list A) :
  start + n ≤ length l → slice start (start + n) l = Val (take n (drop start l)).
Proof. intros Hl. unfold slice. rewrite decide_True by lia. do 2 f_equal. lia. Qed.

Lemma mapM_pure {A B} (f : A → comp B) (g : A → B) l : (∀ x, x ∈ l → f x = Val (g x)) → mapM f l = Val (g <$> l).
Proof. intros Hf. apply mapM_comp_Val, Forall2_fmap_r, Forall_Forall2_diag, Forall_forall. auto. Qed.

(** Consecutive slices. *)
Lemma mapM_slices {A B} (mk : list A → B) (off e n : nat) (l : list A) :
  off + n * e ≤ length l →
  mapM (λ i, mk <$> slice (off + i * e) (off + (i + 1) * e) l) (seq 0 n)
  = Val ((λ i, mk (take e (drop (off + i * e) l))) <$> seq 0 n).
Proof.
  intros Hl. apply mapM_pure. intros i [_ Hi]%elem_of_seq.
  replace (off + (i + 1) * e) with (off + i * e + e) by lia. rewrite slice_in by nia. done.
Qed.

Lemma mapM_slices_0 {A B} (mk : list A → B) (e n : nat) (l : list A) :
  n * e ≤ length l →
  mapM (λ i, mk <$> slice (i * e) ((i + 1) * e) l) (seq 0 n) = Val ((λ i, mk (take e (drop (i * e) l))) <$> seq 0 n).
Proof. apply (mapM_slices mk 0). Qed.

Section builders.
Context `{TaprootLaws, ConnectorLib, ScriptLib, !DustLaws, BitcoinLib, AssertLib, NmulLib, BuildProfile}.

(** The outputs. *)
Definition K_output_script (c : ConnectorK) : ScriptBuf :=
  p2tr UNSPENDABLE_PUBLIC_KEY (Some (tapnode_from_script (K_create_locking_script c))) (k_network c).
Definition P_output_script (c : ConnectorP) : ScriptBuf :=
  p2tr (p_n_of_n c) (Some (P_generate_merkle_root c)) (p_network c).
Definition S_output_script (c : ConnectorStake) : ScriptBuf :=
  p2tr (s_n_of_n c) (Some (S_generate_merkle_root c)) (s_network c).
Definition N_output_script (c : ConnectorNOfN) : ScriptBuf := p2tr (n_n_of_n c) None (n_network c).
Definition C0_output_script (c : ConnectorC0) : ScriptBuf :=
  p2tr (c0_n_of_n c) (Some (C0_generate_merkle_root c)) (c0_network c).
Definition C1_output_script (c : ConnectorC1) : ScriptBuf :=
  p2tr (c1_n_of_n c) (Some (C1_generate_merkle_root c)) (c1_network c).

Definition rbf (op : OutPoint) : TxIn := mkTxIn op [] ENABLE_RBF_NO_LOCKTIME [].
Definition utxo_input (ty : TapSighashType) (o : TxOut) : PsbtInput := mkPsbtInput (Some o) (Some ty) None.
Definition cpfp_output (c : ConnectorCpfp) : TxOut := mkTxOut 330 (Cpfp_generate_taproot_address c).

Lemma set_utxos_all ty prevouts :
  set_utxos ty prevouts (replicate (length prevouts) (mkPsbtInput None None None))
  = utxo_input ty <$> prevouts.
Proof. induction prevouts as [|o prevouts IH]; [done|]. cbn. by rewrite IH. Qed.

Lemma Cpfp_dust c : minimal_non_dust (Cpfp_generate_locking_script c) = 330%N.
Proof. apply p2tr_tweaked_dust. Qed.

Definition claim_spec op k c0 c1 n cpfp : ClaimTx :=
  mkClaimTx
    (mkPsbt (mkTransaction VERSION_THREE LOCKTIME_ZERO [rbf op]
       [mkTxOut 26070 (C0_output_script c0); mkTxOut 330 (C1_output_script c1);
        mkTxOut 330 (N_output_script n); cpfp_output cpfp])
       [utxo_input SighashDefault (mkTxOut FUNDING_AMOUNT (K_output_script k))]) 26070 k.

Lemma ClaimTx_new_spec op k c0 c1 n cpfp :
  ClaimTx_new op k c0 c1 n cpfp = Val (claim_spec op k c0 c1 n cpfp).
Proof.
  unfold ClaimTx_new. rewrite Cpfp_dust.
  rewrite C1_locking_script, N_address, C0_locking_script, K_address.
  cbn [mbind comp_bind]. by rewrite !p2tr_dust.
Qed.

Definition challenge_spec op amt opk network c1 : ChallengeTx :=
  mkChallengeTx
    (mkCovenantTx
      (mkPsbt (mkTransaction VERSION_TWO LOCKTIME_ZERO [rbf op] [mkTxOut amt (p2tr_tweaked opk network)])
        [utxo_input SighashSinglePlusAnyoneCanPay (mkTxOut 330 (C1_output_script c1))])
      [mkTxOut 330 (C1_output_script c1)] [# Tweaked (C1_generate_merkle_root c1)]) c1.

Lemma ChallengeTx_new_spec op amt opk network c1 :
  ChallengeTx_new op amt opk network c1 = Val (challenge_spec op amt opk network c1).
Proof. unfold ChallengeTx_new. rewrite C1_locking_script. cbn [mbind comp_bind]. by rewrite p2tr_dust. Qed.

(** The control block does not depend on the key that a witness is compared with. *)
Lemma C1_spend_block c :
  ∃ block, C1_generate_spend_info c = Val (C1_generate_payout_script c, block) ∧
    ∀ key, spends key (c1_network c) (Script (C1_generate_payout_script c) block) (C1_output_script c).
Proof. destruct (C1_spend_info c 0) as (block & E & Hs). exists block. split; [done|]. intros key. exact Hs. Qed.
Lemma C0_spend_block c :
  ∃ block, C0_generate_spend_info c = Val (C0_generate_payout_script c, block) ∧
    ∀ key, spends key (c0_network c) (Script (C0_generate_payout_script c) block) (C0_output_script c).
Proof. destruct (C0_spend_info c 0) as (block & E & Hs). exists block. split; [done|]. intros key. exact Hs. Qed.

Lemma key_address network key :
  fst <$> expect_ok (create_taproot_addr network (KeySpend key)) = Val (p2tr key None network).
Proof. cbn [create_taproot_addr]. by destruct (key_only_address network key) as (info & ->). Qed.

Definition payout_optimistic_spec data c0 c1 n cp cpfp block : PayoutOptimisticTx :=
  let prevouts := [mkTxOut (pod_deposit_amount data) (N_output_script n); mkTxOut 26070 (C0_output_script c0);
    mkTxOut 330 (C1_output_script c1); mkTxOut 330 (N_output_script n); mkTxOut 330 (P_output_script cp)] in
  mkPayoutOptimisticTx
    (mkCovenantTx
      (mkPsbt (mkTransaction VERSION_THREE LOCKTIME_ZERO
        [rbf (mkOutPoint (pod_deposit_txid data) 0); rbf (mkOutPoint (pod_claim_txid data) 0);
         mkTxIn (mkOutPoint (pod_claim_txid data) 1) [] (from_height (c1_payout_optimistic_timelock c1)) [];
         rbf (mkOutPoint (pod_claim_txid data) 2); rbf (pod_stake_outpoint data)]
        [mkTxOut (pod_deposit_amount data + 26730) (p2tr (pod_operator_key data) None (pod_network data));
         cpfp_output cpfp])
        (utxo_input SighashDefault <$> prevouts))
      prevouts
      [# Key; Tweaked (C0_generate_merkle_root c0); Script (C1_generate_payout_script c1) block; Key;
         Tweaked (P_generate_merkle_root cp)]) c0 c1 n cp.

Lemma PayoutOptimisticTx_new_spec data c0 c1 n cp cpfp :
  (pod_deposit_amount data + 27060 ≤ U64_MAX)%N →
  ∃ block, PayoutOptimisticTx_new data c0 c1 n cp cpfp
      = Val (payout_optimistic_spec data c0 c1 n cp cpfp block) ∧
    C1_generate_spend_info c1 = Val (C1_generate_payout_script c1, block) ∧
    ∀ key, spends key (c1_network c1) (Script (C1_generate_payout_script c1) block) (C1_output_script c1).
Proof.
  intros Hamt. destruct (C1_spend_block c1) as (block & Hinfo & Hs). exists block. split; [|done].
  unfold PayoutOptimisticTx_new. rewrite Cpfp_dust, key_address, N_address, C0_locking_script, C1_locking_script, P_address.
  constant_amounts. rewrite !p2tr_dust. rewrite amount_sum_small by (cbn; lia).
  change (list_sum _) with (pod_deposit_amount data + 27060)%N.
  cbn [mbind comp_bind]. rewrite amount_sub_le by lia.
  replace (pod_deposit_amount data + 27060 - 330)%N with (pod_deposit_amount data + 26730)%N by lia.
  cbn [mbind comp_bind]. by rewrite Hinfo.
Qed.

Definition A256_output_script (c : ConnectorA256) : ScriptBuf :=
  p2tr UNSPENDABLE_PUBLIC_KEY (Some (tapnode_from_script (A256_create_locking_script c))) (a256_network c).
Definition AHash_output_script (c : ConnectorAHash) : ScriptBuf :=
  p2tr UNSPENDABLE_PUBLIC_KEY (Some (tapnode_from_script (AHash_create_locking_script c))) (ahash_network c).

Lemma A256_address c : A256_create_taproot_address c = Val (A256_output_script c).
Proof.
  unfold A256_create_taproot_address. cbn [create_taproot_addr].
  by destruct (single_script_address (a256_network c) UNSPENDABLE_PUBLIC_KEY
    (A256_create_locking_script c)) as (info & block & -> & _).
Qed.

Lemma AHash_address c : AHash_create_taproot_address c = Val (AHash_output_script c).
Proof.
  unfold AHash_create_taproot_address. cbn [create_taproot_addr].
  by destruct (single_script_address (ahash_network c) UNSPENDABLE_PUBLIC_KEY
    (AHash_create_locking_script c)) as (info & block & -> & _).
Qed.

(** The connectors of the assertion, in their order. *)
Definition field_connectors (f : ConnectorA256Factory) : list ConnectorA256 :=
  (λ i, mkConnectorA256 (f256_network f) (take 5 (drop (i * 5) (f256_public_keys f)))) <$> seq 0 3.
Definition hash_connectors_1 (f : ConnectorAHashFactory) : list ConnectorAHash :=
  (λ i, mkConnectorAHash (fhash_network f) (take 10 (drop (i * 10) (fhash_public_keys f)))) <$> seq 0 33.
Definition hash_connectors_2 (f : ConnectorAHashFactory) : list ConnectorAHash :=
  (λ i, mkConnectorAHash (fhash_network f) (take 11 (drop (330 + i * 11) (fhash_public_keys f)))) <$> seq 0 3.
Definition hash_connectors (f : ConnectorAHashFactory) : list ConnectorAHash :=
  hash_connectors_1 f ++ hash_connectors_2 f.
Definition commitment_scripts (f : ConnectorA256Factory) (fh : ConnectorAHashFactory) : list ScriptBuf :=
  (A256_output_script <$> field_connectors f) ++ (AHash_output_script <$> hash_connectors fh).

Lemma A256_connectors f : length (f256_public_keys f) = NUM_PKS_A256 →
  A256_create_connectors NUM_FIELD_CONNECTORS_BATCH_1 NUM_FIELD_ELEMS_PER_CONNECTOR_BATCH_1
    NUM_FIELD_CONNECTORS_BATCH_2 NUM_FIELD_ELEMS_PER_CONNECTOR_BATCH_2 f = Val (field_connectors f, []).
Proof.
  intros Hl. unfold A256_create_connectors.
  rewrite mapM_slices_0 by (rewrite Hl; done). done.
Qed.

Lemma AHash_connectors f : length (fhash_public_keys f) = NUM_PKS_A_HASH →
  AHash_create_connectors NUM_HASH_CONNECTORS_BATCH_1 NUM_HASH_ELEMS_PER_CONNECTOR_BATCH_1
    NUM_HASH_CONNECTORS_BATCH_2 NUM_HASH_ELEMS_PER_CONNECTOR_BATCH_2 f
  = Val (hash_connectors_1 f, hash_connectors_2 f).
Proof.
  intros Hl. unfold AHash_create_connectors.
  rewrite mapM_slices_0
    by (rewrite Hl; unfold NUM_PKS_A_HASH; apply Nat.leb_le; reflexivity).
  cbn [mbind comp_bind].
  by rewrite mapM_slices by (rewrite Hl; unfold NUM_PKS_A_HASH; apply Nat.leb_le; reflexivity).
Qed.

Lemma length_commitment_scripts f fh : length (commitment_scripts f fh) = NUM_ASSERT_DATA_TX.
Proof. done. Qed.

Lemma commitment_outputs {C} (address : C → comp ScriptBuf) (script : C → ScriptBuf) l :
  (∀ c, address c = Val (script c)) → (∀ c, minimal_non_dust (script c) = 330%N) →
  mapM (λ c, commitment_output (address c)) l = Val ((λ s, (s, 660%N)) <$> (script <$> l)).
Proof.
  intros Ha Hd. rewrite <- list_fmap_compose. apply mapM_pure. intros c _.
  unfold commitment_output. rewrite Ha. cbn [mbind comp_bind]. by rewrite Hd.
Qed.

Definition pre_assert_spec claim_txid c0 cpfp f fh block : PreAssertTx :=
  let outs := (mkTxOut 660 <$> commitment_scripts f fh) ++ [cpfp_output cpfp] in
  let prevout := mkTxOut 26070 (C0_output_script c0) in
  mkPreAssertTx
    (mkCovenantTx
      (mkPsbt (mkTransaction VERSION_THREE LOCKTIME_ZERO
        [mkTxIn (mkOutPoint claim_txid 0) [] (from_height (c0_pre_assert_timelock c0)) []] outs)
        [utxo_input SighashDefault prevout])
      [prevout] [# Script (C0_generate_payout_script c0) block]) outs c0.

Lemma pre_assert_output claim_txid c0 cpfp f fh block i :
  i < NUM_ASSERT_DATA_TX →
  output (unsigned_tx (psbt (pre_assert_tx (pre_assert_spec claim_txid c0 cpfp f fh block)))) !! i
  = Some (mkTxOut 660 (nth i (commitment_scripts f fh) [])).
Proof.
  intros Hi. change (((mkTxOut 660 <$> commitment_scripts f fh) ++ [cpfp_output cpfp]) !! i
    = Some (mkTxOut 660 (nth i (commitment_scripts f fh) []))).
  rewrite lookup_app_l, list_lookup_fmap by (rewrite length_fmap; done).
  destruct (nth_lookup_or_length (commitment_scripts f fh) i []) as [->|Hl]; [done|].
  rewrite length_commitment_scripts in Hl. lia.
Qed.

Lemma PreAssertTx_new_spec claim_txid c0 cpfp f fh :
  length (f256_public_keys f) = NUM_PKS_A256 → length (fhash_public_keys fh) = NUM_PKS_A_HASH →
  ∃ block, PreAssertTx_new claim_txid c0 cpfp f fh = Val (pre_assert_spec claim_txid c0 cpfp f fh block) ∧
    C0_generate_spend_info c0 = Val (C0_generate_payout_script c0, block) ∧
    ∀ key, spends key (c0_network c0) (Script (C0_generate_payout_script c0) block) (C0_output_script c0).
Proof.
  intros Hf Hh. destruct (C0_spend_block c0) as (block & Hinfo & Hs). exists block. split; [|done].
  unfold PreAssertTx_new. rewrite A256_connectors, AHash_connectors by done. constant_amounts.
  rewrite (commitment_outputs _ _ (field_connectors f) A256_address) by (intros; apply p2tr_dust).
  rewrite (commitment_outputs _ _ (hash_connectors_1 fh) AHash_address) by (intros; apply p2tr_dust).
  rewrite (commitment_outputs _ _ (hash_connectors_2 fh) AHash_address) by (intros; apply p2tr_dust).
  change (mapM _ []) with (Val (@nil (ScriptBuf * Amount))). cbn [mbind comp_bind app].
  change (minimal_non_dust (Cpfp_generate_taproot_address cpfp))
    with (minimal_non_dust (Cpfp_generate_locking_script cpfp)).
  rewrite Cpfp_dust.
  change (_ ++ _ ++ _ ++ [(_, 330%N)])
    with (((λ s, (s, 660%N)) <$> commitment_scripts f fh) ++ [(Cpfp_generate_taproot_address cpfp, 330%N)]).
  rewrite amount_sum_small by done. change (list_sum _) with 26070%N.
  change (amount_sub 26070 26070) with (Val 0%N). cbn [mbind comp_bind].
  replace (create_tx_outs _) with ((mkTxOut 660 <$> commitment_scripts f fh) ++ [cpfp_output cpfp]) by done.
  rewrite C0_locking_script. change (with_sequence _ _ _) with
    (Val (mkTransaction VERSION_THREE LOCKTIME_ZERO
      [mkTxIn (mkOutPoint claim_txid 0) [] (from_height (c0_pre_assert_timelock c0)) []]
      ((mkTxOut 660 <$> commitment_scripts f fh) ++ [cpfp_output cpfp]))).
  cbn [mbind comp_bind]. by rewrite Hinfo.
Qed.

Definition assert_data_spec pre_assert_txid scripts n cpfp (i : nat) : Psbt :=
  mkPsbt (mkTransaction VERSION_THREE LOCKTIME_ZERO [rbf (mkOutPoint pre_assert_txid (N.of_nat i))]
    [mkTxOut 330 (N_output_script n); cpfp_output cpfp])
    [utxo_input SighashDefault (mkTxOut 660 (nth i scripts []))].

Lemma AssertDataTxBatch_new_spec pre_assert_txid scripts n cpfp :
  NUM_ASSERT_DATA_TX ≤ length scripts →
  AssertDataTxBatch_new pre_assert_txid scripts n cpfp
  = Val (array_from_fn NUM_ASSERT_DATA_TX 0 (assert_data_spec pre_assert_txid scripts n cpfp)).
Proof.
  intros Hl. unfold AssertDataTxBatch_new. apply vmapM_comp_array. intros j Hj. unfold assert_data_psbt.
  constant_amounts. destruct (nth_lookup_or_length scripts j []) as [->|]; [|lia].
  rewrite N_address. cbn [expect mbind comp_bind]. rewrite p2tr_dust.
  change (minimal_non_dust (Cpfp_generate_taproot_address cpfp))
    with (minimal_non_dust (Cpfp_generate_locking_script cpfp)).
  by rewrite Cpfp_dust.
Qed.

Definition post_assert_spec txids n a3 cpfp : PostAssertTx :=
  let prevouts := replicate NUM_ASSERT_DATA_TX (mkTxOut 330 (N_output_script n)) in
  mkPostAssertTx
    (mkCovenantTx
      (mkPsbt (mkTransaction VERSION_THREE LOCKTIME_ZERO ((λ txid, rbf (mkOutPoint txid 0)) <$> txids)
        [mkTxOut 12540 (a3_output_address a3); cpfp_output cpfp])
        (utxo_input SighashDefault <$> prevouts))
      prevouts (vreplicate NUM_ASSERT_DATA_TX Key)) 12540.

Lemma PostAssertTx_new_spec txids n a3 cpfp :
  length txids = NUM_ASSERT_DATA_TX →
  PostAssertTx_new txids n a3 cpfp = Val (post_assert_spec txids n a3 cpfp).
Proof.
  intros Hl. unfold PostAssertTx_new, post_assert_spec. set (prevouts := replicate _ _). rewrite Cpfp_dust, N_address. constant_amounts.
  change (amount_sub 12870 330) with (Val 12540%N). cbn [mbind comp_bind]. rewrite p2tr_dust.
  change (mkTxOut 330 (p2tr (n_n_of_n n) None (n_network n))) with (mkTxOut 330 (N_output_script n)).
  fold prevouts. unfold with_utxos, from_unsigned_tx, with_version, create_tx, create_tx_ins.
  cbn [psbt_inputs unsigned_tx input]. rewrite !length_fmap, Hl.
  change NUM_ASSERT_DATA_TX with (length prevouts) at 1. by rewrite set_utxos_all, <- list_fmap_compose.
Qed.

(** The leaves of the connector that the post-assert transaction pays to. *)
Definition A3_leaf (deposit_txid : Txid) (wots_public_keys : PublicKeys) (leaf : ConnectorA3Leaf) : Prop :=
  match leaf with
  | A3Payout _ => True
  | A3DisprovePublicInputsCommitment txid _ => txid = deposit_txid
  | A3DisproveProof script _ => script ∈ vec_to_list (api_generate_full_tapscripts (groth16 wots_public_keys))
  end.

Lemma A3_new_spec network deposit_txid n_of_n pks timelock :
  (N.of_nat (2 + NUM_TAPS) ≤ 2 ^ 128)%N →
  ∃ c, A3_new network deposit_txid n_of_n pks timelock = Val c ∧
    a3_payout_timelock c = timelock ∧
    ∀ leaf, A3_leaf deposit_txid pks leaf →
      let script := A3Leaf_generate_locking_script leaf n_of_n pks timelock in
      ∃ block, A3_generate_spend_info c leaf = Val (script, block) ∧
        ∀ key, spends key network (Script script block) (a3_output_address c).
Proof.
  intros Hn. unfold A3_new, A3_generate_taproot_address. cbn [create_taproot_addr].
  set (scripts := _ ++ _). destruct (build_taptree_total network UNSPENDABLE_PUBLIC_KEY scripts)
    as (info & E & Hcb & Hf).
  { unfold scripts. by rewrite length_app, !length_fmap, length_vec_to_list. }
  change (match scripts with [] => _ | _ :: _ => _ end) with (build_taptree UNSPENDABLE_PUBLIC_KEY network scripts).
  rewrite E. eexists. split_and!; [done|done|]. intros leaf Hleaf.
  set (script := A3Leaf_generate_locking_script leaf n_of_n pks timelock).
  destruct (Hcb script) as [block Hb].
  { unfold scripts, script. destruct leaf; cbn in Hleaf; subst; rewrite elem_of_app; [left; set_solver| |left; set_solver].
    right. rewrite list_elem_of_fmap. eauto. }
  exists block. unfold A3_generate_spend_info. cbn. fold script. rewrite Hb. split; [done|].
  intros key. by exists UNSPENDABLE_PUBLIC_KEY, (taptree_leaves scripts), info.
Qed.

Definition assert_chain_spec claim_txid c0 n a3 cpfp fh f block : AssertChain :=
  let pre_assert := pre_assert_spec claim_txid c0 cpfp f fh block in
  let batch := array_from_fn NUM_ASSERT_DATA_TX 0
    (assert_data_spec (covenant_txid (pre_assert_tx pre_assert)) (commitment_scripts f fh) n cpfp) in
  let txids := vec_to_list (assert_data_compute_txids batch) in
  mkAssertChain pre_assert batch (post_assert_spec txids n a3 cpfp).

Lemma AssertChain_new_spec claim_txid c0 n a3 cpfp fh f :
  length (f256_public_keys f) = NUM_PKS_A256 → length (fhash_public_keys fh) = NUM_PKS_A_HASH →
  ∃ block, AssertChain_new claim_txid c0 n a3 cpfp fh f
      = Val (assert_chain_spec claim_txid c0 n a3 cpfp fh f block) ∧
    C0_generate_spend_info c0 = Val (C0_generate_payout_script c0, block) ∧
    ∀ key, spends key (c0_network c0) (Script (C0_generate_payout_script c0) block) (C0_output_script c0).
Proof.
  intros Hf Hh. destruct (PreAssertTx_new_spec claim_txid c0 cpfp f fh Hf Hh) as (block & E & Hs).
  exists block. split; [|done]. unfold AssertChain_new. rewrite E. cbn [mbind comp_bind].
  destruct (first_n_take NUM_ASSERT_DATA_TX (take NUM_ASSERT_DATA_TX (script_pubkey <$>
    (mkTxOut 660 <$> commitment_scripts f fh) ++ [cpfp_output cpfp]))) as (v & Ev & Hv); [done|].
  cbn [pre_assert_tx_outs pre_assert_spec]. rewrite Ev. cbn [expect mbind comp_bind]. rewrite Hv.
  change (take NUM_ASSERT_DATA_TX (take NUM_ASSERT_DATA_TX _)) with (commitment_scripts f fh).
  rewrite AssertDataTxBatch_new_spec by done. cbn [mbind comp_bind].
  rewrite PostAssertTx_new_spec by apply length_vec_to_list. done.
Qed.

Lemma from_height_relative t : is_relative_lock_time (from_height t) = true.
Proof. unfold is_relative_lock_time, from_height. by rewrite N.mod_pow2_bits_high. Qed.

Definition payout_spec data a3 n cp cpfp script block : PayoutTx :=
  let prevouts := [mkTxOut (pd_deposit_amount data) (N_output_script n); mkTxOut 12540 (a3_output_address a3);
    mkTxOut 330 (N_output_script n); mkTxOut 330 (P_output_script cp)] in
  mkPayoutTx
    (mkCovenantTx
      (mkPsbt (mkTransaction VERSION_THREE LOCKTIME_ZERO
        [rbf (mkOutPoint (pd_deposit_txid data) 0);
         mkTxIn (mkOutPoint (pd_post_assert_txid data) 0) [] (from_height (a3_payout_timelock a3)) [];
         rbf (pd_claim_outpoint data); rbf (pd_stake_outpoint data)]
        [mkTxOut (pd_deposit_amount data + 12870) (p2tr (pd_operator_key data) None (pd_network data));
         cpfp_output cpfp])
        (utxo_input SighashDefault <$> prevouts))
      prevouts [# Key; Script script block; Key; Tweaked (P_generate_merkle_root cp)]) n cp.

Lemma PayoutTx_new_spec data a3 n cp cpfp script block :
  (pd_deposit_amount data + 13200 ≤ U64_MAX)%N →
  A3_generate_spend_info a3 (A3Payout None) = Val (script, block) →
  PayoutTx_new data a3 n cp cpfp = Val (payout_spec data a3 n cp cpfp script block).
Proof.
  intros Hamt Hinfo. unfold PayoutTx_new.
  rewrite Cpfp_dust, key_address, N_address, P_address, from_height_relative. constant_amounts.
  cbn [assert_that mbind comp_bind]. rewrite !p2tr_dust. rewrite amount_sum_small by (cbn; lia).
  change (list_sum _) with (pd_deposit_amount data + 13200)%N.
  cbn [mbind comp_bind]. rewrite amount_sub_le by lia.
  replace (pd_deposit_amount data + 13200 - 330)%N with (pd_deposit_amount data + 12870)%N by lia.
  cbn [mbind comp_bind]. by rewrite Hinfo.
Qed.

Definition disprove_spec post_assert_txid stake_outpoint network stake_amount burn_amount a3 s : DisproveTx :=
  mkDisproveTx
    (mkCovenantTx
      (mkPsbt (mkTransaction VERSION_TWO LOCKTIME_ZERO [rbf stake_outpoint; rbf (mkOutPoint post_assert_txid 0)]
        [mkTxOut burn_amount (p2tr UNSPENDABLE_PUBLIC_KEY None network)])
        [utxo_input SighashSingle (mkTxOut stake_amount (S_output_script s));
         utxo_input SighashDefault (mkTxOut 12540 (a3_output_address a3))])
      [mkTxOut stake_amount (S_output_script s); mkTxOut 12540 (a3_output_address a3)]
      [# Tweaked (S_generate_merkle_root s)]) s.

Lemma DisproveTx_new_spec post_assert_txid stake_outpoint network stake_amount burn_amount a3 s :
  DisproveTx_new post_assert_txid stake_outpoint network stake_amount burn_amount a3 s
  = Val (disprove_spec post_assert_txid stake_outpoint network stake_amount burn_amount a3 s).
Proof. unfold DisproveTx_new. rewrite key_address, S_address. done. Qed.

Definition slash_stake_spec stake_outpoint claim_outpoint network params n s : CovenantTx 2 :=
  let prevouts := [mkTxOut 330 (N_output_script n); mkTxOut (stake_amount params) (S_output_script s)] in
  let burn := p2tr UNSPENDABLE_PUBLIC_KEY None network in
  mkCovenantTx
    (mkPsbt (mkTransaction VERSION_TWO LOCKTIME_ZERO [rbf claim_outpoint; rbf stake_outpoint]
      [mkTxOut 330 burn; mkTxOut (burn_amount params - 330) burn])
      (utxo_input SighashSingle <$> prevouts))
    prevouts [# Key; Tweaked (S_generate_merkle_root s)].

Lemma SlashStakeTx_new_spec stake_outpoint claim_outpoint network params n s :
  (330 ≤ burn_amount params)%N →
  SlashStakeTx_new stake_outpoint claim_outpoint network params n s
  = Val (slash_stake_spec stake_outpoint claim_outpoint network params n s).
Proof.
  intros Hburn. unfold SlashStakeTx_new. rewrite key_address, N_address, S_address.
  rewrite amount_sub_le by done. cbn [mbind comp_bind]. by rewrite p2tr_dust.
Qed.

(** *** The graph *)

Definition connectors_spec (context : TxBuildContext) (params : ConnectorParams) (operator_pubkey : XOnlyPublicKey)
    (stake_hash : Sha256Hash) (delta : N) (pks : PublicKeys) (a3 : ConnectorA3) : PegOutGraphConnectors :=
  let key := tbc_aggregated_pubkey context in
  let network := tbc_network context in
  mkPegOutGraphConnectors (mkConnectorK network (withdrawal_fulfillment pks))
    (mkConnectorC0 key network (pre_assert_timelock params))
    (mkConnectorC1 key network (payout_optimistic_timelock params)) (mkConnectorNOfN key network)
    (mkConnectorCpfp operator_pubkey network) a3
    (mkConnectorAHashFactory network (vec_to_list (g16_hashes (groth16 pks))))
    (mkConnectorA256Factory network
      (Vector.hd (g16_public_inputs (groth16 pks)) :: vec_to_list (g16_fqs (groth16 pks))))
    (mkConnectorStake key operator_pubkey stake_hash delta network) (mkConnectorP key stake_hash network).

Section graph.
Variables (input : PegOutGraphInput) (context : TxBuildContext) (deposit_txid : Txid)
  (graph_params : PegOutGraphParams) (connector_params : ConnectorParams)
  (stake_chain_params : StakeChainParams) (prev_claim_txids : list Txid).

Definition graph_connectors (a3 : ConnectorA3) : PegOutGraphConnectors :=
  connectors_spec context connector_params (pgi_operator_pubkey input) (pgi_stake_hash input)
    (delta stake_chain_params) (wots_public_keys input) a3.

Definition graph_spec (a3 : ConnectorA3) (c1_block c0_block a3_block : N) : PegOutGraph :=
  let c := graph_connectors a3 in
  let claim_tx := claim_spec (withdrawal_fulfillment_outpoint input) (kickoff c) (claim_out_0 c) (claim_out_1 c)
    (n_of_n c) (connector_cpfp c) in
  let claim_txid := claim_compute_txid claim_tx in
  let payout_stake_outpoint := mkOutPoint (op_txid (stake_outpoint input)) 1 in
  let assert_chain := assert_chain_spec claim_txid (claim_out_0 c) (n_of_n c) a3 (connector_cpfp c)
    (assert_data_hash_factory c) (assert_data256_factory c) c0_block in
  let post_assert_txid := covenant_txid (post_assert_tx (chain_post_assert assert_chain)) in
  mkPegOutGraph claim_tx
    (challenge_spec (mkOutPoint claim_txid 1) (challenge_cost graph_params) (pgi_operator_pubkey input)
       (tbc_network context) (claim_out_1 c))
    (payout_optimistic_spec
       (mkPayoutOptimisticData claim_txid deposit_txid payout_stake_outpoint (deposit_amount graph_params)
          (pgi_operator_pubkey input) (tbc_network context))
       (claim_out_0 c) (claim_out_1 c) (n_of_n c) (hashlock_payout c) (connector_cpfp c) c1_block)
    assert_chain
    (payout_spec
       (mkPayoutData post_assert_txid deposit_txid (mkOutPoint claim_txid 2) payout_stake_outpoint
          (deposit_amount graph_params) (pgi_operator_pubkey input) (tbc_network context))
       a3 (n_of_n c) (hashlock_payout c) (connector_cpfp c)
       (compile (n_of_n_with_timelock (tbc_aggregated_pubkey context) (payout_timelock connector_params))) a3_block)
    (disprove_spec post_assert_txid (stake_outpoint input) (tbc_network context)
       (stake_amount stake_chain_params) (burn_amount stake_chain_params) a3 (stake c))
    ((λ txid, slash_stake_spec (stake_outpoint input) (mkOutPoint txid 2) (tbc_network context)
       stake_chain_params (n_of_n c) (stake c)) <$> prev_claim_txids).

(** What there is to know of the connector of the post-assert transaction and of the blocks. *)
Record graph_facts (a3 : ConnectorA3) (c1_block c0_block a3_block : N) : Prop := {
  facts_timelock : a3_payout_timelock a3 = payout_timelock connector_params;
  facts_a3 : ∀ leaf, A3_leaf deposit_txid (wots_public_keys input) leaf →
    let script := A3Leaf_generate_locking_script leaf (tbc_aggregated_pubkey context)
      (wots_public_keys input) (payout_timelock connector_params) in
    ∃ block, A3_generate_spend_info a3 leaf = Val (script, block) ∧
      ∀ key, spends key (tbc_network context) (Script script block) (a3_output_address a3);
  facts_payout : A3_generate_spend_info a3 (A3Payout None)
    = Val (compile (n_of_n_with_timelock (tbc_aggregated_pubkey context) (payout_timelock connector_params)),
        a3_block);
  facts_c1 : C1_generate_spend_info (claim_out_1 (graph_connectors a3))
    = Val (C1_generate_payout_script (claim_out_1 (graph_connectors a3)), c1_block);
  facts_c0 : C0_generate_spend_info (claim_out_0 (graph_connectors a3))
    = Val (C0_generate_payout_script (claim_out_0 (graph_connectors a3)), c0_block);
}.

Lemma generate_spec :
  (N.of_nat (2 + NUM_TAPS) ≤ 2 ^ 128)%N → (deposit_amount graph_params + 27060 ≤ U64_MAX)%N →
  prev_claim_txids = [] ∨ (330 ≤ burn_amount stake_chain_params)%N →
  ∃ a3 c1_block c0_block a3_block,
    PegOutGraph_generate input context deposit_txid graph_params connector_params stake_chain_params
      prev_claim_txids = Val (graph_spec a3 c1_block c0_block a3_block, graph_connectors a3) ∧
    graph_facts a3 c1_block c0_block a3_block.
Proof.
  intros Htaps Hamt Hburn.
  destruct (A3_new_spec (tbc_network context) deposit_txid (tbc_aggregated_pubkey context)
    (wots_public_keys input) (payout_timelock connector_params) Htaps) as (a3 & Ea3 & Htl & Hleaf).
  destruct (Hleaf (A3Payout None) I) as (a3_block & Hp & _).
  unfold PegOutGraph_generate, PegOutGraphConnectors_new. rewrite Ea3. cbn [mbind comp_bind].
  fold (connectors_spec context connector_params (pgi_operator_pubkey input) (pgi_stake_hash input)
    (delta stake_chain_params) (wots_public_keys input) a3).
  fold (graph_connectors a3). set (c := graph_connectors a3).
  rewrite ClaimTx_new_spec. cbn [mbind comp_bind]. rewrite ChallengeTx_new_spec. cbn [mbind comp_bind].
  set (claim := claim_spec _ _ _ _ _ _).
  destruct (PayoutOptimisticTx_new_spec (mkPayoutOptimisticData (claim_compute_txid claim) deposit_txid
    (mkOutPoint (op_txid (stake_outpoint input)) 1) (deposit_amount graph_params) (pgi_operator_pubkey input)
    (tbc_network context)) (claim_out_0 c) (claim_out_1 c) (n_of_n c) (hashlock_payout c) (connector_cpfp c))
    as (c1_block & -> & Hc1 & _); [done|].
  cbn [mbind comp_bind].
  destruct (AssertChain_new_spec (claim_compute_txid claim) (claim_out_0 c) (n_of_n c) a3 (connector_cpfp c)
    (assert_data_hash_factory c) (assert_data256_factory c)) as (c0_block & E0 & Hc0 & _);
    [cbn; by rewrite length_vec_to_list|apply length_vec_to_list|].
  change (post_assert_out_0 c) with a3. rewrite E0. cbn [mbind comp_bind].
  rewrite (PayoutTx_new_spec _ a3 (n_of_n c) (hashlock_payout c) (connector_cpfp c) _ _) by (cbn; lia || exact Hp).
  cbn [mbind comp_bind]. rewrite DisproveTx_new_spec. cbn [mbind comp_bind].
  exists a3, c1_block, c0_block, a3_block. split; [|by split].
  rewrite (mapM_pure _ (λ txid, slash_stake_spec (stake_outpoint input) (mkOutPoint txid 2) (tbc_network context)
    stake_chain_params (n_of_n c) (stake c))); [done|].
  intros txid Hin. apply SlashStakeTx_new_spec. destruct Hburn as [E|]; [|done].
  rewrite E in Hin. by apply not_elem_of_nil in Hin.
Qed.

End graph.
End builders.
