(* ===== verification/GraphProperties.v ===== *)
(** * Properties of peg-out graphs

    The theorems about the graphs that [PegOutGraph_generate] makes: how the transactions link
    up, that every signature that is asked for fits the output it spends, the timelocks, the
    amounts, and that the inputs are told apart. *)

From S2P Require Import Prelude Bitcoin PogMusig Wots TxTypes Taproot Deposit Predicates Connectors Script StakeChain.
From S2P Require Import SpendConditions ConnectorsAssert DisproveScript TxGraph PegOutGraph GraphSpec.

(** ** Links *)

(** The inputs of a transaction spend these outputs, one by one, and know what they spend. *)
Definition links `{BitcoinLib} (p : Psbt) (parents : list (Transaction * nat)) : Prop :=
  Forall2 (λ txin '(parent, vout), previous_output txin = mkOutPoint (compute_txid parent) (N.of_nat vout))
    (input (unsigned_tx p)) parents ∧
  Forall2 (λ pin '(parent, vout), ∃ o, output parent !! vout = Some o ∧ witness_utxo pin = Some o)
    (psbt_inputs p) parents.

(** The transactions of a graph. *)
Definition graph_claim (g : PegOutGraph) : Psbt := claim_psbt (pog_claim_tx g).
Definition graph_challenge (g : PegOutGraph) : Psbt := psbt (challenge_tx (pog_challenge_tx g)).
Definition graph_payout_optimistic (g : PegOutGraph) : Psbt := psbt (payout_optimistic_tx (pog_payout_optimistic g)).
Definition graph_pre_assert (g : PegOutGraph) : Psbt := psbt (pre_assert_tx (chain_pre_assert (pog_assert_chain g))).
Definition graph_assert_data (g : PegOutGraph) : list Psbt := vec_to_list (chain_assert_data (pog_assert_chain g)).
Definition graph_post_assert (g : PegOutGraph) : Psbt := psbt (post_assert_tx (chain_post_assert (pog_assert_chain g))).
Definition graph_payout (g : PegOutGraph) : Psbt := psbt (payout_tx (pog_payout_tx g)).
Definition graph_disprove (g : PegOutGraph) : Psbt := psbt (disprove_tx (pog_disprove_tx g)).

(** The edges of the graph, with the transactions it hangs from. *)
Definition graph_links `{BitcoinLib} (g : PegOutGraph) (stake_tx deposit_tx : Transaction)
    (prev : list PegOutGraph) : Prop :=
  let claim := unsigned_tx (graph_claim g) in
  let pre_assert := unsigned_tx (graph_pre_assert g) in
  let post_assert := unsigned_tx (graph_post_assert g) in
  links (graph_claim g) [(stake_tx, 0)] ∧
  links (graph_challenge g) [(claim, 1)] ∧
  links (graph_payout_optimistic g) [(deposit_tx, 0); (claim, 0); (claim, 1); (claim, 2); (stake_tx, 1)] ∧
  links (graph_pre_assert g) [(claim, 0)] ∧
  (∀ i p, graph_assert_data g !! i = Some p → links p [(pre_assert, i)]) ∧
  links (graph_post_assert g) ((λ p, (unsigned_tx p, 0)) <$> graph_assert_data g) ∧
  links (graph_payout g) [(deposit_tx, 0); (post_assert, 0); (claim, 2); (stake_tx, 1)] ∧
  links (graph_disprove g) [(stake_tx, 2); (post_assert, 0)] ∧
  Forall2 (λ tx g', links (psbt tx) [(unsigned_tx (graph_claim g'), 2); (stake_tx, 2)]) (pog_slash_stake_txs g) prev.

(** The input of an operator's graph for a stake transaction of theirs. *)
Definition graph_input `{BitcoinLib} (t : StakeTx) (data : StakeTxData) (pks : PublicKeys) : PegOutGraphInput :=
  mkPegOutGraphInput (mkOutPoint (stake_txid_of t) STAKE_VOUT)
    (mkOutPoint (stake_txid_of t) WITHDRAWAL_FULFILLMENT_VOUT) (stk_hash data) pks (stk_operator_pubkey data).

(** The prevouts of a transaction are what its inputs spend, and the paths that are signed fit
    them. *)
Definition signable `{TaprootLib} (key : XOnlyPublicKey) (network : Network) {n} (tx : CovenantTx n) : Prop :=
  Some <$> prevouts tx = witness_utxo <$> psbt_inputs (psbt tx) ∧
  Forall2 (λ w o, spends key network w (script_pubkey o)) (vec_to_list (witnesses tx)) (take n (prevouts tx)).

(** The inputs of a graph with a relative timelock: the path, the input and the lock. *)
Definition timelocked (g : PegOutGraph) (params : ConnectorParams)
    : list (option TaprootWitness * Transaction * nat * N) :=
  [(vec_to_list (witnesses (payout_optimistic_tx (pog_payout_optimistic g))) !! 2,
    unsigned_tx (graph_payout_optimistic g), 2, payout_optimistic_timelock params);
   (vec_to_list (witnesses (pre_assert_tx (chain_pre_assert (pog_assert_chain g)))) !! 0,
    unsigned_tx (graph_pre_assert g), 0, pre_assert_timelock params);
   (vec_to_list (witnesses (payout_tx (pog_payout_tx g))) !! 1,
    unsigned_tx (graph_payout g), 1, payout_timelock params)].

(** The id of a transaction is a hash of all of it but the witnesses. *)
Definition without_witnesses (tx : Transaction) : Transaction :=
  mkTransaction (version tx) (lock_time tx)
    ((λ txin, mkTxIn (previous_output txin) (script_sig txin) (sequence txin) []) <$> input tx) (output tx).
Class TxidLaws `{BitcoinLib} : Prop := {
  compute_txid_inj : ∀ tx tx', compute_txid tx = compute_txid tx' → without_witnesses tx = without_witnesses tx';
}.

(** What tells the transactions of a graph apart: the numbers of inputs and outputs, and the first
    transaction that is spent. *)
Definition shape (tx : Transaction) : nat * nat * option Txid :=
  (length (input tx), length (output tx), (λ txin, op_txid (previous_output txin)) <$> head (input tx)).

Section properties.
Context `{TaprootLaws, ConnectorLib, ScriptLib, !DustLaws, BitcoinLib, AssertLib, NmulLib, BuildProfile}.

Lemma generated_claim input context deposit_txid gp cp sp prev g c :
  PegOutGraph_generate input context deposit_txid gp cp sp prev = Val (g, c) →
  output (unsigned_tx (graph_claim g)) !! 2
  = Some (mkTxOut 330 (p2tr (tbc_aggregated_pubkey context) None (tbc_network context))).
Proof.
  unfold PegOutGraph_generate, PegOutGraphConnectors_new. intros E.
  apply comp_bind_Val in E as (c' & (a3 & _ & Ec)%comp_bind_Val & E). simplify_eq/=.
  rewrite ClaimTx_new_spec in E. cbn [mbind comp_bind] in E.
  repeat (apply comp_bind_Val in E as (? & _ & E)). by simplify_eq/=.
Qed.

Lemma deposit_output `{DepositLib} data context params sidesystem_params dep :
  DepositTx_new data context params sidesystem_params = Val (Ok dep) →
  output (unsigned_tx (psbt dep)) !! 0
  = Some (mkTxOut (deposit_amount params) (p2tr (tbc_aggregated_pubkey context) None (tbc_network context))).
Proof.
  unfold DepositTx_new. intros (v & _ & E)%comp_bind_Val. destruct v as [[]|]; [|done].
  case_decide; [|done]. apply comp_bind_Val in E as (script & _ & E). cbn [create_taproot_addr] in E.
  destruct (key_only_address (tbc_network context) (tbc_aggregated_pubkey context)) as (info & E').
  rewrite E' in E. by simplify_eq/=.
Qed.

Lemma P_out_spec context hash :
  P_out context hash = mkTxOut 330 (P_output_script (mkConnectorP (tbc_aggregated_pubkey context) hash (tbc_network context))).
Proof. unfold P_out. by rewrite p2tr_dust. Qed.

(** Links of a transaction that is written out, to itself and to the outputs of [H] and [H']. *)
Ltac link H H' :=
  split; repeat first [apply Forall2_nil_2|apply Forall2_cons_2]; cbv beta iota;
  first [reflexivity
        |eexists; split; [first [reflexivity|exact H'|rewrite H; reflexivity]|reflexivity]].

Lemma assert_data_links input context deposit_txid gp cp sp prev a3 b1 b0 b3 i p :
  let g := graph_spec input context deposit_txid gp cp sp prev a3 b1 b0 b3 in
  graph_assert_data g !! i = Some p → links p [(unsigned_tx (graph_pre_assert g), i)].
Proof.
  intros g. unfold graph_assert_data, g. cbn [pog_assert_chain graph_spec chain_assert_data assert_chain_spec].
  rewrite array_from_fn_list, list_lookup_fmap_Some. intros (j & -> & [-> Hlt]%lookup_seq).
  cbn [Nat.add]. split; (apply Forall2_cons_2; [|apply Forall2_nil_2]); [done|].
  eexists. split; [by apply pre_assert_output|reflexivity].
Qed.

Lemma graph_assert_data_all (Q : Psbt → Prop) input context deposit_txid gp cp sp prev a3 b1 b0 b3 :
  (∀ txid scripts n i,
    Q (assert_data_spec txid scripts n (connector_cpfp (graph_connectors input context cp sp a3)) i)) →
  Forall Q (graph_assert_data (graph_spec input context deposit_txid gp cp sp prev a3 b1 b0 b3)).
Proof.
  intros HQ. unfold graph_assert_data. cbn [pog_assert_chain graph_spec chain_assert_data assert_chain_spec].
  rewrite array_from_fn_list. apply Forall_fmap, Forall_true. intros j. apply HQ.
Qed.

Lemma post_assert_spec_links (batch : list Psbt) n a3 cpfp :
  length batch = NUM_ASSERT_DATA_TX →
  (∀ p, p ∈ batch → output (unsigned_tx p) !! 0 = Some (mkTxOut 330 (N_output_script n))) →
  links (psbt (post_assert_tx (post_assert_spec ((λ p, compute_txid (unsigned_tx p)) <$> batch) n a3 cpfp)))
    ((λ p, (unsigned_tx p, 0)) <$> batch).
Proof.
  intros Hlen Hout. unfold links, post_assert_spec.
  cbn [post_assert_tx psbt unsigned_tx psbt_inputs Bitcoin.input]. split.
  - rewrite <- list_fmap_compose, Forall2_fmap. by apply Forall_Forall2_diag, Forall_forall.
  - rewrite Forall2_fmap, <- Hlen. apply Forall2_replicate_l; [done|]. apply Forall_forall. eauto.
Qed.

Lemma post_assert_links input context deposit_txid gp cp sp prev a3 b1 b0 b3 :
  let g := graph_spec input context deposit_txid gp cp sp prev a3 b1 b0 b3 in
  links (graph_post_assert g) ((λ p, (unsigned_tx p, 0)) <$> graph_assert_data g).
Proof.
  intros g. unfold graph_post_assert, graph_assert_data, g.
  cbn [pog_assert_chain graph_spec chain_post_assert chain_assert_data assert_chain_spec].
  unfold assert_data_compute_txids. rewrite vec_to_list_map. apply post_assert_spec_links.
  - apply length_vec_to_list.
  - rewrite array_from_fn_list. by intros p (j & -> & _)%list_elem_of_fmap.
Qed.

(** C17: Peg-out graphs hang together.  For every stake transaction of an operator's stake chain
    and every deposit, the graph of the operator for the deposit is generated without a panic,
    and every input of every one of its transactions spends the output it means to spend, with
    its amount and script: the claim hangs from the stake transaction, the challenge, the
    optimistic payout and the pre-assert from the claim, each assert-data transaction from its
    own output of the pre-assert, the post-assert from all of them, the payouts from the
    deposit and the stake chain too, the disproof from the stake and the post-assert, and a
    slashing from the stake and the claim of an earlier graph. *)
Theorem peg_out_graph_links `{DepositLib} context sp inputs chain k t data pks drd dep gp rollup cp prev :
  StakeChain_new context inputs sp = Val chain → chain_txs chain !! k = Some t →
  stake_inputs inputs !! N.of_nat k = Some data →
  withdrawal_fulfillment pks = withdrawal_fulfillment_pk data →
  DepositTx_new drd context gp rollup = Val (Ok dep) →
  (N.of_nat (2 + NUM_TAPS) ≤ 2 ^ 128)%N → (deposit_amount gp + 27060 ≤ U64_MAX)%N →
  prev = [] ∨ (330 ≤ burn_amount sp)%N →
  Forall (λ g', ∃ i txid gp' cp' sp' prev' c',
    PegOutGraph_generate i context txid gp' cp' sp' prev' = Val (g', c')) prev →
  ∃ g c, PegOutGraph_generate (graph_input t data pks) context (covenant_txid dep) gp cp sp
      ((λ g', claim_compute_txid (pog_claim_tx g')) <$> prev) = Val (g, c) ∧
    graph_links g (unsigned_tx (st_psbt t)) (unsigned_tx (psbt dep)) prev.
Proof.
  intros Hchain Ht Hdata Hpks Hdep Htaps Hamt Hburn Hprev.
  destruct (StakeChain_new_spec context inputs sp) as (chain' & E' & Hpre & _).
  rewrite Hchain in E'. injection E' as <-. apply Hpre in Ht.
  destruct (nth_stake_data _ _ _ _ _ Ht) as (data' & cpfp & Hd' & _ & _ & Houts & _). simplify_eq.
  apply deposit_output in Hdep as Hdout.
  destruct (generate_spec (graph_input t data pks) context (covenant_txid dep) gp cp sp
    ((λ g', claim_compute_txid (pog_claim_tx g')) <$> prev)) as (a3 & b1 & b0 & b3 & -> & _); [done|done|by destruct Hburn as [->|]; [left|right]|].
  eexists _, _. split; [done|]. unfold stake_outputs_of in Houts. rewrite P_out_spec, <- Hpks in Houts.
  unfold graph_links. cbv zeta. split_and!; [by link Houts Hdout..| | |by link Houts Hdout|by link Houts Hdout|].
  - apply assert_data_links.
  - apply post_assert_links.
  - apply Forall2_fmap_l, Forall2_fmap_l, Forall_Forall2_diag. eapply Forall_impl; [exact Hprev|].
    intros g' (i & txid & gp' & cp' & sp' & prev' & c' & Hc%generated_claim). by link Houts Hc.
Qed.

(** The control blocks of a graph are those of the outputs they are for. *)
Lemma graph_blocks_spend input context deposit_txid cp sp a3 b1 b0 b3 :
  graph_facts input context deposit_txid cp sp a3 b1 b0 b3 →
  let key := tbc_aggregated_pubkey context in
  let network := tbc_network context in
  let c := graph_connectors input context cp sp a3 in
  spends key network (Script (C1_generate_payout_script (claim_out_1 c)) b1) (C1_output_script (claim_out_1 c)) ∧
  spends key network (Script (C0_generate_payout_script (claim_out_0 c)) b0) (C0_output_script (claim_out_0 c)) ∧
  spends key network (Script (compile (n_of_n_with_timelock key (payout_timelock cp))) b3) (a3_output_address a3).
Proof.
  intros Hf key network c. split_and!.
  - destruct (C1_spend_block (claim_out_1 c)) as (b & E & Hs). unfold c in E.
    rewrite (facts_c1 _ _ _ _ _ _ _ _ _ Hf) in E. injection E as ->. apply Hs.
  - destruct (C0_spend_block (claim_out_0 c)) as (b & E & Hs). unfold c in E.
    rewrite (facts_c0 _ _ _ _ _ _ _ _ _ Hf) in E. injection E as ->. apply Hs.
  - destruct (facts_a3 _ _ _ _ _ _ _ _ _ Hf (A3Payout None) I) as (b & E & Hs).
    rewrite (facts_payout _ _ _ _ _ _ _ _ _ Hf) in E. injection E as ->. apply Hs.
Qed.

Ltac signs H1 H0 H3 :=
  split; [reflexivity|]; repeat first [apply Forall2_nil_2|apply Forall2_cons_2];
  first [reflexivity|exact H1|exact H0|exact H3].

(** C22: Every signature that is asked of the operators fits the output it is for.  Of every
    transaction of a graph that the operators sign together, the prevouts that go into the hashes
    are the outputs its inputs spend, and for each signed input the path, by key, by tweaked key
    or by a script with its control block, is one by which that output can be spent; all the
    outputs of a transaction are signed for, except that the challenge is signed for its first
    output and further inputs are left open, and the disproof and the slashings for the output
    at the place of the input. *)
Theorem graph_signatures_spend input context deposit_txid gp cp sp prev g c :
  (N.of_nat (2 + NUM_TAPS) ≤ 2 ^ 128)%N → (deposit_amount gp + 27060 ≤ U64_MAX)%N →
  prev = [] ∨ (330 ≤ burn_amount sp)%N →
  PegOutGraph_generate input context deposit_txid gp cp sp prev = Val (g, c) →
  let ok {n} (tx : CovenantTx n) := signable (tbc_aggregated_pubkey context) (tbc_network context) tx in
  ok (challenge_tx (pog_challenge_tx g)) ∧
  ok (pre_assert_tx (chain_pre_assert (pog_assert_chain g))) ∧
  ok (post_assert_tx (chain_post_assert (pog_assert_chain g))) ∧
  ok (payout_optimistic_tx (pog_payout_optimistic g)) ∧
  ok (payout_tx (pog_payout_tx g)) ∧
  ok (disprove_tx (pog_disprove_tx g)) ∧
  Forall ok (pog_slash_stake_txs g) ∧
  PegOutGraph_musig_sighash_types g
  = Val (mkPog SighashSinglePlusAnyoneCanPay SighashDefault (vreplicate _ SighashDefault)
      (vreplicate _ SighashDefault) (vreplicate _ SighashDefault) SighashSingle
      (replicate (length prev) (vreplicate _ SighashSingle))).
Proof.
  intros Htaps Hamt Hburn Hg ok.
  destruct (generate_spec input context deposit_txid gp cp sp prev) as (a3 & b1 & b0 & b3 & E & Hf);
    [done|done|done|].
  rewrite Hg in E. injection E as -> ->.
  destruct (graph_blocks_spend _ _ _ _ _ _ _ _ _ Hf) as (Hs1 & Hs0 & Hs3).
  split_and!; [by signs Hs1 Hs0 Hs3..| |].
  - apply Forall_fmap, Forall_forall. intros txid _. by signs Hs1 Hs0 Hs3.
  - unfold PegOutGraph_musig_sighash_types, pog_of. cbn [pog_slash_stake_txs graph_spec].
    rewrite (mapM_pure _ (λ _, [# SighashSingle; SighashSingle])); [|by intros tx (txid & -> & _)%list_elem_of_fmap].
    cbn. rewrite <- list_fmap_compose. by rewrite (const_fmap _ prev [# SighashSingle; SighashSingle]).
Qed.

(** The timelocks are met by waiting.  The optimistic payout, the pre-assert and the payout each
    spend one output through a script with a relative timelock, and the sequence number of that
    input is set so that the script accepts exactly the aggregated signature, provided that the
    timelock counts blocks: a timelock in units of time would leave the input unspendable. *)
Theorem graph_timelocks_open `{ScriptContext} input context deposit_txid gp cp sp prev g c w tx i t :
  (N.of_nat (2 + NUM_TAPS) ≤ 2 ^ 128)%N → (deposit_amount gp + 27060 ≤ U64_MAX)%N →
  prev = [] ∨ (330 ≤ burn_amount sp)%N →
  PegOutGraph_generate input context deposit_txid gp cp sp prev = Val (g, c) →
  (w, tx, i, t) ∈ timelocked g cp → (t < 2 ^ 31)%N →
  tx_version = version tx → Some txin_sequence = sequence <$> Bitcoin.input tx !! i →
  let script := n_of_n_with_timelock (tbc_aggregated_pubkey context) t in
  (∃ block, w = Some (Script (compile script) block)) ∧
  ∀ stack, script_succeeds script stack = true ↔
    ∃ sig, stack = [sig] ∧ signed_by (tbc_aggregated_pubkey context) sig ∧ N.testbit t 22 = false.
Proof.
  intros Htaps Hamt Hburn Hg Hin Ht Hv Hs script.
  destruct (generate_spec input context deposit_txid gp cp sp prev) as (a3 & b1 & b0 & b3 & E & Hf);
    [done|done|done|].
  rewrite Hg in E. injection E as -> ->.
  assert (tx_version = 3%N ∧ txin_sequence = from_height t ∧ ∃ block, w = Some (Script (compile script) block))
    as (Hv' & Hs' & Hw).
  { unfold timelocked in Hin. rewrite !elem_of_cons, elem_of_nil in Hin.
    destruct Hin as [Hin|[Hin|[Hin|[]]]]; injection Hin as -> -> -> ->; (split; [done|]);
      injection Hs as ->; (split; [try done; by rewrite (facts_timelock _ _ _ _ _ _ _ _ _ Hf)|by eexists]). }
  split; [done|]. intros stack. unfold script. rewrite timelock_script_accepts by lia.
  rewrite csv_ok_from_height by (rewrite ?Hv'; done).
  rewrite testbit_above by done. cbn [orb]. setoid_rewrite negb_true_iff. done.
Qed.

Lemma shape_without_witnesses tx : shape (without_witnesses tx) = shape tx.
Proof. unfold shape, without_witnesses. cbn. rewrite length_fmap. by destruct (Bitcoin.input tx). Qed.

Lemma shape_NoDup `{!TxidLaws} txs : NoDup (shape <$> txs) → NoDup (compute_txid <$> txs).
Proof.
  induction txs as [|tx txs IH]; cbn [fmap list_fmap]; [constructor|]. rewrite !NoDup_cons. intros [Hnin Hnd].
  split; [|by apply IH]. intros (tx' & E & Hin)%list_elem_of_fmap. apply Hnin, list_elem_of_fmap.
  exists tx'. split; [|done]. rewrite <- (shape_without_witnesses tx), <- (shape_without_witnesses tx').
  f_equal. by apply compute_txid_inj.
Qed.

(** The places of the inputs of transactions with different ids. *)
Lemma inpoints_NoDup (l : list (Txid * nat)) :
  NoDup l.*1 → NoDup (l ≫= λ '(txid, n), (λ i, mkOutPoint txid (N.of_nat i)) <$> seq 0 n).
Proof.
  induction l as [|[txid n] l IH]; [constructor|]. cbn [fmap list_fmap fst]. rewrite NoDup_cons.
  intros [Hnin Hnd]. rewrite bind_cons. apply NoDup_app. split_and!; [|..|by apply IH].
  - apply NoDup_fmap_2; [|apply NoDup_seq]. intros i j [= E]. lia.
  - intros op (i & -> & _)%list_elem_of_fmap ([txid' n'] & Hin & Hl)%list_elem_of_bind.
    apply list_elem_of_fmap in Hin as (j & [= <- _] & _). apply Hnin, list_elem_of_fmap.
    by exists (txid, n').
Qed.

Lemma graph_shapes input context deposit_txid gp cp sp prev a3 b1 b0 b3 :
  let g := graph_spec input context deposit_txid gp cp sp prev a3 b1 b0 b3 in
  ∃ t1 t2 t3 t4 t5 t6,
    shape <$> (unsigned_tx <$> [graph_challenge g; graph_pre_assert g; graph_post_assert g;
      graph_payout_optimistic g; graph_payout g; graph_disprove g])
    = [(1, 1, t1); (1, 40, t2); (39, 2, t3); (5, 2, t4); (4, 2, t5); (2, 1, t6)].
Proof.
  intros g. do 6 eexists. cbn [fmap list_fmap].
  repeat (apply (f_equal2 cons); [reflexivity|]). reflexivity.
Qed.

Lemma pack_inpoints g :
  Pog.pack (PegOutGraph_musig_inpoints g)
  = ([(compute_txid (unsigned_tx (graph_challenge g)), 1); (compute_txid (unsigned_tx (graph_pre_assert g)), 1);
      (compute_txid (unsigned_tx (graph_post_assert g)), NUM_ASSERT_DATA_TX);
      (compute_txid (unsigned_tx (graph_payout_optimistic g)), 5); (compute_txid (unsigned_tx (graph_payout g)), 4);
      (compute_txid (unsigned_tx (graph_disprove g)), 1)]
     ++ ((λ tx, (compute_txid (unsigned_tx (psbt tx)), 2)) <$> pog_slash_stake_txs g))
    ≫= λ '(txid, n), (λ i, mkOutPoint txid (N.of_nat i)) <$> seq 0 n.
Proof.
  unfold Pog.pack, PegOutGraph_musig_inpoints, inpoints. cbn [challenge pre_assert post_assert payout_optimistic
    payout disprove slash_stake]. rewrite !array_from_fn_list, bind_app, !bind_cons.
  rewrite <- !app_assoc. do 6 f_equal. rewrite <- list_fmap_compose.
  match goal with |- _ = ?a ++ ?b => change (a ++ b) with b end.
  induction (pog_slash_stake_txs g) as [|tx l IH]; [done|]. cbn [fmap list_fmap]. rewrite bind_cons, <- IH. done.
Qed.

(** No element of a list that is written out. *)
Ltac absent H := repeat (apply elem_of_cons in H as [H|H]; [discriminate H|]); by apply elem_of_nil in H.

(** Nonces are not mixed up: the operators keep the secret nonce of every input that they sign by
    the outpoint that [musig_inpoints] names; as transactions have different ids, no two inputs
    of a graph have the same one. *)
Lemma musig_inpoints_distinct `{!TxidLaws} input context deposit_txid gp cp sp prev g c :
  (N.of_nat (2 + NUM_TAPS) ≤ 2 ^ 128)%N → (deposit_amount gp + 27060 ≤ U64_MAX)%N →
  prev = [] ∨ (330 ≤ burn_amount sp)%N → NoDup prev →
  PegOutGraph_generate input context deposit_txid gp cp sp prev = Val (g, c) →
  NoDup (Pog.pack (PegOutGraph_musig_inpoints g)).
Proof.
  intros Htaps Hamt Hburn Hprev Hg.
  destruct (generate_spec input context deposit_txid gp cp sp prev) as (a3 & b1 & b0 & b3 & E & Hf);
    [done|done|done|].
  rewrite Hg in E. injection E as -> ->. set (g := graph_spec _ _ _ _ _ _ _ _ _ _ _).
  set (txs := (unsigned_tx <$> [graph_challenge g; graph_pre_assert g; graph_post_assert g;
    graph_payout_optimistic g; graph_payout g; graph_disprove g])
    ++ ((λ tx, unsigned_tx (psbt tx)) <$> pog_slash_stake_txs g)).
  assert (NoDup (compute_txid <$> txs)) as Hnd.
  { apply shape_NoDup. unfold txs. rewrite fmap_app. cbn [pog_slash_stake_txs g graph_spec].
    destruct (graph_shapes input context deposit_txid gp cp sp prev a3 b1 b0 b3) as (t1 & t2 & t3 & t4 & t5 & t6 & Es).
    fold g in Es. rewrite Es. clear Es. rewrite <- !list_fmap_compose. apply NoDup_app. split_and!.
    - repeat (apply NoDup_cons; split; [intros Hin; absent Hin|]). constructor.
    - intros x Hin (txid & -> & _)%list_elem_of_fmap. absent Hin.
    - apply NoDup_fmap_2; [|done]. by intros x y [= ->]. }
  rewrite pack_inpoints. apply inpoints_NoDup.
  replace (fmap fst _) with (compute_txid <$> txs); [done|]. unfold txs.
  by rewrite !fmap_app, <- !list_fmap_compose.
Qed.

End properties.

(** ** Witnesses *)

Definition example_graph_profile : BuildProfile := true.
Definition example_pks (n : N) : PublicKeys :=
  mkPublicKeys [[n]] (mkGroth16PublicKeys (vreplicate _ [[n]]) (vreplicate _ [[n]]) (vreplicate _ [[n]])).

#[local] Existing Instances example_taproot example_field_connectors example_dust example_txids example_assert
  example_assert_nmul example_graph_profile example_deposit example_assert_context.

Definition example_graph_chain : StakeChain :=
  match StakeChain_new example_context (example_stakes [0; 1]%N) StakeChainParams_default with
  | Val c => c
  | Panic => mkStakeChain None []
  end.
Definition example_stake_tx : StakeTx :=
  default (mkStakeTx (mkPsbt (mkTransaction 2 0 [] []) []) 0 [# Key; Key]) (chain_txs example_graph_chain !! 1).
Definition example_drd : DepositRequestData :=
  mkDepositRequestData (mkOutPoint 0 0) 4 (replicate 20 9%N) (10 * BTC + 1000) 77
    match create_taproot_addr (tbc_network example_context)
      (Both (tbc_aggregated_pubkey example_context) [[77; 1008]]%N) with Ok (a, _) => a | Err _ => [] end.
Definition example_deposit_built : DepositTx :=
  match DepositTx_new example_drd example_context PegOutGraphParams_default (mkRollupParams 20) with
  | Val (Ok d) => d
  | _ => mkCovenantTx (mkPsbt (mkTransaction 2 0 [] []) []) [] [# Key]
  end.
Definition example_input : PegOutGraphInput := graph_input example_stake_tx (example_stake 1) (example_pks 1).

(** The graph of the example, with the claims of these transactions to slash. *)
Abbreviation example_generate prev := (PegOutGraph_generate example_input example_context
  (covenant_txid example_deposit_built) PegOutGraphParams_default ConnectorParams_default
  StakeChainParams_default prev) (only parsing).

#[global] Instance example_field_dust_laws : DustLaws.
Proof. by split. Qed.

Lemma example_generated prev : ∃ g c, example_generate prev = Val (g, c).
Proof.
  destruct (generate_spec example_input example_context (covenant_txid example_deposit_built)
    PegOutGraphParams_default ConnectorParams_default StakeChainParams_default prev)
    as (a3 & b1 & b0 & b3 & E & _); [done|done|by right|]. eauto.
Qed.

Lemma peg_out_graph_links_witness :
  ∃ prev g c, example_generate [claim_compute_txid (pog_claim_tx prev)] = Val (g, c) ∧
    graph_links g (unsigned_tx (st_psbt example_stake_tx)) (unsigned_tx (psbt example_deposit_built)) [prev].
Proof.
  destruct (example_generated []) as (prev & c & E). exists prev.
  apply (peg_out_graph_links example_context StakeChainParams_default (example_stakes [0; 1]%N) example_graph_chain 1
    example_stake_tx (example_stake 1) (example_pks 1) example_drd example_deposit_built PegOutGraphParams_default
    (mkRollupParams 20) ConnectorParams_default [prev]); [vm_compute; reflexivity..|done|done|by right|].
  apply Forall_singleton. by eexists _, _, _, _, _, _, _.
Defined.

Lemma graph_signatures_spend_witness :
  ∃ g c, example_generate [7%N] = Val (g, c) ∧
    signable (tbc_aggregated_pubkey example_context) (tbc_network example_context)
      (payout_optimistic_tx (pog_payout_optimistic g)).
Proof.
  destruct (example_generated [7%N]) as (g & c & E). exists g, c. split; [exact E|].
  destruct (graph_signatures_spend example_input example_context (covenant_txid example_deposit_built)
    PegOutGraphParams_default ConnectorParams_default StakeChainParams_default [7%N] g c)
    as (_ & _ & _ & Hs & _); [done|done|by right|exact E|exact Hs].
Defined.

(** A node that checks the input of the pre-assert. *)
Definition example_timelock_context : ScriptContext := {|
  tx_version := 3; txin_sequence := 1152;
  check_schnorr key sig := bool_decide (sig = key);
  sha256_bytes l := [foldr N.add 0%N l];
  run_fragment _ m a := Some (m, a);
|}.

Lemma graph_timelocks_open_witness :
  ∃ g c, example_generate [] = Val (g, c) ∧
    ∀ stack, @script_succeeds example_timelock_context
      (n_of_n_with_timelock (tbc_aggregated_pubkey example_context) 1152) stack = true ↔
      ∃ sig, stack = [sig] ∧ @signed_by example_timelock_context (tbc_aggregated_pubkey example_context) sig ∧
        N.testbit 1152 22 = false.
Proof.
  destruct (generate_spec example_input example_context (covenant_txid example_deposit_built)
    PegOutGraphParams_default ConnectorParams_default StakeChainParams_default [])
    as (a3 & b1 & b0 & b3 & E & _); [done|done|by left|].
  set (g := graph_spec _ _ _ _ _ _ _ _ _ _ _) in E. exists g. eexists. split; [exact E|].
  destruct (@graph_timelocks_open example_taproot _ example_field_connectors example_dust _ example_txids
    example_assert example_assert_nmul example_graph_profile example_timelock_context
    example_input example_context (covenant_txid example_deposit_built)
    PegOutGraphParams_default ConnectorParams_default StakeChainParams_default [] g
    (graph_connectors example_input example_context ConnectorParams_default StakeChainParams_default a3)
    (vec_to_list (witnesses (pre_assert_tx (chain_pre_assert (pog_assert_chain g)))) !! 0)
    (unsigned_tx (graph_pre_assert g)) 0 1152%N) as [_ Hs];
    [done|done|by left|exact E|apply list_elem_of_further, list_elem_of_here|done|done|done|exact Hs].
Defined.
