(* ===== verification/GraphFinalize.v ===== *)
(** * Finalizing the transactions of a peg-out graph

    What the [finalize] functions of [TxGraph] return for the transactions of a generated graph:
    they never panic, no transaction pays a fee, and the signatures end up on the inputs they
    are for. *)

From S2P Require Import Prelude Bitcoin PogMusig Wots TxTypes Taproot Connectors Script StakeChain.
From S2P Require Import ConnectorsAssert DisproveScript TxGraph PegOutGraph GraphSpec GraphProperties.

(** A transaction with its witnesses. *)
Definition with_witnesses (tx : Transaction) (ws : list (list (list N))) : Transaction :=
  mkTransaction (version tx) (lock_time tx)
    (zip_with (λ txin w, mkTxIn (previous_output txin) (script_sig txin) (sequence txin) w) (input tx) ws)
    (output tx).

(** The stack that opens an output by a path. *)
Definition stack_for `{ConnectorLib} (w : TaprootWitness) (signature : list N) : list (list N) :=
  match w with
  | Script script block => [signature; script; serialize_control_block block]
  | _ => [signature]
  end.
Definition covenant_signed `{ConnectorLib} {n} (tx : CovenantTx n) (signatures : list SchnorrSignature) : Transaction :=
  with_witnesses (unsigned_tx (psbt tx))
    (zip_with stack_for (vec_to_list (witnesses tx)) (serialize_schnorr <$> signatures)).

(** A transaction of one input with its witness. *)
Definition one_input (p : Psbt) : Prop := length (psbt_inputs p) = 1.
Definition with_stack (stack : list (list N)) (p : Psbt) : Psbt :=
  mkPsbt (unsigned_tx p) ((λ i, finalize_input i stack) <$> psbt_inputs p).

(** What comes in goes out. *)
Definition balanced (p : Psbt) : Prop :=
  ∃ values, psbt_input_values p = Some values ∧ (list_sum values ≤ U64_MAX)%N ∧
    list_sum values = list_sum (value <$> output (unsigned_tx p)).

(** Evaluate a change of a transaction that is written out. *)
Ltac reduce_psbt :=
  cbn -[psbt_extract_tx extract_or_panic serialize_schnorr serialize_taproot N.to_nat];
  change (N.to_nat 0) with 0; change (N.to_nat 1) with 1; change (N.to_nat 2) with 2;
  change (N.to_nat 4) with 4;
  cbn -[psbt_extract_tx extract_or_panic serialize_schnorr serialize_taproot].

(** ** A batch of transactions *)

Section batch.
Context {C : Type} (finalize : C → PsbtInput → list (list (list N)) → comp PsbtInput)
  (R : C → list (list (list N)) → list (list N) → Prop) (off soff elems : nat) (sigs : list (list (list N))).
Hypothesis finalize_spec : ∀ c s, ∃ stack, (∀ i, finalize c i s = Val (finalize_input i stack)) ∧ R c s stack.

(** The transactions from [off] on, as many as connectors, get their witnesses. *)
Definition batch_finalized (k0 : nat) (connectors : list C) (psbts psbts' : list Psbt) : Prop :=
  length psbts' = length psbts ∧ Forall one_input psbts' ∧
  (∀ k c, connectors !! k = Some c → ∃ stack,
    R c (take elems (drop (soff + (k0 + k) * elems) sigs)) stack ∧
    psbts' !! (off + (k0 + k)) = with_stack stack <$> psbts !! (off + (k0 + k))) ∧
  (∀ j, j < off + k0 ∨ off + k0 + length connectors ≤ j → psbts' !! j = psbts !! j).

Lemma update_input_one f p stack :
  one_input p → (∀ i, f i = Val (finalize_input i stack)) → update_input 0 f p = Val (with_stack stack p).
Proof.
  destruct p as [tx inputs]. unfold one_input. cbn [psbt_inputs]. intros Hp Hf.
  destruct inputs as [|i [|]]; try done. unfold update_input. cbn. by rewrite Hf.
Qed.

Lemma finalize_batch_from connectors k0 psbts :
  Forall one_input psbts → off + k0 + length connectors ≤ length psbts →
  soff + (k0 + length connectors) * elems ≤ length sigs →
  ∃ psbts', foldlM (λ psbts '(psbt_index, conn),
      p ← expect (psbts !! (off + psbt_index));
      let start_index := soff + psbt_index * elems in
      p ← update_input 0 (λ i, sigs ← slice start_index (start_index + elems) sigs; finalize conn i sigs) p;
      Val (<[off + psbt_index := p]> psbts)) psbts (imap (λ k, pair (k0 + k)) connectors) = Val psbts' ∧
    batch_finalized k0 connectors psbts psbts'.
Proof.
  revert k0 psbts. induction connectors as [|c connectors IH]; intros k0 psbts Hone Hlen Hsigs.
  { exists psbts. split; [done|]. by split_and!. }
  cbn [length] in Hlen, Hsigs. cbn [imap foldlM]. rewrite Nat.add_0_r.
  destruct (lookup_lt_is_Some_2 psbts (off + k0)) as [p Hp]; [lia|]. rewrite Hp. cbn [expect mbind comp_bind].
  destruct (finalize_spec c (take elems (drop (soff + k0 * elems) sigs))) as (stack & Hf & HR).
  rewrite slice_in by nia. cbn [mbind comp_bind].
  rewrite (update_input_one _ _ stack) by (done || by eapply Forall_lookup_1). cbn [mbind comp_bind].
  assert (one_input (with_stack stack p)) as Hone'.
  { unfold one_input, with_stack. cbn [psbt_inputs]. rewrite length_fmap. exact (Forall_lookup_1 _ _ _ _ Hone Hp). }
  destruct (IH (S k0) (<[off + k0 := with_stack stack p]> psbts)) as (psbts' & E & Hl & Ho & Hc & Hrest);
    [by apply Forall_insert|rewrite length_insert; lia|lia|].
  exists psbts'. split.
  { rewrite <- E. f_equal. apply imap_ext. intros k x _. cbn. by rewrite Nat.add_succ_r. }
  split_and!; [by rewrite Hl, length_insert|done| |].
  - intros [|k] c' Hk.
    + injection Hk as ->. rewrite Nat.add_0_r. exists stack. split; [done|].
      rewrite Hrest, list_lookup_insert_eq, Hp by lia. done.
    + destruct (Hc k c' Hk) as (stack' & HR' & Hj). exists stack'. rewrite Nat.add_succ_r. split; [done|].
      cbn [Nat.add] in Hj. rewrite Hj. rewrite list_lookup_insert_ne by lia. done.
  - intros j Hj. cbn [length] in Hj. rewrite Hrest by lia. apply list_lookup_insert_ne. lia.
Qed.

Lemma finalize_batch_spec connectors psbts :
  Forall one_input psbts → off + length connectors ≤ length psbts →
  soff + length connectors * elems ≤ length sigs →
  ∃ psbts', finalize_batch finalize connectors off soff elems sigs psbts = Val psbts' ∧
    batch_finalized 0 connectors psbts psbts'.
Proof. intros. apply (finalize_batch_from connectors 0); [done|lia|done]. Qed.

End batch.

Section finalize.
Context `{TaprootLaws, ConnectorLib, ScriptLib, !DustLaws, BitcoinLib, AssertLib, NmulLib, BuildProfile}.
Context `{ExtractLaws}.

Lemma extract_balanced p p' :
  balanced p → unsigned_tx p' = unsigned_tx p → witness_utxo <$> psbt_inputs p' = witness_utxo <$> psbt_inputs p →
  extract_or_panic p' = Val (extract_tx p').
Proof.
  intros (values & Hv & Hmax & Hsum) Hu Hw. unfold extract_or_panic.
  rewrite (extract_no_fee p' values); [done| |done|by rewrite Hu].
  rewrite <- Hv. unfold psbt_input_values. clear -Hw. revert Hw.
  generalize (psbt_inputs p) as l, (psbt_inputs p') as l'. intros l l'. revert l.
  induction l' as [|x l' IH]; intros [|y l] E; try done. cbn in E. injection E as E1 E2. cbn. by rewrite E1, (IH l).
Qed.

Lemma balanced_fee ty tx outs :
  (list_sum (value <$> outs) ≤ U64_MAX)%N → list_sum (value <$> outs) = list_sum (value <$> output tx) →
  balanced (mkPsbt tx (utxo_input ty <$> outs)).
Proof.
  intros Hmax Hsum. exists (value <$> outs). split_and!; [|done|done].
  unfold psbt_input_values. cbn [psbt_inputs]. clear. induction outs as [|o outs IH]; [done|]. cbn. by rewrite IH.
Qed.

Lemma update_input_single f tx i i' : f i = Val i' → update_input 0 f (mkPsbt tx [i]) = Val (mkPsbt tx [i']).
Proof. intros E. unfold update_input. cbn. by rewrite E. Qed.

Lemma extract_with_witnesses p :
  extract_tx p = with_witnesses (unsigned_tx p) ((λ i, default [] (final_script_witness i)) <$> psbt_inputs p).
Proof. unfold extract_tx, with_witnesses. by rewrite zip_with_fmap_r. Qed.

Lemma mapM_signed inputs sigs :
  length inputs = length sigs →
  mapM (λ '(index, i), sig ← expect (sigs !! index); Val (finalize_input i [serialize_schnorr sig])) (imap pair inputs)
  = Val (zip_with (λ i sig, finalize_input i [serialize_schnorr sig]) inputs sigs).
Proof.
  intros Hlen. apply mapM_comp_Val, Forall2_same_length_lookup_2.
  { rewrite length_imap, length_zip_with. lia. }
  intros j [k i] i' Hi Hi'. rewrite list_lookup_imap in Hi.
  apply lookup_zip_with_Some in Hi' as (x & sig & -> & Hx & Hs). rewrite Hx in Hi. simplify_eq/=. by rewrite Hs.
Qed.

Lemma zip_signed inputs sigs :
  length inputs = length sigs →
  let signed := zip_with (λ i sig, finalize_input i [serialize_schnorr sig]) inputs sigs in
  witness_utxo <$> signed = witness_utxo <$> inputs ∧
  (λ i, default [] (final_script_witness i)) <$> signed = (λ sig, [serialize_schnorr sig]) <$> sigs.
Proof.
  revert sigs. induction inputs as [|i inputs IH]; intros [|sig sigs] Hlen; try done.
  injection Hlen as Hlen. destruct (IH sigs Hlen) as [E1 E2]. cbn [zip_with fmap list_fmap]. split; by f_equal.
Qed.

Lemma serialize_default s : serialize_taproot (mkTaprootSignature s SighashDefault) = serialize_schnorr s.
Proof. apply app_nil_r. Qed.

Lemma claim_balanced op k c0 c1 n cpfp : balanced (claim_psbt (claim_spec op k c0 c1 n cpfp)).
Proof. apply (balanced_fee SighashDefault _ [mkTxOut FUNDING_AMOUNT _]); done. Qed.
Lemma payout_optimistic_balanced data c0 c1 n cp cpfp block :
  (pod_deposit_amount data + 27060 ≤ U64_MAX)%N →
  balanced (psbt (payout_optimistic_tx (payout_optimistic_spec data c0 c1 n cp cpfp block))).
Proof.
  intros Hamt.
  apply (balanced_fee SighashDefault _ [mkTxOut _ _; mkTxOut _ _; mkTxOut _ _; mkTxOut _ _; mkTxOut _ _]); cbn; lia.
Qed.
Lemma pre_assert_balanced claim_txid c0 cpfp f fh block :
  balanced (psbt (pre_assert_tx (pre_assert_spec claim_txid c0 cpfp f fh block))).
Proof. apply (balanced_fee SighashDefault _ [mkTxOut 26070 _]); done. Qed.
Lemma assert_data_balanced pre_assert_txid scripts n cpfp i :
  balanced (assert_data_spec pre_assert_txid scripts n cpfp i).
Proof. apply (balanced_fee SighashDefault _ [mkTxOut 660 _]); done. Qed.
Lemma post_assert_balanced txids n a3 cpfp :
  balanced (psbt (post_assert_tx (post_assert_spec txids n a3 cpfp))).
Proof. apply (balanced_fee SighashDefault _ (replicate NUM_ASSERT_DATA_TX (mkTxOut 330 _))); done. Qed.
Lemma payout_balanced data a3 n cp cpfp script block :
  (pd_deposit_amount data + 13200 ≤ U64_MAX)%N →
  balanced (psbt (payout_tx (payout_spec data a3 n cp cpfp script block))).
Proof.
  intros Hamt.
  apply (balanced_fee SighashDefault _ [mkTxOut _ _; mkTxOut _ _; mkTxOut _ _; mkTxOut _ _]); cbn; lia.
Qed.

Lemma claim_finalize op k c0 c1 n cpfp sig key :
  let claim := claim_spec op k c0 c1 n cpfp in
  ∃ block, ClaimTx_finalize claim sig = Val (with_witnesses (unsigned_tx (claim_psbt claim))
      [wots256_raw_witness sig ++ [K_create_locking_script k; serialize_control_block block]]) ∧
    spends key (k_network k) (Script (K_create_locking_script k) block) (K_output_script k).
Proof.
  intros claim. destruct (K_spend_info k key) as (block & E & Hs). exists block. split; [|exact Hs].
  unfold ClaimTx_finalize, K_finalize_input, update_input. cbn [claim_connector_k claim claim_spec]. rewrite E.
  reduce_psbt. rewrite (extract_balanced (claim_psbt claim)); [done|apply claim_balanced|done|done].
Qed.

Lemma challenge_finalize op amt opk network c1 sig :
  (330 ≤ amt ≤ U64_MAX)%N →
  let tx := challenge_spec op amt opk network c1 in
  ChallengeTx_finalize_presigned tx (C1Challenge sig)
  = Val (with_witnesses (unsigned_tx (psbt (challenge_tx tx))) [[serialize_taproot sig]]).
Proof.
  intros [Hamt Hmax] tx. unfold ChallengeTx_finalize_presigned, update_input. reduce_psbt.
  destruct (decide (amt = 330%N)) as [->|Hne].
  - by rewrite (extract_no_fee _ [330%N]).
  - rewrite (extract_too_much _ [330%N]); [done|done|cbn; lia|cbn; lia].
Qed.

Lemma payout_optimistic_finalize data c0 c1 n cp cpfp block sigs :
  (pod_deposit_amount data + 27060 ≤ U64_MAX)%N →
  C1_generate_spend_info c1 = Val (C1_generate_payout_script c1, block) →
  let tx := payout_optimistic_spec data c0 c1 n cp cpfp block in
  PayoutOptimisticTx_finalize tx sigs = Val (covenant_signed (payout_optimistic_tx tx) (vec_to_list sigs)).
Proof.
  intros Hamt E tx. unfold PayoutOptimisticTx_finalize, C1_finalize_input, update_input. cbn [po_connector_c1 tx payout_optimistic_spec].
  inv_vec sigs. intros s0 s1 s2 s3 s4.
  reduce_psbt. rewrite E. reduce_psbt. rewrite (extract_balanced (psbt (payout_optimistic_tx tx))).
  - unfold N_finalize_input. by rewrite !serialize_default.
  - by apply payout_optimistic_balanced.
  - done.
  - done.
Qed.

Lemma pre_assert_finalize claim_txid c0 cpfp f fh block sig :
  C0_generate_spend_info c0 = Val (C0_generate_payout_script c0, block) →
  let tx := pre_assert_spec claim_txid c0 cpfp f fh block in
  PreAssertTx_finalize tx sig = Val (covenant_signed (pre_assert_tx tx) [sig]).
Proof.
  intros E tx. unfold PreAssertTx_finalize. cbn [psbt pre_assert_tx tx pre_assert_spec].
  erewrite update_input_single by (unfold tx; cbn [C0_finalize_input pre_assert_connector_c0 pre_assert_spec]; by rewrite E).
  cbn [mbind comp_bind]. rewrite (extract_balanced (psbt (pre_assert_tx tx))); [done|apply pre_assert_balanced|done|done].
Qed.

Lemma post_assert_finalize txids n a3 cpfp sigs :
  length sigs = NUM_ASSERT_DATA_TX →
  let tx := post_assert_spec txids n a3 cpfp in
  PostAssertTx_finalize tx sigs = Val (covenant_signed (post_assert_tx tx) sigs).
Proof.
  intros Hlen tx. unfold PostAssertTx_finalize.
  assert (length (psbt_inputs (psbt (post_assert_tx tx))) = length sigs) as Hn.
  { rewrite Hlen. unfold tx, post_assert_spec. cbn [post_assert_tx psbt psbt_inputs].
    by rewrite length_fmap, length_replicate. }
  rewrite (mapM_signed _ sigs) by done. cbn [mbind comp_bind]. destruct (zip_signed _ _ Hn) as [Hu Hw].
  rewrite (extract_balanced (psbt (post_assert_tx tx))); [|apply post_assert_balanced|done|exact Hu].
  rewrite extract_with_witnesses. unfold covenant_signed. cbn [unsigned_tx psbt_inputs]. rewrite Hw.
  do 2 f_equal. unfold tx. cbn [post_assert_tx witnesses post_assert_spec].
  rewrite vec_to_list_replicate, zip_with_replicate_l by (rewrite length_fmap, Hlen; done).
  by rewrite <- list_fmap_compose.
Qed.

Lemma payout_finalize data a3 n cp cpfp script block sigs :
  (pd_deposit_amount data + 13200 ≤ U64_MAX)%N →
  A3_generate_spend_info a3 (A3Payout None) = Val (script, block) →
  let tx := payout_spec data a3 n cp cpfp script block in
  PayoutTx_finalize tx a3 sigs = Val (covenant_signed (payout_tx tx) (vec_to_list sigs)).
Proof.
  intros Hamt E tx. unfold PayoutTx_finalize, A3_finalize_input, update_input.
  inv_vec sigs. intros s0 s1 s2 s3.
  change (A3_generate_spend_info a3 (A3Payout (Some (nth 1 _ _)))) with (A3_generate_spend_info a3 (A3Payout None)).
  rewrite E. reduce_psbt. rewrite (extract_balanced (psbt (payout_tx tx))).
  - unfold N_finalize_input. by rewrite !serialize_default.
  - by apply payout_balanced.
  - done.
  - done.
Qed.

(** See [graph_finalizes]. *)
Lemma generated_finalizes input context deposit_txid gp cp sp prev g c :
  (N.of_nat (2 + NUM_TAPS) ≤ 2 ^ 128)%N → (deposit_amount gp + 27060 ≤ U64_MAX)%N →
  prev = [] ∨ (330 ≤ burn_amount sp)%N → (330 ≤ challenge_cost gp ≤ U64_MAX)%N →
  PegOutGraph_generate input context deposit_txid gp cp sp prev = Val (g, c) →
  let k_script := K_create_locking_script (kickoff c) in
  let presigned sig := mkTaprootSignature sig SighashSingle in
  (∀ sig, ∃ block,
    ClaimTx_finalize (pog_claim_tx g) sig = Val (with_witnesses (unsigned_tx (graph_claim g))
      [wots256_raw_witness sig ++ [k_script; serialize_control_block block]]) ∧
    spends (tbc_aggregated_pubkey context) (tbc_network context) (Script k_script block) (K_output_script (kickoff c))) ∧
  (∀ sig, ChallengeTx_finalize_presigned (pog_challenge_tx g) (C1Challenge sig)
    = Val (with_witnesses (unsigned_tx (graph_challenge g)) [[serialize_taproot sig]])) ∧
  (∀ sigs, PayoutOptimisticTx_finalize (pog_payout_optimistic g) sigs
    = Val (covenant_signed (payout_optimistic_tx (pog_payout_optimistic g)) (vec_to_list sigs))) ∧
  (∀ sig, PreAssertTx_finalize (chain_pre_assert (pog_assert_chain g)) sig
    = Val (covenant_signed (pre_assert_tx (chain_pre_assert (pog_assert_chain g))) [sig])) ∧
  (∀ sigs, length sigs = NUM_ASSERT_DATA_TX →
    PostAssertTx_finalize (chain_post_assert (pog_assert_chain g)) sigs
    = Val (covenant_signed (post_assert_tx (chain_post_assert (pog_assert_chain g))) sigs)) ∧
  (∀ sigs, PayoutTx_finalize (pog_payout_tx g) (post_assert_out_0 c) sigs
    = Val (covenant_signed (payout_tx (pog_payout_tx g)) (vec_to_list sigs))) ∧
  (∀ tx claim_sig stake_sig, tx ∈ pog_slash_stake_txs g →
    SlashStakeTx_finalize tx claim_sig stake_sig (stake c)
    = Val (with_witnesses (unsigned_tx (psbt tx))
        [[serialize_taproot (presigned claim_sig)]; [serialize_taproot (presigned stake_sig)]])) ∧
  Forall balanced ([graph_claim g; graph_payout_optimistic g; graph_pre_assert g; graph_post_assert g;
    graph_payout g] ++ graph_assert_data g).
Proof.
  intros Htaps Hamt Hburn Hcost Hg k_script presigned.
  destruct (generate_spec input context deposit_txid gp cp sp prev) as (a3 & b1 & b0 & b3 & E & Hf);
    [done|done|done|].
  rewrite Hg in E. injection E as -> ->.
  split_and!.
  - intros sig. apply claim_finalize.
  - intros sig. by apply challenge_finalize.
  - intros sigs. apply payout_optimistic_finalize; [done|apply (facts_c1 _ _ _ _ _ _ _ _ _ Hf)].
  - intros sig. apply pre_assert_finalize, (facts_c0 _ _ _ _ _ _ _ _ _ Hf).
  - intros sigs. apply post_assert_finalize.
  - intros sigs. apply payout_finalize; [cbn; lia|apply (facts_payout _ _ _ _ _ _ _ _ _ Hf)].
  - by intros tx s1 s2 (txid & -> & _)%list_elem_of_fmap.
  - apply Forall_app. split; [|apply graph_assert_data_all; intros; apply assert_data_balanced].
    repeat (apply Forall_cons; split); [apply claim_balanced|by apply payout_optimistic_balanced
      |apply pre_assert_balanced|apply post_assert_balanced|apply payout_balanced; cbn; lia|constructor].
Qed.

(** Signed graphs can be published.  When a graph has been generated, the claim is finalized with
    any Winternitz signature, and the pre-assert, the post-assert, both payouts, the slashings
    and the challenge are with any Schnorr signatures: no check of the fee or of a control block
    fails, and every signature is put, alone or with the script and its control block, on the
    input whose hash it signs.  But for the challenge, the disproof and the slashings, the
    transactions pay out all that they take in, and leave the fee to a child. *)
Theorem graph_finalizes input context deposit_txid gp cp sp prev g c :
  (N.of_nat (2 + NUM_TAPS) ≤ 2 ^ 128)%N → (deposit_amount gp + 27060 ≤ U64_MAX)%N →
  prev = [] ∨ (330 ≤ burn_amount sp)%N → (330 ≤ challenge_cost gp ≤ U64_MAX)%N →
  PegOutGraph_generate input context deposit_txid gp cp sp prev = Val (g, c) →
  let k_script := K_create_locking_script (kickoff c) in
  let presigned sig := mkTaprootSignature sig SighashSingle in
  (∀ sig, ∃ block,
    ClaimTx_finalize (pog_claim_tx g) sig = Val (with_witnesses (unsigned_tx (graph_claim g))
      [wots256_raw_witness sig ++ [k_script; serialize_control_block block]]) ∧
    spends (tbc_aggregated_pubkey context) (tbc_network context) (Script k_script block) (K_output_script (kickoff c))) ∧
  (∀ sig, ChallengeTx_finalize_presigned (pog_challenge_tx g) (C1Challenge sig)
    = Val (with_witnesses (unsigned_tx (graph_challenge g)) [[serialize_taproot sig]])) ∧
  (∀ sigs, PayoutOptimisticTx_finalize (pog_payout_optimistic g) sigs
    = Val (covenant_signed (payout_optimistic_tx (pog_payout_optimistic g)) (vec_to_list sigs))) ∧
  (∀ sig, PreAssertTx_finalize (chain_pre_assert (pog_assert_chain g)) sig
    = Val (covenant_signed (pre_assert_tx (chain_pre_assert (pog_assert_chain g))) [sig])) ∧
  (∀ sigs, length sigs = NUM_ASSERT_DATA_TX →
    PostAssertTx_finalize (chain_post_assert (pog_assert_chain g)) sigs
    = Val (covenant_signed (post_assert_tx (chain_post_assert (pog_assert_chain g))) sigs)) ∧
  (∀ sigs, PayoutTx_finalize (pog_payout_tx g) (post_assert_out_0 c) sigs
    = Val (covenant_signed (payout_tx (pog_payout_tx g)) (vec_to_list sigs))) ∧
  (∀ tx claim_sig stake_sig, tx ∈ pog_slash_stake_txs g →
    SlashStakeTx_finalize tx claim_sig stake_sig (stake c)
    = Val (with_witnesses (unsigned_tx (psbt tx))
        [[serialize_taproot (presigned claim_sig)]; [serialize_taproot (presigned stake_sig)]])) ∧
  Forall balanced ([graph_claim g; graph_payout_optimistic g; graph_pre_assert g; graph_post_assert g;
    graph_payout g] ++ graph_assert_data g).
Proof. apply generated_finalizes. Qed.

(** ** The assert-data transactions *)

(** The [i]th share of [e] signatures or keys. *)
Abbreviation share e off i l := (take e (drop (off + i * e) l)) (only parsing).

Lemma batch_psbts (R256 : ConnectorA256 → list (list (list N)) → list (list N) → Prop)
    (Rhash : ConnectorAHash → list (list (list N)) → list (list N) → Prop) f fh sigs batch :
  (∀ c s, ∃ stack, (∀ i, A256_finalize_input c i s = Val (finalize_input i stack)) ∧ R256 c s stack) →
  (∀ c s, ∃ stack, (∀ i, AHash_finalize_input c i s = Val (finalize_input i stack)) ∧ Rhash c s stack) →
  length (f256_public_keys f) = NUM_PKS_A256 → length (fhash_public_keys fh) = NUM_PKS_A_HASH →
  Forall one_input (vec_to_list batch) →
  let sigs256 := Vector.hd (sig_public_inputs (sig_groth16 sigs)) :: vec_to_list (sig_field_elems (sig_groth16 sigs)) in
  let sigs_hash := vec_to_list (sig_hashes (sig_groth16 sigs)) in
  ∃ psbts, AssertDataTxBatch_finalize batch fh f sigs = mapM extract_or_panic psbts ∧
    length psbts = NUM_ASSERT_DATA_TX ∧
    (∀ k c, field_connectors f !! k = Some c → ∃ stack, R256 c (share 5 0 k sigs256) stack ∧
      psbts !! k = with_stack stack <$> vec_to_list batch !! k) ∧
    (∀ k c, hash_connectors_1 fh !! k = Some c → ∃ stack, Rhash c (share 10 0 k sigs_hash) stack ∧
      psbts !! (3 + k) = with_stack stack <$> vec_to_list batch !! (3 + k)) ∧
    (∀ k c, hash_connectors_2 fh !! k = Some c → ∃ stack, Rhash c (share 11 330 k sigs_hash) stack ∧
      psbts !! (36 + k) = with_stack stack <$> vec_to_list batch !! (36 + k)).
Proof.
  intros Hfin256 Hfinhash Hf Hh Hone sigs256 sigs_hash. unfold AssertDataTxBatch_finalize.
  rewrite A256_connectors, AHash_connectors by done. cbn [mbind comp_bind]. fold sigs256. fold sigs_hash.
  assert (length sigs256 = NUM_PKS_A256) as H256.
  { unfold sigs256. cbn [length]. by rewrite length_vec_to_list. }
  assert (length sigs_hash = NUM_PKS_A_HASH) as Hhash by apply length_vec_to_list.
  destruct (finalize_batch_spec A256_finalize_input R256 0 0
    5 sigs256 Hfin256 (field_connectors f) (vec_to_list batch))
    as (p1 & E1 & Hl1 & Ho1 & Hc1 & Hr1);
    [done|by rewrite length_vec_to_list; apply Nat.leb_le|by rewrite H256; apply Nat.leb_le|].
  change (finalize_batch A256_finalize_input (field_connectors f) _ _ _ _ _)
    with (finalize_batch A256_finalize_input (field_connectors f) 0 0 5 sigs256 (vec_to_list batch)).
  rewrite E1. cbn [mbind comp_bind]. rewrite length_vec_to_list in Hl1.
  change (finalize_batch A256_finalize_input [] _ _ _ _ p1) with (Val p1). cbn [mbind comp_bind].
  destruct (finalize_batch_spec AHash_finalize_input Rhash 3 0 10 sigs_hash Hfinhash
    (hash_connectors_1 fh) p1) as (p2 & E2 & Hl2 & Ho2 & Hc2 & Hr2);
    [done|by rewrite Hl1; apply Nat.leb_le|by rewrite Hhash; apply Nat.leb_le|].
  change (finalize_batch AHash_finalize_input (hash_connectors_1 fh) _ _ _ _ _)
    with (finalize_batch AHash_finalize_input (hash_connectors_1 fh) 3 0 10 sigs_hash p1).
  rewrite E2. cbn [mbind comp_bind]. rewrite Hl1 in Hl2.
  destruct (finalize_batch_spec AHash_finalize_input Rhash 36 330 11 sigs_hash Hfinhash
    (hash_connectors_2 fh) p2) as (p3 & E3 & Hl3 & Ho3 & Hc3 & Hr3);
    [done|by rewrite Hl2; apply Nat.leb_le|by rewrite Hhash; apply Nat.leb_le|].
  change (finalize_batch AHash_finalize_input (hash_connectors_2 fh) _ _ _ _ _)
    with (finalize_batch AHash_finalize_input (hash_connectors_2 fh) 36 330 11 sigs_hash p2).
  rewrite E3. cbn [mbind comp_bind]. exists p3. split_and!; [done|by rewrite Hl3| | |].
  - intros k c Hk. apply lookup_lt_Some in Hk as Hlt. change (k < 3) in Hlt.
    rewrite Hr3, Hr2 by lia. exact (Hc1 k c Hk).
  - intros k c Hk. apply lookup_lt_Some in Hk as Hlt. change (k < 33) in Hlt.
    destruct (Hc2 k c Hk) as (stack & HR & E). exists stack. split; [exact HR|].
    rewrite Hr3 by lia. rewrite <- Hr1 by (cbn; lia). exact E.
  - intros k c Hk. destruct (Hc3 k c Hk) as (stack & HR & E). exists stack. split; [exact HR|].
    rewrite <- Hr1, <- Hr2 by (cbn; lia). exact E.
Qed.

Context `{!ScriptContext, !AssertFunctions, !AssertLaws}.

(** A stack for an output, which its script accepts when the signatures on it are valid. *)
Definition opening (key : XOnlyPublicKey) (network : Network) (elems : list ScriptElem) (script_pubkey : ScriptBuf)
    (valid : Prop) (stack : list (list N)) : Prop :=
  ∃ st block, stack = st ++ [compile elems; serialize_control_block block] ∧
    spends key network (Script (compile elems) block) script_pubkey ∧ (valid → script_succeeds elems st = true).

Definition A256_opening key (c : ConnectorA256) (sigs : list (list (list N))) : list (list N) → Prop :=
  opening key (a256_network c) (A256_script c) (A256_output_script c)
    (Forall2 field_witness_valid (a256_public_keys c) sigs).
Definition AHash_opening key (c : ConnectorAHash) (sigs : list (list (list N))) : list (list N) → Prop :=
  opening key (ahash_network c) (AHash_script c) (AHash_output_script c)
    (Forall2 hash_witness_valid (ahash_public_keys c) sigs).

Lemma A256_finalize_spec key c s :
  ∃ stack, (∀ i, A256_finalize_input c i s = Val (finalize_input i stack)) ∧ A256_opening key c s stack.
Proof.
  destruct (A256_finalize_stack key c s) as (block & Hf & Hs). eexists. split; [exact Hf|].
  exists (s ≫= wots256_raw_witness), block. split_and!; [done|exact Hs|apply A256_script_accepts].
Qed.
Lemma AHash_finalize_spec key c s :
  ∃ stack, (∀ i, AHash_finalize_input c i s = Val (finalize_input i stack)) ∧ AHash_opening key c s stack.
Proof.
  destruct (AHash_finalize_stack key c s) as (block & Hf & Hs). eexists. split; [exact Hf|].
  exists (s ≫= wots_hash_raw_witness), block. split_and!; [done|exact Hs|apply AHash_script_accepts].
Qed.

Lemma opening_valid key network elems spk (valid : Prop) stack :
  opening key network elems spk valid stack → valid → opening key network elems spk True stack.
Proof. intros (st & block & E & Hs & Hv) H'. exists st, block. by split_and!; [..|auto]. Qed.

(** The outputs of the pre-assert open, each with the shares of the signatures for its keys. *)
Lemma batch_opens f fh sigs batch key :
  length (f256_public_keys f) = NUM_PKS_A256 → length (fhash_public_keys fh) = NUM_PKS_A_HASH →
  f256_network f = fhash_network fh → Forall one_input (vec_to_list batch) →
  Forall2 field_witness_valid (f256_public_keys f)
    (Vector.hd (sig_public_inputs (sig_groth16 sigs)) :: vec_to_list (sig_field_elems (sig_groth16 sigs))) →
  Forall2 hash_witness_valid (fhash_public_keys fh) (vec_to_list (sig_hashes (sig_groth16 sigs))) →
  ∃ psbts, AssertDataTxBatch_finalize batch fh f sigs = mapM extract_or_panic psbts ∧
    Forall2 (λ script_pubkey '(p, p'), ∃ elems stack,
      opening key (f256_network f) elems script_pubkey True stack ∧ p' = with_stack stack p)
      (commitment_scripts f fh) (zip (vec_to_list batch) psbts) ∧
    length psbts = NUM_ASSERT_DATA_TX.
Proof.
  intros Hf Hh Hnet Hone H256 Hhash.
  destruct (batch_psbts (A256_opening key) (AHash_opening key) f fh sigs batch (A256_finalize_spec key)
    (AHash_finalize_spec key) Hf Hh Hone) as (psbts & E & Hl & Hc1 & Hc2 & Hc3).
  exists psbts. split_and!; [done| |done]. apply Forall2_same_length_lookup_2.
  { by rewrite length_commitment_scripts, length_zip_with, length_vec_to_list, Hl. }
  intros j spk [p p'] Hj Hpp. apply lookup_zip_with_Some in Hpp as (? & ? & [= <- <-] & Hp & Hp').
  unfold commitment_scripts, hash_connectors in Hj. rewrite fmap_app in Hj.
  apply lookup_app_Some in Hj as [Hj|[Hge Hj]]; [|apply lookup_app_Some in Hj as [Hj|[Hge' Hj]]];
    apply list_lookup_fmap_Some in Hj as (c & -> & Hj).
  - destruct (Hc1 _ _ Hj) as (stack & Ho & Ej). rewrite Hp, Hp' in Ej. injection Ej as ->.
    apply list_lookup_fmap_Some in Hj as (i & -> & [-> _]%lookup_seq).
    do 2 eexists. split; [|done]. apply (opening_valid _ _ _ _ _ _ Ho). by apply Forall2_take, Forall2_drop.
  - change (length (A256_output_script <$> field_connectors f)) with 3 in *. destruct (Hc2 _ _ Hj) as (stack & Ho & Ej).
    replace (3 + (j - 3)) with j in Ej by lia. rewrite Hp, Hp' in Ej. injection Ej as ->.
    apply list_lookup_fmap_Some in Hj as (i & -> & [-> _]%lookup_seq). rewrite Hnet.
    do 2 eexists. split; [|done]. apply (opening_valid _ _ _ _ _ _ Ho). by apply Forall2_take, Forall2_drop.
  - change (length (A256_output_script <$> field_connectors f)) with 3 in *.
    change (length (AHash_output_script <$> hash_connectors_1 fh)) with 33 in *.
    destruct (Hc3 _ _ Hj) as (stack & Ho & Ej).
    replace (36 + (j - 3 - 33)) with j in Ej by lia. rewrite Hp, Hp' in Ej. injection Ej as ->.
    apply list_lookup_fmap_Some in Hj as (i & -> & [-> _]%lookup_seq). rewrite Hnet.
    do 2 eexists. split; [|done]. apply (opening_valid _ _ _ _ _ _ Ho). by apply Forall2_take, Forall2_drop.
Qed.

(** A transaction that spends its output through a script, which accepts. *)
Definition accepted (key : XOnlyPublicKey) (network : Network) (p : Psbt) (tx : Transaction) : Prop :=
  ∃ o elems stack block, witness_utxo <$> psbt_inputs p = [Some o] ∧
    tx = with_witnesses (unsigned_tx p) [stack ++ [compile elems; serialize_control_block block]] ∧
    spends key network (Script (compile elems) block) (script_pubkey o) ∧ script_succeeds elems stack = true.

Lemma mapM_accepted {A B D} (f : B → comp D) (Q : A → D → Prop) l k :
  Forall2 (λ x y, ∃ z, f y = Val z ∧ Q x z) l k → ∃ zs, mapM f k = Val zs ∧ Forall2 Q l zs.
Proof.
  induction 1 as [|x y l k (z & E & HQ) _ (zs & Es & IH)]; [by exists []|].
  exists (z :: zs). cbn [mapM]. rewrite E. cbn [mbind comp_bind]. rewrite Es. by split; [|constructor].
Qed.

Lemma assert_data_accepted_one key network pre_assert_txid scripts n cpfp i spk elems stack :
  nth i scripts [] = spk → opening key network elems spk True stack →
  let p := assert_data_spec pre_assert_txid scripts n cpfp i in
  ∃ tx, extract_or_panic (with_stack stack p) = Val tx ∧ accepted key network p tx.
Proof.
  intros Hspk (st & block & -> & Hs & Ha) p. eexists. split.
  { apply (extract_balanced p); [apply assert_data_balanced|done|done]. }
  exists (mkTxOut 660 (nth i scripts [])), elems, st, block. rewrite <- Hspk in Hs. split_and!; auto.
Qed.

(** C20: An operator's assertion goes through.  Finalizing the assert-data transactions of a graph with
    the Winternitz signatures of the assertion, valid for the operator's keys, never panics, and
    gives for each transaction of the graph one with the same inputs and outputs, which spends
    its output of the pre-assert with a script of that output's tree, on a stack that the script
    accepts: the signatures of the 14 field elements, the public inputs and the 363 hashes each
    meet the script that checks their key. *)
Theorem assertion_accepted input context deposit_txid gp cp sp prev g c sigs :
  (N.of_nat (2 + NUM_TAPS) ≤ 2 ^ 128)%N → (deposit_amount gp + 27060 ≤ U64_MAX)%N →
  prev = [] ∨ (330 ≤ burn_amount sp)%N →
  PegOutGraph_generate input context deposit_txid gp cp sp prev = Val (g, c) →
  Forall2 field_witness_valid (Vector.hd (g16_public_inputs (groth16 (wots_public_keys input)))
      :: vec_to_list (g16_fqs (groth16 (wots_public_keys input))))
    (Vector.hd (sig_public_inputs (sig_groth16 sigs)) :: vec_to_list (sig_field_elems (sig_groth16 sigs))) →
  Forall2 hash_witness_valid (vec_to_list (g16_hashes (groth16 (wots_public_keys input))))
    (vec_to_list (sig_hashes (sig_groth16 sigs))) →
  ∃ txs, AssertDataTxBatch_finalize (chain_assert_data (pog_assert_chain g)) (assert_data_hash_factory c)
      (assert_data256_factory c) sigs = Val txs ∧
    Forall2 (accepted (tbc_aggregated_pubkey context) (tbc_network context)) (graph_assert_data g) txs.
Proof.
  intros Htaps Hamt Hburn Hg H256 Hhash.
  destruct (generate_spec input context deposit_txid gp cp sp prev) as (a3 & b1 & b0 & b3 & E & Hf);
    [done|done|done|].
  rewrite Hg in E. injection E as -> ->. set (g := graph_spec _ _ _ _ _ _ _ _ _ _ _).
  set (c := graph_connectors _ _ _ _ _).
  assert (graph_assert_data g = assert_data_spec (covenant_txid (pre_assert_tx (chain_pre_assert (pog_assert_chain g))))
    (commitment_scripts (assert_data256_factory c) (assert_data_hash_factory c)) (n_of_n c) (connector_cpfp c) <$> seq 0 NUM_ASSERT_DATA_TX) as Hbatch
    by apply array_from_fn_list.
  destruct (batch_opens (assert_data256_factory c) (assert_data_hash_factory c) sigs
    (chain_assert_data (pog_assert_chain g)) (tbc_aggregated_pubkey context)) as (psbts & E & Hopen & Hlen);
    [cbn; by rewrite length_vec_to_list|apply length_vec_to_list|done| |done|done|].
  { by apply (graph_assert_data_all one_input input context deposit_txid gp cp sp prev a3 b1 b0 b3). }
  rewrite E. apply mapM_accepted. fold (graph_assert_data g) in Hopen. rewrite Hbatch in Hopen |- *.
  apply Forall2_same_length_lookup_2; [by rewrite length_fmap, length_seq|].
  intros j p p' Hp Hp'. apply list_lookup_fmap_Some in Hp as Hj. destruct Hj as (i & -> & [-> Hlt]%lookup_seq).
  destruct (nth_lookup_or_length (commitment_scripts (assert_data256_factory c) (assert_data_hash_factory c)) j [])
    as [Hs|Hs]; [|rewrite length_commitment_scripts in Hs; lia].
  eapply Forall2_lookup_lr in Hopen; [|exact Hs|apply lookup_zip_with_Some; eauto].
  destruct Hopen as (elems & stack & Ho & ->). by eapply assert_data_accepted_one.
Qed.

End finalize.

(** ** Witnesses *)

(** A library that refuses to extract a transaction only when it sends too much. *)
Definition example_extract : ExtractLib := λ p,
  match psbt_input_values p with
  | None => Err MissingInputValue
  | Some values =>
      if decide (list_sum values < list_sum (value <$> output (unsigned_tx p)))%N then Err SendingTooMuch
      else Ok (extract_tx p)
  end.

#[local] Existing Instances example_taproot example_field_connectors example_dust example_txids example_assert
  example_assert_nmul example_graph_profile example_extract example_assert_context example_functions.

#[global] Instance example_extract_laws : @ExtractLaws example_extract.
Proof.
  split; intros p values Hv.
  - intros _ Hs. unfold psbt_extract_tx, example_extract. rewrite Hv. rewrite decide_False by lia. done.
  - intros Hs _. unfold psbt_extract_tx, example_extract. rewrite Hv. by rewrite decide_True.
Qed.

Lemma graph_finalizes_witness :
  ∃ g c, example_generate [] = Val (g, c) ∧
    PreAssertTx_finalize (chain_pre_assert (pog_assert_chain g)) 5
    = Val (covenant_signed (pre_assert_tx (chain_pre_assert (pog_assert_chain g))) [5%N]).
Proof.
  destruct (example_generated []) as (g & c & E). exists g, c. split; [exact E|].
  destruct (graph_finalizes example_input example_context (covenant_txid example_deposit_built)
    PegOutGraphParams_default ConnectorParams_default StakeChainParams_default [] g c)
    as (_ & _ & _ & Hs & _); [done|done|by left|split; done|exact E|exact (Hs 5%N)].
Defined.

Definition example_signatures : Signatures :=
  mkSignatures [[1%N]] (mkGroth16Sigs (vreplicate _ [[2%N]]) (vreplicate _ [[3%N]]) (vreplicate _ [[4%N]])).

Lemma assertion_accepted_witness :
  ∃ g c txs, example_generate [] = Val (g, c) ∧
    AssertDataTxBatch_finalize (chain_assert_data (pog_assert_chain g)) (assert_data_hash_factory c)
      (assert_data256_factory c) example_signatures = Val txs ∧
    Forall2 (accepted (tbc_aggregated_pubkey example_context) (tbc_network example_context)) (graph_assert_data g) txs.
Proof.
  destruct (example_generated []) as (g & c & E). exists g, c.
  destruct (assertion_accepted example_input example_context (covenant_txid example_deposit_built)
    PegOutGraphParams_default ConnectorParams_default StakeChainParams_default [] g c example_signatures)
    as (txs & Ht & Ha); [done|done|by left|exact E| | |].
  - apply Forall2_same_length_lookup_2; [reflexivity|intros; exact I].
  - apply Forall2_same_length_lookup_2; [reflexivity|intros; exact I].
  - exists txs. split; [exact E|]. split; [exact Ht|exact Ha].
Defined.
