(* ===== verification/BesideGraph.v ===== *)
(** * Transactions beside the graph

    ([tx-graph/src/transactions/cpfp.rs] and [burn_payouts.rs])

    The transactions of a graph pay no fees.  A child that spends the last output of one of them
    pays for both ([Cpfp]); and once the preimage of an operator's stake is out, anybody can burn
    the output that their payouts need ([BurnPayoutsTx]). *)

From S2P Require Import Prelude Bitcoin PogMusig Wots TxTypes Taproot Deposit Predicates Connectors Script StakeChain.
From S2P Require Import SpendConditions ConnectorsAssert DisproveScript TxGraph PegOutGraph GraphSpec GraphProperties.
From S2P Require Import GraphFinalize.

(** ** Library *)

Abbreviation FeeRate := N (only parsing).
Abbreviation Weight := N (only parsing).

(** [Transaction::weight] and [FeeRate::checked_mul_by_weight]. *)
Class WeightLib := {
  tx_weight : Transaction → Weight;
  checked_mul_by_weight : FeeRate → Weight → option Amount;
}.

(** The errors, without the texts of the messages. *)
Inductive TxError :=
| BuildTx (e : BridgeTxBuilderError)
| FinalizationFailed (e : ExtractTxError)
| InsufficientInputAmount (input output : Amount)
| InvalidVout (vout : N)
| EmptyWitness (txid : Txid)
| InvalidWitness
| NotEnoughSignatures (expected got : N)
| InvalidFeeRate (fee_rate : FeeRate)
| UnexpectedTxError.

(** ** Child pays for parent *)

Record CpfpInput := mkCpfpInput {
  parent_tx : Transaction;
  parent_input_amount : Amount;
  parent_vout : N;
}.

Record Cpfp := mkCpfp {
  cpfp_psbt : Psbt;
  parent_weight : Weight;
  parent_fees : Amount;
}.

Definition PARENT_INPUT_INDEX : nat := 0.
Definition FUNDING_INPUT_INDEX : nat := 1.

Section cpfp.
Context `{TaprootLib, ConnectorLib, BitcoinLib, WeightLib, ExtractLib, BuildProfile}.

Definition CpfpInput_new (parent_tx : Transaction) (parent_input_amount : Amount) (vout : N)
    : result TxError CpfpInput :=
  if (N.of_nat (length (output parent_tx)) mod 2 ^ 32 <=? vout)%N then Err (InvalidVout vout) else
  if existsb (λ txin, bool_decide (witness txin = [])) (input parent_tx) then
    Err (EmptyWitness (compute_txid parent_tx))
  else Ok (mkCpfpInput parent_tx parent_input_amount vout).

Definition Cpfp_new (details : CpfpInput) (connector_cpfp : ConnectorCpfp) : comp Cpfp :=
  let dummy_funding_outpoint := mkOutPoint 0 0 in
  let utxos := [mkOutPoint (compute_txid (parent_tx details)) (parent_vout details); dummy_funding_outpoint] in
  let tx := create_tx (create_tx_ins utxos) (create_tx_outs [([], 0%N)]) in
  let tx := if (version (parent_tx details) =? VERSION_THREE)%N then with_version VERSION_THREE tx else tx in
  parent_output ← expect (output (parent_tx details) !! N.to_nat (parent_vout details));
  let parent_prevout := mkTxOut (value parent_output) (Cpfp_generate_taproot_address connector_cpfp) in
  let p := mkPsbt tx [mkPsbtInput (Some parent_prevout) None None; mkPsbtInput (Some (mkTxOut 0 [])) None None] in
  parent_output_amount ← amount_sum (value <$> output (parent_tx details));
  parent_fees ← amount_sub (parent_input_amount details) parent_output_amount;
  Val (mkCpfp p (tx_weight (parent_tx details)) parent_fees).

Definition estimate_package_fee (self : Cpfp) (fee_rate : FeeRate) : comp (result TxError Amount) :=
  weight ← u64_add (tx_weight (unsigned_tx (cpfp_psbt self))) (parent_weight self);
  match checked_mul_by_weight fee_rate weight with
  | None => Val (Err (InvalidFeeRate fee_rate))
  | Some child_fees => fee ← amount_sub child_fees (parent_fees self); Val (Ok fee)
  end.

Definition add_funding (self : Cpfp) (funding_prevout : TxOut) (funding_outpoint : OutPoint)
    (change_address : ScriptBuf) (fee_rate : FeeRate) : comp (result TxError Cpfp) :=
  let funding_amount := value funding_prevout in
  package_fee ← estimate_package_fee self fee_rate;
  match package_fee with
  | Err e => Val (Err e)
  | Ok package_fee =>
      change_amount ← amount_sub funding_amount package_fee;
      p ← with_witness_utxo 1 funding_prevout (cpfp_psbt self);
      let tx := unsigned_tx p in
      txin ← expect (input tx !! 1);
      _ ← expect (output tx !! 0);
      let tx := mkTransaction (version tx) (lock_time tx)
        (<[1 := mkTxIn funding_outpoint (script_sig txin) (sequence txin) (witness txin)]> (input tx))
        (<[0 := mkTxOut change_amount change_address]> (output tx)) in
      Val (Ok (mkCpfp (mkPsbt tx (psbt_inputs p)) (parent_weight self) (parent_fees self)))
  end.

Definition Cpfp_finalize (self : Cpfp) (funding_witness : list (list N)) (parent_signature : SchnorrSignature)
    : comp (result TxError Transaction) :=
  p ← update_input FUNDING_INPUT_INDEX (λ i, Val (finalize_input i funding_witness)) (cpfp_psbt self);
  match psbt_inputs p !! PARENT_INPUT_INDEX with
  | None => Val (Err UnexpectedTxError)
  | Some parent_input =>
      let p := mkPsbt (unsigned_tx p)
        (<[PARENT_INPUT_INDEX := Cpfp_finalize_input parent_input parent_signature]> (psbt_inputs p)) in
      Val (match psbt_extract_tx p with Ok tx => Ok tx | Err _ => Err UnexpectedTxError end)
  end.

(** ** Burning payouts *)

Record BurnPayoutsTx := mkBurnPayoutsTx {
  burn_psbt : Psbt;
  burn_witnesses : vec TaprootWitness 1;
}.

Definition BurnPayoutsTx_new `{DescriptorLib} (stake_out : OutPoint) (recipient_addr : Descriptor)
    (hashlock_connector : ConnectorP) : comp BurnPayoutsTx :=
  let tx := create_tx (create_tx_ins [stake_out]) (create_tx_outs [(to_script recipient_addr, SEGWIT_MIN_AMOUNT)]) in
  address ← P_generate_address hashlock_connector;
  p ← with_witness_utxo 0 (mkTxOut SEGWIT_MIN_AMOUNT address) (from_unsigned_tx tx);
  p ← with_sighash_type 0 SighashDefault p;
  '(hashlock_script, block) ← P_generate_spend_info hashlock_connector;
  Val (mkBurnPayoutsTx p [# Script hashlock_script block]).

Definition BurnPayoutsTx_finalize (self : BurnPayoutsTx) (preimage : list N) (hashlock_connector : ConnectorP)
    : comp Transaction :=
  p ← update_input 0 (λ i, P_finalize hashlock_connector i (SpBurnPayouts preimage)) (burn_psbt self);
  extract_or_panic p.

End cpfp.

(** ** Properties *)

Section properties.
Context `{TaprootLaws, ConnectorLib, ScriptLib, !DustLaws, BitcoinLib, AssertLib, NmulLib, BuildProfile}.
Context `{ExtractLaws, WeightLib}.

(** A transaction that ends in the output for a child, and pays no fee. *)
Definition bumpable (connector : ConnectorCpfp) (p : Psbt) : Prop :=
  balanced p ∧ (∃ outs, output (unsigned_tx p) = outs ++ [cpfp_output connector]) ∧
  (N.of_nat (length (output (unsigned_tx p))) < 2 ^ 32)%N.

Lemma cpfp_parent connector p values ws :
  bumpable connector p → psbt_input_values p = Some values → length ws = length (input (unsigned_tx p)) →
  Forall (λ w, w ≠ []) ws →
  let tx := with_witnesses (unsigned_tx p) ws in
  let vout := length (output (unsigned_tx p)) - 1 in
  ∃ details child, CpfpInput_new tx (list_sum values) (N.of_nat vout) = Ok details ∧
    Cpfp_new details connector = Val child ∧
    parent_fees child = 0%N ∧ parent_weight child = tx_weight tx ∧
    output tx !! vout = Some (cpfp_output connector) ∧
    cpfp_psbt child = mkPsbt
      (mkTransaction (if (version tx =? 3)%N then 3 else 2) LOCKTIME_ZERO
        [rbf (mkOutPoint (compute_txid tx) (N.of_nat vout)); rbf (mkOutPoint 0 0)] [mkTxOut 0 []])
      [mkPsbtInput (Some (cpfp_output connector)) None None; mkPsbtInput (Some (mkTxOut 0 [])) None None].
Proof.
  intros ((values' & Ev & Hmax & Hsum) & (outs & Ho) & Hlen) Ev' Hws Hne tx vout. rewrite Ev in Ev'. injection Ev' as ->.
  assert (output tx !! vout = Some (cpfp_output connector)) as Hv.
  { unfold tx, vout. cbn [output with_witnesses]. rewrite Ho, length_app. cbn [length].
    rewrite Nat.add_sub, list_lookup_middle; done. }
  assert (CpfpInput_new tx (list_sum values) (N.of_nat vout) = Ok (mkCpfpInput tx (list_sum values) (N.of_nat vout))) as E.
  { unfold CpfpInput_new. change (output tx) with (output (unsigned_tx p)).
    rewrite N.mod_small by done. rewrite (proj2 (N.leb_gt _ _)).
    2: { unfold vout. rewrite Ho, length_app. cbn [length]. lia. }
    replace (existsb _ _) with false; [done|]. symmetry. apply not_true_iff_false. rewrite existsb_exists.
    intros (txin & Hin & He%bool_decide_eq_true). apply list_elem_of_In, list_elem_of_lookup in Hin as [j Hj].
    unfold tx in Hj. cbn [input with_witnesses] in Hj.
    apply lookup_zip_with_Some in Hj as (x & w & -> & _ & Hw). cbn in He.
    exact (Forall_lookup_1 _ _ _ _ Hne Hw He). }
  do 2 eexists. split; [exact E|]. unfold Cpfp_new. cbn [parent_tx parent_vout parent_input_amount].
  rewrite Nat2N.id, Hv. cbn [expect mbind comp_bind].
  change (output tx) with (output (unsigned_tx p)). rewrite amount_sum_small by (rewrite <- Hsum; done).
  cbn [mbind comp_bind]. rewrite <- Hsum, amount_sub_le, N.sub_diag by done.
  split_and!; [done|done|done|done|]. 
  cbn [cpfp_psbt]. unfold VERSION_THREE. destruct (version tx =? 3)%N; reflexivity.
Qed.

Lemma graph_bumpable input context deposit_txid gp cp sp prev a3 b1 b0 b3 :
  (deposit_amount gp + 27060 ≤ U64_MAX)%N →
  let g := graph_spec input context deposit_txid gp cp sp prev a3 b1 b0 b3 in
  Forall (λ p, bumpable (connector_cpfp (graph_connectors input context cp sp a3)) p ∧ version (unsigned_tx p) = 3%N)
    ([graph_claim g; graph_payout_optimistic g; graph_pre_assert g; graph_post_assert g; graph_payout g]
      ++ graph_assert_data g).
Proof.
  intros Hamt g. set (cpfp := connector_cpfp _).
  assert (∀ p outs, balanced p → version (unsigned_tx p) = 3%N → output (unsigned_tx p) = outs ++ [cpfp_output cpfp] →
    (length outs <= NUM_ASSERT_DATA_TX)%nat → bumpable cpfp p ∧ version (unsigned_tx p) = 3%N) as Hone.
  { intros p outs Hb Hver Ho Hl. split; [|done]. split_and!; [done|by exists outs|].
    rewrite Ho, length_app. cbn [length]. unfold NUM_ASSERT_DATA_TX in Hl. lia. }
  apply Forall_app. split.
  - repeat (apply Forall_cons; split); [| | | | |constructor].
    + eapply (Hone _ [_; _; _]); [apply claim_balanced|done|done|by apply Nat.leb_le].
    + eapply (Hone _ [_]); [by apply payout_optimistic_balanced|done|done|by apply Nat.leb_le].
    + eapply (Hone _ (mkTxOut 660 <$> commitment_scripts _ _)); [apply pre_assert_balanced|done|done|].
      by rewrite length_fmap, length_commitment_scripts.
    + eapply (Hone _ [_]); [apply post_assert_balanced|done|done|by apply Nat.leb_le].
    + eapply (Hone _ [_]); [apply payout_balanced; cbn; lia|done|done|by apply Nat.leb_le].
  - apply graph_assert_data_all. intros txid scripts n i.
    eapply (Hone _ [_]); [apply assert_data_balanced|done|done|by apply Nat.leb_le].
Qed.

(** A child pays for every transaction of a graph.  For each transaction of a graph that leaves
    its fee to a child, however it is signed, the builder of the child accepts it with the
    last output, and the child spends that output, as it is, in a transaction of the same
    version.  Given enough funds the child is funded, and parent and child together pay the fee
    for the estimated weight and, on top of it, the 330 sats of the output. *)
Theorem graph_children_pay input context deposit_txid gp cp sp prev g c p ws values fee_rate fee funding outpoint change :
  (N.of_nat (2 + NUM_TAPS) ≤ 2 ^ 128)%N → (deposit_amount gp + 27060 ≤ U64_MAX)%N →
  prev = [] ∨ (330 ≤ burn_amount sp)%N →
  PegOutGraph_generate input context deposit_txid gp cp sp prev = Val (g, c) →
  p ∈ [graph_claim g; graph_payout_optimistic g; graph_pre_assert g; graph_post_assert g; graph_payout g]
    ++ graph_assert_data g →
  length ws = length (Bitcoin.input (unsigned_tx p)) → Forall (λ w, w ≠ []) ws → psbt_input_values p = Some values →
  let tx := with_witnesses (unsigned_tx p) ws in
  let vout := length (output tx) - 1 in
  ∃ details child, CpfpInput_new tx (list_sum values) (N.of_nat vout) = Ok details ∧
    Cpfp_new details (connector_cpfp c) = Val child ∧ version (unsigned_tx (cpfp_psbt child)) = version tx ∧
    ((tx_weight (unsigned_tx (cpfp_psbt child)) + tx_weight tx ≤ U64_MAX)%N →
      checked_mul_by_weight fee_rate (tx_weight (unsigned_tx (cpfp_psbt child)) + tx_weight tx) = Some fee →
      (fee ≤ value funding)%N →
      ∃ funded o, add_funding child funding outpoint change fee_rate = Val (Ok funded) ∧
        output tx !! vout = Some o ∧
        (previous_output <$> Bitcoin.input (unsigned_tx (cpfp_psbt funded)))
          = [mkOutPoint (compute_txid tx) (N.of_nat vout); outpoint] ∧
        (witness_utxo <$> psbt_inputs (cpfp_psbt funded)) = [Some o; Some funding] ∧
        list_sum (value <$> [o; funding])
          = (list_sum (value <$> output (unsigned_tx (cpfp_psbt funded))) + fee + 330)%N).
Proof.
  intros Htaps Hamt Hburn Hg Hp Hws Hne Hv tx vout.
  destruct (generate_spec input context deposit_txid gp cp sp prev) as (a3 & b1 & b0 & b3 & E & Hf);
    [done|done|done|].
  rewrite Hg in E. injection E as -> ->.
  destruct (proj1 (Forall_forall _ _) (graph_bumpable input context deposit_txid gp cp sp prev a3 b1 b0 b3 Hamt) p Hp)
    as [Hbump Hver].
  destruct (cpfp_parent _ p values ws Hbump Hv Hws Hne) as (details & child & E1 & E2 & Hfee & Hweight & Ho & Hpsbt).
  fold tx in E1, Hweight, Ho, Hpsbt. change (length (output (unsigned_tx p)) - 1) with vout in *.
  assert (version tx = 3%N) as Hver' by exact Hver. rewrite Hver' in Hpsbt |- *.
  exists details, child. rewrite Hpsbt. split_and!; [exact E1|exact E2|done|]. intros Hw Hmul Hfund.
  unfold add_funding, estimate_package_fee. rewrite Hpsbt, Hweight, Hfee, u64_add_small by done.
  cbn [mbind comp_bind]. cbn [unsigned_tx] in Hmul |- *. rewrite Hmul, amount_sub_le, N.sub_0_r by lia. cbn [mbind comp_bind].
  rewrite amount_sub_le by done.
  do 2 eexists. split_and!; [done|exact Ho|done|done|]. cbn. lia.
Qed.

(** Advancing a stake gives up the payouts of the past.  When a node accepts a witness that
    advances a stake transaction of a chain, anybody who reads its first element can burn the
    output of the same stake transaction that both payouts of its graph spend: the burning
    transaction is built and finalized, spends that output, with the amount it has, opens it by
    the script, and every node that hashes alike accepts the script. *)
Theorem advanced_stake_burns_payouts `{DescriptorLib} (advancing burning : ScriptContext)
    context params inputs chain n t data w recipient :
  StakeChain_new context inputs params = Val chain → chain_txs chain !! n = Some t →
  stake_inputs inputs !! N.of_nat n = Some data → (delta params < 2 ^ 32)%N →
  @sha256_bytes advancing = @sha256_bytes burning →
  let key := tbc_aggregated_pubkey context in
  let hashlock := mkConnectorP key (stk_hash data) (tbc_network context) in
  @script_succeeds advancing (S_script (mkConnectorStake key (stk_operator_pubkey data) (stk_hash data) (delta params)
    (tbc_network context))) w = true →
  ∃ preimage burn block o, w !! 0 = Some preimage ∧
    BurnPayoutsTx_new (mkOutPoint (stake_txid_of t) 1) recipient hashlock = Val burn ∧
    BurnPayoutsTx_finalize burn preimage hashlock
      = Val (with_witnesses (unsigned_tx (burn_psbt burn))
          [[preimage; P_generate_script hashlock; serialize_control_block block]]) ∧
    previous_output <$> input (unsigned_tx (burn_psbt burn)) = [mkOutPoint (stake_txid_of t) 1] ∧
    stake_outputs_of t !! 1 = Some o ∧ witness_utxo <$> psbt_inputs (burn_psbt burn) = [Some o] ∧
    burn_witnesses burn = [# Script (P_generate_script hashlock) block] ∧
    spends key (tbc_network context) (Script (P_generate_script hashlock) block) (script_pubkey o) ∧
    @script_succeeds burning (P_script hashlock) [preimage] = true.
Proof.
  intros Hc Ht Hd Hdelta Hsha key hashlock Hw.
  destruct (StakeChain_new_spec context inputs params) as (c' & E' & Hp & _).
  rewrite Hc in E'. injection E' as <-. apply Hp, nth_stake_data in Ht as (data' & cpfp & Hd' & _ & _ & Hout & _).
  rewrite Hd in Hd'. injection Hd' as <-.
  apply S_script_accepts in Hw as (preimage & sig & -> & _ & [Hlen Hpre] & _); [|done].
  destruct (P_spend_info hashlock key) as (block & Ei & Hsp).
  set (tx := mkTransaction 2 LOCKTIME_ZERO [rbf (mkOutPoint (stake_txid_of t) 1)] [mkTxOut 330 (to_script recipient)]).
  set (p := mkPsbt tx (utxo_input SighashDefault <$> [mkTxOut 330 (P_output_script hashlock)])).
  exists preimage, (mkBurnPayoutsTx p [# Script (P_generate_script hashlock) block]), block, (P_out context (stk_hash data)). split; [done|].
  unfold BurnPayoutsTx_new. rewrite P_address, Ei. split; [done|].
  split.
  { unfold BurnPayoutsTx_finalize. cbn [burn_psbt]. unfold p at 1. cbn [fmap list_fmap].
    erewrite update_input_single by (cbn [P_finalize]; by rewrite Ei).
    cbn [mbind comp_bind]. rewrite (extract_balanced p);
      [by rewrite extract_with_witnesses|by apply balanced_fee|done|done]. }
  rewrite Hout. unfold P_out. rewrite p2tr_dust. split_and!; [done|done|done|done|exact Hsp|].
  apply P_script_accepts. exists preimage. split; [done|]. split; [done|]. by rewrite <- Hsha.
Qed.

End properties.

(** ** Witnesses *)

#[local] Existing Instances example_taproot example_field_connectors example_dust example_txids example_assert
  example_assert_nmul example_graph_profile example_deposit example_extract.

Definition example_weights : WeightLib := {|
  tx_weight tx := 400%N; checked_mul_by_weight rate weight := Some (rate * weight)%N |}.
Definition example_descriptors : DescriptorLib := {|
  to_script descriptor := [descriptor]; to_address descriptor network := Some [descriptor] |}.
#[local] Existing Instances example_weights example_descriptors.

Lemma graph_children_pay_witness :
  ∃ g c details child funded, example_generate [] = Val (g, c) ∧
    CpfpInput_new (with_witnesses (unsigned_tx (graph_claim g)) [[[1%N]]]) 27060 3 = Ok details ∧
    Cpfp_new details (connector_cpfp c) = Val child ∧
    add_funding child (mkTxOut 5000 [2%N]) (mkOutPoint 9 0) [3%N] 2 = Val (Ok funded).
Proof.
  destruct (generate_spec example_input example_context (covenant_txid example_deposit_built)
    PegOutGraphParams_default ConnectorParams_default StakeChainParams_default [])
    as (a3 & b1 & b0 & b3 & E & _); [done|done|by left|].
  set (g := graph_spec _ _ _ _ _ _ _ _ _ _ _) in E. set (c := graph_connectors _ _ _ _ _) in E.
  destruct (graph_children_pay example_input example_context (covenant_txid example_deposit_built)
    PegOutGraphParams_default ConnectorParams_default StakeChainParams_default [] g c (graph_claim g) [[[1%N]]]
    [27060%N] 2 1600 (mkTxOut 5000 [2%N]) (mkOutPoint 9 0) [3%N])
    as (details & child & E1 & E2 & _ & Hf); [done|done|by left|exact E|by left|done| |done|].
  - by apply Forall_singleton.
  - destruct Hf as (funded & o & E3 & _); [done|done|done|].
    exists g, c, details, child, funded. split; [exact E|]. split; [exact E1|]. split; [exact E2|exact E3].
Defined.

(** Nodes for which everything hashes to the hash of the stake. *)
Definition example_node (sequence : N) : ScriptContext := {|
  tx_version := 3; txin_sequence := sequence;
  check_schnorr key sig := true;
  sha256_bytes preimage := hash_bytes (stk_hash (example_stake 1));
  run_fragment script stack alt := None;
|}.

Lemma advanced_stake_burns_payouts_witness :
  ∃ burn tx, let hashlock := mkConnectorP (tbc_aggregated_pubkey example_context) (stk_hash (example_stake 1))
      (tbc_network example_context) in
    BurnPayoutsTx_new (mkOutPoint (stake_txid_of example_stake_tx) 1) 5%N hashlock = Val burn ∧
    BurnPayoutsTx_finalize burn (replicate 32 7%N) hashlock = Val tx.
Proof.
  destruct (advanced_stake_burns_payouts (example_node (from_height (delta StakeChainParams_default))) (example_node 0)
    example_context StakeChainParams_default (example_stakes [0; 1]%N) example_graph_chain 1 example_stake_tx
    (example_stake 1) [replicate 32 7%N; replicate 64 1%N] 5%N)
    as (preimage & burn & block & o & Hw & E1 & E2 & _); [vm_compute; reflexivity..|].
  injection Hw as <-. exists burn. eexists. split; [exact E1|exact E2].
Defined.
