(* ===== verification/ParseWitness.v ===== *)
(** * Reading the witnesses of a claim and an assertion back

    ([primitives/src/scripts/parse_witness.rs], [ClaimTx::parse_witness],
    [AssertDataTxBatch::parse_witnesses])

    Whoever challenges an operator takes the operator's Winternitz signatures from the witnesses
    of the published transactions.  What [finalize] writes is read back unchanged. *)

From S2P Require Import Prelude Bitcoin PogMusig Wots TxTypes Taproot Connectors Script StakeChain.
From S2P Require Import ConnectorsAssert DisproveScript TxGraph PegOutGraph GraphSpec GraphProperties GraphFinalize.

(** ** Library *)

(** [bitvm]: the digits of a signature of 32 and of 16 bytes, the execution of a script, and an
    element of the stack it leaves, counted from the bottom. *)
Class ParseLib := {
  wots256_digits : nat;
  wots_hash_digits : nat;
  FinalStack : Type;
  execute_script : list ScriptElem → FinalStack;
  stack_get : FinalStack → nat → comp (list N);
}.

(** The bytes that a push leaves. *)
Definition pushed (e : ScriptElem) : option (list N) :=
  match e with
  | PushInt n => Some (num_encode (Z.of_N n))
  | PushSlice bytes => Some bytes
  | _ => None
  end.

(** The bytes of one digit of a signature: twenty of a hash, and the digit. *)
Definition digit_wf (s : list N) : Prop :=
  ∃ preimage d, s = preimage ++ [d] ∧ length preimage = 20 ∧ (d < 16)%N.
Definition digit_witness (s : list N) : list (list N) := [take 20 s; num_encode (Z.of_N (nth 20 s 0%N))].

(** Pushes within the limits of the interpreter are left on the stack in their order; a
    signature is pushed digit by digit; and the signatures of one connector are within the
    limits. *)
Class ParseLaws `{ParseLib, ConnectorLib, AssertLib} : Prop := {
  execute_pushes : ∀ script elems k bytes, pushed <$> script = Some <$> elems → length elems ≤ 1000 →
    Forall (λ bytes, length bytes ≤ 520) elems → elems !! k = Some bytes →
    stack_get (execute_script script) k = Val bytes;
  wots256_raw_witness_spec : ∀ sig, length sig = wots256_digits → Forall digit_wf sig →
    wots256_raw_witness sig = sig ≫= digit_witness;
  wots_hash_raw_witness_spec : ∀ sig, length sig = wots_hash_digits → Forall digit_wf sig →
    wots_hash_raw_witness sig = sig ≫= digit_witness;
  wots256_digits_fit : 2 * NUM_FIELD_ELEMS_PER_CONNECTOR_BATCH_1 * wots256_digits ≤ 1000;
  wots_hash_digits_fit : 2 * NUM_HASH_ELEMS_PER_CONNECTOR_BATCH_2 * wots_hash_digits ≤ 1000;
}.

(** ** Parsing *)

(** [array::try_from_fn], from index [i]: the first error ends it. *)
Fixpoint try_from_fn {A} (n i : nat) (f : nat → comp (option A)) : comp (option (list A)) :=
  match n with
  | 0 => Val (Some [])
  | S n =>
      x ← f i;
      match x with
      | None => Val None
      | Some x => l ← try_from_fn n (S i) f; Val (option_map (cons x) l)
      end
  end.

(** A digit from its two elements of the stack, an array of 21 bytes. *)
Definition parse_digit (preimage digit : list N) : option (list N) :=
  let digit := match digit with [] => 0%N | d :: _ => d end in
  let sig := preimage ++ [digit] in
  if decide (length sig = 21) then Some sig else None.

Section parse.
Context `{ParseLib, BuildProfile}.

(** [parse_wots256_signatures] and [parse_wots_hash_signatures]. *)
Definition parse_signatures (digits n_sigs : nat) (script : list ScriptElem) : comp (option (list (list (list N)))) :=
  let res := execute_script script in
  try_from_fn n_sigs 0 (λ i, try_from_fn digits 0 (λ j,
    let k := 2 * j + i * 2 * digits in
    preimage ← stack_get res k;
    digit ← stack_get res (k + 1);
    Val (parse_digit preimage digit))).
Definition parse_wots256_signatures (n_sigs : nat) := parse_signatures wots256_digits n_sigs.
Definition parse_wots_hash_signatures (n_sigs : nat) := parse_signatures wots_hash_digits n_sigs.

(** [for witness in batch { .. parse(witness)? .. }]. *)
Fixpoint parse_all (parse : list ScriptElem → comp (option (list (list (list N))))) (batch : list (list ScriptElem))
    : comp (option (list (list (list N)))) :=
  match batch with
  | [] => Val (Some [])
  | witness :: batch =>
      sigs ← parse witness;
      match sigs with
      | None => Val None
      | Some sigs => rest ← parse_all parse batch; Val (option_map (app sigs) rest)
      end
  end.

(** [try_into().unwrap()]. *)
Definition unwrap_array {A} (n : nat) (l : list A) : comp (vec A n) :=
  if decide (length l = n) then expect (first_n n l) else Panic.

Definition parse_assertion_witnesses
    (witness256_batch1 witness256_batch2 witness_hash_batch1 witness_hash_batch2 : list (list ScriptElem))
    : comp (option Groth16Sigs) :=
  w256_1 ← parse_all (parse_wots256_signatures NUM_FIELD_ELEMS_PER_CONNECTOR_BATCH_1) witness256_batch1;
  match w256_1 with None => Val None | Some w256_1 =>
  w256_2 ← parse_all (parse_wots256_signatures NUM_FIELD_ELEMS_PER_CONNECTOR_BATCH_2) witness256_batch2;
  match w256_2 with None => Val None | Some w256_2 =>
  w_hash_1 ← parse_all (parse_wots_hash_signatures NUM_HASH_ELEMS_PER_CONNECTOR_BATCH_1) witness_hash_batch1;
  match w_hash_1 with None => Val None | Some w_hash_1 =>
  w_hash_2 ← parse_all (parse_wots_hash_signatures NUM_HASH_ELEMS_PER_CONNECTOR_BATCH_2) witness_hash_batch2;
  match w_hash_2 with None => Val None | Some w_hash_2 =>
  let w256 := w256_1 ++ w256_2 in
  let w_hash := w_hash_1 ++ w_hash_2 in
  public_input ← expect (w256 !! 0);
  field_elems ← unwrap_array NUM_U256 (drop 1 w256);
  hashes ← unwrap_array NUM_HASH w_hash;
  Val (Some (mkGroth16Sigs [# public_input] field_elems hashes))
  end end end end.

(** [ClaimTx::parse_witness].  Indexing the witness past its end panics. *)
Definition parse_claim_digit (witness_txid : list (list N)) (i : nat) : comp (option (list N)) :=
  preimage ← expect (witness_txid !! (2 * i));
  if negb (bool_decide (length preimage = 20)) then Val None else
  digit ← expect (witness_txid !! (2 * i + 1));
  Val (parse_digit preimage digit).

Definition ClaimTx_parse_witness (tx : Transaction) : comp (option Wots256Sig) :=
  txin ← expect (input tx !! 0);
  if bool_decide (witness txin = []) then Val None else
  try_from_fn wots256_digits 0 (parse_claim_digit (witness txin)).

(** [take(txin.witness.len() - 2)]: the subtraction panics or wraps around below zero. *)
Definition without_script (w : list (list N)) : comp (list (list N)) :=
  if decide (2 ≤ length w) then Val (take (length w - 2) w)
  else if debug_assertions then Panic else Val w.

(** The script that pushes a witness again. *)
Definition repush (w : list N) : ScriptElem := match w with [b] => PushInt b | _ => PushSlice w end.

Definition witness_script (txin : TxIn) : comp (list ScriptElem) :=
  w ← without_script (witness txin);
  Val (repush <$> (w : list (list N))).

Definition AssertDataTxBatch_parse_witnesses (assert_data_txs : vec Transaction NUM_ASSERT_DATA_TX)
    : comp (option Groth16Sigs) :=
  witnesses ← mapM witness_script (vec_to_list assert_data_txs ≫= input);
  if negb (bool_decide (length witnesses = TOTAL_CONNECTORS)) then Val None else
  let offset := NUM_FIELD_CONNECTORS_BATCH_1 in
  witness256_batch1 ← slice 0 offset witnesses;
  witness256_batch2 ← slice offset (offset + NUM_FIELD_CONNECTORS_BATCH_2) witnesses;
  let offset := offset + NUM_FIELD_CONNECTORS_BATCH_2 in
  witness_hash_batch1 ← slice offset (offset + NUM_HASH_CONNECTORS_BATCH_1) witnesses;
  witness_hash_batch2 ← slice (length witnesses - NUM_HASH_CONNECTORS_BATCH_2) (length witnesses) witnesses;
  parse_assertion_witnesses witness256_batch1 witness256_batch2 witness_hash_batch1 witness_hash_batch2.

End parse.

(** ** Lemmas *)

Lemma try_from_fn_Some {A} n i (f : nat → comp (option A)) (g : nat → A) :
  (∀ j, i ≤ j < i + n → f j = Val (Some (g j))) → try_from_fn n i f = Val (Some (g <$> seq i n)).
Proof.
  revert i. induction n as [|n IH]; intros i Hf; [done|]. cbn [try_from_fn seq].
  rewrite Hf by lia. cbn [mbind comp_bind]. rewrite IH by (intros; apply Hf; lia). done.
Qed.

(** Elements in fixed shares. *)
Lemma lookup_bind_fixed {A B} (f : A → list B) n l i j x :
  (∀ y, y ∈ l → length (f y) = n) → l !! i = Some x → j < n → (l ≫= f) !! (i * n + j) = f x !! j.
Proof.
  revert i. induction l as [|y l IH]; intros i Hn Hx Hj; [done|]. rewrite bind_cons.
  assert (length (f y) = n) as Hy by (apply Hn; left).
  destruct i as [|i]; cbn in Hx.
  - simplify_eq. rewrite lookup_app_l by lia. done.
  - rewrite lookup_app_r by (cbn; lia). rewrite Hy. replace (S i * n + j - n) with (i * n + j) by lia.
    apply IH; [|done|done]. intros z Hz. apply Hn. by right.
Qed.

Lemma seq_nth {A} (l : list A) d : (λ i, nth i l d) <$> seq 0 (length l) = l.
Proof.
  apply list_eq. intros i. rewrite list_lookup_fmap. destruct (decide (i < length l)) as [Hi|Hi].
  - rewrite lookup_seq_lt by done. cbn. by destruct (nth_lookup_or_length l i d) as [->|]; [|lia].
  - rewrite lookup_seq_ge by lia. cbn. symmetry. apply lookup_ge_None. lia.
Qed.

Lemma num_encode_digit d : (0 < d < 16)%N → num_encode (Z.of_N d) = [d].
Proof.
  intros Hd. assert (Forall (λ d, num_encode (Z.of_N d) = [d]) (N.of_nat <$> seq 1 15)) as Hall
    by (cbn [seq fmap list_fmap]; repeat constructor).
  rewrite Forall_forall in Hall. apply Hall, list_elem_of_fmap. exists (N.to_nat d).
  split; [lia|]. apply elem_of_seq. lia.
Qed.

Lemma digit_read s : digit_wf s → parse_digit (take 20 s) (num_encode (Z.of_N (nth 20 s 0%N))) = Some s.
Proof.
  intros (p & d & -> & Hp & Hd). rewrite take_app_length' by done.
  rewrite app_nth2 by lia. rewrite Hp, Nat.sub_diag. cbn [nth].
  unfold parse_digit. destruct (decide (d = 0%N)) as [->|Hd0]; [by rewrite decide_True by (rewrite length_app; cbn; lia)|].
  rewrite num_encode_digit by lia. by rewrite decide_True by (rewrite length_app; cbn; lia).
Qed.

Lemma length_digits (l : list (list N)) : length (l ≫= digit_witness) = length l * 2.
Proof. induction l as [|x l IH]; [done|]. rewrite bind_cons, length_app, IH. done. Qed.

(** Signatures on a stack: element [2 j + 2 i digits] is the hash of digit [j] of signature [i]. *)
Lemma signatures_lookup digits (sigs : list (list (list N))) i j sig s :
  (∀ sig, sig ∈ sigs → length sig = digits) → sigs !! i = Some sig → sig !! j = Some s →
  let stack := sigs ≫= λ sig, sig ≫= digit_witness in
  stack !! (2 * j + i * 2 * digits) = Some (take 20 s) ∧
  stack !! (2 * j + i * 2 * digits + 1) = Some (num_encode (Z.of_N (nth 20 s 0%N))).
Proof.
  intros Hlen Hi Hj stack. apply lookup_lt_Some in Hj as Hlt.
  rewrite (Hlen sig) in Hlt by (by eapply list_elem_of_lookup_2).
  assert (∀ b, b < 2 → stack !! (i * (digits * 2) + (j * 2 + b)) = digit_witness s !! b) as Hb.
  { intros b Hb. unfold stack. rewrite (lookup_bind_fixed _ (digits * 2) _ _ _ sig);
      [|intros y Hy; rewrite length_digits, (Hlen y); done|done|nia].
    by apply (lookup_bind_fixed digit_witness 2). }
  split.
  - replace (2 * j + i * 2 * digits) with (i * (digits * 2) + (j * 2 + 0)) by lia. by rewrite Hb by lia.
  - replace (2 * j + i * 2 * digits + 1) with (i * (digits * 2) + (j * 2 + 1)) by lia. by rewrite Hb by lia.
Qed.

Definition sig_wf (digits : nat) (sig : list (list N)) : Prop := length sig = digits ∧ Forall digit_wf sig.

Lemma length_signatures digits (sigs : list (list (list N))) :
  Forall (sig_wf digits) sigs → length (sigs ≫= λ sig, sig ≫= digit_witness) = length sigs * (digits * 2).
Proof.
  induction 1 as [|sig sigs [Hlen _] _ IH]; [done|]. rewrite bind_cons, length_app, IH, length_digits, Hlen. done.
Qed.

(** What is pushed for a digit. *)
Definition element (x : list N) : Prop := length x = 20 ∨ ∃ d, (d < 16)%N ∧ x = num_encode (Z.of_N d).

Lemma stack_elements digits sigs : Forall (sig_wf digits) sigs → Forall element (sigs ≫= λ sig, sig ≫= digit_witness).
Proof.
  intros Hwf. apply Forall_bind. eapply Forall_impl; [exact Hwf|]. intros sig [_ Hsig].
  apply Forall_bind. eapply Forall_impl; [exact Hsig|]. intros s (p & d & -> & Hp & Hd).
  apply Forall_cons. split; [|apply Forall_singleton].
  - left. by rewrite take_app_length'.
  - right. exists d. split; [done|]. by rewrite app_nth2, Hp, Nat.sub_diag by lia.
Qed.

Lemma element_repushed x : element x → pushed (repush x) = Some x.
Proof.
  intros [Hx|(d & Hd & ->)].
  - destruct x as [|b [|b' x]]; done.
  - destruct (decide (d = 0%N)) as [->|]; [done|]. rewrite num_encode_digit by lia. cbn.
    by rewrite num_encode_digit by lia.
Qed.

Lemma element_fits x : element x → length x ≤ 520.
Proof.
  intros [Hx|(d & Hd & ->)]; [lia|]. destruct (decide (d = 0%N)) as [->|]; [cbn; lia|].
  rewrite num_encode_digit by lia. cbn. lia.
Qed.

Section roundtrip.
Context `{ParseLaws, BuildProfile}.

Lemma parse_signatures_spec digits n (sigs : list (list (list N))) :
  length sigs = n → Forall (sig_wf digits) sigs → 2 * n * digits ≤ 1000 →
  parse_signatures digits n (repush <$> (sigs ≫= λ sig, sig ≫= digit_witness)) = Val (Some sigs).
Proof.
  intros <- Hwf Hfit. unfold parse_signatures. set (stack := sigs ≫= λ sig, sig ≫= digit_witness).
  assert (∀ sig, sig ∈ sigs → length sig = digits) as Hlen.
  { intros sig Hin. rewrite Forall_forall in Hwf. by apply Hwf. }
  assert (∀ k bytes, stack !! k = Some bytes → stack_get (execute_script (repush <$> stack)) k = Val bytes) as Hget.
  { intros k bytes Hk. apply execute_pushes with stack; [|..|done].
    - rewrite <- !list_fmap_compose. apply list_fmap_ext. intros i x Hx. apply element_repushed.
      exact (Forall_lookup_1 _ _ _ _ (stack_elements digits sigs Hwf) Hx).
    - unfold stack. rewrite (length_signatures digits) by done. lia.
    - eapply Forall_impl; [apply (stack_elements digits sigs Hwf)|apply element_fits]. }
  rewrite (try_from_fn_Some _ _ _ (λ i, nth i sigs [])); [by rewrite seq_nth|].
  intros i Hi. destruct (nth_lookup_or_length sigs i []) as [Hsig|]; [|lia].
  set (sig := nth i sigs []) in *.
  rewrite (try_from_fn_Some _ _ _ (λ j, nth j sig [])).
  { by rewrite <- (Hlen sig), seq_nth by (by eapply list_elem_of_lookup_2). }
  intros j Hj. destruct (nth_lookup_or_length sig j []) as [Hs|]; [|rewrite (Hlen sig) in *; [lia|by eapply list_elem_of_lookup_2]].
  destruct (signatures_lookup digits sigs i j sig (nth j sig []) Hlen Hsig Hs) as [Hk Hk'].
  cbv zeta. rewrite (Hget _ _ Hk), (Hget _ _ Hk'). cbn [mbind comp_bind]. do 2 f_equal. apply digit_read.
  rewrite Forall_forall in Hwf. destruct (Hwf sig) as [_ Hds]; [by eapply list_elem_of_lookup_2|].
  exact (Forall_lookup_1 _ _ _ _ Hds Hs).
Qed.

Lemma claim_digit_read sig tail i :
  sig_wf wots256_digits sig → i < wots256_digits →
  parse_claim_digit ((sig ≫= digit_witness) ++ tail) i = Val (Some (nth i sig [])).
Proof.
  intros [Hlen Hsig] Hi. destruct (nth_lookup_or_length sig i []) as [Hs|]; [|lia].
  pose proof (Forall_lookup_1 _ _ _ _ Hsig Hs) as Hwf.
  assert (∀ b, b < 2 → ((sig ≫= digit_witness) ++ tail) !! (2 * i + b) = digit_witness (nth i sig []) !! b) as Hb.
  { intros b Hb. rewrite lookup_app_l by (rewrite length_digits; lia).
    replace (2 * i + b) with (i * 2 + b) by lia. by apply (lookup_bind_fixed digit_witness 2). }
  unfold parse_claim_digit. rewrite <- (Nat.add_0_r (2 * i)) at 1. rewrite !Hb by lia.
  cbn [digit_witness lookup list_lookup expect mbind comp_bind].
  destruct Hwf as (p & d & E & Hp & Hd). rewrite bool_decide_true by (rewrite E, take_app_length'; done).
  cbn [negb]. by rewrite digit_read by (rewrite E; by exists p, d).
Qed.

Lemma claim_read tx txin sig script block :
  sig_wf wots256_digits sig → input tx !! 0 = Some txin →
  witness txin = wots256_raw_witness sig ++ [script; block] → ClaimTx_parse_witness tx = Val (Some sig).
Proof.
  intros [Hlen Hsig] Hin Hw. unfold ClaimTx_parse_witness. rewrite Hin. cbn [expect mbind comp_bind].
  rewrite Hw, wots256_raw_witness_spec, bool_decide_false by (done || by destruct (sig ≫= _)).
  rewrite (try_from_fn_Some _ _ _ (λ i, nth i sig [])); [by rewrite <- Hlen, seq_nth|].
  intros i Hi. apply claim_digit_read; [done|lia].
Qed.

(** Batches of witnesses. *)
Lemma parse_all_spec digits n shares :
  2 * n * digits ≤ 1000 → Forall (λ sigs, length sigs = n ∧ Forall (sig_wf digits) sigs) shares →
  parse_all (parse_signatures digits n) ((λ sigs, repush <$> (sigs ≫= λ sig, sig ≫= digit_witness)) <$> shares)
  = Val (Some (mjoin shares)).
Proof.
  intros Hfit. induction 1 as [|sigs shares [Hlen Hwf] _ IH]; [done|].
  cbn [fmap list_fmap parse_all]. rewrite parse_signatures_spec by done. cbn [mbind comp_bind].
  change (list_fmap _ _ ?f shares) with (f <$> shares). by rewrite IH.
Qed.

Lemma mjoin_shares {A} off e n (l : list A) :
  mjoin ((λ k, take e (drop (off + k * e) l)) <$> seq 0 n) = take (n * e) (drop off l).
Proof.
  induction n as [|n IH]; [done|]. rewrite seq_S, fmap_app, join_app, IH. cbn [fmap list_fmap Nat.add].
  change (mjoin [?x]) with (x ++ []). rewrite app_nil_r, <- drop_drop, take_take_drop. f_equal. lia.
Qed.

End roundtrip.

(** ** The assertion *)

Section assertion.
Context `{TaprootLaws, ConnectorLib, ScriptLib, !DustLaws, BitcoinLib, AssertLib, NmulLib, BuildProfile}.
Context `{ExtractLaws, ParseLib}.

(** The scripts that push the signatures of each transaction. *)
Definition signature_scripts (sigs256 sigs_hash : list (list (list N))) : list (list ScriptElem) :=
  ((λ k, repush <$> (take 5 (drop (0 + k * 5) sigs256) ≫= wots256_raw_witness)) <$> seq 0 3)
  ++ ((λ k, repush <$> (take 10 (drop (0 + k * 10) sigs_hash) ≫= wots_hash_raw_witness)) <$> seq 0 33)
  ++ ((λ k, repush <$> (take 11 (drop (330 + k * 11) sigs_hash) ≫= wots_hash_raw_witness)) <$> seq 0 3).

Lemma scripts_of_txs txs scripts :
  Forall2 (λ tx script, ∃ txin, input tx = [txin] ∧ witness_script txin = Val script) txs scripts →
  mapM witness_script (txs ≫= input) = Val scripts.
Proof.
  induction 1 as [|tx script txs scripts (txin & E & Es) _ IH]; [done|].
  rewrite bind_cons, E. cbn [app mapM]. rewrite Es. cbn [mbind comp_bind]. by rewrite IH.
Qed.

Lemma with_stack_script p stack raw script block txin :
  one_input p → input (unsigned_tx p) = [txin] → stack = raw ++ [script; block] →
  ∃ txin', input (extract_tx (with_stack stack p)) = [txin'] ∧ witness_script txin' = Val (repush <$> raw).
Proof.
  intros Hone Hin ->. destruct p as [tx inputs]. unfold one_input in Hone. cbn in Hone, Hin.
  destruct inputs as [|i [|]]; try done. unfold extract_tx. cbn. rewrite Hin. cbn.
  eexists. split; [done|]. unfold witness_script, without_script. cbn [witness].
  rewrite decide_True by (rewrite length_app; cbn; lia). cbn [mbind comp_bind].
  by rewrite length_app, Nat.add_sub, take_app_length.
Qed.

Lemma batch_scripts f fh sigs batch :
  length (f256_public_keys f) = NUM_PKS_A256 → length (fhash_public_keys fh) = NUM_PKS_A_HASH →
  Forall one_input (vec_to_list batch) →
  ∃ psbts, AssertDataTxBatch_finalize batch fh f sigs = mapM extract_or_panic psbts ∧
    length psbts = NUM_ASSERT_DATA_TX ∧
    ∀ j script, signature_scripts
        (Vector.hd (sig_public_inputs (sig_groth16 sigs)) :: vec_to_list (sig_field_elems (sig_groth16 sigs)))
        (vec_to_list (sig_hashes (sig_groth16 sigs))) !! j = Some script →
      ∃ raw s b, script = repush <$> raw ∧ psbts !! j = with_stack (raw ++ [s; b]) <$> vec_to_list batch !! j.
Proof.
  intros Hf Hh Hone.
  destruct (batch_psbts
    (λ c s stack, ∃ block, stack = (s ≫= wots256_raw_witness) ++ [A256_create_locking_script c; serialize_control_block block])
    (λ c s stack, ∃ block, stack = (s ≫= wots_hash_raw_witness) ++ [AHash_create_locking_script c; serialize_control_block block])
    f fh sigs batch) as (psbts & E & Hl & Hc1 & Hc2 & Hc3).
  { intros c s. destruct (A256_finalize_stack 0 c s) as (block & Hfin & _). eauto. }
  { intros c s. destruct (AHash_finalize_stack 0 c s) as (block & Hfin & _). eauto. }
  1-3: done.
  exists psbts. split_and!; [done|done|]. intros j script Hj. unfold signature_scripts in Hj.
  apply lookup_app_Some in Hj as [Hj|[Hge Hj]]; [|apply lookup_app_Some in Hj as [Hj|[Hge' Hj]]];
    apply list_lookup_fmap_Some in Hj as (k & -> & [-> Hlt]%lookup_seq); cbn [Nat.add].
  - destruct (lookup_lt_is_Some_2 (field_connectors f) j Hlt) as [c Hc].
    destruct (Hc1 j c Hc) as (stack & (block & ->) & Ej). eauto.
  - rewrite length_fmap, length_seq in *.
    destruct (lookup_lt_is_Some_2 (hash_connectors_1 fh) (j - 3) Hlt) as [c Hc].
    destruct (Hc2 _ c Hc) as (stack & (block & ->) & Ej). replace (3 + (j - 3)) with j in Ej by lia. eauto.
  - rewrite !length_fmap, !length_seq in *.
    destruct (lookup_lt_is_Some_2 (hash_connectors_2 fh) (j - 3 - 33) Hlt) as [c Hc].
    destruct (Hc3 _ c Hc) as (stack & (block & ->) & Ej). replace (36 + (j - 3 - 33)) with j in Ej by lia. eauto.
Qed.

Lemma assertion_scripts f fh sigs batch :
  length (f256_public_keys f) = NUM_PKS_A256 → length (fhash_public_keys fh) = NUM_PKS_A_HASH →
  Forall (λ p, one_input p ∧ balanced p ∧ ∃ txin, input (unsigned_tx p) = [txin]) (vec_to_list batch) →
  ∃ txs, AssertDataTxBatch_finalize batch fh f sigs = Val txs ∧ length txs = NUM_ASSERT_DATA_TX ∧
    mapM witness_script (txs ≫= input) = Val (signature_scripts
      (Vector.hd (sig_public_inputs (sig_groth16 sigs)) :: vec_to_list (sig_field_elems (sig_groth16 sigs)))
      (vec_to_list (sig_hashes (sig_groth16 sigs)))).
Proof.
  intros Hf Hh Hbatch.
  destruct (batch_scripts f fh sigs batch Hf Hh) as (psbts & E & Hl & Hj);
    [eapply Forall_impl; [exact Hbatch|naive_solver]|].
  set (scripts := signature_scripts _ _) in *.
  assert (Forall2 (λ p' script, ∃ p raw s b, p ∈ vec_to_list batch ∧ script = repush <$> raw ∧
    p' = with_stack (raw ++ [s; b]) p) psbts scripts) as Hall.
  { apply Forall2_same_length_lookup_2; [by rewrite Hl|]. intros j p' script Hp' Hs.
    destruct (Hj j script Hs) as (raw & s & b & -> & Ej). rewrite Hp' in Ej.
    destruct (vec_to_list batch !! j) as [p|] eqn:Hp; [|done]. injection Ej as ->.
    apply list_elem_of_lookup_2 in Hp. eauto 10. }
  rewrite Forall_forall in Hbatch. exists (extract_tx <$> psbts). split_and!; [|by rewrite length_fmap|].
  - rewrite E. apply mapM_pure. intros p' [j Hp']%list_elem_of_lookup.
    apply (Forall2_lookup_l _ _ _ _ _ Hall) in Hp' as (script & _ & p & raw & s & b & Hp & _ & ->).
    apply (extract_balanced p); [by apply Hbatch|done|].
    unfold with_stack. cbn [psbt_inputs]. by rewrite <- list_fmap_compose.
  - apply scripts_of_txs, Forall2_fmap_l. eapply Forall2_impl; [exact Hall|].
    intros p' script (p & raw & s & b & Hp & -> & ->).
    destruct (Hbatch p Hp) as (Hone & _ & txin & Hin). by eapply with_stack_script.
Qed.

Context `{!ParseLaws}.

(** Shares of well-formed signatures, pushed again, are read. *)
Lemma shares_read digits raw off e n (l : list (list (list N))) :
  (∀ sig, sig_wf digits sig → raw sig = sig ≫= digit_witness) → 2 * e * digits ≤ 1000 →
  Forall (sig_wf digits) l → off + n * e ≤ length l →
  parse_all (parse_signatures digits e)
    ((λ k, repush <$> (take e (drop (off + k * e) l) ≫= raw)) <$> seq 0 n)
  = Val (Some (take (n * e) (drop off l))).
Proof.
  intros Hraw Hfit Hwf Hlen. rewrite <- mjoin_shares, <- (parse_all_spec digits e); [|done|].
  - rewrite <- list_fmap_compose. f_equal. apply list_fmap_ext. intros i k _. cbn. f_equal.
    assert (Forall (sig_wf digits) (take e (drop (off + k * e) l))) as Hs by by apply Forall_take, Forall_drop.
    induction Hs as [|sig sigs Hsig _ IH]; [done|]. rewrite !bind_cons, IH, Hraw; done.
  - apply Forall_fmap, Forall_forall. intros k [_ Hk]%elem_of_seq. cbn. split; [|by apply Forall_take, Forall_drop].
    rewrite length_take, length_drop. nia.
Qed.

Lemma unwrap_array_vec {A} n (v : vec A n) : unwrap_array n (vec_to_list v) = Val v.
Proof.
  unfold unwrap_array. rewrite decide_True by apply length_vec_to_list.
  assert (first_n n (vec_to_list v) = Some v) as ->; [|done].
  induction v as [|x n v IH]; [done|]. cbn. by rewrite IH.
Qed.

(** The batches of the scripts. *)
Lemma script_slices sigs256 sigs_hash :
  let scripts := signature_scripts sigs256 sigs_hash in
  slice 0 NUM_FIELD_CONNECTORS_BATCH_1 scripts
    = Val ((λ k, repush <$> (take 5 (drop (0 + k * 5) sigs256) ≫= wots256_raw_witness)) <$> seq 0 3) ∧
  slice NUM_FIELD_CONNECTORS_BATCH_1 (NUM_FIELD_CONNECTORS_BATCH_1 + NUM_FIELD_CONNECTORS_BATCH_2) scripts = Val [] ∧
  slice (NUM_FIELD_CONNECTORS_BATCH_1 + NUM_FIELD_CONNECTORS_BATCH_2)
    (NUM_FIELD_CONNECTORS_BATCH_1 + NUM_FIELD_CONNECTORS_BATCH_2 + NUM_HASH_CONNECTORS_BATCH_1) scripts
    = Val ((λ k, repush <$> (take 10 (drop (0 + k * 10) sigs_hash) ≫= wots_hash_raw_witness)) <$> seq 0 33) ∧
  slice (length scripts - NUM_HASH_CONNECTORS_BATCH_2) (length scripts) scripts
    = Val ((λ k, repush <$> (take 11 (drop (330 + k * 11) sigs_hash) ≫= wots_hash_raw_witness)) <$> seq 0 3).
Proof. done. Qed.

Lemma list_to_vec_exists {A} (l : list A) n : length l = n → ∃ v : vec A n, vec_to_list v = l.
Proof. intros <-. exists (list_to_vec l). apply vec_to_list_to_vec. Qed.

Lemma assertion_read sigs (txs : vec Transaction NUM_ASSERT_DATA_TX) :
  Forall (sig_wf wots256_digits)
    (Vector.hd (sig_public_inputs sigs) :: vec_to_list (sig_field_elems sigs)) →
  Forall (sig_wf wots_hash_digits) (vec_to_list (sig_hashes sigs)) →
  mapM witness_script (vec_to_list txs ≫= input) = Val (signature_scripts
    (Vector.hd (sig_public_inputs sigs) :: vec_to_list (sig_field_elems sigs)) (vec_to_list (sig_hashes sigs))) →
  AssertDataTxBatch_parse_witnesses txs = Val (Some sigs).
Proof.
  intros H256 Hhash E. unfold AssertDataTxBatch_parse_witnesses. rewrite E. cbn [mbind comp_bind].
  set (sigs256 := Vector.hd _ :: _) in *. set (sigs_hash := vec_to_list (sig_hashes sigs)) in *.
  assert (length sigs256 = NUM_PKS_A256) as Hl256 by (cbn; by rewrite length_vec_to_list).
  assert (length sigs_hash = NUM_PKS_A_HASH) as Hlhash by apply length_vec_to_list.
  change (negb _) with false. cbv iota.
  destruct (script_slices sigs256 sigs_hash) as (E1 & E2 & E3 & E4).
  rewrite E1, E2, E3, E4.
  cbn [mbind comp_bind]. unfold parse_assertion_witnesses, parse_wots256_signatures, parse_wots_hash_signatures.
  pose proof wots256_digits_fit as Hfit. pose proof wots_hash_digits_fit as Hfit'.
  unfold NUM_FIELD_ELEMS_PER_CONNECTOR_BATCH_1, NUM_HASH_ELEMS_PER_CONNECTOR_BATCH_1,
    NUM_HASH_ELEMS_PER_CONNECTOR_BATCH_2 in *.
  rewrite (shares_read wots256_digits wots256_raw_witness) by
    (rewrite ?Hl256; done || (intros sig []; by apply wots256_raw_witness_spec)).
  cbn [mbind comp_bind parse_all].
  rewrite !(shares_read wots_hash_digits wots_hash_raw_witness) by
    (rewrite ?Hlhash; (apply Nat.leb_le; reflexivity) || lia || done || (intros sig []; by apply wots_hash_raw_witness_spec)).
  cbn [mbind comp_bind].
  rewrite app_nil_r, !drop_0, (take_ge sigs256) by (rewrite Hl256; done).
  rewrite take_take_drop, (take_ge sigs_hash) by (rewrite Hlhash; apply Nat.leb_le; reflexivity).
  unfold sigs256, sigs_hash. cbn [lookup list_lookup expect mbind comp_bind drop]. rewrite drop_0.
  rewrite !unwrap_array_vec. cbn [mbind comp_bind]. destruct sigs as [pubs fields hashes]. cbn.
  inv_vec pubs. done.
Qed.

(** C21: What an operator commits to can be read from the chain.  For a generated graph and any
    well-formed Winternitz signatures, the claim transaction finalized with the signature of
    the withdrawal fulfillment gives that signature back to [parse_witness], and the 39
    assert-data transactions finalized with those of the assertion give the public input, the
    field elements and the hashes back to [parse_witnesses], each in its place. *)
Theorem commitments_read_back input context deposit_txid gp cp sp prev g c sigs :
  (N.of_nat (2 + NUM_TAPS) ≤ 2 ^ 128)%N → (deposit_amount gp + 27060 ≤ U64_MAX)%N →
  prev = [] ∨ (330 ≤ burn_amount sp)%N →
  PegOutGraph_generate input context deposit_txid gp cp sp prev = Val (g, c) →
  sig_wf wots256_digits (sig_withdrawal_fulfillment sigs) →
  Forall (sig_wf wots256_digits) (Vector.hd (sig_public_inputs (sig_groth16 sigs))
    :: vec_to_list (sig_field_elems (sig_groth16 sigs))) →
  Forall (sig_wf wots_hash_digits) (vec_to_list (sig_hashes (sig_groth16 sigs))) →
  (∃ tx, ClaimTx_finalize (pog_claim_tx g) (sig_withdrawal_fulfillment sigs) = Val tx ∧
    ClaimTx_parse_witness tx = Val (Some (sig_withdrawal_fulfillment sigs))) ∧
  (∃ txs, AssertDataTxBatch_finalize (chain_assert_data (pog_assert_chain g)) (assert_data_hash_factory c)
      (assert_data256_factory c) sigs = Val (vec_to_list txs) ∧
    AssertDataTxBatch_parse_witnesses txs = Val (Some (sig_groth16 sigs))).
Proof.
  intros Htaps Hamt Hburn Hg Hwf H256 Hhash.
  destruct (generate_spec input context deposit_txid gp cp sp prev) as (a3 & b1 & b0 & b3 & E & Hf);
    [done|done|done|].
  rewrite Hg in E. injection E as -> ->. split.
  - destruct (claim_finalize (withdrawal_fulfillment_outpoint input)
      (kickoff (graph_connectors input context cp sp a3)) (claim_out_0 (graph_connectors input context cp sp a3))
      (claim_out_1 (graph_connectors input context cp sp a3)) (n_of_n (graph_connectors input context cp sp a3))
      (connector_cpfp (graph_connectors input context cp sp a3)) (sig_withdrawal_fulfillment sigs) 0)
      as (block & E & _).
    eexists. split; [exact E|]. by eapply claim_read.
  - destruct (assertion_scripts (assert_data256_factory (graph_connectors input context cp sp a3))
      (assert_data_hash_factory (graph_connectors input context cp sp a3)) sigs
      (chain_assert_data (pog_assert_chain (graph_spec input context deposit_txid gp cp sp prev a3 b1 b0 b3))))
      as (txs & E & Hlen & Hs); [cbn; by rewrite length_vec_to_list|apply length_vec_to_list| |].
    { apply (graph_assert_data_all _ input context deposit_txid gp cp sp prev a3 b1 b0 b3). intros txid scripts n i.
      split_and!; [done|apply assert_data_balanced|by eexists]. }
    destruct (list_to_vec_exists txs NUM_ASSERT_DATA_TX Hlen) as [v <-].
    exists v. split; [exact E|]. by apply assertion_read.
Qed.

End assertion.

(** ** Witnesses *)

Definition example_digit (n : N) : list N := replicate 20 n ++ [n mod 16]%N.

Definition example_digit_connectors : ConnectorLib := {|
  into_script l := l ≫= elem_bytes;
  compile l := l ≫= elem_bytes;
  wots256_checksig_verify _ := [6%N];
  wots256_raw_witness sig := sig ≫= digit_witness;
  p2tr_tweaked key network := [key; network];
  serialize_control_block block := [block];
|}.
Definition example_digit_assert : AssertLib := {|
  wots_hash_checksig_verify _ := [5%N];
  wots_hash_raw_witness sig := sig ≫= digit_witness;
  wots256_compact_checksig_verify _ := [2%N];
  wots256_compact_raw_witness sig := sig ≫= digit_witness;
  transform_limbsize from to := [3; from; to]%N;
  blake3_compute_script n := [4; n]%N;
  NUM_TAPS := 3;
  api_generate_full_tapscripts _ := [# [201]; [202]; [203] ]%N;
|}.
Definition example_parse : ParseLib := {|
  wots256_digits := 68;
  wots_hash_digits := 36;
  FinalStack := list (list N);
  execute_script script := script ≫= λ e, opt_list (pushed e);
  stack_get stack k := expect (stack !! k);
|}.

#[local] Existing Instances example_taproot example_digit_connectors example_dust example_txids example_digit_assert
  example_assert_nmul example_graph_profile example_extract example_parse.

#[global] Instance example_digit_dust_laws : DustLaws.
Proof. by split. Qed.

#[global] Instance example_parse_laws : ParseLaws.
Proof.
  split; [|done|done|apply Nat.leb_le; reflexivity|apply Nat.leb_le; reflexivity].
  intros script elems k bytes E _ _ Hk. cbn. assert ((script ≫= λ e, opt_list (pushed e)) = elems) as ->; [|by rewrite Hk].
  clear k bytes Hk. revert elems E. induction script as [|e script IH]; intros [|x elems] E; try done.
  cbn in E. injection E as E1 E2. rewrite bind_cons, E1. cbn. f_equal. by apply IH.
Qed.

Lemma example_digit_wf n : digit_wf (example_digit n).
Proof.
  exists (replicate 20 n), (n mod 16)%N. split_and!; [done|apply length_replicate|by apply N.mod_lt].
Qed.

Lemma example_sig_wf digits n : sig_wf digits (replicate digits (example_digit n)).
Proof. split; [apply length_replicate|]. apply Forall_replicate, example_digit_wf. Qed.

Definition example_commitments : Signatures :=
  mkSignatures (replicate 68 (example_digit 1)) (mkGroth16Sigs (vreplicate _ (replicate 68 (example_digit 2)))
    (vreplicate _ (replicate 68 (example_digit 3))) (vreplicate _ (replicate 36 (example_digit 16)))).

Lemma commitments_read_back_witness :
  ∃ g c txs, PegOutGraph_generate example_input example_context 3 PegOutGraphParams_default ConnectorParams_default
      StakeChainParams_default [] = Val (g, c) ∧
    AssertDataTxBatch_finalize (chain_assert_data (pog_assert_chain g)) (assert_data_hash_factory c)
      (assert_data256_factory c) example_commitments = Val (vec_to_list txs) ∧
    AssertDataTxBatch_parse_witnesses txs = Val (Some (sig_groth16 example_commitments)).
Proof.
  destruct (generate_spec example_input example_context 3 PegOutGraphParams_default ConnectorParams_default
    StakeChainParams_default []) as (a3 & b1 & b0 & b3 & E & _); [done|done|by left|].
  set (g := graph_spec _ _ _ _ _ _ _ _ _ _ _) in E. set (c := graph_connectors _ _ _ _ _) in E.
  destruct (commitments_read_back example_input example_context 3 PegOutGraphParams_default ConnectorParams_default
    StakeChainParams_default [] g c example_commitments) as [_ (txs & Ht & Hp)];
    [done|done|by left|exact E|apply (example_sig_wf 68)| | |].
  - apply Forall_cons. split; [apply (example_sig_wf 68)|].
    change (Forall (sig_wf 68) (vec_to_list (vreplicate NUM_U256 (replicate 68 (example_digit 3))))).
    rewrite vec_to_list_replicate. apply Forall_replicate, (example_sig_wf 68).
  - change (Forall (sig_wf 36) (vec_to_list (vreplicate NUM_HASH (replicate 36 (example_digit 16))))).
    rewrite vec_to_list_replicate. apply Forall_replicate, (example_sig_wf 36).
  - exists g, c, txs. split; [exact E|]. split; [exact Ht|exact Hp].
Defined.
