(* ===== verification/ContractTypes.v ===== *)
(** * Data of the deposit contract ([duty-tracker/src/contract_state_machine.rs])

    The events, states and duties of the contract state machine, its configuration, and the
    interfaces it is written against: the peg-out graph ([TxGraphOps], implemented by the
    [tx-graph] crate) and MuSig2 ([Musig2Lib], the [musig2] crate). *)

From S2P Require Import Prelude Bitcoin OperatorTable PogMusig Wots TxTypes Taproot Deposit.

(** ** Signing *)

Abbreviation PubNonce := N (only parsing).
Abbreviation AggNonce := N (only parsing).
Abbreviation PartialSignature := N (only parsing).

(** [musig2]: the sum of nonces, the check of a partial signature, and the aggregation of
    partial signatures ([None] is a verification error). *)
Class Musig2Lib `{KeyAggLib} := {
  AggNonce_sum : list PubNonce → AggNonce;
  verify_partial : KeyAggContext → PartialSignature → AggNonce → PublicKey → PubNonce → Message
    → bool;
  aggregate_partial_signatures : KeyAggContext → AggNonce → list PartialSignature → Message
    → option SchnorrSignature;
}.

(** ** The peg-out graph, as the state machine uses it *)

Abbreviation Buf32 := N (only parsing).

Class TxGraphOps := {
  Graph : Type;
  (** [PegOutGraph::generate(..).0] with no stakes to slash. *)
  generate : PegOutGraphInput → TxBuildContext → Txid → PegOutGraphParams → ConnectorParams
    → StakeChainParams → comp Graph;
  (** [graph.claim_tx.compute_txid()]. *)
  graph_claim_txid : Graph → Txid;
  summarize : Graph → PegOutGraphSummary;
  musig_sighash_types : Graph → comp (PogMusigF TapSighashType);
  musig_sighashes : Graph → comp (PogMusigF Message);
  musig_inpoints : Graph → PogMusigF OutPoint;
  musig_witnesses : Graph → PogMusigF TaprootWitness;
  (** [ClaimTx::parse_witness] and [AssertDataTxBatch::parse_witnesses]; [None] is an error. *)
  parse_witness : Transaction → comp (option Wots256Sig);
  parse_witnesses : vec Transaction NUM_ASSERT_DATA_TX → comp (option Groth16Sigs);
}.

(** The summary names the claim transaction of the graph. *)
Class TxGraphLaws `{TxGraphOps} : Prop := {
  summarize_claim_txid : ∀ g, claim_txid (summarize g) = graph_claim_txid g;
}.

(** ** The orchestration layer's chain state ([strata_state::bridge_state]) *)

Record DispatchedState := mkDispatchedState {
  assignee : OperatorIdx;
  withdraw_outputs : list Descriptor;
  exec_deadline : BitcoinBlockHeight;
}.

Inductive DepositState := Dispatched (d : DispatchedState) | NotDispatchedState (tag : N).

Record DepositEntry := mkDepositEntry {
  de_idx : N;
  deposit_state : DepositState;
  de_withdrawal_request_txid : option Buf32;
  de_output : OutPoint;
  de_amt : Amount;
}.

(** ** Events *)

(** The [DepositSetup] P2P message. *)
Record DepositSetupMsg := mkDepositSetup {
  ds_index : N;
  ds_hash : Sha256Hash;
  ds_funding_outpoint : OutPoint;
  ds_operator_pk : XOnlyPublicKey;
  ds_wots_pks : P2PWotsPublicKeys;
}.

Definition stake_tx_data (s : DepositSetupMsg) : StakeTxData :=
  mkStakeTxData (ds_funding_outpoint s) (ds_hash s) (p2p_withdrawal_fulfillment (ds_wots_pks s))
    (ds_operator_pk s).

Inductive ContractEvent :=
| EvDepositSetup (operator_p2p_key : P2POperatorPubKey) (operator_btc_key : XOnlyPublicKey)
    (stake_hash : Sha256Hash) (stake_txid : Txid) (wots_keys : PublicKeys)
| EvGraphNonces (signer : P2POperatorPubKey) (claim_txid : Txid) (pubnonces : list PubNonce)
| EvGraphSigs (signer : P2POperatorPubKey) (claim_txid : Txid) (signatures : list PartialSignature)
| EvAggregatedSigs (agg_sigs : BTreeMap Txid (PogMusigF TaprootSignature))
| EvRootNonce (signer : P2POperatorPubKey) (nonce : PubNonce)
| EvRootSig (signer : P2POperatorPubKey) (sig : PartialSignature)
| EvAssignment (deposit_entry : DepositEntry) (stake_tx : StakeTxKind)
    (l1_start_height : BitcoinBlockHeight)
| EvDepositConfirmation (tx : Transaction)
| EvPegOutGraphConfirmation (tx : Transaction) (height : BitcoinBlockHeight)
| EvBlock (height : BitcoinBlockHeight)
| EvClaimFailure
| EvAssertionFailure.

(** ** States *)

Inductive ResolutionPath := Optimistic | Contested.

Record RequestedState := mkRequested {
  deposit_request_txid : Txid;
  abort_deadline : BitcoinBlockHeight;
  peg_out_graph_inputs : BTreeMap P2POperatorPubKey PegOutGraphInput;
  peg_out_graph_summaries : BTreeMap Txid PegOutGraphSummary;
  r_claim_txids : BTreeMap P2POperatorPubKey Txid;
  graph_nonces : BTreeMap Txid (BTreeMap P2POperatorPubKey (PogMusigF PubNonce));
  agg_nonces : BTreeMap Txid (PogMusigF AggNonce);
  graph_partials : BTreeMap Txid (BTreeMap P2POperatorPubKey (PogMusigF PartialSignature));
  r_graph_sigs : BTreeMap Txid (PogMusigF TaprootSignature);
  root_nonces : BTreeMap P2POperatorPubKey PubNonce;
  root_partials : BTreeMap P2POperatorPubKey PartialSignature;
}.

(** The three maps that every state from [Deposited] to [Asserted] carries along. *)
Record Graphs := mkGraphs {
  peg_out_graphs : BTreeMap Txid (PegOutGraphInput * PegOutGraphSummary);
  g_claim_txids : BTreeMap P2POperatorPubKey Txid;
  g_graph_sigs : BTreeMap Txid (PogMusigF TaprootSignature);
}.

(** What the states from [Assigned] to [Asserted] know of the withdrawal being served. *)
Record Withdrawal := mkWithdrawal {
  fulfiller : OperatorIdx;
  active_graph : PegOutGraphInput * PegOutGraphSummary;
  w_withdrawal_request_txid : Buf32;
}.

Inductive ContractState :=
| Requested (r : RequestedState)
| Deposited (g : Graphs)
| Assigned (g : Graphs) (w : Withdrawal) (recipient : Descriptor) (deadline : BitcoinBlockHeight)
    (l1_start_height : BitcoinBlockHeight)
| Fulfilled (g : Graphs) (w : Withdrawal) (withdrawal_fulfillment_txid : Txid)
    (withdrawal_fulfillment_height : BitcoinBlockHeight) (l1_start_height : BitcoinBlockHeight)
| Claimed (g : Graphs) (w : Withdrawal) (claim_height : BitcoinBlockHeight)
    (withdrawal_fulfillment_txid : Txid) (withdrawal_fulfillment_commitment : Wots256Sig)
    (l1_start_height : BitcoinBlockHeight)
| Challenged (g : Graphs) (w : Withdrawal) (claim_height : BitcoinBlockHeight)
    (withdrawal_fulfillment_txid : Txid) (withdrawal_fulfillment_commitment : Wots256Sig)
    (l1_start_height : BitcoinBlockHeight)
| PreAssertConfirmed (g : Graphs) (w : Withdrawal) (claim_height : BitcoinBlockHeight)
    (withdrawal_fulfillment_txid : Txid) (withdrawal_fulfillment_commitment : Wots256Sig)
    (l1_start_height : BitcoinBlockHeight) (signed_assert_data_txs : gmap Txid Transaction)
| AssertDataConfirmed (g : Graphs) (w : Withdrawal) (withdrawal_fulfillment_txid : Txid)
    (withdrawal_fulfillment_commitment : Wots256Sig) (signed_assert_data_txs : gmap Txid Transaction)
| Asserted (g : Graphs) (w : Withdrawal) (post_assert_height : BitcoinBlockHeight)
    (withdrawal_fulfillment_txid : Txid) (withdrawal_fulfillment_commitment : Wots256Sig)
    (proof_commitment : Groth16Sigs)
| Disproved
| Resolved (claim_txid : Txid) (withdrawal_request_txid : Buf32) (withdrawal_fulfillment_txid : Txid)
    (payout_txid : Txid) (path : ResolutionPath)
| Aborted.

(** [ContractState::new]. *)
Definition ContractState_new (deposit_request_txid abort_deadline : N) : ContractState :=
  Requested {|
    deposit_request_txid := deposit_request_txid;
    abort_deadline := abort_deadline;
    peg_out_graph_inputs := ∅;
    peg_out_graph_summaries := ∅;
    r_claim_txids := ∅;
    graph_nonces := ∅;
    agg_nonces := ∅;
    graph_partials := ∅;
    r_graph_sigs := ∅;
    root_nonces := ∅;
    root_partials := ∅;
  |}.

(** The graphs a state between [Deposited] and [Asserted] carries, which the or-patterns of the
    accessors below select. *)
Definition graphs_of (s : ContractState) : option Graphs :=
  match s with
  | Deposited g | Assigned g _ _ _ _ | Fulfilled g _ _ _ _ | Claimed g _ _ _ _ _
  | Challenged g _ _ _ _ _ | PreAssertConfirmed g _ _ _ _ _ _ | AssertDataConfirmed g _ _ _ _
  | Asserted g _ _ _ _ _ => Some g
  | Requested _ | Disproved | Resolved _ _ _ _ _ | Aborted => None
  end.

(** The withdrawal a state between [Assigned] and [Asserted] serves. *)
Definition withdrawal_of (s : ContractState) : option Withdrawal :=
  match s with
  | Assigned _ w _ _ _ | Fulfilled _ w _ _ _ | Claimed _ w _ _ _ _ | Challenged _ w _ _ _ _
  | PreAssertConfirmed _ w _ _ _ _ _ | AssertDataConfirmed _ w _ _ _ | Asserted _ w _ _ _ _ => Some w
  | Requested _ | Deposited _ | Disproved | Resolved _ _ _ _ _ | Aborted => None
  end.

Definition claim_map (s : ContractState) : BTreeMap P2POperatorPubKey Txid :=
  match s with
  | Requested r => r_claim_txids r
  | _ => from_option g_claim_txids ∅ (graphs_of s)
  end.

Definition summaries (s : ContractState) : list PegOutGraphSummary :=
  match s with
  | Requested r => bt_values (peg_out_graph_summaries r)
  | _ => from_option (λ g, snd <$> bt_values (peg_out_graphs g)) [] (graphs_of s)
  end.

(** [ContractSM::claim_txids]; [ContractState::claim_txids] is the set of its elements. *)
Definition claim_txids (s : ContractState) : list Txid :=
  match s with
  | Resolved claim_txid _ _ _ _ => [claim_txid]
  | _ => bt_values (claim_map s)
  end.

Definition claim_txid_set (s : ContractState) : gset Txid := list_to_set (claim_txids s).

Definition graph_sigs (s : ContractState) : BTreeMap Txid (PogMusigF TaprootSignature) :=
  match s with
  | Requested r => r_graph_sigs r
  | _ => from_option g_graph_sigs ∅ (graphs_of s)
  end.

(** The [find_map] over [claim_txids] that both [claim_to_operator] and
    [process_graph_signatures] use. *)
Definition claim_owner (m : BTreeMap P2POperatorPubKey Txid) (claim_txid : Txid)
    : option P2POperatorPubKey :=
  find_map (λ '(op_key, claim), if bool_decide (claim = claim_txid) then Some op_key else None)
    (bt_iter m).

Definition claim_to_operator (s : ContractState) (claim_txid : Txid) : option P2POperatorPubKey :=
  claim_owner (claim_map s) claim_txid.

Definition graph_input (s : ContractState) (claim_txid : Txid) : option PegOutGraphInput :=
  match s with
  | Requested r => claim_to_operator s claim_txid ≫= λ op_key, peg_out_graph_inputs r !! op_key
  | _ => graphs_of s ≫= λ g, fst <$> peg_out_graphs g !! claim_txid
  end.

Definition graph_summary (s : ContractState) (claim_txid : Txid) : option PegOutGraphSummary :=
  match s with
  | Requested r => peg_out_graph_summaries r !! claim_txid
  | _ => graphs_of s ≫= λ g, snd <$> peg_out_graphs g !! claim_txid
  end.

Definition withdrawal_request_txid (s : ContractState) : option Buf32 :=
  match s with Assigned _ w _ _ _ => Some (w_withdrawal_request_txid w) | _ => None end.

Definition withdrawal_fulfillment_txid (s : ContractState) : option Txid :=
  match s with
  | Fulfilled _ _ txid _ _ | Claimed _ _ _ txid _ _ | Challenged _ _ _ txid _ _
  | PreAssertConfirmed _ _ _ txid _ _ _ | AssertDataConfirmed _ _ txid _ _
  | Asserted _ _ _ txid _ _ => Some txid
  | Requested _ | Deposited _ | Assigned _ _ _ _ _ | Disproved | Resolved _ _ _ _ _ | Aborted => None
  end.

(** ** Duties *)

Inductive FulfillerDuty :=
| InitStakeChain
| HandleFulfillment (stake_tx : StakeTxKind) (withdrawal_metadata : WithdrawalMetadata)
    (user_descriptor : Descriptor) (deadline : BitcoinBlockHeight)
| PublishClaim (withdrawal_fulfillment_txid stake_txid deposit_txid : Txid)
| PublishPayoutOptimistic (deposit_txid claim_txid stake_txid : Txid) (stake_index : N)
    (agg_sigs : vec TaprootSignature NUM_PAYOUT_OPTIMISTIC_INPUTS)
| PublishPreAssert (deposit_idx : N) (deposit_txid claim_txid : Txid) (agg_sig : TaprootSignature)
| PublishAssertData (withdrawal_fulfillment_txid : Txid) (start_height : BitcoinBlockHeight)
    (deposit_idx : N) (deposit_txid pre_assert_txid : Txid)
    (pre_assert_locking_scripts : vec ScriptBuf NUM_ASSERT_DATA_TX)
| PublishPostAssertData (deposit_txid : Txid) (assert_data_txids : vec Txid NUM_ASSERT_DATA_TX)
    (agg_sigs : vec TaprootSignature NUM_POST_ASSERT_INPUTS)
| PublishPayout (deposit_idx : N) (deposit_txid post_assert_txid claim_txid stake_txid : Txid)
    (agg_sigs : vec TaprootSignature NUM_PAYOUT_INPUTS).

Inductive VerifierDuty := VerifyClaim | VerifyAssertion | VerifyStake | PublishChallenge | PublishDisprove.

Inductive OperatorDuty :=
| Abort
| PublishStakeChainExchange
| PublishDepositSetup (deposit_txid : Txid) (deposit_idx : N) (stake_chain_inputs : StakeChainInputs)
| PublishGraphNonces (claim_txid : Txid) (pog_prevouts : PogMusigF OutPoint)
    (pog_witnesses : PogMusigF TaprootWitness) (nonces : option (PogMusigF PubNonce))
| PublishGraphSignatures (claim_txid : Txid) (aggnonces : PogMusigF AggNonce)
    (pog_prevouts : PogMusigF OutPoint) (pog_sighashes : PogMusigF Message)
    (witnesses : PogMusigF TaprootWitness) (partial_signatures : option (PogMusigF PartialSignature))
| PublishRootNonce (deposit_request_txid : Txid) (witness : TaprootWitness) (nonce : option PubNonce)
| PublishRootSignature (deposit_request_txid : Txid) (aggnonce : AggNonce) (sighash : Message)
    (witness : TaprootWitness) (partial_signature : option PartialSignature)
| PublishDeposit (deposit_tx : DepositTx) (partial_sigs : list PartialSignature) (aggnonce : AggNonce)
| DFulfiller (d : FulfillerDuty)
| DVerifier (d : VerifierDuty).

(** The reasons behind the messages of [TransitionErr]. *)
Inductive TransitionErr :=
| UnexpectedState | WrongCSM | UnpackError | ClaimNotInNonces | ClaimNotInPartials
| ClaimNotInClaimTxids | GraphInputMissing | AggNoncesMissing | InvalidPartial
| UnknownOperatorKey | RootNonceMissing | UnexpectedBlock | GraphSigsMissing
| WrongAssignment | UnknownAssignee | NoRecipient | NoWithdrawalRequest | NotDispatched
| ClaimNotFound | GraphNotFound | InvalidClaim | ClaimWitnessError | NotAChallenge
| InvalidPreAssert | NotAssertData | InvalidPostAssert | AssertDataMissing | AssertWitnessError
| InvalidDisprove | InvalidOptimisticPayout | InvalidDefendedPayout
| PreStakeMissing | ProofNotGenerated | AssertionsNotGenerated | LateInitStakeChain.

#[global] Instance TransitionErr_eq_dec : EqDecision TransitionErr.
Proof. solve_decision. Defined.

(** ** Configuration and machine *)

Record ContractCfg := mkContractCfg {
  network : Network;
  operator_table : OperatorTable;
  connector_params : ConnectorParams;
  peg_out_graph_params : PegOutGraphParams;
  sidesystem_params : RollupParams;
  stake_chain_params : StakeChainParams;
  deposit_idx : N;
  deposit_tx : DepositTx;
}.

Record MachineState := mkMachineState { block_height : BitcoinBlockHeight; state : ContractState }.

Record ContractSM `{TxGraphOps} := mkContractSM {
  cfg : ContractCfg;
  mstate : MachineState;
  pog : BTreeMap Txid Graph;
}.
