(* ===== verification/Checkpoint.v ===== *)
(** * Checkpoints of the side system ([duty-tracker/src/predicates.rs], [parse_strata_checkpoint])

    A checkpoint transaction carries, in the script of its first input, a signed commitment to the
    state of the side system.  The [strata] crates read it; they are parameters. *)

From S2P Require Import Prelude Bitcoin TxTypes Deposit ContractTypes.

(** What the bridge reads of a checkpoint: the height of the last L1 block it covers, and the
    serialized chain state; and what the [strata] crates do with the script of a checkpoint. *)
Record Checkpoint := mkCheckpoint { l1_end_height : BitcoinBlockHeight; chainstate : list N }.

Class CheckpointLib := {
  TxFilterConfig : Type;
  SignedCheckpoint : Type;
  derive_from : RollupParams → option TxFilterConfig;
  taproot_leaf_script : list (list N) → option ScriptBuf;
  parse_envelope_payloads : ScriptBuf → TxFilterConfig → option (list (list N));
  signed_checkpoint_from_slice : list N → option SignedCheckpoint;
  verify_signed_checkpoint_sig : SignedCheckpoint → RollupParams → bool;
  into_checkpoint : SignedCheckpoint → Checkpoint;
  (** [borsh::from_slice::<Chainstate>] and the entries of its deposits table. *)
  Chainstate : Type;
  chainstate_from_slice : list N → option Chainstate;
  chainstate_deposits : Chainstate → list DepositEntry;
}.

Definition parse_strata_checkpoint `{CheckpointLib} (tx : Transaction) (rollup_params : RollupParams)
    : comp (option Checkpoint) :=
  filter_config ← expect (derive_from rollup_params);
  txin ← expect (input tx !! 0);
  match taproot_leaf_script (witness txin) with
  | None => Val None
  | Some script =>
      match parse_envelope_payloads script filter_config with
      | None | Some [] => Val None
      | Some (inscription :: _) =>
          match signed_checkpoint_from_slice inscription with
          | None => Val None
          | Some signed_checkpoint =>
              if verify_signed_checkpoint_sig signed_checkpoint rollup_params
              then Val (Some (into_checkpoint signed_checkpoint)) else Val None
          end
      end
  end.
