(* ===== verification/Database.v ===== *)
(** * The databases ([db/src/public.rs], [operator.rs], [inmemory/], [persistent/sqlite.rs])

    Two implementations of the same traits: hash maps in memory, and tables in SQLite, whose
    schema is [migrations/20241113060253_init_schema.sql].  The methods of the traits fall into
    groups that use disjoint maps and tables; each group is a class, with an instance for either
    implementation, and a database is the product of the groups.

    A table is the list of its rows.  The statements are those of SQL: [INSERT OR REPLACE] deletes
    the rows that a uniqueness constraint forbids beside the new one, [INSERT OR IGNORE] drops the
    new one.  A statement or transaction may fail, and then changes nothing; which attempts do is
    a parameter, the list of faults of a [Pool].  The columns hold the values themselves, but for
    the witnesses, which are stored as text.

    The theorems: retrying masks as many faults as configured and always ends
    ([retries_mask_faults]); without faults the two implementations give the same answers to every
    sequence of calls that writes the write-once data once ([databases_agree]); the ids of
    deposits are unique and count up in the tables ([deposit_ids_final]), which those in memory
    are not ([readded_deposit_shares_id]); and a witness that was stored cannot be read
    ([stored_witness_unreadable]). *)

From S2P Require Import Prelude Bitcoin PogMusig Wots TxTypes Taproot ContractTypes.

(** ** Errors *)

Inductive StorageError := Driver | MismatchedTypes | InvalidData.
Inductive DbError := StorageErr (e : StorageError) | UnexpectedDbErr.

Definition db_op (S A : Type) : Type := S → S * result DbError A.

(** ** The traits *)

Class KeysDb (S : Type) := {
  get_wots_public_keys : OperatorIdx → Txid → db_op S (option PublicKeys);
  set_wots_public_keys : OperatorIdx → Txid → PublicKeys → db_op S unit;
  get_wots_signatures : OperatorIdx → Txid → db_op S (option Signatures);
  set_wots_signatures : OperatorIdx → Txid → Signatures → db_op S unit;
  get_signature : OperatorIdx → Txid → N → db_op S (option SchnorrSignature);
  set_signature : OperatorIdx → Txid → N → SchnorrSignature → db_op S unit;
}.

Class DepositsDb (S : Type) := {
  add_deposit_txid : Txid → db_op S unit;
  get_deposit_id : Txid → db_op S (option N);
  add_stake_txid : OperatorIdx → Txid → db_op S unit;
  get_stake_txid : OperatorIdx → N → db_op S (option Txid);
}.

Class StakesDb (S : Type) := {
  add_all_stake_data : list (OperatorIdx * N * StakeTxData) → db_op S unit;
  get_all_stake_data : OperatorIdx → db_op S (BTreeMap N StakeTxData);
  set_pre_stake : OperatorIdx → OutPoint → db_op S unit;
  get_pre_stake : OperatorIdx → db_op S (option OutPoint);
  add_stake_data : OperatorIdx → N → StakeTxData → db_op S unit;
  get_stake_data : OperatorIdx → N → db_op S (option StakeTxData);
}.

Class GraphsDb (S : Type) := {
  register_claim_txid : Txid → OperatorIdx → Txid → db_op S unit;
  get_operator_and_deposit_for_claim : Txid → db_op S (option (OperatorIdx * Txid));
  register_post_assert_txid : Txid → OperatorIdx → Txid → db_op S unit;
  get_operator_and_deposit_for_post_assert : Txid → db_op S (option (OperatorIdx * Txid));
  register_assert_data_txids : vec Txid NUM_ASSERT_DATA_TX → OperatorIdx → Txid → db_op S unit;
  get_operator_and_deposit_for_assert_data : Txid → db_op S (option (OperatorIdx * Txid));
  register_pre_assert_txid : Txid → OperatorIdx → Txid → db_op S unit;
  get_operator_and_deposit_for_pre_assert : Txid → db_op S (option (OperatorIdx * Txid));
}.

Class OperatorDb (S : Type) := {
  get_pub_nonce : OperatorIdx → Txid → N → db_op S (option PubNonce);
  set_pub_nonce : OperatorIdx → Txid → N → PubNonce → db_op S unit;
  get_aggregated_nonce : Txid → N → db_op S (option AggNonce);
  set_aggregated_nonce : Txid → N → AggNonce → db_op S unit;
  get_partial_signature : OperatorIdx → Txid → N → db_op S (option PartialSignature);
  set_partial_signature : OperatorIdx → Txid → N → PartialSignature → db_op S unit;
  get_witness : OperatorIdx → Txid → N → db_op S (option TaprootWitness);
  set_witness : OperatorIdx → Txid → N → TaprootWitness → db_op S unit;
}.

(** ** In memory *)

Abbreviation HashMap := gmap (only parsing).

(** Insertion into the map of an operator, which is created if there is none. *)
Definition insert_for {K V} `{Countable K} (o : OperatorIdx) (k : K) (v : V) (m : HashMap N (HashMap K V))
    : HashMap N (HashMap K V) :=
  match m !! o with
  | Some inner => <[o := <[k := v]> inner]> m
  | None => <[o := {[k := v]}]> m
  end.

Definition lookup_for {K V} `{Countable K} (o : OperatorIdx) (k : K) (m : HashMap N (HashMap K V)) : option V :=
  m !! o ≫= λ inner, inner !! k.

Definition reads {S A} (f : S → A) : db_op S A := λ s, (s, Ok (f s)).
Definition writes {S} (f : S → S) : db_op S unit := λ s, (f s, Ok tt).

Record MemKeys := mkMemKeys {
  mem_wots_public_keys : HashMap OperatorIdx (HashMap Txid PublicKeys);
  mem_wots_signatures : HashMap OperatorIdx (HashMap Txid Signatures);
  mem_signatures : HashMap OperatorIdx (HashMap (Txid * N) SchnorrSignature);
}.

#[global] Instance mem_keys_db : KeysDb MemKeys := {|
  get_wots_public_keys o txid := reads (λ s, lookup_for o txid (mem_wots_public_keys s));
  set_wots_public_keys o txid keys := writes (λ s,
    mkMemKeys (insert_for o txid keys (mem_wots_public_keys s)) (mem_wots_signatures s) (mem_signatures s));
  get_wots_signatures o txid := reads (λ s, lookup_for o txid (mem_wots_signatures s));
  set_wots_signatures o txid sigs := writes (λ s,
    mkMemKeys (mem_wots_public_keys s) (insert_for o txid sigs (mem_wots_signatures s)) (mem_signatures s));
  get_signature o txid input_index := reads (λ s, lookup_for o (txid, input_index) (mem_signatures s));
  set_signature o txid input_index sig := writes (λ s,
    mkMemKeys (mem_wots_public_keys s) (mem_wots_signatures s)
      (insert_for o (txid, input_index) sig (mem_signatures s)));
|}.

Record MemDeposits := mkMemDeposits {
  deposits_table : HashMap Txid N;
  stake_txid_table : HashMap OperatorIdx (HashMap N Txid);
}.

(** [count() as u32]. *)
Definition count_u32 {K V} `{Countable K} (m : HashMap K V) : N := (N.of_nat (size m) mod 2 ^ 32)%N.

#[global] Instance mem_deposits_db : DepositsDb MemDeposits := {|
  add_deposit_txid txid := writes (λ s,
    mkMemDeposits (<[txid := count_u32 (deposits_table s)]> (deposits_table s)) (stake_txid_table s));
  get_deposit_id txid := reads (λ s, deposits_table s !! txid);
  add_stake_txid o txid := writes (λ s,
    let stake_id := from_option count_u32 0%N (stake_txid_table s !! o) in
    mkMemDeposits (deposits_table s) (insert_for o stake_id txid (stake_txid_table s)));
  get_stake_txid o stake_id := reads (λ s, lookup_for o stake_id (stake_txid_table s));
|}.

Record MemStakes := mkMemStakes {
  pre_stake_table : HashMap OperatorIdx OutPoint;
  stake_data : HashMap OperatorIdx (HashMap N StakeTxData);
}.

#[global] Instance mem_stakes_db : StakesDb MemStakes := {|
  add_all_stake_data data := writes (λ s,
    mkMemStakes (pre_stake_table s)
      (foldl (λ m '(o, stake_index, data), insert_for o stake_index data m) (stake_data s) data));
  get_all_stake_data o := reads (λ s, default ∅ (stake_data s !! o));
  set_pre_stake o pre_stake := writes (λ s, mkMemStakes (<[o := pre_stake]> (pre_stake_table s)) (stake_data s));
  get_pre_stake o := reads (λ s, pre_stake_table s !! o);
  add_stake_data o stake_index data := writes (λ s,
    mkMemStakes (pre_stake_table s) (insert_for o stake_index data (stake_data s)));
  get_stake_data o stake_index := reads (λ s, lookup_for o stake_index (stake_data s));
|}.

Record MemGraphs := mkMemGraphs {
  claim_txid_to_operator_index_and_deposit_txid : HashMap Txid (OperatorIdx * Txid);
  pre_assert_txid_to_operator_index_and_deposit_txid : HashMap Txid (OperatorIdx * Txid);
  assert_data_txid_to_operator_index_and_deposit_txid : HashMap Txid (OperatorIdx * Txid);
  post_assert_txid_to_operator_index_and_deposit_txid : HashMap Txid (OperatorIdx * Txid);
}.

#[global] Instance mem_graphs_db : GraphsDb MemGraphs := {|
  register_claim_txid txid o deposit := writes (λ '(mkMemGraphs c p a q), mkMemGraphs (<[txid := (o, deposit)]> c) p a q);
  get_operator_and_deposit_for_claim txid := reads (λ s, claim_txid_to_operator_index_and_deposit_txid s !! txid);
  register_post_assert_txid txid o deposit :=
    writes (λ '(mkMemGraphs c p a q), mkMemGraphs c p a (<[txid := (o, deposit)]> q));
  get_operator_and_deposit_for_post_assert txid :=
    reads (λ s, post_assert_txid_to_operator_index_and_deposit_txid s !! txid);
  register_assert_data_txids txids o deposit := writes (λ '(mkMemGraphs c p a q),
    mkMemGraphs c p (foldl (λ m txid, <[txid := (o, deposit)]> m) a (vec_to_list txids)) q);
  get_operator_and_deposit_for_assert_data txid :=
    reads (λ s, assert_data_txid_to_operator_index_and_deposit_txid s !! txid);
  register_pre_assert_txid txid o deposit :=
    writes (λ '(mkMemGraphs c p a q), mkMemGraphs c (<[txid := (o, deposit)]> p) a q);
  get_operator_and_deposit_for_pre_assert txid :=
    reads (λ s, pre_assert_txid_to_operator_index_and_deposit_txid s !! txid);
|}.

Record OperatorDbInMemory := mkOperatorDbInMemory {
  mem_pub_nonces : HashMap OperatorIdx (HashMap (Txid * N) PubNonce);
  mem_aggregated_nonces : HashMap (Txid * N) AggNonce;
  mem_partial_signatures : HashMap OperatorIdx (HashMap (Txid * N) PartialSignature);
  mem_witnesses : HashMap OperatorIdx (HashMap (Txid * N) TaprootWitness);
}.

(** [entry(o).or_default().insert(k, v)]. *)
Definition entry_insert {K V} `{Countable K} (o : OperatorIdx) (k : K) (v : V) (m : HashMap N (HashMap K V))
    : HashMap N (HashMap K V) :=
  <[o := <[k := v]> (default ∅ (m !! o))]> m.

#[global] Instance mem_operator_db : OperatorDb OperatorDbInMemory := {|
  get_pub_nonce o txid i := reads (λ s, lookup_for o (txid, i) (mem_pub_nonces s));
  set_pub_nonce o txid i nonce := writes (λ '(mkOperatorDbInMemory n a p w),
    mkOperatorDbInMemory (entry_insert o (txid, i) nonce n) a p w);
  get_aggregated_nonce txid i := reads (λ s, mem_aggregated_nonces s !! (txid, i));
  set_aggregated_nonce txid i nonce := writes (λ '(mkOperatorDbInMemory n a p w),
    mkOperatorDbInMemory n (<[(txid, i) := nonce]> a) p w);
  get_partial_signature o txid i := reads (λ s, lookup_for o (txid, i) (mem_partial_signatures s));
  set_partial_signature o txid i sig := writes (λ '(mkOperatorDbInMemory n a p w),
    mkOperatorDbInMemory n a (entry_insert o (txid, i) sig p) w);
  get_witness o txid i := reads (λ s, lookup_for o (txid, i) (mem_witnesses s));
  set_witness o txid i witness := writes (λ '(mkOperatorDbInMemory n a p w),
    mkOperatorDbInMemory n a p (entry_insert o (txid, i) witness w));
|}.

(** ** SQLite *)

(** A table with a primary key: the rows, with the columns of the key first. *)
Abbreviation Table K V := (list (K * V)) (only parsing).

(** [INSERT OR REPLACE], [INSERT OR IGNORE], and [SELECT .. WHERE] with the whole key. *)
Definition insert_or_replace {K V} `{EqDecision K} (k : K) (v : V) (t : Table K V) : Table K V :=
  filter (λ row, row.1 ≠ k) t ++ [(k, v)].
Definition insert_or_ignore {K V} `{EqDecision K} (k : K) (v : V) (t : Table K V) : Table K V :=
  if existsb (λ row, bool_decide (row.1 = k)) t then t else t ++ [(k, v)].
Definition select_key {K V} `{EqDecision K} (k : K) (t : Table K V) : option V :=
  find_map (λ row, if decide (row.1 = k) then Some row.2 else None) t.

Record DbConfig := mkDbConfig { max_retry_count : nat }.

(** A database and what happens to the next attempts: an attempt for which there is a fault fails
    and leaves the tables as they are. *)
Record Pool (T : Type) := mkPool { config : DbConfig; tables : T; faults : list bool }.
Arguments mkPool {_} _ _ _.
Arguments config {_} _.
Arguments tables {_} _.
Arguments faults {_} _.

Definition transaction {T A} (op : T → T * result DbError A) : db_op (Pool T) A := λ p,
  match faults p with
  | true :: fs => (mkPool (config p) (tables p) fs, Err (StorageErr Driver))
  | _ => let '(t, r) := op (tables p) in (mkPool (config p) t (tail (faults p)), r)
  end.

(** The loop, with the number of retries that are left. *)
Fixpoint retry_loop {S A} (retries : nat) (operation : db_op S A) : db_op S A := λ s,
  match operation s with
  | (s, Ok a) => (s, Ok a)
  | (s, Err e) =>
      match retries with
      | 0 => (s, Err e)
      | S retries => retry_loop retries operation s
      end
  end.

Definition execute_with_retries {T A} (op : T → T * result DbError A) : db_op (Pool T) A := λ p,
  retry_loop (max_retry_count (config p)) (transaction op) p.

Definition queries {T A} (f : T → A) : db_op (Pool T) A := execute_with_retries (λ t, (t, Ok (f t))).
Definition executes {T} (f : T → T) : db_op (Pool T) unit := execute_with_retries (λ t, (f t, Ok tt)).

Record SqlKeys := mkSqlKeys {
  wots_public_keys : Table (OperatorIdx * Txid) PublicKeys;
  wots_signatures : Table (OperatorIdx * Txid) Signatures;
  signatures : Table (OperatorIdx * Txid * N) SchnorrSignature;
}.

#[global] Instance sqlite_keys_db : KeysDb (Pool SqlKeys) := {|
  get_wots_public_keys o txid := queries (λ t, select_key (o, txid) (wots_public_keys t));
  set_wots_public_keys o txid keys := executes (λ t,
    mkSqlKeys (insert_or_replace (o, txid) keys (wots_public_keys t)) (wots_signatures t) (signatures t));
  get_wots_signatures o txid := queries (λ t, select_key (o, txid) (wots_signatures t));
  set_wots_signatures o txid sigs := executes (λ t,
    mkSqlKeys (wots_public_keys t) (insert_or_replace (o, txid) sigs (wots_signatures t)) (signatures t));
  get_signature o txid i := queries (λ t, select_key (o, txid, i) (signatures t));
  set_signature o txid i sig := executes (λ t,
    mkSqlKeys (wots_public_keys t) (wots_signatures t) (insert_or_replace (o, txid, i) sig (signatures t)));
|}.

(** [deposits] has two uniqueness constraints: the primary key and the id. *)
Record SqlDeposits := mkSqlDeposits {
  deposits : Table Txid N;
  operator_stake_txids : Table (N * OperatorIdx) Txid;
}.

Definition insert_or_ignore_deposit (txid : Txid) (id : N) (t : Table Txid N) : Table Txid N :=
  if existsb (λ row, bool_decide (row.1 = txid) || bool_decide (row.2 = id)) t then t else t ++ [(txid, id)].

(** Reading a column as a [u32]. *)
Definition decode_u32 (n : N) : result DbError N :=
  if (n <? 2 ^ 32)%N then Ok n else Err (StorageErr Driver).

#[global] Instance sqlite_deposits_db : DepositsDb (Pool SqlDeposits) := {|
  add_deposit_txid txid := executes (λ t,
    let new_index := N.of_nat (length (deposits t)) in
    mkSqlDeposits (insert_or_ignore_deposit txid new_index (deposits t)) (operator_stake_txids t));
  get_deposit_id txid := execute_with_retries (λ t, (t,
    match select_key txid (deposits t) with None => Ok None | Some id => Some <$> decode_u32 id end));
  add_stake_txid o txid := executes (λ t,
    let stake_id := N.of_nat (length (filter (λ row : N * OperatorIdx * Txid, row.1.2 = o) (operator_stake_txids t))) in
    mkSqlDeposits (deposits t) (insert_or_ignore (stake_id, o) txid (operator_stake_txids t)));
  get_stake_txid o stake_id := queries (λ t, select_key (stake_id, o) (operator_stake_txids t));
|}.

(** A row of [operator_stake_data], without its key. *)
Record DbStakeTxData := mkDbStakeTxData {
  funding_txid : Txid;
  funding_vout : N;
  db_hash : Sha256Hash;
  db_withdrawal_fulfillment_pk : Wots256PublicKey;
  db_operator_pubkey : XOnlyPublicKey;
}.

Definition DbStakeTxData_new (d : StakeTxData) : DbStakeTxData :=
  mkDbStakeTxData (op_txid (operator_funds d)) (op_vout (operator_funds d)) (stk_hash d)
    (withdrawal_fulfillment_pk d) (stk_operator_pubkey d).
Definition into_stake_tx_data (d : DbStakeTxData) : StakeTxData :=
  mkStakeTxData (mkOutPoint (funding_txid d) (funding_vout d)) (db_hash d)
    (db_withdrawal_fulfillment_pk d) (db_operator_pubkey d).

Record SqlStakes := mkSqlStakes {
  operator_pre_stake_data : Table OperatorIdx (Txid * N);
  operator_stake_data : Table (OperatorIdx * N) DbStakeTxData;
}.

Definition insert_stake_data (o : OperatorIdx) (stake_index : N) (data : StakeTxData) (t : SqlStakes) : SqlStakes :=
  mkSqlStakes (operator_pre_stake_data t)
    (insert_or_ignore (o, stake_index) (DbStakeTxData_new data) (operator_stake_data t)).

(** [ORDER BY deposit_idx ASC], collected into a [BTreeMap]. *)
Definition operator_stakes (o : OperatorIdx) (t : Table (OperatorIdx * N) DbStakeTxData) : BTreeMap N StakeTxData :=
  bt_collect (merge_sort bt_le
    ((λ row : OperatorIdx * N * DbStakeTxData, (row.1.2, into_stake_tx_data row.2))
      <$> filter (λ row : OperatorIdx * N * DbStakeTxData, row.1.1 = o) t)).

#[global] Instance sqlite_stakes_db : StakesDb (Pool SqlStakes) := {|
  add_all_stake_data data := executes (λ t,
    foldl (λ t '(o, stake_index, data), insert_stake_data o stake_index data t) t data);
  get_all_stake_data o := queries (λ t, operator_stakes o (operator_stake_data t));
  set_pre_stake o pre_stake := executes (λ t,
    mkSqlStakes (insert_or_ignore o (op_txid pre_stake, op_vout pre_stake) (operator_pre_stake_data t))
      (operator_stake_data t));
  get_pre_stake o := queries (λ t,
    (λ row, mkOutPoint row.1 row.2) <$> select_key o (operator_pre_stake_data t));
  add_stake_data o stake_index data := executes (insert_stake_data o stake_index data);
  get_stake_data o stake_index := queries (λ t,
    into_stake_tx_data <$> select_key (o, stake_index) (operator_stake_data t));
|}.

Record SqlGraphs := mkSqlGraphs {
  sql_claims : Table Txid (OperatorIdx * Txid);
  sql_post_asserts : Table Txid (OperatorIdx * Txid);
  sql_assert_data : Table Txid (OperatorIdx * Txid);
  sql_pre_asserts : Table Txid (OperatorIdx * Txid);
}.

#[global] Instance sqlite_graphs_db : GraphsDb (Pool SqlGraphs) := {|
  register_claim_txid txid o deposit := executes (λ '(mkSqlGraphs c q a p),
    mkSqlGraphs (insert_or_replace txid (o, deposit) c) q a p);
  get_operator_and_deposit_for_claim txid := queries (λ t, select_key txid (sql_claims t));
  register_post_assert_txid txid o deposit := executes (λ '(mkSqlGraphs c q a p),
    mkSqlGraphs c (insert_or_replace txid (o, deposit) q) a p);
  get_operator_and_deposit_for_post_assert txid := queries (λ t, select_key txid (sql_post_asserts t));
  register_assert_data_txids txids o deposit := executes (λ '(mkSqlGraphs c q a p),
    mkSqlGraphs c q (foldl (λ a txid, insert_or_replace txid (o, deposit) a) a (vec_to_list txids)) p);
  get_operator_and_deposit_for_assert_data txid := queries (λ t, select_key txid (sql_assert_data t));
  register_pre_assert_txid txid o deposit := executes (λ '(mkSqlGraphs c q a p),
    mkSqlGraphs c q a (insert_or_replace txid (o, deposit) p));
  get_operator_and_deposit_for_pre_assert txid := queries (λ t, select_key txid (sql_pre_asserts t));
|}.

Record SqlOperator := mkSqlOperator {
  pub_nonces : Table (OperatorIdx * Txid * N) PubNonce;
  aggregated_nonces : Table (Txid * N) AggNonce;
  partial_signatures : Table (OperatorIdx * Txid * N) PartialSignature;
  witnesses_table : Table (OperatorIdx * Txid * N) string;
}.

(** [DbTaprootWitness]: the column holds the text of the witness. *)
Definition decode_witness `{HexLib} (hex : string) : result DbError TaprootWitness :=
  match from_hex hex with Ok w => Ok w | Err _ => Err (StorageErr Driver) end.

#[global] Instance sqlite_operator_db `{HexLib} : OperatorDb (Pool SqlOperator) := {|
  get_pub_nonce o txid i := queries (λ t, select_key (o, txid, i) (pub_nonces t));
  set_pub_nonce o txid i nonce := executes (λ '(mkSqlOperator n a p w),
    mkSqlOperator (insert_or_replace (o, txid, i) nonce n) a p w);
  get_aggregated_nonce txid i := queries (λ t, select_key (txid, i) (aggregated_nonces t));
  set_aggregated_nonce txid i nonce := executes (λ '(mkSqlOperator n a p w),
    mkSqlOperator n (insert_or_replace (txid, i) nonce a) p w);
  get_partial_signature o txid i := queries (λ t, select_key (o, txid, i) (partial_signatures t));
  set_partial_signature o txid i sig := executes (λ '(mkSqlOperator n a p w),
    mkSqlOperator n a (insert_or_replace (o, txid, i) sig p) w);
  get_witness o txid i := execute_with_retries (λ t, (t,
    match select_key (o, txid, i) (witnesses_table t) with
    | None => Ok None
    | Some hex => Some <$> decode_witness hex
    end));
  set_witness o txid i witness := executes (λ '(mkSqlOperator n a p w),
    mkSqlOperator n a p (insert_or_replace (o, txid, i) (to_hex witness) w));
|}.

(** ** Calls *)

Record Database (K D T G O : Type) := mkDatabase {
  keys_part : K; deposits_part : D; stakes_part : T; graphs_part : G; operator_part : O
}.
Arguments mkDatabase {_ _ _ _ _} _ _ _ _ _.
Arguments keys_part {_ _ _ _ _} _.
Arguments deposits_part {_ _ _ _ _} _.
Arguments stakes_part {_ _ _ _ _} _.
Arguments graphs_part {_ _ _ _ _} _.
Arguments operator_part {_ _ _ _ _} _.

Inductive DbCall :=
| GetWotsPublicKeys (o : OperatorIdx) (txid : Txid)
| SetWotsPublicKeys (o : OperatorIdx) (txid : Txid) (keys : PublicKeys)
| GetWotsSignatures (o : OperatorIdx) (txid : Txid)
| SetWotsSignatures (o : OperatorIdx) (txid : Txid) (sigs : Signatures)
| GetSignature (o : OperatorIdx) (txid : Txid) (i : N)
| SetSignature (o : OperatorIdx) (txid : Txid) (i : N) (sig : SchnorrSignature)
| AddDepositTxid (txid : Txid)
| GetDepositId (txid : Txid)
| AddStakeTxid (o : OperatorIdx) (txid : Txid)
| GetStakeTxid (o : OperatorIdx) (stake_id : N)
| AddAllStakeData (data : list (OperatorIdx * N * StakeTxData))
| GetAllStakeData (o : OperatorIdx)
| SetPreStake (o : OperatorIdx) (pre_stake : OutPoint)
| GetPreStake (o : OperatorIdx)
| AddStakeData (o : OperatorIdx) (stake_index : N) (data : StakeTxData)
| GetStakeData (o : OperatorIdx) (stake_index : N)
| RegisterClaim (txid : Txid) (o : OperatorIdx) (deposit : Txid)
| ForClaim (txid : Txid)
| RegisterPostAssert (txid : Txid) (o : OperatorIdx) (deposit : Txid)
| ForPostAssert (txid : Txid)
| RegisterAssertData (txids : vec Txid NUM_ASSERT_DATA_TX) (o : OperatorIdx) (deposit : Txid)
| ForAssertData (txid : Txid)
| RegisterPreAssert (txid : Txid) (o : OperatorIdx) (deposit : Txid)
| ForPreAssert (txid : Txid)
| GetPubNonce (o : OperatorIdx) (txid : Txid) (i : N)
| SetPubNonce (o : OperatorIdx) (txid : Txid) (i : N) (nonce : PubNonce)
| GetAggregatedNonce (txid : Txid) (i : N)
| SetAggregatedNonce (txid : Txid) (i : N) (nonce : AggNonce)
| GetPartialSignature (o : OperatorIdx) (txid : Txid) (i : N)
| SetPartialSignature (o : OperatorIdx) (txid : Txid) (i : N) (sig : PartialSignature)
| GetWitness (o : OperatorIdx) (txid : Txid) (i : N)
| SetWitness (o : OperatorIdx) (txid : Txid) (i : N) (witness : TaprootWitness).

Inductive Answer :=
| Done
| WotsKeys (a : option PublicKeys) | WotsSigs (a : option Signatures) | Number (a : option N)
| AllStakeData (a : BTreeMap N StakeTxData) | PreStake (a : option OutPoint) | OneStakeData (a : option StakeTxData)
| OperatorAndDeposit (a : option (OperatorIdx * Txid)) | AWitness (a : option TaprootWitness).

Section calls.
Context {K D T G O : Type} `{KeysDb K, DepositsDb D, StakesDb T, GraphsDb G, OperatorDb O}.
Abbreviation db := (Database K D T G O).

Definition on_keys {A} (op : db_op K A) (f : A → Answer) : db_op db Answer := λ s,
  let '(k, r) := op (keys_part s) in
  (mkDatabase k (deposits_part s) (stakes_part s) (graphs_part s) (operator_part s), f <$> r).
Definition on_deposits {A} (op : db_op D A) (f : A → Answer) : db_op db Answer := λ s,
  let '(d, r) := op (deposits_part s) in
  (mkDatabase (keys_part s) d (stakes_part s) (graphs_part s) (operator_part s), f <$> r).
Definition on_stakes {A} (op : db_op T A) (f : A → Answer) : db_op db Answer := λ s,
  let '(t, r) := op (stakes_part s) in
  (mkDatabase (keys_part s) (deposits_part s) t (graphs_part s) (operator_part s), f <$> r).
Definition on_graphs {A} (op : db_op G A) (f : A → Answer) : db_op db Answer := λ s,
  let '(g, r) := op (graphs_part s) in
  (mkDatabase (keys_part s) (deposits_part s) (stakes_part s) g (operator_part s), f <$> r).
Definition on_operator {A} (op : db_op O A) (f : A → Answer) : db_op db Answer := λ s,
  let '(o, r) := op (operator_part s) in
  (mkDatabase (keys_part s) (deposits_part s) (stakes_part s) (graphs_part s) o, f <$> r).

Definition call (c : DbCall) : db_op db Answer :=
  match c with
  | GetWotsPublicKeys o txid => on_keys (get_wots_public_keys o txid) WotsKeys
  | SetWotsPublicKeys o txid keys => on_keys (set_wots_public_keys o txid keys) (λ _, Done)
  | GetWotsSignatures o txid => on_keys (get_wots_signatures o txid) WotsSigs
  | SetWotsSignatures o txid sigs => on_keys (set_wots_signatures o txid sigs) (λ _, Done)
  | GetSignature o txid i => on_keys (get_signature o txid i) Number
  | SetSignature o txid i sig => on_keys (set_signature o txid i sig) (λ _, Done)
  | AddDepositTxid txid => on_deposits (add_deposit_txid txid) (λ _, Done)
  | GetDepositId txid => on_deposits (get_deposit_id txid) Number
  | AddStakeTxid o txid => on_deposits (add_stake_txid o txid) (λ _, Done)
  | GetStakeTxid o stake_id => on_deposits (get_stake_txid o stake_id) Number
  | AddAllStakeData data => on_stakes (add_all_stake_data data) (λ _, Done)
  | GetAllStakeData o => on_stakes (get_all_stake_data o) AllStakeData
  | SetPreStake o pre_stake => on_stakes (set_pre_stake o pre_stake) (λ _, Done)
  | GetPreStake o => on_stakes (get_pre_stake o) PreStake
  | AddStakeData o i data => on_stakes (add_stake_data o i data) (λ _, Done)
  | GetStakeData o i => on_stakes (get_stake_data o i) OneStakeData
  | RegisterClaim txid o deposit => on_graphs (register_claim_txid txid o deposit) (λ _, Done)
  | ForClaim txid => on_graphs (get_operator_and_deposit_for_claim txid) OperatorAndDeposit
  | RegisterPostAssert txid o deposit => on_graphs (register_post_assert_txid txid o deposit) (λ _, Done)
  | ForPostAssert txid => on_graphs (get_operator_and_deposit_for_post_assert txid) OperatorAndDeposit
  | RegisterAssertData txids o deposit => on_graphs (register_assert_data_txids txids o deposit) (λ _, Done)
  | ForAssertData txid => on_graphs (get_operator_and_deposit_for_assert_data txid) OperatorAndDeposit
  | RegisterPreAssert txid o deposit => on_graphs (register_pre_assert_txid txid o deposit) (λ _, Done)
  | ForPreAssert txid => on_graphs (get_operator_and_deposit_for_pre_assert txid) OperatorAndDeposit
  | GetPubNonce o txid i => on_operator (get_pub_nonce o txid i) Number
  | SetPubNonce o txid i nonce => on_operator (set_pub_nonce o txid i nonce) (λ _, Done)
  | GetAggregatedNonce txid i => on_operator (get_aggregated_nonce txid i) Number
  | SetAggregatedNonce txid i nonce => on_operator (set_aggregated_nonce txid i nonce) (λ _, Done)
  | GetPartialSignature o txid i => on_operator (get_partial_signature o txid i) Number
  | SetPartialSignature o txid i sig => on_operator (set_partial_signature o txid i sig) (λ _, Done)
  | GetWitness o txid i => on_operator (get_witness o txid i) AWitness
  | SetWitness o txid i witness => on_operator (set_witness o txid i witness) (λ _, Done)
  end.

Fixpoint calls (cs : list DbCall) (s : db) : db * list (result DbError Answer) :=
  match cs with
  | [] => (s, [])
  | c :: cs => let '(s, a) := call c s in let '(s, l) := calls cs s in (s, a :: l)
  end.

End calls.

(** The two implementations, empty. *)
Abbreviation MemoryDb := (Database MemKeys MemDeposits MemStakes MemGraphs OperatorDbInMemory).
Abbreviation SqliteDb := (Database (Pool SqlKeys) (Pool SqlDeposits) (Pool SqlStakes) (Pool SqlGraphs) (Pool SqlOperator)).

Definition memory_db : MemoryDb :=
  mkDatabase (mkMemKeys ∅ ∅ ∅) (mkMemDeposits ∅ ∅) (mkMemStakes ∅ ∅) (mkMemGraphs ∅ ∅ ∅ ∅)
    (mkOperatorDbInMemory ∅ ∅ ∅ ∅).
Definition sqlite_db (c : DbConfig) : SqliteDb :=
  mkDatabase (mkPool c (mkSqlKeys [] [] []) []) (mkPool c (mkSqlDeposits [] []) [])
    (mkPool c (mkSqlStakes [] []) []) (mkPool c (mkSqlGraphs [] [] [] []) []) (mkPool c (mkSqlOperator [] [] [] []) []).

(** ** Properties *)

(** *** Retries *)

Lemma retry_loop_faults {T A} (op : T → T * result DbError A) n p k fs a t :
  faults p = replicate k true ++ fs → head fs ≠ Some true → k <= n →
  op (tables p) = (t, Ok a) → retry_loop n (transaction op) p = (mkPool (config p) t (tail fs), Ok a).
Proof.
  intros Hf Hh Hk Hop. revert p n Hf Hk Hop. induction k as [|k IH]; intros [c tb fs'] n Hf Hk Hop; cbn in Hf; subst fs'.
  - assert (transaction op (mkPool c tb fs) = (mkPool c t (tail fs), Ok a)) as E.
    { unfold transaction. cbn [faults config tables] in *. rewrite Hop. by destruct fs as [|[] fs]. }
    destruct n; cbn [retry_loop]; by rewrite E.
  - destruct n as [|n]; [lia|]. cbn [retry_loop]. unfold transaction at 1. cbn [faults config tables].
    apply (IH (mkPool c tb (replicate k true ++ fs)) n); [done|lia|done].
Qed.

Lemma retry_loop_exhausted {T A} (op : T → T * result DbError A) n p fs :
  faults p = replicate (S n) true ++ fs →
  retry_loop n (transaction op) p = (mkPool (config p) (tables p) fs, Err (StorageErr Driver)).
Proof.
  revert p. induction n as [|n IH]; intros [c tb fs'] Hf; cbn in Hf; subst fs'; [done|].
  cbn [retry_loop]. unfold transaction at 1. cbn [faults config tables].
  by apply (IH (mkPool c tb (true :: replicate n true ++ fs))).
Qed.

(** Retrying ends, masks the faults it is configured for, and is atomic.  An operation that
    fails [k] times in a row for a fault of the database succeeds as if there had been none when
    [k] is at most the configured number of retries, after [k] more attempts than needed; when
    there are more faults it fails after exactly one attempt more than the number of retries, and
    the tables are as they were. *)
Theorem retries_mask_faults {T A} (op : T → T * result DbError A) (p : Pool T) k fs t a :
  faults p = replicate k true ++ fs → head fs ≠ Some true → op (tables p) = (t, Ok a) →
  execute_with_retries op p =
    if decide (k <= max_retry_count (config p)) then (mkPool (config p) t (tail fs), Ok a)
    else (mkPool (config p) (tables p) (replicate (k - S (max_retry_count (config p))) true ++ fs),
          Err (StorageErr Driver)).
Proof.
  intros Hf Hh Hop. unfold execute_with_retries. case_decide as Hk.
  - by eapply retry_loop_faults.
  - apply retry_loop_exhausted. rewrite Hf, app_assoc, <- replicate_add. do 2 f_equal. lia.
Qed.

(** *** Tables and maps *)

Section tables.
Context {K V : Type} `{Countable K}.
Implicit Types (k : K) (v : V) (t : Table K V).

Lemma select_key_app k t t' :
  select_key k (t ++ t') = match select_key k t with Some v => Some v | None => select_key k t' end.
Proof. induction t as [|[k' v] t IH]; [done|]. cbn. case_decide; [done|]. apply IH. Qed.

Lemma select_key_None k t : select_key k t = None ↔ k ∉ t.*1.
Proof.
  induction t as [|[k' v] t IH]; cbn; [split; [intros _; by apply not_elem_of_nil|done]|].
  rewrite not_elem_of_cons, <- IH. case_decide; naive_solver.
Qed.

Lemma select_key_Some k v t : NoDup t.*1 → select_key k t = Some v ↔ (k, v) ∈ t.
Proof.
  induction t as [|[k' v'] t IH]; cbn; intros Hnd.
  - split; [done|]. by intros ?%elem_of_nil.
  - apply NoDup_cons in Hnd as [Hn Hnd]. rewrite elem_of_cons. case_decide as Hk; subst.
    + split; [intros [= ->]; by left|]. intros [[= ->]|Hin]; [done|].
      destruct Hn. apply list_elem_of_fmap. by exists (k, v).
    + rewrite IH by done. naive_solver.
Qed.

Lemma select_insert_or_replace k k' v t :
  select_key k' (insert_or_replace k v t) = if decide (k' = k) then Some v else select_key k' t.
Proof.
  unfold insert_or_replace. rewrite select_key_app.
  assert (select_key k' (filter (λ row, row.1 ≠ k) t) = if decide (k' = k) then None else select_key k' t) as ->.
  { induction t as [|[k'' v'] t IH]; [by case_decide|]. rewrite filter_cons. cbn [fst].
    unfold select_key in *. destruct (decide (k'' = k)) as [->|Hn];
      [rewrite (decide_False (P := k ≠ k)) by tauto|rewrite (decide_True (P := k'' ≠ k)) by done];
      cbn [find_map fst snd]; rewrite ?IH; repeat case_decide; congruence. }
  cbn. destruct (decide (k' = k)) as [->|]; [by rewrite decide_True|]. rewrite decide_False by congruence.
  by destruct (select_key k' t).
Qed.

Lemma existsb_key k t : existsb (λ row, bool_decide (row.1 = k)) t = bool_decide (k ∈ t.*1).
Proof.
  apply eq_bool_prop_intro. rewrite !Is_true_true, existsb_exists, bool_decide_eq_true, list_elem_of_fmap.
  split; [intros ([k' v] & Hin%list_elem_of_In & Hk%bool_decide_eq_true); by exists (k', v)|].
  intros ([k' v] & -> & Hin%list_elem_of_In). exists (k', v). by rewrite bool_decide_eq_true.
Qed.

Lemma select_insert_or_ignore k k' v t :
  select_key k' (insert_or_ignore k v t) =
    match select_key k' t with
    | Some v' => Some v'
    | None => if decide (k' = k) then Some v else None
    end.
Proof.
  unfold insert_or_ignore. rewrite existsb_key. case_bool_decide as Hin.
  - destruct (select_key k' t) eqn:E; [done|]. case_decide as Hk; [|done]. subst.
    by apply select_key_None in E.
  - rewrite select_key_app. cbn. by destruct (select_key k' t); repeat case_decide; congruence.
Qed.

Lemma insert_or_ignore_NoDup k v t : NoDup t.*1 → NoDup (insert_or_ignore k v t).*1.
Proof.
  intros Hnd. unfold insert_or_ignore. rewrite existsb_key. case_bool_decide; [done|].
  rewrite fmap_app. apply NoDup_app. split_and!; [done| |apply NoDup_singleton].
  intros x Hx Hin. cbn in Hin. apply list_elem_of_singleton in Hin as ->. done.
Qed.

Lemma lookup_insert_for o o' k k' v (m : HashMap N (HashMap K V)) :
  lookup_for o' k' (insert_for o k v m) = if decide ((o', k') = (o, k)) then Some v else lookup_for o' k' m.
Proof.
  unfold lookup_for, insert_for. destruct (m !! o) as [inner|] eqn:E;
    (destruct (decide (o' = o)) as [->|]; [rewrite lookup_insert_eq|rewrite lookup_insert_ne by done]);
    cbn; (destruct (decide (k' = k)) as [->|]; [rewrite ?lookup_insert_eq, ?lookup_singleton_eq
      |rewrite ?lookup_insert_ne, ?lookup_singleton_ne by done]); repeat case_decide; try congruence;
    rewrite E; done.
Qed.

Lemma entry_insert_for o k v (m : HashMap N (HashMap K V)) : entry_insert o k v m = insert_for o k v m.
Proof. unfold entry_insert, insert_for. by destruct (m !! o). Qed.

End tables.

(** *** The two implementations *)

Lemma execute_no_faults {T A} (op : T → T * result DbError A) c t t' a :
  op t = (t', Ok a) → execute_with_retries op (mkPool c t []) = (mkPool c t' [], Ok a).
Proof. intros E. unfold execute_with_retries. by apply (retry_loop_faults op _ (mkPool c t []) 0 []); [..|lia|]. Qed.

(** What is in the maps is in the tables. *)
Record same_keys (m : MemKeys) (t : SqlKeys) : Prop := {
  same_wots_public_keys : ∀ o txid, lookup_for o txid (mem_wots_public_keys m) = select_key (o, txid) (wots_public_keys t);
  same_wots_signatures : ∀ o txid, lookup_for o txid (mem_wots_signatures m) = select_key (o, txid) (wots_signatures t);
  same_signatures : ∀ o txid i, lookup_for o (txid, i) (mem_signatures m) = select_key (o, txid, i) (signatures t);
}.

Definition stake_rows (o : OperatorIdx) (t : Table (N * OperatorIdx) Txid) : nat :=
  length (filter (λ row : N * OperatorIdx * Txid, row.1.2 = o) t).

Record same_deposits (m : MemDeposits) (t : SqlDeposits) : Prop := {
  same_deposit : ∀ txid, deposits_table m !! txid = select_key txid (deposits t);
  same_count : length (deposits t) = size (deposits_table m);
  same_ids : ∀ row, row ∈ deposits t → (row.2 < N.of_nat (length (deposits t)) ∧ row.2 < 2 ^ 32)%N;
  same_stake_txid : ∀ o id, lookup_for o id (stake_txid_table m) = select_key (id, o) (operator_stake_txids t);
  same_stake_count : ∀ o, stake_rows o (operator_stake_txids t) = size (default ∅ (stake_txid_table m !! o));
  same_stake_ids : ∀ row, row ∈ operator_stake_txids t →
    (row.1.1 < N.of_nat (stake_rows row.1.2 (operator_stake_txids t)))%N;
}.

Record same_stakes (m : MemStakes) (t : SqlStakes) : Prop := {
  same_pre_stake : ∀ o, pre_stake_table m !! o
    = (λ row, mkOutPoint row.1 row.2) <$> select_key o (operator_pre_stake_data t);
  same_stake_data : ∀ o i, lookup_for o i (stake_data m)
    = into_stake_tx_data <$> select_key (o, i) (operator_stake_data t);
  same_stake_NoDup : NoDup (operator_stake_data t).*1;
}.

Record same_graphs (m : MemGraphs) (t : SqlGraphs) : Prop := {
  same_claims : ∀ txid, claim_txid_to_operator_index_and_deposit_txid m !! txid = select_key txid (sql_claims t);
  same_post_asserts : ∀ txid,
    post_assert_txid_to_operator_index_and_deposit_txid m !! txid = select_key txid (sql_post_asserts t);
  same_assert_data : ∀ txid,
    assert_data_txid_to_operator_index_and_deposit_txid m !! txid = select_key txid (sql_assert_data t);
  same_pre_asserts : ∀ txid,
    pre_assert_txid_to_operator_index_and_deposit_txid m !! txid = select_key txid (sql_pre_asserts t);
}.

Record same_operator `{HexLib} (m : OperatorDbInMemory) (t : SqlOperator) : Prop := {
  same_pub_nonces : ∀ o txid i, lookup_for o (txid, i) (mem_pub_nonces m) = select_key (o, txid, i) (pub_nonces t);
  same_aggregated_nonces : ∀ txid i, mem_aggregated_nonces m !! (txid, i) = select_key (txid, i) (aggregated_nonces t);
  same_partial_signatures : ∀ o txid i,
    lookup_for o (txid, i) (mem_partial_signatures m) = select_key (o, txid, i) (partial_signatures t);
  same_witnesses : ∀ o txid i,
    to_hex <$> lookup_for o (txid, i) (mem_witnesses m) = select_key (o, txid, i) (witnesses_table t);
}.

(** The call writes what is to be written once, and only new or again the same value; the ids fit
    into 32 bits; and it reads no witness that was stored. *)
Fixpoint consistent (data : list (OperatorIdx * N * StakeTxData)) (m : HashMap OperatorIdx (HashMap N StakeTxData)) : Prop :=
  match data with
  | [] => True
  | (o, i, d) :: data =>
      (lookup_for o i m = None ∨ lookup_for o i m = Some d) ∧ consistent data (insert_for o i d m)
  end.

Definition writes_once (c : DbCall) (s : MemoryDb) : Prop :=
  match c with
  | AddDepositTxid txid => deposits_table (deposits_part s) !! txid = None ∧
      (N.of_nat (size (deposits_table (deposits_part s))) < 2 ^ 32)%N
  | AddStakeTxid o _ =>
      (N.of_nat (size (default ∅ (stake_txid_table (deposits_part s) !! o))) < 2 ^ 32)%N
  | SetPreStake o pre_stake =>
      pre_stake_table (stakes_part s) !! o = None ∨ pre_stake_table (stakes_part s) !! o = Some pre_stake
  | AddStakeData o i data => consistent [(o, i, data)] (stake_data (stakes_part s))
  | AddAllStakeData data => consistent data (stake_data (stakes_part s))
  | GetWitness o txid i => lookup_for o (txid, i) (mem_witnesses (operator_part s)) = None
  | _ => True
  end.

Fixpoint all_write_once (cs : list DbCall) (s : MemoryDb) : Prop :=
  match cs with
  | [] => True
  | c :: cs => writes_once c s ∧ all_write_once cs (call c s).1
  end.

Definition same_db `{HexLib} (c : DbConfig) (m : MemoryDb) (s : SqliteDb) : Prop :=
  ∃ k d t g o, s = mkDatabase (mkPool c k []) (mkPool c d []) (mkPool c t []) (mkPool c g []) (mkPool c o []) ∧
    same_keys (keys_part m) k ∧ same_deposits (deposits_part m) d ∧ same_stakes (stakes_part m) t ∧
    same_graphs (graphs_part m) g ∧ same_operator (operator_part m) o.

(** Lookup after an update, on both sides. *)
Ltac same_lookups H :=
  split; cbn -[select_key insert_or_replace insert_or_ignore lookup_for insert_for entry_insert]; intros; rewrite ?entry_insert_for, ?lookup_insert_for, ?select_insert_or_replace;
  repeat case_decide; simplify_eq; try done; eauto; try (by apply H); try congruence.

Lemma same_keys_insert m t : same_keys m t →
  (∀ o txid v, same_keys (set_wots_public_keys o txid v m).1
    (mkSqlKeys (insert_or_replace (o, txid) v (wots_public_keys t)) (wots_signatures t) (signatures t))) ∧
  (∀ o txid v, same_keys (set_wots_signatures o txid v m).1
    (mkSqlKeys (wots_public_keys t) (insert_or_replace (o, txid) v (wots_signatures t)) (signatures t))) ∧
  (∀ o txid i v, same_keys (set_signature o txid i v m).1
    (mkSqlKeys (wots_public_keys t) (wots_signatures t) (insert_or_replace (o, txid, i) v (signatures t)))).
Proof. intros H. split_and!; intros; same_lookups H. Qed.

Lemma same_operator_insert `{HexLib} m n a p w : same_operator m (mkSqlOperator n a p w) →
  (∀ o txid i v, same_operator (set_pub_nonce o txid i v m).1 (mkSqlOperator (insert_or_replace (o, txid, i) v n) a p w)) ∧
  (∀ txid i v, same_operator (set_aggregated_nonce txid i v m).1 (mkSqlOperator n (insert_or_replace (txid, i) v a) p w)) ∧
  (∀ o txid i v, same_operator (set_partial_signature o txid i v m).1
    (mkSqlOperator n a (insert_or_replace (o, txid, i) v p) w)) ∧
  (∀ o txid i v, same_operator (set_witness o txid i v m).1
    (mkSqlOperator n a p (insert_or_replace (o, txid, i) (to_hex v) w))).
Proof.
  destruct m as [mn ma mp mw]. intros H1. split_and!; intros; same_lookups H1.
  all: rewrite ?lookup_insert_eq, ?lookup_insert_ne by congruence; done || apply H1.
Qed.

Lemma lookup_register txids v (m : HashMap Txid (OperatorIdx * Txid)) t txid :
  (∀ txid, m !! txid = select_key txid t) →
  foldl (λ m txid, <[txid := v]> m) m txids !! txid
  = select_key txid (foldl (λ a txid, insert_or_replace txid v a) t txids).
Proof.
  revert m t. induction txids as [|x txids IH]; intros m t Hm; cbn [foldl]; [done|].
  apply IH. intros y. rewrite select_insert_or_replace. case_decide as Hy; [subst; apply lookup_insert_eq|].
  by rewrite lookup_insert_ne by done.
Qed.

Lemma same_graphs_insert m c q a p : same_graphs m (mkSqlGraphs c q a p) →
  (∀ txid o v, same_graphs (register_claim_txid txid o v m).1 (mkSqlGraphs (insert_or_replace txid (o, v) c) q a p)) ∧
  (∀ txid o v, same_graphs (register_post_assert_txid txid o v m).1 (mkSqlGraphs c (insert_or_replace txid (o, v) q) a p)) ∧
  (∀ txids o v, same_graphs (register_assert_data_txids txids o v m).1
    (mkSqlGraphs c q (foldl (λ a txid, insert_or_replace txid (o, v) a) a (vec_to_list txids)) p)) ∧
  (∀ txid o v, same_graphs (register_pre_assert_txid txid o v m).1 (mkSqlGraphs c q a (insert_or_replace txid (o, v) p))).
Proof.
  destruct m as [mc mp ma mq]. intros [Hc Hq Ha Hp]. cbn in Hc, Hq, Ha, Hp.
  split_and!; intros; split; cbn -[select_key insert_or_replace vec_to_list]; intros;
    try done; try (by apply lookup_register); rewrite select_insert_or_replace;
    (case_decide as Hy; [subst; apply lookup_insert_eq|by rewrite lookup_insert_ne by done]).
Qed.

Lemma same_stakes_data m t o i d :
  same_stakes m t → lookup_for o i (stake_data m) = None ∨ lookup_for o i (stake_data m) = Some d →
  same_stakes (mkMemStakes (pre_stake_table m) (insert_for o i d (stake_data m))) (insert_stake_data o i d t).
Proof.
  intros [Hp Hd Hn] Hcons. split; cbn -[select_key insert_or_ignore lookup_for insert_for]; [done| |].
  - intros o' i'. rewrite lookup_insert_for, select_insert_or_ignore. case_decide as He; [injection He as -> ->|].
    + rewrite Hd in Hcons. destruct (select_key (o, i) _); destruct Hcons as [Hcons|Hcons]; try done.
      by destruct d as [[? ?] ? ? ?].
    + rewrite Hd. by destruct (select_key (o', i') _).
  - by apply insert_or_ignore_NoDup.
Qed.

Lemma same_stakes_all m t data :
  same_stakes m t → consistent data (stake_data m) →
  same_stakes (add_all_stake_data data m).1
    (foldl (λ t '(o, stake_index, data), insert_stake_data o stake_index data t) t data).
Proof.
  destruct m as [mp md]. cbn. revert md t. induction data as [|[[o i] d] data IH]; intros md t Hs Hc; [done|].
  destruct Hc as [Hone Hc]. cbn [foldl]. apply IH; [|done]. by apply (same_stakes_data (mkMemStakes mp md)).
Qed.

Lemma same_stakes_pre m t o p :
  same_stakes m t → pre_stake_table m !! o = None ∨ pre_stake_table m !! o = Some p →
  same_stakes (set_pre_stake o p m).1
    (mkSqlStakes (insert_or_ignore o (op_txid p, op_vout p) (operator_pre_stake_data t)) (operator_stake_data t)).
Proof.
  intros [Hp Hd Hn] Hcons. split; cbn -[select_key insert_or_ignore lookup_for]; [|done|done].
  intros o'. rewrite select_insert_or_ignore. destruct (decide (o' = o)) as [->|Ho].
  - rewrite lookup_insert_eq. rewrite Hp in Hcons. destruct (select_key o _); destruct Hcons; cbn in *; try congruence.
    by destruct p.
  - rewrite lookup_insert_ne, Hp by done. by destruct (select_key o' _).
Qed.

Lemma operator_stakes_lookup o i t : NoDup t.*1 →
  operator_stakes o t !! i = into_stake_tx_data <$> select_key (o, i) t.
Proof.
  intros Hn. unfold operator_stakes. set (l := _ <$> _).
  assert (NoDup l.*1) as Hl.
  { unfold l. rewrite <- list_fmap_compose. clear -Hn. induction t as [|[[o' i] d] rows IH]; [constructor|].
    apply NoDup_cons in Hn as [Hni Hn]. rewrite filter_cons. case_decide as Ho; [|by apply IH]. cbn in Ho. subst o'.
    cbn. constructor; [|by apply IH]. intros (row & Ei & Hin)%list_elem_of_fmap.
    apply list_elem_of_filter in Hin as [Ho Hin]. destruct Hni. apply list_elem_of_fmap.
    exists row. split; [|done]. destruct row as [[o' i'] d']. cbn in *. by subst. }
  apply option_eq. intros d.
  rewrite bt_collect_NoDup by (by rewrite merge_sort_Permutation).
  rewrite merge_sort_Permutation. unfold l. rewrite list_elem_of_fmap. setoid_rewrite list_elem_of_filter.
  rewrite fmap_Some. setoid_rewrite select_key_Some; [|done]. split.
  - intros ([[o' i'] x] & [= -> ->] & Ho & Hx). cbn in Ho. subst o'. by exists x.
  - intros (x & Hx & ->). by exists (o, i, x).
Qed.

Lemma same_stakes_get_all m t o : same_stakes m t →
  default ∅ (stake_data m !! o) = operator_stakes o (operator_stake_data t).
Proof.
  intros [_ Hd Hn]. apply map_eq. intros i. rewrite operator_stakes_lookup by done. rewrite <- Hd.
  unfold lookup_for. by destruct (stake_data m !! o).
Qed.

Lemma elem_of_key {K V} (k : K) (v : V) (t : Table K V) : (k, v) ∈ t → k ∈ t.*1.
Proof. intros Hin. apply list_elem_of_fmap. by exists (k, v). Qed.

Lemma same_deposits_add m t txid : same_deposits m t →
  deposits_table m !! txid = None → (N.of_nat (size (deposits_table m)) < 2 ^ 32)%N →
  same_deposits (add_deposit_txid txid m).1
    (mkSqlDeposits (insert_or_ignore_deposit txid (N.of_nat (length (deposits t))) (deposits t)) (operator_stake_txids t)).
Proof.
  intros [Hd Hc Hi Hs Hsc Hsi] Hnew Hlt. rewrite Hd in Hnew.
  assert (insert_or_ignore_deposit txid (N.of_nat (length (deposits t))) (deposits t)
    = deposits t ++ [(txid, N.of_nat (length (deposits t)))]) as E.
  { unfold insert_or_ignore_deposit. replace (existsb _ _) with false; [done|]. symmetry.
    apply not_true_iff_false. rewrite existsb_true. intros ([k v] & Hin & He). apply orb_true_iff in He as [He|He];
      apply bool_decide_eq_true in He; cbn in He; subst.
    - by apply select_key_None in Hnew; destruct Hnew; eapply elem_of_key.
    - apply Hi in Hin. cbn in Hin. lia. }
  rewrite E. split; cbn -[select_key lookup_for Nat.add N.of_nat]; try done.
  - intros k. rewrite select_key_app. unfold count_u32. rewrite N.mod_small, <- Hc by done.
    destruct (decide (k = txid)) as [->|Hk].
    + rewrite lookup_insert_eq, Hnew. cbn. by rewrite decide_True.
    + rewrite lookup_insert_ne, Hd by done. destruct (select_key k _); [done|]. cbn. by rewrite decide_False.
  - rewrite map_size_insert, Hd, Hnew, length_app, Hc. cbn. lia.
  - intros [k v]. rewrite elem_of_app, list_elem_of_singleton, length_app. cbn [length snd].
    intros [Hin|[= -> ->]]; [apply Hi in Hin; cbn in Hin; lia|]. rewrite Hc. lia.
Qed.

Lemma stake_rows_app o t id o' txid :
  stake_rows o (t ++ [((id, o'), txid)]) = stake_rows o t + (if decide (o' = o) then 1 else 0).
Proof.
  unfold stake_rows. rewrite filter_app, length_app. f_equal. rewrite filter_cons. cbn. by case_decide.
Qed.

Lemma same_deposits_stake m t o txid : same_deposits m t →
  (N.of_nat (size (default ∅ (stake_txid_table m !! o))) < 2 ^ 32)%N →
  same_deposits (add_stake_txid o txid m).1
    (mkSqlDeposits (deposits t) (insert_or_ignore (N.of_nat (stake_rows o (operator_stake_txids t)), o) txid
      (operator_stake_txids t))).
Proof.
  intros [Hd Hc Hi Hs Hsc Hsi] Hlt. set (id := N.of_nat _).
  assert (select_key (id, o) (operator_stake_txids t) = None) as Hnew.
  { apply select_key_None. intros ([[id' o'] txid'] & [= <- <-] & Hin)%list_elem_of_fmap.
    apply Hsi in Hin. cbn in Hin. unfold id in Hin. lia. }
  assert (insert_or_ignore (id, o) txid (operator_stake_txids t) = operator_stake_txids t ++ [((id, o), txid)]) as E.
  { unfold insert_or_ignore. rewrite existsb_key, bool_decide_false; [done|]. by apply select_key_None. }
  assert (from_option count_u32 0%N (stake_txid_table m !! o) = id) as Eid.
  { unfold id. rewrite Hsc in *. destruct (stake_txid_table m !! o); cbn in *; [|by rewrite map_size_empty].
    unfold count_u32. by rewrite N.mod_small. }
  rewrite E. split; cbn -[select_key lookup_for insert_for stake_rows]; try done; rewrite ?Eid.
  - intros o' id'. rewrite lookup_insert_for, select_key_app. cbn. rewrite Hs.
    destruct (decide ((o', id') = (o, id))) as [[= -> ->]|Hne].
    + rewrite Hnew. by rewrite decide_True.
    + rewrite decide_False by congruence. by destruct (select_key (id', o') _).
  - intros o'. rewrite stake_rows_app, Hsc. unfold insert_for.
    pose proof (Hs o id) as Hl. rewrite Hnew in Hl. unfold lookup_for in Hl.
    destruct (stake_txid_table m !! o) as [inner|] eqn:Ei; cbn in Hl;
      (case_decide as Ho; [subst o'; rewrite lookup_insert_eq, Ei|rewrite lookup_insert_ne by done; lia]); cbn.
    + rewrite map_size_insert, Hl. lia.
    + by rewrite map_size_singleton, map_size_empty.
  - intros [[id' o'] txid']. rewrite elem_of_app, list_elem_of_singleton, stake_rows_app. cbn.
    intros [Hin|[= -> -> ->]]; [apply Hsi in Hin; cbn in Hin; case_decide; lia|]. rewrite decide_True by done.
    unfold id. lia.
Qed.

Lemma queries_no_faults {T A} (f : T → A) c t : queries f (mkPool c t []) = (mkPool c t [], Ok (f t)).
Proof. by apply execute_no_faults. Qed.
Lemma executes_no_faults {T} (f : T → T) c t : executes f (mkPool c t []) = (mkPool c (f t) [], Ok tt).
Proof. by apply execute_no_faults. Qed.

Lemma same_deposit_id m t txid : same_deposits m t →
  match select_key txid (deposits t) with None => Ok None | Some id => Some <$> decode_u32 id end
  = Ok (deposits_table m !! txid).
Proof.
  intros [Hd _ Hi _ _ _]. rewrite Hd. destruct (select_key txid (deposits t)) as [id|] eqn:E; [|done].
  unfold decode_u32. rewrite (proj2 (N.ltb_lt _ _)); [done|].
  apply find_map_Some in E as ([k v] & Hin%Hi & E). cbn in *. case_decide; [|done]. injection E as ->. apply Hin.
Qed.

(** A call of the same group on both sides. *)
Ltac agree Hdb :=
  destruct Hdb as (k & d & t & g & o' & -> & Hk & Hd & Ht & Hg & Ho);
  unfold call, on_keys, on_deposits, on_stakes, on_graphs, on_operator;
  cbn -[select_key lookup_for insert_for entry_insert insert_or_ignore insert_or_replace queries executes
    execute_with_retries vec_to_list operator_stakes];
  rewrite ?queries_no_faults, ?executes_no_faults;
  cbn -[select_key lookup_for insert_for entry_insert insert_or_ignore insert_or_replace vec_to_list operator_stakes
    decode_u32].
Ltac wrote H := split; [done|]; eexists _, _, _, _, _; split_and!; [reflexivity|first [done|by apply H]..].
Ltac read H := split; [|by eexists _, _, _, _, _]; by rewrite H.

Lemma call_same `{HexLib} c m s cl : same_db c m s → writes_once cl m →
  (call cl m).2 = (call cl s).2 ∧ same_db c (call cl m).1 (call cl s).1.
Proof.
  intros Hdb Hw. destruct cl; agree Hdb.
  - read (same_wots_public_keys _ _ Hk).
  - wrote same_keys_insert.
  - read (same_wots_signatures _ _ Hk).
  - wrote same_keys_insert.
  - read (same_signatures _ _ Hk).
  - wrote same_keys_insert.
  - destruct Hw as [Hnew Hlt]. wrote same_deposits_add.
  - erewrite execute_no_faults by (f_equal; by apply (same_deposit_id _ _ _ Hd)).
    split; [done|]. by eexists _, _, _, _, _.
  - wrote same_deposits_stake.
  - read (same_stake_txid _ _ Hd).
  - wrote same_stakes_all.
  - read (same_stakes_get_all _ _ o Ht).
  - wrote same_stakes_pre.
  - read (same_pre_stake _ _ Ht).
  - destruct Hw as [Hone _]. wrote same_stakes_data.
  - read (same_stake_data _ _ Ht).
  - destruct g. wrote same_graphs_insert.
  - read (same_claims _ _ Hg).
  - destruct g. wrote same_graphs_insert.
  - read (same_post_asserts _ _ Hg).
  - destruct g. wrote same_graphs_insert.
  - read (same_assert_data _ _ Hg).
  - destruct g. wrote same_graphs_insert.
  - read (same_pre_asserts _ _ Hg).
  - read (same_pub_nonces _ _ Ho).
  - destruct o'. wrote same_operator_insert.
  - read (same_aggregated_nonces _ _ Ho).
  - destruct o'. wrote same_operator_insert.
  - read (same_partial_signatures _ _ Ho).
  - destruct o'. wrote same_operator_insert.
  - pose proof (same_witnesses _ _ Ho o txid i) as Hx. cbn in Hw. rewrite Hw in Hx |- *.
    erewrite execute_no_faults by (rewrite <- Hx; done). split; [done|]. by eexists _, _, _, _, _.
  - destruct o'. wrote same_operator_insert.
Qed.

Lemma empty_same `{HexLib} c : same_db c memory_db (sqlite_db c).
Proof.
  eexists _, _, _, _, _. split_and!; [reflexivity|..]; split; cbn; try done; try (by intros ? ?%elem_of_nil).
  constructor.
Qed.

(** C32: The two databases are interchangeable.  Every sequence of calls, of all the methods of both
    traits, gets the same answers from the maps in memory and from the tables, as long as stakes
    and pre-stakes are not written again with another value, deposits are not added again, and no
    stored witness is read. *)
Theorem databases_agree `{HexLib} c cs :
  all_write_once cs memory_db → (calls cs memory_db).2 = (calls cs (sqlite_db c)).2.
Proof.
  generalize (empty_same c). generalize memory_db, (sqlite_db c).
  induction cs as [|cl cs IH]; intros m s Hs Hw; [done|]. destruct Hw as [Hw Hws].
  destruct (call_same c m s cl Hs Hw) as [Ha Hs']. cbn [calls].
  destruct (call cl m) as [m' a]; destruct (call cl s) as [s' a']. cbn in Ha, Hs', Hws. subst a'.
  specialize (IH m' s' Hs' Hws). destruct (calls cs m'), (calls cs s'). cbn in *. by subst.
Qed.

(** *** Where they differ *)

Definition deposit_id {S} `{DepositsDb S} (s : S) (txid : Txid) : result DbError (option N) := (get_deposit_id txid s).2.

(** In the tables a deposit keeps its id, and no two deposits share one. *)
Definition ids_ok (t : Table Txid N) : Prop :=
  NoDup t.*1 ∧ NoDup t.*2 ∧ ∀ row, row ∈ t → (row.2 < N.of_nat (length t))%N.

Lemma insert_deposit_ok txid t : ids_ok t →
  ids_ok (insert_or_ignore_deposit txid (N.of_nat (length t)) t) ∧
  ∀ k, select_key k (insert_or_ignore_deposit txid (N.of_nat (length t)) t)
    = match select_key k t with
      | Some id => Some id
      | None => if decide (k = txid) then Some (N.of_nat (length t)) else None
      end.
Proof.
  intros (Hk & Hi & Hlt). unfold insert_or_ignore_deposit. destruct (existsb _ t) eqn:E.
  - split; [done|]. intros k. destruct (select_key k t) eqn:Es; [done|]. case_decide as Hkt; [|done]. subst k.
    apply existsb_true in E as ([k v] & Hin & He). cbn in He.
    apply orb_true_iff in He as [He|He]; apply bool_decide_eq_true in He; subst.
    + apply select_key_None in Es. destruct Es. by eapply elem_of_key.
    + apply Hlt in Hin. cbn in Hin. lia.
  - apply not_true_iff_false in E. rewrite existsb_true in E. split.
    + unfold ids_ok. rewrite !fmap_app, length_app. cbn. split_and!.
      * apply NoDup_app. split_and!; [done| |apply NoDup_singleton]. intros k (row & -> & Hin)%list_elem_of_fmap Hk'.
        apply list_elem_of_singleton in Hk'. apply E. exists row. split; [done|].
        apply orb_true_iff. left. by apply bool_decide_eq_true.
      * apply NoDup_app. split_and!; [done| |apply NoDup_singleton]. intros i (row & -> & Hin)%list_elem_of_fmap Hk'.
        apply list_elem_of_singleton in Hk'. apply Hlt in Hin. lia.
      * intros row. rewrite elem_of_app, list_elem_of_singleton. intros [Hin%Hlt| ->]; cbn; lia.
    + intros k. rewrite select_key_app. cbn. destruct (select_key k t); [done|].
      repeat case_decide; congruence.
Qed.

Lemma add_deposits c l t : ids_ok t →
  ∃ t', foldl (λ s txid, (add_deposit_txid txid s).1) (mkPool c (mkSqlDeposits t []) []) l
      = mkPool c (mkSqlDeposits t' []) [] ∧
    ids_ok t' ∧ length t' <= length t + length l ∧ (∀ k, is_Some (select_key k t') ↔ is_Some (select_key k t) ∨ k ∈ l) ∧
    (∀ k id, select_key k t = Some id → select_key k t' = Some id).
Proof.
  revert t. induction l as [|txid l IH]; intros t Hok.
  - exists t. cbn. split_and!; [done..|lia| |done]. intros k. rewrite elem_of_nil. naive_solver.
  - destruct (insert_deposit_ok txid t Hok) as [Hok' Hsel]. cbn [foldl].
    destruct (IH _ Hok') as (t' & E & Hok'' & Hl & Hin & Hmono). exists t'. split_and!; [|done| | |].
    + rewrite <- E. f_equal. cbn -[executes]. by rewrite executes_no_faults.
    + etrans; [exact Hl|]. cbn. unfold insert_or_ignore_deposit. destruct (existsb _ _); [lia|].
      rewrite length_app. cbn. lia.
    + intros k. rewrite Hin, Hsel, elem_of_cons. destruct (select_key k t); [naive_solver|].
      case_decide; naive_solver.
    + intros k id Hk. apply Hmono. by rewrite Hsel, Hk.
Qed.

Lemma deposit_id_select c t o k :
  ids_ok t → (N.of_nat (length t) <= 2 ^ 32)%N →
  deposit_id (mkPool c (mkSqlDeposits t o) []) k = Ok (select_key k t).
Proof.
  intros (_ & _ & Hlt) Hl. unfold deposit_id. cbn -[execute_with_retries select_key decode_u32].
  erewrite execute_no_faults; [done|]. f_equal. cbn [deposits].
  destruct (select_key k t) as [id|] eqn:E; [|done]. unfold decode_u32. rewrite (proj2 (N.ltb_lt _ _)); [done|].
  apply find_map_Some in E as ([k' v] & Hin%Hlt & E). cbn in *. case_decide; [|done]. injection E as ->. lia.
Qed.

(** In the tables the ids of deposits are unique and final: whatever deposits are added, also
    repeatedly, a deposit has an id exactly when it was added, two deposits never share one, and
    no later addition changes one. *)
Theorem deposit_ids_final c txids more :
  let add s l := foldl (λ s txid, (add_deposit_txid txid s).1) s l in
  let p := add (mkPool c (mkSqlDeposits [] []) []) txids in
  (N.of_nat (length txids + length more) < 2 ^ 32)%N →
  (∀ txid, txid ∈ txids ↔ ∃ id, deposit_id p txid = Ok (Some id)) ∧
  (∀ txid txid' id, deposit_id p txid = Ok (Some id) → deposit_id p txid' = Ok (Some id) → txid = txid') ∧
  (∀ txid id, deposit_id p txid = Ok (Some id) → deposit_id (add p more) txid = Ok (Some id)).
Proof.
  intros add p Hlt. destruct (add_deposits c txids []) as (t & E & Hok & Hl & Hin & _).
  { split_and!; [constructor..|]. by intros row ?%elem_of_nil. }
  destruct (add_deposits c more t Hok) as (t' & E' & Hok' & Hl' & _ & Hmono). cbn in Hl.
  assert (∀ k, deposit_id p k = Ok (select_key k t)) as Hid.
  { intros k. unfold p, add. rewrite E. apply deposit_id_select; [done|lia]. }
  split_and!.
  - intros k. rewrite Hid. split; [|intros [id [= Hk]]; destruct (proj1 (Hin k)) as [[? ?]|]; [by eexists|done|done]].
    intros Hk. destruct (proj2 (Hin k)) as [id Hs]; [by right|]. exists id. by rewrite Hs.
  - intros k k' id. rewrite !Hid. intros [= Hk] [= Hk']. destruct Hok as (Hnd & Hni & _).
    apply select_key_Some in Hk, Hk'; [|done..]. clear -Hni Hk Hk'.
    apply list_elem_of_lookup in Hk as [i Hi], Hk' as [j Hj].
    assert (i = j) as <- by (eapply (NoDup_lookup _ _ _ id Hni); rewrite list_lookup_fmap, ?Hi, ?Hj; done).
    congruence.
  - intros k id. rewrite Hid. intros [= Hk]. unfold p, add. rewrite E, E'.
    rewrite deposit_id_select; [|done|lia]. f_equal. by apply Hmono.
Qed.

(** In memory, adding a deposit again gives it a new id, which the next deposit gets as well. *)
Lemma readded_deposit_shares_id (m : MemDeposits) txid new :
  is_Some (deposits_table m !! txid) → deposits_table m !! new = None →
  let m' := (add_deposit_txid new (add_deposit_txid txid m).1).1 in
  deposit_id m' txid = deposit_id m' new ∧ is_ok (deposit_id m' new).
Proof.
  intros [id Hid] Hnew. unfold deposit_id. cbn. assert (txid ≠ new) as Hne by congruence.
  rewrite lookup_insert_ne, !lookup_insert_eq by done. split; [|done]. do 2 f_equal.
  unfold count_u32. by rewrite map_size_insert, Hid.
Qed.

(** A witness that was stored cannot be read: whatever the witness and the state of the tables,
    reading it back from them is an error, also after all retries; in memory it is read back. *)
Theorem stored_witness_unreadable `{HexLaws} c t m o txid i w :
  (get_witness o txid i (set_witness o txid i w (mkPool c t [])).1).2 = Err (StorageErr Driver) ∧
  (get_witness o txid i (set_witness o txid i w m).1 : OperatorDbInMemory * _).2 = Ok (Some w).
Proof.
  destruct t as [n a p ws], m as [mn ma mp mw]. split.
  - cbn -[execute_with_retries executes select_key insert_or_replace decode_witness]. rewrite executes_no_faults.
    cbn -[execute_with_retries select_key insert_or_replace decode_witness]. unfold execute_with_retries.
    cbn [config max_retry_count]. generalize (max_retry_count c) as retries.
    assert (∀ A (op : SqlOperator → SqlOperator * result DbError A) t retries e,
      op t = (t, Err e) → (retry_loop retries (transaction op) (mkPool c t [])).2 = Err e) as Hloop.
    { intros A op t retries e Hop. induction retries as [|retries IH]; cbn; rewrite Hop; done. }
    intros retries. apply Hloop. cbn -[select_key insert_or_replace decode_witness].
    rewrite select_insert_or_replace, decide_True by done. f_equal.
    unfold decode_witness. pose proof (taproot_witness_hex_never_reads_back w) as Hw.
    by destruct (from_hex (to_hex w)).
  - cbn -[lookup_for entry_insert]. rewrite entry_insert_for, lookup_insert_for. by rewrite decide_True.
Qed.

(** ** Witnesses *)

Lemma retries_mask_faults_witness :
  execute_with_retries (λ t : nat, (S t, Ok t)) (mkPool (mkDbConfig 2) 5 [true; true; false]) = (mkPool (mkDbConfig 2) 6 [], Ok 5) ∧
  execute_with_retries (λ t : nat, (S t, Ok t)) (mkPool (mkDbConfig 2) 5 [true; true; true; true])
    = (mkPool (mkDbConfig 2) 5 [true], Err (StorageErr Driver)).
Proof.
  split.
  - exact (retries_mask_faults (λ t : nat, (S t, Ok t)) (mkPool (mkDbConfig 2) 5 [true; true; false]) 2 [false] 6 5
      eq_refl ltac:(discriminate) eq_refl).
  - exact (retries_mask_faults (λ t : nat, (S t, Ok t)) (mkPool (mkDbConfig 2) 5 [true; true; true; true]) 4 [] 6 5
      eq_refl ltac:(discriminate) eq_refl).
Defined.

Definition example_stake_data : StakeTxData := mkStakeTxData (mkOutPoint 3 1) 4 [[5%N]] 6.
Definition example_calls : list DbCall :=
  [AddDepositTxid 7; AddDepositTxid 8; GetDepositId 8; AddStakeTxid 0 9; AddStakeTxid 0 10; GetStakeTxid 0 1;
   SetPreStake 0 (mkOutPoint 1 2); AddAllStakeData [(0, 0, example_stake_data); (0, 0, example_stake_data)]%N;
   GetAllStakeData 0; SetWitness 0 7 0 Key; GetWitness 0 7 1; SetPubNonce 0 7 0 5; SetPubNonce 0 7 0 6; GetPubNonce 0 7 0].

Lemma databases_agree_witness :
  (calls example_calls memory_db).2 = (@calls _ _ _ _ _ _ _ _ _ (@sqlite_operator_db example_hex) example_calls
    (sqlite_db (mkDbConfig 1))).2.
Proof.
  apply (@databases_agree example_hex (mkDbConfig 1) example_calls). cbn [all_write_once example_calls writes_once consistent].
  repeat match goal with |- _ ∧ _ => split | |- True => exact I end;
    first [vm_compute; reflexivity|left; vm_compute; reflexivity|right; vm_compute; reflexivity].
Defined.

Lemma deposit_ids_final_witness :
  let add s l := foldl (λ s txid, (add_deposit_txid txid s).1) s l in
  let p := add (mkPool (mkDbConfig 0) (mkSqlDeposits [] []) []) [7; 8; 7]%N in
  deposit_id p 8%N = Ok (Some 1%N) ∧ deposit_id (add p [7; 9]%N) 8%N = Ok (Some 1%N).
Proof.
  split; [reflexivity|].
  destruct (deposit_ids_final (mkDbConfig 0) [7; 8; 7]%N [7; 9]%N) as (_ & _ & Hmore); [reflexivity|].
  exact (Hmore 8%N 1%N eq_refl).
Defined.

Lemma stored_witness_unreadable_witness :
  (@get_witness _ (@sqlite_operator_db example_hex) 0 7 0 (@set_witness _ (@sqlite_operator_db example_hex) 0 7 0 Key
    (mkPool (mkDbConfig 3) (mkSqlOperator [] [] [] []) [])).1).2 = Err (StorageErr Driver).
Proof.
  destruct (@stored_witness_unreadable example_hex _ (mkDbConfig 3) (mkSqlOperator [] [] [] [])
    (mkOperatorDbInMemory ∅ ∅ ∅ ∅) 0%N 7%N 0%N Key) as [H _].
  exact H.
Defined.
