(* ===== verification/StakeChainSM.v ===== *)
(** * The stake chains of all operators ([duty-tracker/src/stake_chain_state_machine.rs])

    The machine keeps the inputs of every operator's stake chain and caches the ids of the stake
    transactions built from them.  It learns an operator's pre-stake from an exchange message and
    the input of a stake transaction from a setup message; after a restart it is restored from
    the inputs.

    The theorems: the cached ids are those of the chain of the inputs and never change
    ([txids_follow_chain]); what each setup message does ([process_setup_outcomes]); restoring
    loses and changes nothing when every operator has exchanged ([restore_keeps_txids]), and
    attributes ids to the wrong operators otherwise ([restore_misattributes_txids]). *)

From S2P Require Import Prelude Bitcoin OperatorTable PogMusig Wots TxTypes Taproot Connectors StakeChain ContractTypes.

(** ** Definitions *)

Inductive StakeChainErr :=
| OperatorP2PKeyNotFound (op : P2POperatorPubKey)
| IncompleteState (ops : list P2POperatorPubKey)
| MissingStakeTxid (op : P2POperatorPubKey) (idx : N)
| IncompleteStakeChainInput (op : P2POperatorPubKey) (idx : N)
| StakeSetupDataNotFound (op : P2POperatorPubKey)
| StakeTxNotFound (op : P2POperatorPubKey) (idx : N)
| Unexpected.

Record StakeChainSM := mkStakeChainSM {
  sc_network : Network;
  sc_params : StakeChainParams;
  sc_table : OperatorTable;
  stake_chains : BTreeMap P2POperatorPubKey StakeChainInputs;
  stake_txids : BTreeMap P2POperatorPubKey (BTreeMap N Txid);
}.

Definition with_chains (chains : BTreeMap P2POperatorPubKey StakeChainInputs) (sm : StakeChainSM)
    : StakeChainSM :=
  mkStakeChainSM (sc_network sm) (sc_params sm) (sc_table sm) chains (stake_txids sm).
Definition with_txids (txids : BTreeMap P2POperatorPubKey (BTreeMap N Txid)) (sm : StakeChainSM)
    : StakeChainSM :=
  mkStakeChainSM (sc_network sm) (sc_params sm) (sc_table sm) (stake_chains sm) txids.

Definition StakeChainSM_new (network : Network) (operator_table : OperatorTable)
    (params : StakeChainParams) : StakeChainSM :=
  mkStakeChainSM network params operator_table ∅ ∅.

Section machine.
Context `{TaprootLib, ConnectorLib, ScriptLib, BitcoinLib, KeyAggLib}.

(** The ids of a chain by index, as [restore] collects them. *)
Definition chain_txids (chain : StakeChain) : BTreeMap N Txid :=
  match chain_head chain with
  | None => ∅
  | Some stake_tx =>
      let txids := <[0%N := stake_txid_of stake_tx]> ∅ in
      foldl (λ m kv, <[kv.1 := kv.2]> m) txids
        (imap (λ index stake_tx, (N.of_nat index + 1, stake_txid_of stake_tx)%N) (chain_tail chain))
  end.

Definition StakeChainSM_restore (network : Network) (operator_table : OperatorTable)
    (params : StakeChainParams) (chains : BTreeMap P2POperatorPubKey StakeChainInputs)
    : comp (result StakeChainErr StakeChainSM) :=
  let p2p_keys := bt_keys (p2p_key operator_table) in
  all_txids ← mapM (λ inputs,
      context ← tx_build_context operator_table network;
      chain ← StakeChain_new context inputs params;
      Val (chain_txids chain))
    (omap (λ p2p_key, chains !! p2p_key) p2p_keys);
  let txids := bt_collect (zip_with (λ stake_txids p2p_key, (p2p_key, stake_txids)) all_txids p2p_keys) in
  Val (Ok (mkStakeChainSM network params operator_table chains txids)).

Definition process_exchange (operator : P2POperatorPubKey) (pre_stake_outpoint : OutPoint)
    (sm : StakeChainSM) : StakeChainSM * result StakeChainErr unit :=
  let inputs := mkStakeChainInputs ∅ pre_stake_outpoint in
  let chains := <[operator := inputs]> (stake_chains sm) in
  let chains :=
    match stake_chains sm !! operator with
    | Some old_inputs => <[operator := old_inputs]> chains
    | None => chains
    end in
  (with_chains chains sm, Ok tt).

Definition sc_stake_txid (sm : StakeChainSM) (op : P2POperatorPubKey) (deposit_idx : N) : option Txid :=
  stake_txids sm !! op ≫= (.!! deposit_idx).

(** [txids.len() as u32]. *)
Definition sc_height (sm : StakeChainSM) : comp N :=
  my_key ← pov_p2p_key (sc_table sm);
  Val (match stake_txids sm !! my_key with
       | Some txids => N.of_nat (size txids) mod 2 ^ 32
       | None => 0
       end)%N.

Definition stake_tx (sm : StakeChainSM) (op : P2POperatorPubKey) (nth : N)
    : comp (result StakeChainErr (option StakeTxKind)) :=
  match stake_chains sm !! op with
  | None => Val (Ok None)
  | Some inputs =>
      context ← tx_build_context (sc_table sm) (sc_network sm);
      if decide (nth = 0%N) then
        match bt_values (stake_inputs inputs) !! 0 with
        | None => Val (Err (StakeTxNotFound op 0))
        | Some first_input =>
            first_stake ← Head_new context (sc_params sm) (stk_hash first_input)
              (withdrawal_fulfillment_pk first_input) (pre_stake_outpoint inputs)
              (operator_funds first_input) (stk_operator_pubkey first_input);
            Val (Ok (Some (StakeHead first_stake)))
        end
      else
        match stake_txids sm !! op with
        | None => Val (Err (StakeTxNotFound op nth))
        | Some txids =>
            match txids !! (nth - 1)%N with
            | None => Val (Err (MissingStakeTxid op (nth - 1)))
            | Some prev_stake_txid =>
                match stake_inputs inputs !! (nth - 1)%N, stake_inputs inputs !! nth with
                | None, _ => Val (Err (IncompleteStakeChainInput op (nth - 1)))
                | Some _, None => Val (Err (IncompleteStakeChainInput op nth))
                | Some prev_input, Some data =>
                    t ← Tail_new context (sc_params sm) data (stk_hash prev_input)
                      (mkOutPoint prev_stake_txid STAKE_VOUT);
                    Val (Ok (Some (StakeTail t)))
                end
            end
        end
  end.

Definition process_setup (operator : P2POperatorPubKey) (setup : DepositSetupMsg)
    : handler StakeChainSM StakeChainErr (option Txid) := λ sm,
  let deposit_index := ds_index setup in
  match sc_stake_txid sm operator deposit_index with
  | Some stake_txid => Val (sm, Ok (Some stake_txid))
  | None =>
      match stake_chains sm !! operator with
      | None => Val (sm, Err (StakeSetupDataNotFound operator))
      | Some inputs =>
          let inputs := mkStakeChainInputs
            (<[deposit_index := stake_tx_data setup]> (stake_inputs inputs)) (pre_stake_outpoint inputs) in
          let sm := with_chains (<[operator := inputs]> (stake_chains sm)) sm in
          r ← stake_tx sm operator deposit_index;
          match r with
          | Err e => Val (sm, Err e)
          | Ok None => Val (sm, Ok None)
          | Ok (Some tx) =>
              let stake_txid := kind_txid tx in
              let txids := default ∅ (stake_txids sm !! operator) in
              Val (with_txids (<[operator := <[deposit_index := stake_txid]> txids]> (stake_txids sm)) sm,
                   Ok (Some stake_txid))
          end
      end
  end.

(** ** Runs *)

Inductive StakeMsg :=
| Exchange (operator : P2POperatorPubKey) (pre_stake : OutPoint)
| Setup (operator : P2POperatorPubKey) (setup : DepositSetupMsg).

Definition on_msg (m : StakeMsg) (sm : StakeChainSM) : comp StakeChainSM :=
  match m with
  | Exchange op pre_stake => Val (process_exchange op pre_stake sm).1
  | Setup op setup => fst <$> process_setup op setup sm
  end.

Definition on_msgs (ms : list StakeMsg) (sm : StakeChainSM) : comp StakeChainSM :=
  foldlM (λ sm m, on_msg m sm) sm ms.

(** ** The invariant *)

(** The cached ids of an operator: those of the first stake transactions of the inputs, without
    a gap. *)
Definition txids_ok (context : TxBuildContext) (params : StakeChainParams)
    (chains : BTreeMap P2POperatorPubKey StakeChainInputs) (op : P2POperatorPubKey)
    (txids : BTreeMap N Txid) : Prop :=
  ∃ inputs, chains !! op = Some inputs ∧
    (∀ i j, is_Some (txids !! i) → (j ≤ i)%N → is_Some (txids !! j)) ∧
    (∀ i txid, txids !! i = Some txid →
       ∃ t, nth_stake context params inputs (N.to_nat i) = Some (Val t) ∧ stake_txid_of t = txid).

Definition sm_wf (context : TxBuildContext) (sm : StakeChainSM) : Prop :=
  tx_build_context (sc_table sm) (sc_network sm) = Val context ∧
  ∀ op txids, stake_txids sm !! op = Some txids →
    txids_ok context (sc_params sm) (stake_chains sm) op txids.

(** What [stake_tx] returns for an index whose input is known. *)
Definition stake_tx_outcome (context : TxBuildContext) (sm : StakeChainSM) (op : P2POperatorPubKey)
    (inputs : StakeChainInputs) (nth : N) (r : result StakeChainErr (option Txid)) : Prop :=
  if decide (nth = 0%N ∨ is_Some (sc_stake_txid sm op (nth - 1))) then
    ∃ t, nth_stake context (sc_params sm) inputs (N.to_nat nth) = Some (Val t) ∧
      r = Ok (Some (stake_txid_of t))
  else r = Err (match stake_txids sm !! op with
                | None => StakeTxNotFound op nth
                | Some _ => MissingStakeTxid op (nth - 1)
                end).

(** What [process_setup] does on every branch. *)
Definition setup_outcome (context : TxBuildContext) (sm : StakeChainSM) (op : P2POperatorPubKey)
    (setup : DepositSetupMsg) (sm' : StakeChainSM) (r : result StakeChainErr (option Txid)) : Prop :=
  let d := ds_index setup in
  match sc_stake_txid sm op d, stake_chains sm !! op with
  | Some txid, _ => sm' = sm ∧ r = Ok (Some txid)
  | None, None => sm' = sm ∧ r = Err (StakeSetupDataNotFound op)
  | None, Some inputs =>
      let inputs' := mkStakeChainInputs (<[d := stake_tx_data setup]> (stake_inputs inputs))
        (pre_stake_outpoint inputs) in
      stake_tx_outcome context sm op inputs' d r ∧
      stake_chains sm' = <[op := inputs']> (stake_chains sm) ∧
      stake_txids sm' =
        match r with
        | Ok (Some txid) => <[op := <[d := txid]> (default ∅ (stake_txids sm !! op))]> (stake_txids sm)
        | _ => stake_txids sm
        end
  end.

(** The configuration stays, and so does every id that is known. *)
Definition extends (sm sm' : StakeChainSM) : Prop :=
  sc_network sm' = sc_network sm ∧ sc_params sm' = sc_params sm ∧ sc_table sm' = sc_table sm ∧
  ∀ op i txid, sc_stake_txid sm op i = Some txid → sc_stake_txid sm' op i = Some txid.

(** The ids of the chain of an operator. *)
Definition restored_txids (context : TxBuildContext) (params : StakeChainParams)
    (chains : BTreeMap P2POperatorPubKey StakeChainInputs) (op : P2POperatorPubKey) : BTreeMap N Txid :=
  match chains !! op with
  | Some inputs =>
      match StakeChain_new context inputs params with Val c => chain_txids c | Panic => ∅ end
  | None => ∅
  end.

End machine.

(** ** Lemmas *)

Section lemmas.
Context `{TaprootLaws, ConnectorLib, ScriptLib, BitcoinLib, KeyAggLib}.
Implicit Types (sm : StakeChainSM) (context : TxBuildContext).

Lemma nth_stake_insert context params inputs d data n :
  n < N.to_nat d →
  nth_stake context params
    (mkStakeChainInputs (<[d := data]> (stake_inputs inputs)) (pre_stake_outpoint inputs)) n
  = nth_stake context params inputs n.
Proof.
  induction n as [|n IH]; intros Hn; cbn [nth_stake stake_inputs pre_stake_outpoint];
    rewrite lookup_insert_ne by lia; [done|]. by rewrite IH by lia.
Qed.

(** The least key comes first. *)
Lemma bt_values_first {V} (m : gmap N V) v : m !! 0%N = Some v → bt_values m !! 0 = Some v.
Proof.
  intros Hm. unfold bt_values. pose proof (bt_iter_sorted m) as Hs.
  assert ((0%N, v) ∈ bt_iter m) as Hin by by apply elem_of_bt_iter.
  destruct (bt_iter m) as [|[k w] l] eqn:E; [by apply elem_of_nil in Hin|]. cbn.
  inversion Hs as [|? ? _ Hall]; subst. apply elem_of_cons in Hin as [Hin|Hin]; [congruence|].
  rewrite Forall_forall in Hall. specialize (Hall _ Hin). unfold bt_le in Hall. cbn in Hall.
  assert (k = 0%N) as -> by lia. f_equal.
  assert ((0%N, w) ∈ bt_iter m) as Hw by (rewrite E; by left). apply elem_of_bt_iter in Hw. congruence.
Qed.

Lemma sm_wf_new context network table params :
  tx_build_context table network = Val context → sm_wf context (StakeChainSM_new network table params).
Proof. intros E. split; [done|]. intros op txids. cbn. by rewrite lookup_empty. Qed.

Lemma sm_wf_exchange context op pre_stake sm :
  sm_wf context sm → sm_wf context (process_exchange op pre_stake sm).1.
Proof.
  intros [E Hwf]. split; [done|]. intros op' txids Ht.
  destruct (Hwf _ _ Ht) as (inputs & Hi & Hrest). exists inputs. split; [|done]. cbn.
  destruct (stake_chains sm !! op) as [old|] eqn:Ho; destruct (decide (op' = op)) as [->|];
    rewrite ?lookup_insert_eq, ?lookup_insert_ne by done; congruence.
Qed.

(** A new input leaves the transactions of the cached ids as they are. *)
Lemma sm_wf_input context op d data inputs sm :
  sm_wf context sm → stake_chains sm !! op = Some inputs → sc_stake_txid sm op d = None →
  sm_wf context (with_chains (<[op := mkStakeChainInputs (<[d := data]> (stake_inputs inputs))
    (pre_stake_outpoint inputs)]> (stake_chains sm)) sm).
Proof.
  intros [E Hwf] Hop Hd. split; [done|]. intros op' txids Ht. cbn in Ht.
  destruct (Hwf _ _ Ht) as (inputs' & Hi & Hclosed & Htx).
  destruct (decide (op' = op)) as [->|]; cbn.
  2:{ exists inputs'. by rewrite lookup_insert_ne. }
  simplify_eq. eexists. rewrite lookup_insert_eq. split_and!; [done|done|].
  intros i txid Hix. destruct (Htx _ _ Hix) as (t & Hn & Hid). exists t. split; [|done].
  rewrite nth_stake_insert; [done|]. unfold sc_stake_txid in Hd. rewrite Ht in Hd. cbn in Hd.
  destruct (decide (d ≤ i)%N) as [Hle|]; [|lia].
  destruct (Hclosed i d) as [x Hx]; [by eexists|done|]. congruence.
Qed.

Lemma stake_tx_spec context sm op inputs nth data :
  sm_wf context sm → stake_chains sm !! op = Some inputs → stake_inputs inputs !! nth = Some data →
  ∃ r, stake_tx sm op nth = Val r ∧
    stake_tx_outcome context sm op inputs nth ((λ o : option StakeTxKind, kind_txid <$> o) <$> r).
Proof.
  intros [E Hwf] Hop Hd. unfold stake_tx. rewrite Hop, E.
  destruct (decide (nth = 0%N)) as [->|Hnz]; unfold stake_tx_outcome, sc_stake_txid.
  { cbn [mbind comp_bind]. rewrite (bt_values_first _ _ Hd), Head_new_spec.
    eexists. split; [done|]. rewrite decide_True by by left.
    change (N.to_nat 0) with 0. cbn [nth_stake]. change (N.of_nat 0) with 0%N.
    rewrite Hd. cbn [mbind option_bind].
    rewrite Head_new_spec. by eexists. }
  cbn [mbind comp_bind]. destruct (stake_txids sm !! op) as [txids|] eqn:Ht; cbn [mbind option_bind].
  2:{ eexists. split; [done|]. by rewrite decide_False by (intros [?|[? ?]]; done). }
  destruct (txids !! (nth - 1)%N) as [prev_txid|] eqn:Hp.
  2:{ eexists. split; [done|]. by rewrite decide_False by (intros [?|[? ?]]; done). }
  destruct (Hwf _ _ Ht) as (inputs' & Hi & _ & Htx). simplify_eq.
  destruct (Htx _ _ Hp) as (prev & Hn & <-).
  apply nth_stake_data in Hn as Hn'. destruct Hn' as (prev_data & _ & Hpd & Hh & _).
  rewrite N2Nat.id in Hpd. rewrite Hpd, Hd.
  destruct (advance_total prev context (sc_params sm) data) as [t Hadv].
  rewrite advance_spec, Hh in Hadv. rewrite Hadv. eexists. split; [done|].
  rewrite decide_True by (right; by eexists). exists t. split; [|done].
  replace (N.to_nat nth) with (S (N.to_nat (nth - 1))) by lia. cbn [nth_stake].
  replace (N.of_nat (S (N.to_nat (nth - 1)))) with nth by lia. rewrite Hd. cbn [mbind option_bind].
  rewrite Hn. cbn [mbind option_bind comp_bind]. by rewrite advance_spec, Hh, Hadv.
Qed.

(** Caching the id of the next transaction keeps the invariant. *)
Lemma sm_wf_cache context sm op inputs d t :
  sm_wf context sm → stake_chains sm !! op = Some inputs →
  (d = 0%N ∨ is_Some (sc_stake_txid sm op (d - 1))) →
  nth_stake context (sc_params sm) inputs (N.to_nat d) = Some (Val t) →
  sm_wf context (with_txids (<[op := <[d := stake_txid_of t]> (default ∅ (stake_txids sm !! op))]>
    (stake_txids sm)) sm).
Proof.
  intros [E Hwf] Hop Hd Ht. split; [done|]. intros op' txids Hx. cbn in Hx |- *.
  destruct (decide (op' = op)) as [->|].
  2:{ rewrite lookup_insert_ne in Hx by done. by apply Hwf. }
  rewrite lookup_insert_eq in Hx. simplify_eq. exists inputs. split; [done|].
  unfold sc_stake_txid in Hd. destruct (stake_txids sm !! op) as [old|] eqn:Ho; cbn in Hd |- *.
  - destruct (Hwf _ _ Ho) as (inputs' & Hi & Hclosed & Htx). simplify_eq. split.
    + intros i j. rewrite !lookup_insert_is_Some'. intros [<-|Hold] Hle; [|right; by eapply Hclosed].
      destruct (decide (d = j)) as [->|]; [by left|]. right.
      destruct Hd as [->|Hd]; [lia|]. eapply Hclosed; [done|lia].
    + intros i txid [[<- <-]|[_ Hix]]%lookup_insert_Some; [by exists t|by apply Htx].
  - assert (d = 0%N) as -> by (destruct Hd as [|[? ?]]; done). split.
    + intros i j. rewrite !lookup_insert_is_Some', lookup_empty.
      intros [<-|[? ?]] Hle; [left; lia|done].
    + intros i txid [[<- <-]|[_ Hix]]%lookup_insert_Some; [by exists t|by rewrite lookup_empty in Hix].
Qed.

(** [process_setup] keeps the invariant. *)
Lemma process_setup_spec context sm op setup :
  sm_wf context sm →
  ∃ sm' r, process_setup op setup sm = Val (sm', r) ∧ sm_wf context sm' ∧
    setup_outcome context sm op setup sm' r.
Proof.
  intros Hwf. unfold process_setup, setup_outcome.
  destruct (sc_stake_txid sm op (ds_index setup)) as [txid|] eqn:Hc; [by do 2 eexists|].
  destruct (stake_chains sm !! op) as [inputs|] eqn:Hop; [|by do 2 eexists].
  pose proof (sm_wf_input context op (ds_index setup) (stake_tx_data setup) inputs sm Hwf Hop Hc) as Hwf1.
  set (inputs' := mkStakeChainInputs _ _) in *. set (sm1 := with_chains _ sm) in *.
  assert (stake_chains sm1 !! op = Some inputs') as Hop1 by (cbn; apply lookup_insert_eq).
  destruct (stake_tx_spec context sm1 op inputs' (ds_index setup) (stake_tx_data setup))
    as (r & -> & Hr); [done|done|cbn; apply lookup_insert_eq|].
  change (stake_tx_outcome context sm1) with (stake_tx_outcome context sm) in Hr.
  cbn [mbind comp_bind]. destruct r as [[tx|]|e]; do 2 eexists;
    (split; [reflexivity|]; split; [|by split]); [|done|done].
  unfold stake_tx_outcome in Hr. case_decide as Hd; [|done]. destruct Hr as (t & Ht & Hk).
  cbn in Hk. simplify_eq. rewrite Hk. by eapply (sm_wf_cache context sm1).
Qed.

Lemma extends_trans sm1 sm2 sm3 : extends sm1 sm2 → extends sm2 sm3 → extends sm1 sm3.
Proof. intros (? & ? & ? & H12) (? & ? & ? & H23). split_and!; [congruence..|]. auto. Qed.

Lemma process_setup_extends context sm op setup sm' r :
  process_setup op setup sm = Val (sm', r) → setup_outcome context sm op setup sm' r → extends sm sm'.
Proof.
  intros E Ho. assert (sc_network sm' = sc_network sm ∧ sc_params sm' = sc_params sm ∧
    sc_table sm' = sc_table sm) as (? & ? & ?).
  { revert E. unfold process_setup. destruct (sc_stake_txid _ _ _); [by intros [= <- _]|].
    destruct (stake_chains sm !! op); [|by intros [= <- _]].
    intros (r' & _ & E)%comp_bind_Val. by destruct r' as [[]|]; simplify_eq. }
  split_and!; [done..|]. intros op' i txid Hx. unfold setup_outcome in Ho.
  destruct (sc_stake_txid sm op (ds_index setup)) as [x|] eqn:Hc; [by destruct Ho as [-> _]|].
  destruct (stake_chains sm !! op); [|by destruct Ho as [-> _]]. destruct Ho as (_ & _ & Ht).
  unfold sc_stake_txid in *. rewrite Ht. destruct r as [[id|]|]; [|done|done].
  destruct (decide (op' = op)) as [->|]; [|by rewrite lookup_insert_ne].
  rewrite lookup_insert_eq. destruct (stake_txids sm !! op) as [txids|]; [|done]. cbn in *.
  rewrite lookup_insert_ne; [done|]. intros <-. congruence.
Qed.

Lemma on_msgs_spec context ms sm :
  sm_wf context sm → ∃ sm', on_msgs ms sm = Val sm' ∧ sm_wf context sm' ∧ extends sm sm'.
Proof.
  revert sm. induction ms as [|m ms IH]; intros sm Hwf; [by exists sm|]. unfold on_msgs. cbn [foldlM].
  assert (∃ sm1, on_msg m sm = Val sm1 ∧ sm_wf context sm1 ∧ extends sm sm1) as (sm1 & -> & Hwf1 & He1).
  { destruct m as [op pre_stake|op setup]; cbn [on_msg].
    - eexists. split; [done|]. split; [by apply sm_wf_exchange|]. by split_and!.
    - destruct (process_setup_spec context sm op setup Hwf) as (sm1 & r & E & Hwf1 & Ho).
      exists sm1. rewrite E. split_and!; [done|done|]. by eapply process_setup_extends. }
  cbn [mbind comp_bind]. destruct (IH sm1 Hwf1) as (sm' & Hms & Hwf' & He).
  exists sm'. split_and!; [done|done|]. by eapply extends_trans.
Qed.

(** *** Restoring *)

Lemma chain_txids_lookup c i :
  chain_len c = length (chain_txs c) →
  chain_txids c !! i = stake_txid_of <$> chain_txs c !! N.to_nat i.
Proof.
  unfold chain_len, chain_txids, chain_txs. destruct c as [[t|] tail]; cbn;
    [intros _|by destruct tail].
  revert i. induction tail as [|t' tail IH] using rev_ind; intros i.
  - cbn. destruct (decide (i = 0%N)) as [->|]; [done|]. rewrite lookup_insert_ne, lookup_empty by done.
    destruct (N.to_nat i) eqn:Hi; [lia|done].
  - rewrite imap_app, foldl_app. cbn [imap foldl fst snd]. rewrite Nat.add_0_r.
    rewrite app_comm_cons, lookup_app.
    destruct (decide (i = N.of_nat (length tail) + 1)%N) as [->|Hne].
    + rewrite lookup_insert_eq. replace (N.to_nat _) with (S (length tail)) by lia.
      rewrite lookup_ge_None_2 by (cbn; lia). cbn [length]. by rewrite Nat.sub_diag.
    + rewrite lookup_insert_ne by done. rewrite IH.
      destruct ((t :: tail) !! N.to_nat i) eqn:Hl; [done|]. apply lookup_ge_None in Hl.
      cbn [length] in *. rewrite lookup_ge_None_2; [done|]. cbn [length]. lia.
Qed.

Lemma restored_txids_lookup context params chains op inputs i :
  chains !! op = Some inputs →
  ∃ c, StakeChain_new context inputs params = Val c ∧
    restored_txids context params chains op !! i = stake_txid_of <$> chain_txs c !! N.to_nat i.
Proof.
  intros Hop. destruct (StakeChain_new_spec context inputs params) as (c & E & _ & _ & Hlen).
  exists c. split; [done|]. unfold restored_txids. rewrite Hop, E. by apply chain_txids_lookup.
Qed.

(** The ids of the operators with inputs, in the order of the keys. *)
Lemma restore_mapM context table network params chains (keys : list N) :
  tx_build_context table network = Val context →
  mapM (λ inputs,
      context ← tx_build_context table network;
      chain ← StakeChain_new context inputs params;
      Val (chain_txids chain)) (omap (λ p2p_key, chains !! p2p_key) keys)
  = Val (restored_txids context params chains
         <$> filter (λ k, is_Some (chains !! k)) keys).
Proof.
  intros E. rewrite E. cbn [mbind comp_bind].
  induction keys as [|k keys IH]; [done|]. cbn [omap list_omap].
  destruct (chains !! k) as [inputs|] eqn:Hk.
  - rewrite filter_cons_True by (rewrite Hk; by eexists). cbn [mapM fmap list_fmap].
    destruct (StakeChain_new_spec context inputs params) as (c & Ec & _).
    rewrite Ec. cbn [mbind comp_bind]. rewrite IH. cbn.
    unfold restored_txids at 2. by rewrite Hk, Ec.
  - rewrite filter_cons_False; [done|]. rewrite Hk. by intros [].
Qed.

(** A cached id is that of the transaction of the chain at its index. *)
Lemma wf_txid_chain context sm op i txid :
  sm_wf context sm → sc_stake_txid sm op i = Some txid →
  ∃ inputs c t, stake_chains sm !! op = Some inputs ∧
    StakeChain_new context inputs (sc_params sm) = Val c ∧
    chain_txs c !! N.to_nat i = Some t ∧ stake_txid_of t = txid.
Proof.
  intros [_ Hwf]. unfold sc_stake_txid. intros (txids & Ht & Hi)%bind_Some.
  destruct (Hwf _ _ Ht) as (inputs & Hop & _ & Htx). destruct (Htx _ _ Hi) as (t & Hn & Hid).
  destruct (StakeChain_new_spec context inputs (sc_params sm)) as (c & Ec & Hp & Hend & _).
  exists inputs, c, t. split_and!; [done..| |done].
  destruct (lookup_lt_is_Some_2 (chain_txs c) (N.to_nat i)) as [t' Ht'].
  - destruct (decide (N.to_nat i < length (chain_txs c))) as [|Hge]; [done|].
    destruct (nth_stake_inputs context (sc_params sm) inputs (N.to_nat i) ltac:(by eexists)
      (length (chain_txs c)) ltac:(lia)) as [d Hd]. congruence.
  - pose proof (Hp _ _ Ht'). congruence.
Qed.

Lemma restore_all context table network params chains :
  tx_build_context table network = Val context →
  (∀ op, op ∈ p2p_keys table → is_Some (chains !! op)) →
  ∃ sm', StakeChainSM_restore network table params chains = Val (Ok sm') ∧
    stake_chains sm' = chains ∧
    ∀ op, op ∈ p2p_keys table → stake_txids sm' !! op = Some (restored_txids context params chains op).
Proof.
  intros E Hall. unfold StakeChainSM_restore. rewrite (restore_mapM context) by done.
  cbn [mbind comp_bind]. eexists. split; [done|]. split; [done|]. intros op Hop.
  cbn [stake_txids]. rewrite filter_all.
  - rewrite zip_with_fmap_diag. apply bt_collect_NoDup.
    + rewrite <- list_fmap_compose, list_fmap_id. apply NoDup_bt_keys.
    + apply list_elem_of_fmap. exists op. split; [done|]. apply elem_of_bt_keys.
      by apply (elem_of_dom (D := gset N)).
  - intros k Hk%elem_of_bt_keys. by apply Hall, (elem_of_dom (D := gset N)).
Qed.

End lemmas.

(** ** Properties *)

Section properties.
Context `{TaprootLaws, ConnectorLib, ScriptLib, BitcoinLib, KeyAggLib}.
Context (network : Network) (table : OperatorTable) (params : StakeChainParams).
Context (context : TxBuildContext).
Hypothesis context_built : tx_build_context table network = Val context.

(** Whatever exchange and setup messages arrive, in whatever order, the stake transaction ids
    that the machine knows are those of the stake chain of the inputs it holds, and an id that
    is known once never changes; no message makes the machine panic. *)
Theorem txids_follow_chain ms sm :
  on_msgs ms (StakeChainSM_new network table params) = Val sm →
  (∀ op i txid, sc_stake_txid sm op i = Some txid →
     ∃ inputs c t, stake_chains sm !! op = Some inputs ∧
       StakeChain_new context inputs params = Val c ∧
       chain_txs c !! N.to_nat i = Some t ∧ stake_txid_of t = txid) ∧
  (∀ more, ∃ sm', on_msgs more sm = Val sm' ∧
     ∀ op i txid, sc_stake_txid sm op i = Some txid → sc_stake_txid sm' op i = Some txid).
Proof.
  intros E. destruct (on_msgs_spec context ms _ (sm_wf_new _ _ _ params context_built))
    as (sm' & E' & Hwf & _ & Hparams & _). rewrite E in E'. injection E' as <-. split.
  - intros op i txid. rewrite <- (Hparams : sc_params sm = params). by apply wf_txid_chain.
  - intros more. destruct (on_msgs_spec context more sm Hwf) as (sm' & Em & _ & He). exists sm'.
    split; [done|]. apply He.
Qed.

(** What a setup message does to a machine reached by any messages, on every branch: a known
    id is returned again; an operator without a pre-stake is an error; otherwise the input is
    stored and, for the first transaction or one whose predecessor is known, the id of the
    transaction of the chain at this index is stored and returned.  A setup that arrives out of
    order is an error after its input has been stored, and [Ok(None)] is never returned. *)
Theorem process_setup_outcomes ms sm op setup :
  on_msgs ms (StakeChainSM_new network table params) = Val sm →
  ∃ sm' r, process_setup op setup sm = Val (sm', r) ∧ r ≠ Ok None ∧
    setup_outcome context sm op setup sm' r.
Proof.
  intros E. destruct (on_msgs_spec context ms _ (sm_wf_new _ _ _ params context_built))
    as (sm0 & E' & Hwf & _). rewrite E in E'. injection E' as <-.
  destruct (process_setup_spec context sm op setup Hwf) as (sm' & r & Es & _ & Ho).
  exists sm', r. split_and!; [done| |done]. intros ->. unfold setup_outcome, stake_tx_outcome in Ho.
  repeat case_step; naive_solver.
Qed.

(** When every operator of the table has exchanged their pre-stake, a machine restored from
    the inputs knows, for every operator, exactly the ids of the operator's chain; in particular
    it knows every id that the machine before the restart knew. *)
Theorem restore_keeps_txids ms sm :
  on_msgs ms (StakeChainSM_new network table params) = Val sm →
  (∀ op, op ∈ p2p_keys table → is_Some (stake_chains sm !! op)) →
  ∃ sm', StakeChainSM_restore network table params (stake_chains sm) = Val (Ok sm') ∧
    stake_chains sm' = stake_chains sm ∧
    ∀ op, op ∈ p2p_keys table →
      (∃ inputs c, stake_chains sm !! op = Some inputs ∧ StakeChain_new context inputs params = Val c ∧
         ∀ i, sc_stake_txid sm' op i = stake_txid_of <$> chain_txs c !! N.to_nat i) ∧
      (∀ i txid, sc_stake_txid sm op i = Some txid → sc_stake_txid sm' op i = Some txid).
Proof.
  intros E Hall. destruct (on_msgs_spec context ms _ (sm_wf_new _ _ _ params context_built))
    as (sm0 & E' & Hwf & _ & Hparams & _). rewrite E in E'. injection E' as <-. cbn in Hparams.
  destruct (restore_all context table network params (stake_chains sm) context_built Hall)
    as (sm' & Er & Hc & Ht). exists sm'. split_and!; [done|done|]. intros op Hop.
  unfold sc_stake_txid at 1 3. rewrite (Ht _ Hop). cbn [mbind option_bind]. split.
  - destruct (Hall _ Hop) as [inputs Hi].
    destruct (StakeChain_new_spec context inputs params) as (c & Ec & _).
    exists inputs, c. split_and!; [done..|]. intros i.
    destruct (restored_txids_lookup context params _ op inputs i Hi) as (c' & Ec' & Hl). congruence.
  - intros i txid (inputs & c & t & Hi & Ec & Hl & <-)%(wf_txid_chain context _ _ _ _ Hwf).
    rewrite Hparams in Ec.
    destruct (restored_txids_lookup context params _ op inputs i Hi) as (c' & Ec' & Hr).
    rewrite Hr. assert (c' = c) as -> by congruence. by rewrite Hl.
Qed.

(** When the operator with the least key has not exchanged yet, [restore] gives the ids of
    another operator to them, and that operator's own ids are lost. *)
Theorem restore_misattributes_txids first rest op inputs :
  bt_keys (p2p_key table) = first :: rest → op ∈ rest →
  ∃ sm' c, StakeChainSM_restore network table params {[ op := inputs ]} = Val (Ok sm') ∧
    StakeChain_new context inputs params = Val c ∧ first ≠ op ∧
    ∀ i, sc_stake_txid sm' first i = stake_txid_of <$> chain_txs c !! N.to_nat i ∧
      sc_stake_txid sm' op i = None.
Proof.
  intros Hkeys Hop. pose proof (NoDup_bt_keys (p2p_key table)) as Hnd. rewrite Hkeys in Hnd.
  apply NoDup_cons in Hnd as [Hfirst Hnd]. assert (first ≠ op) as Hne by by intros ->.
  unfold StakeChainSM_restore. rewrite (restore_mapM context) by done. rewrite Hkeys.
  rewrite filter_cons_False by (rewrite lookup_singleton_ne by done; by intros []).
  assert (filter (λ k, is_Some (({[op := inputs]} : gmap N StakeChainInputs) !! k)) rest = [op]) as ->.
  { apply filter_one; [done..|]. intros x. rewrite lookup_singleton_is_Some. split; congruence. }
  destruct (restored_txids_lookup context params {[op := inputs]} op inputs 0%N) as (c & Ec & _);
    [apply lookup_singleton_eq|].
  cbn [mbind comp_bind fmap list_fmap zip_with]. do 2 eexists. split_and!; [done|done|done|].
  intros i. unfold sc_stake_txid. cbn [stake_txids bt_collect foldl fst snd].
  rewrite lookup_insert_eq, lookup_insert_ne by done. split; [|done]. cbn [mbind option_bind].
  destruct (restored_txids_lookup context params {[op := inputs]} op inputs i) as (c' & Ec' & Hl);
    [apply lookup_singleton_eq|]. congruence.
Qed.

End properties.

(** ** Witnesses *)

Section witnesses.
#[local] Existing Instances example_taproot example_connectors example_dust example_txids example_keyagg.

(** The two operators of [example_table], with P2P keys 10 and 20; the second setup of operator
    20 arrives before the first one. *)
Definition example_setup_msg (n : N) : DepositSetupMsg :=
  mkDepositSetup n (100 + n) (mkOutPoint (10 + n) 0) 7
    (mkP2PWotsPublicKeys [[n]] (mkP2PGroth16PublicKeys [] [] [])).
Definition example_msgs : list StakeMsg :=
  [Exchange 10 (mkOutPoint 3 0); Exchange 20 (mkOutPoint 4 0); Setup 10 (example_setup_msg 0);
   Setup 20 (example_setup_msg 1); Setup 20 (example_setup_msg 0); Setup 10 (example_setup_msg 1)]%N.
Definition example_start_sm : StakeChainSM := StakeChainSM_new 1 example_table StakeChainParams_default.
Definition example_stake_context : TxBuildContext := mkTxBuildContext 1 {[0 := 100; 1 := 200]}%N 300 0.

Definition example_sm (ms : list StakeMsg) : StakeChainSM :=
  match on_msgs ms example_start_sm with Val sm => sm | Panic => example_start_sm end.

Lemma example_context_built : tx_build_context example_table 1 = Val example_stake_context.
Proof. vm_compute. reflexivity. Qed.
Lemma example_run : on_msgs example_msgs example_start_sm = Val (example_sm example_msgs).
Proof. vm_compute. reflexivity. Qed.
Lemma example_known : sc_stake_txid (example_sm example_msgs) 10 1 = Some 156%N.
Proof. vm_compute. reflexivity. Qed.

Lemma txids_follow_chain_witness :
  ∃ inputs c t, on_msgs example_msgs example_start_sm = Val (example_sm example_msgs) ∧
    sc_stake_txid (example_sm example_msgs) 10 1 = Some 156%N ∧
    stake_chains (example_sm example_msgs) !! 10%N = Some inputs ∧
    StakeChain_new example_stake_context inputs StakeChainParams_default = Val c ∧
    chain_txs c !! 1 = Some t ∧ stake_txid_of t = 156%N.
Proof.
  destruct (txids_follow_chain 1 example_table StakeChainParams_default example_stake_context
    example_context_built example_msgs _ example_run) as [Hc _].
  destruct (Hc 10%N 1%N 156%N example_known) as (inputs & c & t & Hi & Hcc & Hl & Hid).
  exists inputs, c, t.
  split_and!; [exact example_run|exact example_known|exact Hi|exact Hcc|exact Hl|exact Hid].
Defined.

Lemma process_setup_outcomes_witness :
  let sm := example_sm (take 3 example_msgs) in
  ∃ sm' r, process_setup 20 (example_setup_msg 1) sm = Val (sm', r) ∧ r ≠ Ok None ∧
    setup_outcome example_stake_context sm 20 (example_setup_msg 1) sm' r.
Proof.
  refine (process_setup_outcomes 1 example_table StakeChainParams_default example_stake_context
    example_context_built (take 3 example_msgs) _ 20%N (example_setup_msg 1) _).
  vm_compute. reflexivity.
Defined.

Lemma example_all_exchanged op :
  op ∈ p2p_keys example_table → is_Some (stake_chains (example_sm example_msgs) !! op).
Proof.
  intros Hop. apply (bool_decide_unpack _).
  assert (forallb (λ op, bool_decide (is_Some (stake_chains (example_sm example_msgs) !! op)))
    (elements (p2p_keys example_table)) = true) as Hall by (vm_compute; reflexivity).
  rewrite forallb_true in Hall. apply Is_true_true, Hall. by apply elem_of_elements.
Qed.

Lemma restore_keeps_txids_witness :
  ∃ sm', StakeChainSM_restore 1 example_table StakeChainParams_default
      (stake_chains (example_sm example_msgs)) = Val (Ok sm') ∧ sc_stake_txid sm' 10 1 = Some 156%N.
Proof.
  destruct (restore_keeps_txids 1 example_table StakeChainParams_default example_stake_context
    example_context_built example_msgs _ example_run example_all_exchanged) as (sm' & Hr & _ & Hk).
  exists sm'. split; [exact Hr|]. refine (proj2 (Hk 10%N _) 1%N 156%N example_known).
  apply (elem_of_dom (D := gset N)). exists (0, 100)%N. vm_compute. reflexivity.
Defined.

Lemma restore_misattributes_txids_witness :
  ∃ sm' c, StakeChainSM_restore 1 example_table StakeChainParams_default
      {[ 20%N := example_stakes [0]%N ]} = Val (Ok sm') ∧
    StakeChain_new example_stake_context (example_stakes [0]%N) StakeChainParams_default = Val c ∧
    sc_stake_txid sm' 10 0 = stake_txid_of <$> chain_txs c !! 0 ∧ sc_stake_txid sm' 20 0 = None.
Proof.
  destruct (restore_misattributes_txids 1 example_table StakeChainParams_default
    example_stake_context example_context_built 10%N [20%N] 20%N (example_stakes [0]%N))
    as (sm' & c & Hr & Hc & _ & Hi); [vm_compute; reflexivity|left|].
  destruct (Hi 0%N) as [H1 H2]. exists sm', c. split_and!; [exact Hr|exact Hc|exact H1|exact H2].
Defined.

End witnesses.
