(* ===== verification/ContractSM.v ===== *)
(** * The contract state machine ([duty-tracker/src/contract_state_machine.rs])

    One machine follows one deposit from the request to its resolution.  Every handler is a
    function from the machine to the machine it leaves behind and its [Result]; a panic of the
    code is [Panic].  An early return keeps the updates made before it, as [&mut self] does. *)

From S2P Require Import Prelude Bitcoin OperatorTable PogMusig Wots TxTypes Taproot Deposit Predicates ContractTypes.

(** ** Building blocks *)

(** [Result::expect]. *)
Definition expect_ok {E A} (r : result E A) : comp A :=
  match r with Ok a => Val a | Err _ => Panic end.

(** [Iterator::any] with a predicate that may panic. *)
Fixpoint anyM {A} (p : A → comp bool) (l : list A) : comp bool :=
  match l with
  | [] => Val false
  | x :: l => b ← p x; if b : bool then Val true else anyM p l
  end.

(** Updates of single fields of [Requested]. *)
Definition set_inputs (r : RequestedState) m := mkRequested (deposit_request_txid r) (abort_deadline r)
  m (peg_out_graph_summaries r) (r_claim_txids r) (graph_nonces r) (agg_nonces r) (graph_partials r)
  (r_graph_sigs r) (root_nonces r) (root_partials r).
Definition set_graph_nonces (r : RequestedState) m := mkRequested (deposit_request_txid r)
  (abort_deadline r) (peg_out_graph_inputs r) (peg_out_graph_summaries r) (r_claim_txids r) m
  (agg_nonces r) (graph_partials r) (r_graph_sigs r) (root_nonces r) (root_partials r).
Definition set_agg_nonces (r : RequestedState) m := mkRequested (deposit_request_txid r)
  (abort_deadline r) (peg_out_graph_inputs r) (peg_out_graph_summaries r) (r_claim_txids r)
  (graph_nonces r) m (graph_partials r) (r_graph_sigs r) (root_nonces r) (root_partials r).
Definition set_graph_partials (r : RequestedState) m := mkRequested (deposit_request_txid r)
  (abort_deadline r) (peg_out_graph_inputs r) (peg_out_graph_summaries r) (r_claim_txids r)
  (graph_nonces r) (agg_nonces r) m (r_graph_sigs r) (root_nonces r) (root_partials r).
Definition set_graph_sigs (r : RequestedState) m := mkRequested (deposit_request_txid r)
  (abort_deadline r) (peg_out_graph_inputs r) (peg_out_graph_summaries r) (r_claim_txids r)
  (graph_nonces r) (agg_nonces r) (graph_partials r) m (root_nonces r) (root_partials r).
Definition set_root_nonces (r : RequestedState) m := mkRequested (deposit_request_txid r)
  (abort_deadline r) (peg_out_graph_inputs r) (peg_out_graph_summaries r) (r_claim_txids r)
  (graph_nonces r) (agg_nonces r) (graph_partials r) (r_graph_sigs r) m (root_partials r).
Definition set_root_partials (r : RequestedState) m := mkRequested (deposit_request_txid r)
  (abort_deadline r) (peg_out_graph_inputs r) (peg_out_graph_summaries r) (r_claim_txids r)
  (graph_nonces r) (agg_nonces r) (graph_partials r) (r_graph_sigs r) (root_nonces r) m.

Section csm.
Context `{BuildProfile, BitcoinLib, SighashLib, InstructionsLib, TaprootLib, DepositLib,
  DescriptorLib, Musig2Lib, TxGraphOps}.

(** What a handler leaves behind. *)
Abbreviation outcome A := (comp (ContractSM * result TransitionErr A)) (only parsing).

Definition with_state (sm : ContractSM) (s : ContractState) : ContractSM :=
  mkContractSM _ (cfg sm) (mkMachineState (block_height (mstate sm)) s) (pog sm).
Definition with_height (sm : ContractSM) (h : BitcoinBlockHeight) : ContractSM :=
  mkContractSM _ (cfg sm) (mkMachineState h (state (mstate sm))) (pog sm).
Definition with_pog (sm : ContractSM) (p : BTreeMap Txid Graph) : ContractSM :=
  mkContractSM _ (cfg sm) (mstate sm) p.
Abbreviation cstate sm := (state (mstate sm)).

Definition accept {A} (sm : ContractSM) (a : A) : outcome A := Val (sm, Ok a).
Definition reject {A} (sm : ContractSM) (e : TransitionErr) : outcome A := Val (sm, Err e).

(** [o.ok_or(e)?], with the machine as the handler has left it so far. *)
Definition or_reject {A B} (o : option A) (sm : ContractSM) (e : TransitionErr) (k : A → outcome B)
    : outcome B :=
  match o with Some a => k a | None => reject sm e end.

(** ** Configuration *)

Definition build_graph (c : ContractCfg) (graph_input : PegOutGraphInput) : comp Graph :=
  ctx ← tx_build_context (operator_table c) (network c);
  generate graph_input ctx (covenant_txid (deposit_tx c)) (peg_out_graph_params c)
    (connector_params c) (stake_chain_params c).

(** Indexing the inputs of the deposit transaction panics when there is none. *)
Definition cfg_deposit_request_txid (c : ContractCfg) : comp Txid :=
  txin ← expect (head (input (unsigned_tx (psbt (deposit_tx c)))));
  mret (op_txid (previous_output txin)).

Definition deposit_txid (sm : ContractSM) : Txid := covenant_txid (deposit_tx (cfg sm)).

Definition ContractSM_new (c : ContractCfg) (block_height abort_deadline : BitcoinBlockHeight)
    : comp ContractSM :=
  deposit_request_txid ← cfg_deposit_request_txid c;
  mret (mkContractSM _ c (mkMachineState block_height
    (ContractState_new deposit_request_txid abort_deadline)) ∅).

Definition restore (c : ContractCfg) (s : MachineState) : ContractSM := mkContractSM _ c s ∅.

Definition clear_pog_cache (sm : ContractSM) : ContractSM := with_pog sm ∅.

(** Lookup in the graph cache, which is keyed by the stake transaction; a miss builds the graph
    and caches it. *)
Definition cached_graph (c : ContractCfg) (cache : BTreeMap Txid Graph)
    (pog_input : PegOutGraphInput) : comp (BTreeMap Txid Graph * Graph) :=
  let stake_txid := op_txid (stake_outpoint pog_input) in
  match cache !! stake_txid with
  | Some g => mret (cache, g)
  | None => g ← build_graph c pog_input; mret (<[stake_txid := g]> cache, g)
  end.

Definition retrieve_graph (sm : ContractSM) (input : PegOutGraphInput) : comp (ContractSM * Graph) :=
  '(cache, g) ← cached_graph (cfg sm) (pog sm) input;
  mret (with_pog sm cache, g).

(** ** Which transactions concern the machine *)

Definition graph_tx (tx : Transaction) (g : PegOutGraphSummary) : bool :=
  let txid := compute_txid tx in
  bool_decide (claim_txid g = txid) || bool_decide (payout_optimistic_txid g = txid)
  || bool_decide (pre_assert_txid g = txid)
  || bool_decide (txid ∈ vec_to_list (assert_data_txids g))
  || bool_decide (post_assert_txid g = txid) || bool_decide (payout_txid g = txid)
  || is_challenge (claim_txid g) tx || is_disprove (post_assert_txid g) tx.

Definition transaction_filter (sm : ContractSM) (tx : Transaction) : comp bool :=
  let c := cfg sm in
  fulfilled ← match cstate sm with
    | Assigned _ _ recipient _ _ =>
        anyM (λ operator_idx, is_fulfillment_tx (network c) (peg_out_graph_params c) operator_idx
          (deposit_idx c) (deposit_txid sm) recipient tx)
          (elements (operator_idxs (operator_table c)))
    | _ => mret false
    end;
  if fulfilled : bool then mret true
  else mret (existsb (λ g, bool_decide (deposit_txid sm = compute_txid tx) || graph_tx tx g)
    (summaries (cstate sm))).

(** ** Aggregation and verification of signing data *)

Definition aggregate_nonces (graph_nonces : BTreeMap Txid (BTreeMap P2POperatorPubKey (PogMusigF PubNonce)))
    : BTreeMap Txid (PogMusigF AggNonce) :=
  (λ g, Pog.map AggNonce_sum (Pog.sequence_pog_musig_f (bt_values g))) <$> graph_nonces.

Record AuxAggData := mkAuxAggData {
  aux_agg_nonces : PogMusigF AggNonce;
  aux_sighash_types : PogMusigF TapSighashType;
  aux_sighashes : PogMusigF Message;
  aux_witnesses : PogMusigF TaprootWitness;
}.

(** The signatures of one graph from the partial signatures of its signers. *)
Definition aggregate_graph (t : OperatorTable) (aux : AuxAggData)
    (session : BTreeMap P2POperatorPubKey (PogMusigF PartialSignature))
    : comp (PogMusigF TaprootSignature) :=
  agg_contexts ← expect_ok (Pog.sequence_result (Pog.map (create_agg_ctx (btc_keys t)) (aux_witnesses aux)));
  by_btc_key ← expect_ok (convert_map_p2p_to_btc t session);
  let partials := Pog.sequence_pog_musig_f (bt_values by_btc_key) in
  schnorr_sigs ← expect (Pog.sequence_option (Pog.zip_with_4 aggregate_partial_signatures
    agg_contexts (aux_agg_nonces aux) partials (aux_sighashes aux)));
  mret (Pog.zip_with mkTaprootSignature schnorr_sigs (aux_sighash_types aux)).

(** [graph_partials] is consumed: each claim's partials are removed as they are used. *)
Definition aggregate_partials (t : OperatorTable) (aux_data : BTreeMap Txid AuxAggData)
    (graph_partials : BTreeMap Txid (BTreeMap P2POperatorPubKey (PogMusigF PartialSignature)))
    : comp (BTreeMap Txid (PogMusigF TaprootSignature)) :=
  '(_, sigs) ← foldlM (λ '(partials, sigs) '(claim_txid, aux),
    session ← expect (partials !! claim_txid);
    sig ← aggregate_graph t aux session;
    mret (delete claim_txid partials, sigs ++ [(claim_txid, sig)]))
    (graph_partials, []) (bt_iter aux_data);
  mret (bt_collect sigs).

Definition verify_partials_from_peer (c : ContractCfg) (signer : P2POperatorPubKey) (claim_txid : Txid)
    (g : Graph) (graph_nonces : BTreeMap Txid (BTreeMap P2POperatorPubKey (PogMusigF PubNonce)))
    (agg_nonces : BTreeMap Txid (PogMusigF AggNonce)) (partial_sigs : PogMusigF PartialSignature)
    : comp (result TransitionErr bool) :=
  individual_pubkey ← expect (p2p_key_to_btc_key (operator_table c) signer);
  individual_pubnonces ← expect (graph_nonces !! claim_txid);
  if bool_decide (size individual_pubnonces ≠ cardinality (operator_table c)) then mret (Ok false)
  else
    pubnonces ← expect (individual_pubnonces !! signer);
    match agg_nonces !! claim_txid with
    | None => mret (Err AggNoncesMissing)
    | Some aggnonces =>
        sighashes ← musig_sighashes g;
        invalid ← anyM (λ '(pubnonce, message, witness, partial_signature, aggregated_nonce),
          key_agg_ctx ← expect_ok (create_agg_ctx (btc_keys (operator_table c)) witness);
          mret (negb (verify_partial key_agg_ctx partial_signature aggregated_nonce
            individual_pubkey pubnonce message)))
          (Pog.pack (Pog.zip5 pubnonces sighashes (musig_witnesses g) partial_sigs aggnonces));
        mret (if invalid : bool then Err InvalidPartial else Ok true)
    end.

(** ** Setup: inputs, nonces and signatures of the peg-out graphs *)

(** The graphs of all operators, in the order of their P2P keys, on worker threads or through
    the cache. *)
Definition setup_graphs (multi_thread_graph_gen : bool) (c : ContractCfg)
    (cache : BTreeMap Txid Graph) (inputs : BTreeMap P2POperatorPubKey PegOutGraphInput)
    : comp (BTreeMap Txid Graph * list (P2POperatorPubKey * Graph)) :=
  if multi_thread_graph_gen then
    graphs ← mapM (λ '(signer, i), g ← build_graph c i; mret (signer, g)) (bt_iter inputs);
    mret (cache, graphs)
  else
    foldlM (λ '(cache, graphs) '(signer, i),
      '(cache, g) ← cached_graph c cache i;
      mret (cache, graphs ++ [(signer, g)])) (cache, []) (bt_iter inputs).

(** Registering one graph: its summary, its owner, and empty signing sessions. *)
Definition register_graph (r : RequestedState) (sg : P2POperatorPubKey * Graph) : RequestedState :=
  let summary := summarize sg.2 in
  let claim := claim_txid summary in
  mkRequested (deposit_request_txid r) (abort_deadline r) (peg_out_graph_inputs r)
    (<[claim := summary]> (peg_out_graph_summaries r))
    (<[sg.1 := claim]> (r_claim_txids r))
    (<[claim := ∅]> (graph_nonces r))
    (agg_nonces r)
    (<[claim := ∅]> (graph_partials r))
    (r_graph_sigs r) (root_nonces r) (root_partials r).

(** The input of a graph owner: a repeated setup only replaces the stake outpoints. *)
Definition upsert_input (old : option PegOutGraphInput) (operator_pubkey : XOnlyPublicKey)
    (new_stake_hash : Sha256Hash) (new_stake_txid : Txid) (new_wots_keys : PublicKeys)
    : PegOutGraphInput :=
  let new_stake_outpoint := mkOutPoint new_stake_txid STAKE_VOUT in
  let new_withdrawal_fulfillment_outpoint := mkOutPoint new_stake_txid WITHDRAWAL_FULFILLMENT_VOUT in
  match old with
  | Some i => mkPegOutGraphInput new_stake_outpoint new_withdrawal_fulfillment_outpoint
      (pgi_stake_hash i) (wots_public_keys i) (pgi_operator_pubkey i)
  | None => mkPegOutGraphInput new_stake_outpoint new_withdrawal_fulfillment_outpoint
      new_stake_hash new_wots_keys operator_pubkey
  end.

Definition graph_nonces_duty (g : Graph) : OperatorDuty :=
  PublishGraphNonces (graph_claim_txid g) (musig_inpoints g) (musig_witnesses g) None.

Definition process_deposit_setup (multi_thread_graph_gen : bool) (signer : P2POperatorPubKey)
    (operator_pubkey : XOnlyPublicKey) (new_stake_hash : Sha256Hash) (new_stake_txid : Txid)
    (new_wots_keys : PublicKeys) (sm : ContractSM) : outcome (list OperatorDuty) :=
  match cstate sm with
  | Requested r =>
      let inputs := <[signer := upsert_input (peg_out_graph_inputs r !! signer) operator_pubkey
        new_stake_hash new_stake_txid new_wots_keys]> (peg_out_graph_inputs r) in
      let r := set_inputs r inputs in
      if bool_decide (size inputs ≠ cardinality (operator_table (cfg sm))) then
        accept (with_state sm (Requested r)) []
      else
        '(cache, graphs) ← setup_graphs multi_thread_graph_gen (cfg sm) (pog sm) inputs;
        let duties := (λ sg, graph_nonces_duty sg.2) <$> graphs in
        let r := foldl register_graph r graphs in
        accept (with_pog (with_state sm (Requested r)) cache) duties
  | Aborted => accept sm []
  | _ => reject sm UnexpectedState
  end.

(** Every claim has data from as many signers as there are operators. *)
Definition have_all {V} (c : ContractCfg) (claims : BTreeMap P2POperatorPubKey Txid)
    (m : BTreeMap Txid (BTreeMap P2POperatorPubKey V)) : bool :=
  forallb (λ claim, match m !! claim with
    | Some session => bool_decide (size session = cardinality (operator_table c))
    | None => false
    end) (bt_values claims).

(** The loop over the claims that asks for our partial signatures, with the cache it fills. *)
Fixpoint signature_duties (c : ContractCfg) (r : RequestedState) (owners : BTreeMap Txid P2POperatorPubKey)
    (claims : list Txid) (cache : BTreeMap Txid Graph) (duties : list OperatorDuty)
    : comp (BTreeMap Txid Graph * result TransitionErr (list OperatorDuty)) :=
  match claims with
  | [] => mret (cache, Ok duties)
  | claim :: claims =>
      match owners !! claim with
      | None => mret (cache, Err ClaimNotInClaimTxids)
      | Some graph_owner =>
          match peg_out_graph_inputs r !! graph_owner with
          | None => mret (cache, Err GraphInputMissing)
          | Some pog_input =>
              '(cache, g) ← cached_graph c cache pog_input;
              pov_key ← pov_p2p_key (operator_table c);
              let existing_partials := graph_partials r !! claim ≫= λ s, s !! pov_key in
              match agg_nonces r !! claim with
              | None => mret (cache, Err AggNoncesMissing)
              | Some aggnonces =>
                  sighashes ← musig_sighashes g;
                  signature_duties c r owners claims cache
                    (duties ++ [PublishGraphSignatures claim aggnonces (musig_inpoints g) sighashes
                      (musig_witnesses g) existing_partials])
              end
          end
      end
  end.

Definition process_graph_nonces (signer : P2POperatorPubKey) (claim_txid : Txid)
    (nonces : list PubNonce) (sm : ContractSM) : outcome (list OperatorDuty) :=
  match cstate sm with
  | Requested r =>
      or_reject (Pog.unpack nonces) sm UnpackError (λ unpacked,
      or_reject (graph_nonces r !! claim_txid) sm ClaimNotInNonces (λ session_nonces,
      match session_nonces !! signer with
      | Some existing =>
          _ ← debug_assert (bool_decide (unpacked = existing));
          accept sm []
      | None =>
          let r := set_graph_nonces r (<[claim_txid := <[signer := unpacked]> session_nonces]> (graph_nonces r)) in
          if negb (have_all (cfg sm) (r_claim_txids r) (graph_nonces r)) then
            accept (with_state sm (Requested r)) []
          else
            let r := set_agg_nonces r (aggregate_nonces (graph_nonces r)) in
            let owners := bt_collect ((λ kv, (kv.2, kv.1)) <$> bt_iter (r_claim_txids r)) in
            '(cache, res) ← signature_duties (cfg sm) r owners (bt_values (r_claim_txids r)) (pog sm) [];
            mret (with_pog (with_state sm (Requested r)) cache, res)
      end))
  | _ => reject sm UnexpectedState
  end.

(** The graph of an input from the cache, or built without caching it. *)
Definition graph_or_build (sm : ContractSM) (i : PegOutGraphInput) : comp Graph :=
  match pog sm !! op_txid (stake_outpoint i) with
  | Some g => mret g
  | None => build_graph (cfg sm) i
  end.

Definition aux_data_of (r : RequestedState) (g : Graph) : comp (Txid * AuxAggData) :=
  let claim := graph_claim_txid g in
  nonces ← expect (agg_nonces r !! claim);
  types ← musig_sighash_types g;
  hashes ← musig_sighashes g;
  mret (claim, mkAuxAggData nonces types hashes (musig_witnesses g)).

(** The duty to share the nonce for the deposit transaction. *)
Definition root_nonce_duty (sm : ContractSM) (r : RequestedState) : comp OperatorDuty :=
  pov_key ← pov_p2p_key (operator_table (cfg sm));
  request_txid ← cfg_deposit_request_txid (cfg sm);
  mret (PublishRootNonce request_txid (Vector.hd (witnesses (deposit_tx (cfg sm)))) (root_nonces r !! pov_key)).

Definition process_graph_signatures (signer : P2POperatorPubKey) (claim_txid : Txid)
    (partial_sigs : list PartialSignature) (sm : ContractSM) : outcome (option OperatorDuty) :=
  or_reject (Pog.unpack partial_sigs) sm UnpackError (λ unpacked,
  match cstate sm with
  | Requested r =>
      or_reject (graph_partials r !! claim_txid) sm ClaimNotInPartials (λ session_partials,
      match session_partials !! signer with
      | Some existing =>
          _ ← debug_assert (bool_decide (unpacked = existing));
          accept sm None
      | None =>
          or_reject (claim_owner (r_claim_txids r) claim_txid) sm ClaimNotInClaimTxids (λ graph_owner,
          or_reject (peg_out_graph_inputs r !! graph_owner) sm GraphInputMissing (λ graph_input,
          g ← graph_or_build sm graph_input;
          verified ← verify_partials_from_peer (cfg sm) signer claim_txid g (graph_nonces r)
            (agg_nonces r) unpacked;
          match verified with
          | Err e => reject sm e
          | Ok false => accept sm None
          | Ok true =>
              let r := set_graph_partials r
                (<[claim_txid := <[signer := unpacked]> session_partials]> (graph_partials r)) in
              if negb (have_all (cfg sm) (r_claim_txids r) (graph_partials r)) then
                accept (with_state sm (Requested r)) None
              else
                pogs ← mapM (graph_or_build sm) (bt_values (peg_out_graph_inputs r));
                aux_data ← mapM (aux_data_of r) pogs;
                sigs ← aggregate_partials (operator_table (cfg sm)) (bt_collect aux_data) (graph_partials r);
                let r := set_graph_sigs r sigs in
                duty ← root_nonce_duty sm r;
                accept (with_state sm (Requested r)) (Some duty)
          end))
      end)
  | _ => reject sm UnexpectedState
  end).

Definition process_aggregate_sigs (sigs : BTreeMap Txid (PogMusigF TaprootSignature)) (sm : ContractSM)
    : outcome (list OperatorDuty) :=
  match cstate sm with
  | Requested r =>
      let r := set_graph_sigs r sigs in
      duty ← root_nonce_duty sm r;
      accept (with_state sm (Requested r)) [duty]
  | _ => reject sm UnexpectedState
  end.

(** ** Setup: the signature of the deposit transaction *)

(** The data of the operators that are in the map, in the order of their indices. *)
Definition in_table_order {V} (t : OperatorTable) (m : BTreeMap P2POperatorPubKey V) : list V :=
  omap (λ btc_key, btc_key_to_p2p_key t btc_key ≫= λ p2p_key, m !! p2p_key) (btc_keys t).

Definition deposit_sighash (c : ContractCfg) : comp Message :=
  Vector.hd <$> sighashes (deposit_tx c).

Definition process_root_nonce (signer : P2POperatorPubKey) (nonce : PubNonce) (sm : ContractSM)
    : outcome (option OperatorDuty) :=
  match cstate sm with
  | Requested r =>
      match root_nonces r !! signer with
      | Some existing =>
          _ ← debug_assert (bool_decide (nonce = existing));
          accept sm None
      | None =>
          let r := set_root_nonces r (<[signer := nonce]> (root_nonces r)) in
          if bool_decide (size (root_nonces r) = cardinality (operator_table (cfg sm))) then
            sighash ← deposit_sighash (cfg sm);
            let aggnonce := AggNonce_sum (in_table_order (operator_table (cfg sm)) (root_nonces r)) in
            request_txid ← cfg_deposit_request_txid (cfg sm);
            accept (with_state sm (Requested r)) (Some (PublishRootSignature request_txid aggnonce
              sighash (Vector.hd (witnesses (deposit_tx (cfg sm)))) None))
          else accept (with_state sm (Requested r)) None
      end
  | Deposited _ => accept sm None
  | _ => reject sm UnexpectedState
  end.

Definition process_root_signature (signer : P2POperatorPubKey) (sig : PartialSignature) (sm : ContractSM)
    : outcome (option OperatorDuty) :=
  let t := operator_table (cfg sm) in
  match cstate sm with
  | Requested r =>
      match root_partials r !! signer with
      | Some existing =>
          _ ← debug_assert (bool_decide (sig = existing));
          accept sm None
      | None =>
          let aggnonce := AggNonce_sum (bt_values (root_nonces r)) in
          key_agg_ctx ← expect_ok (create_agg_ctx (btc_keys t) (Vector.hd (witnesses (deposit_tx (cfg sm)))));
          or_reject (p2p_key_to_btc_key t signer) sm UnknownOperatorKey (λ btc_pubkey,
          or_reject (root_nonces r !! signer) sm RootNonceMissing (λ root_nonce,
          message ← deposit_sighash (cfg sm);
          if negb (verify_partial key_agg_ctx sig aggnonce btc_pubkey root_nonce message) then
            accept sm None
          else
            let r := set_root_partials r (<[signer := sig]> (root_partials r)) in
            accept (with_state sm (Requested r))
              (if bool_decide (size (root_partials r) = cardinality t)
               then Some (PublishDeposit (deposit_tx (cfg sm)) (in_table_order t (root_partials r)) aggnonce)
               else None)))
      end
  | Deposited _ => accept sm None
  | _ => reject sm UnexpectedState
  end.

(** ** From the deposit to the assignment *)

(** Moving the inputs and summaries of the claims out of [Requested]: each is removed as it is
    taken. *)
Definition take_graphs (r : RequestedState) : comp (BTreeMap Txid (PegOutGraphInput * PegOutGraphSummary)) :=
  '(_, _, graphs) ← foldlM (λ '(inputs, sums, graphs) '(key, claim),
    i ← expect (inputs !! key);
    s ← expect (sums !! claim);
    mret (delete key inputs, delete claim sums, graphs ++ [(claim, (i, s))]))
    (peg_out_graph_inputs r, peg_out_graph_summaries r, []) (bt_iter (r_claim_txids r));
  mret (bt_collect graphs).

Definition process_deposit_confirmation (tx : Transaction) (sm : ContractSM) : outcome (option OperatorDuty) :=
  if bool_decide (compute_txid tx ≠ deposit_txid sm) then reject sm WrongCSM
  else
    match cstate sm with
    | Requested r =>
        graphs ← take_graphs r;
        accept (clear_pog_cache (with_state sm (Deposited (mkGraphs graphs (r_claim_txids r) (r_graph_sigs r))))) None
    | _ => reject sm UnexpectedState
    end.

Definition process_assignment (assignment : DepositEntry) (stake_tx : StakeTxKind)
    (height : BitcoinBlockHeight) (sm : ContractSM) : outcome (option OperatorDuty) :=
  if bool_decide (de_idx assignment ≠ deposit_idx (cfg sm)) then reject sm WrongAssignment
  else
    match deposit_state assignment with
    | Dispatched dispatched_state =>
        let assignee := assignee dispatched_state in
        or_reject (idx_to_p2p_key (operator_table (cfg sm)) assignee) sm UnknownAssignee (λ assignee_key,
        or_reject (head (withdraw_outputs dispatched_state)) sm NoRecipient (λ recipient,
        or_reject (de_withdrawal_request_txid assignment) sm NoWithdrawalRequest (λ withdrawal_request_txid,
        let metadata operator_idx := mkWithdrawalMetadata (tag (peg_out_graph_params (cfg sm)))
          operator_idx (deposit_idx (cfg sm)) (deposit_txid sm) in
        let deadline := exec_deadline dispatched_state in
        match cstate sm with
        | Deposited g | Assigned g _ _ _ _ =>
            or_reject (g_claim_txids g !! assignee_key) sm ClaimNotFound (λ fulfiller_claim_txid,
            or_reject (peg_out_graphs g !! fulfiller_claim_txid) sm GraphNotFound (λ active_graph,
            accept (with_state sm (Assigned g (mkWithdrawal assignee active_graph withdrawal_request_txid)
                recipient deadline height))
              (Some (DFulfiller (HandleFulfillment stake_tx (metadata assignee) recipient deadline)))))
        | Aborted =>
            accept sm (Some (DFulfiller (HandleFulfillment stake_tx (metadata U32_MAX) recipient deadline)))
        | _ => accept sm None
        end)))
    | NotDispatchedState _ => reject sm NotDispatched
    end.

(** ** New blocks *)

Definition is_pov (sm : ContractSM) (idx : OperatorIdx) : bool :=
  bool_decide (idx = pov_idx (operator_table (cfg sm))).

(** [block_height >= since + timelock && fulfiller == pov_idx]. *)
Definition timelock_over (sm : ContractSM) (since timelock : N) (fulfiller : OperatorIdx) : comp bool :=
  maturity ← u64_add since timelock;
  mret ((maturity <=? block_height (mstate sm))%N && is_pov sm fulfiller).

Definition notify_new_block (height : BitcoinBlockHeight) (sm : ContractSM) : outcome (option OperatorDuty) :=
  next ← u64_add (block_height (mstate sm)) 1;
  if bool_decide (next ≠ height) then reject sm UnexpectedBlock
  else
    let sm := with_height sm height in
    let c := cfg sm in
    match cstate sm with
    | Deposited _ | Assigned _ _ _ _ _ | Fulfilled _ _ _ _ _ | PreAssertConfirmed _ _ _ _ _ _ _
    | AssertDataConfirmed _ _ _ _ _ | Disproved | Resolved _ _ _ _ _ | Aborted => accept sm None
    | Requested r =>
        if (abort_deadline r <=? height)%N then accept (with_state sm Aborted) (Some Abort)
        else accept sm None
    | Claimed g w claim_height _ _ _ =>
        over ← timelock_over sm claim_height (payout_optimistic_timelock (connector_params c)) (fulfiller w);
        if over : bool then
          let summary := (active_graph w).2 in
          or_reject (g_graph_sigs g !! claim_txid summary) sm GraphSigsMissing (λ sigs,
          accept sm (Some (DFulfiller (PublishPayoutOptimistic (deposit_txid sm) (claim_txid summary)
            (stake_txid summary) (deposit_idx c) (payout_optimistic sigs)))))
        else accept sm None
    | Challenged g w claim_height _ _ _ =>
        over ← timelock_over sm claim_height (pre_assert_timelock (connector_params c)) (fulfiller w);
        if over : bool then
          let summary := (active_graph w).2 in
          or_reject (g_graph_sigs g !! claim_txid summary) sm GraphSigsMissing (λ sigs,
          accept sm (Some (DFulfiller (PublishPreAssert (deposit_idx c) (deposit_txid sm)
            (claim_txid summary) (pre_assert sigs)))))
        else accept sm None
    | Asserted g w post_assert_height _ _ _ =>
        over ← timelock_over sm post_assert_height (payout_timelock (connector_params c)) (fulfiller w);
        if over : bool then
          let summary := (active_graph w).2 in
          or_reject (g_graph_sigs g !! claim_txid summary) sm GraphSigsMissing (λ sigs,
          accept sm (Some (DFulfiller (PublishPayout (deposit_idx c) (deposit_txid sm)
            (post_assert_txid summary) (claim_txid summary)
            (op_txid (stake_outpoint (active_graph w).1)) (payout sigs)))))
        else accept sm None
    end.

(** ** Transactions of the peg-out graph *)

Definition process_fulfillment_confirmation (height : BitcoinBlockHeight) (tx : Transaction)
    (sm : ContractSM) : outcome (option OperatorDuty) :=
  match cstate sm with
  | Assigned g w recipient _ l1_start_height =>
      let c := cfg sm in
      let txid := compute_txid tx in
      fulfilled ← is_fulfillment_tx (network c) (peg_out_graph_params c) (fulfiller w) (deposit_idx c)
        (deposit_txid sm) recipient tx;
      if negb fulfilled then accept sm None
      else
        accept (with_state sm (Fulfilled g w txid height l1_start_height))
          (if is_pov sm (fulfiller w)
           then Some (DFulfiller (PublishClaim txid (stake_txid (active_graph w).2) (deposit_txid sm)))
           else None)
  | _ => reject sm UnexpectedState
  end.

Definition process_claim_confirmation (height : BitcoinBlockHeight) (tx : Transaction)
    (sm : ContractSM) : outcome (option OperatorDuty) :=
  match cstate sm with
  | Fulfilled g w withdrawal_fulfillment_txid _ l1_start_height =>
      if bool_decide (compute_txid tx ≠ claim_txid (active_graph w).2) then reject sm InvalidClaim
      else
        commitment ← parse_witness tx;
        or_reject commitment sm ClaimWitnessError (λ commitment,
        accept (with_state sm (Claimed g w height withdrawal_fulfillment_txid commitment l1_start_height))
          (if negb (is_pov sm (fulfiller w)) then Some (DVerifier VerifyClaim) else None))
  | _ => reject sm UnexpectedState
  end.

Definition process_claim_verification_failure (sm : ContractSM) : outcome (option OperatorDuty) :=
  match cstate sm with
  | Claimed _ _ _ _ _ _ => accept sm (Some (DVerifier PublishChallenge))
  | _ => reject sm UnexpectedState
  end.

Definition process_challenge_confirmation (tx : Transaction) (sm : ContractSM) : outcome (option OperatorDuty) :=
  match cstate sm with
  | Claimed g w claim_height withdrawal_fulfillment_txid commitment l1_start_height =>
      if negb (is_challenge (claim_txid (active_graph w).2) tx) then reject sm NotAChallenge
      else accept (with_state sm
        (Challenged g w claim_height withdrawal_fulfillment_txid commitment l1_start_height)) None
  | _ => reject sm UnexpectedState
  end.

Definition process_pre_assert_confirmation (tx : Transaction) (sm : ContractSM) : outcome (option OperatorDuty) :=
  match cstate sm with
  | Challenged g w claim_height withdrawal_fulfillment_txid commitment l1_start_height
  | Claimed g w claim_height withdrawal_fulfillment_txid commitment l1_start_height =>
      let txid := compute_txid tx in
      if bool_decide (txid ≠ pre_assert_txid (active_graph w).2) then reject sm InvalidPreAssert
      else
        duty ← (if is_pov sm (fulfiller w) then
          scripts ← expect (first_n NUM_ASSERT_DATA_TX (script_pubkey <$> output tx));
          mret (Some (DFulfiller (PublishAssertData withdrawal_fulfillment_txid l1_start_height
            (deposit_idx (cfg sm)) (deposit_txid sm) txid scripts)))
          else mret None);
        accept (with_state sm (PreAssertConfirmed g w claim_height withdrawal_fulfillment_txid
          commitment l1_start_height ∅)) duty
  | _ => reject sm UnexpectedState
  end.

Definition process_assert_data_confirmation (tx : Transaction) (sm : ContractSM) : outcome (option OperatorDuty) :=
  match cstate sm with
  | PreAssertConfirmed g w claim_height withdrawal_fulfillment_txid commitment l1_start_height signed =>
      let txid := compute_txid tx in
      let summary := (active_graph w).2 in
      if negb (bool_decide (txid ∈ vec_to_list (assert_data_txids summary))) then reject sm NotAssertData
      else
        let signed := <[txid := tx]> signed in
        let sm := with_state sm (PreAssertConfirmed g w claim_height withdrawal_fulfillment_txid
          commitment l1_start_height signed) in
        if bool_decide (size signed < NUM_ASSERT_DATA_TX) then accept sm None
        else
          let confirmed :=
            with_state sm (AssertDataConfirmed g w withdrawal_fulfillment_txid commitment signed) in
          if is_pov sm (fulfiller w) then
            or_reject (g_graph_sigs g !! claim_txid summary) sm GraphSigsMissing (λ sigs,
            accept confirmed (Some (DFulfiller (PublishPostAssertData (deposit_txid sm)
              (assert_data_txids summary) (post_assert sigs)))))
          else accept confirmed None
  | _ => reject sm UnexpectedState
  end.

Definition process_post_assert_confirmation (tx : Transaction) (post_assert_height : BitcoinBlockHeight)
    (sm : ContractSM) : outcome (option OperatorDuty) :=
  match cstate sm with
  | AssertDataConfirmed g w withdrawal_fulfillment_txid commitment signed =>
      if negb (bool_decide (size signed = NUM_ASSERT_DATA_TX)) then reject sm UnexpectedState
      else if bool_decide (compute_txid tx ≠ post_assert_txid (active_graph w).2) then
        reject sm InvalidPostAssert
      else
        or_reject (Pog.vsequence (vmap (λ txid, signed !! txid) (assert_data_txids (active_graph w).2)))
          sm AssertDataMissing (λ assert_data_txs,
        proof_commitment ← parse_witnesses assert_data_txs;
        or_reject proof_commitment sm AssertWitnessError (λ proof_commitment,
        accept (with_state sm (Asserted g w post_assert_height withdrawal_fulfillment_txid commitment
            proof_commitment))
          (if is_pov sm (fulfiller w) then Some (DVerifier VerifyAssertion) else None)))
  | _ => reject sm UnexpectedState
  end.

Definition process_assertion_verification_failure (sm : ContractSM) : outcome (option OperatorDuty) :=
  match cstate sm with
  | Asserted _ _ _ _ _ _ => accept sm (Some (DVerifier PublishDisprove))
  | _ => reject sm UnexpectedState
  end.

Definition process_disprove_confirmation (tx : Transaction) (sm : ContractSM) : outcome (option OperatorDuty) :=
  match cstate sm with
  | Asserted _ w _ _ _ _ =>
      if negb (is_disprove (post_assert_txid (active_graph w).2) tx) then reject sm InvalidDisprove
      else accept (with_state sm Disproved) None
  | _ => reject sm UnexpectedState
  end.

Definition process_optimistic_payout_confirmation (tx : Transaction) (sm : ContractSM)
    : outcome (option OperatorDuty) :=
  match cstate sm with
  | Claimed _ w _ withdrawal_fulfillment_txid _ _ =>
      let txid := compute_txid tx in
      if bool_decide (txid ≠ payout_optimistic_txid (active_graph w).2) then
        reject sm InvalidOptimisticPayout
      else accept (with_state sm (Resolved (claim_txid (active_graph w).2) (w_withdrawal_request_txid w)
        withdrawal_fulfillment_txid txid Optimistic)) None
  | _ => reject sm UnexpectedState
  end.

Definition process_defended_payout_confirmation (tx : Transaction) (sm : ContractSM)
    : outcome (option OperatorDuty) :=
  match cstate sm with
  | Asserted _ w _ withdrawal_fulfillment_txid _ _ =>
      let txid := compute_txid tx in
      if bool_decide (txid ≠ payout_txid (active_graph w).2) then reject sm InvalidDefendedPayout
      else accept (with_state sm (Resolved (claim_txid (active_graph w).2) (w_withdrawal_request_txid w)
        withdrawal_fulfillment_txid txid Contested)) None
  | _ => reject sm UnexpectedState
  end.

(** [Result::or_else]: on a rejection, the next handler runs on the machine as it is then. *)
Definition or_else {A} (h1 h2 : ContractSM → outcome A) (sm : ContractSM) : outcome A :=
  '(sm, res) ← h1 sm;
  match res with
  | Ok a => accept sm a
  | Err _ => h2 sm
  end.

Definition process_peg_out_graph_tx_confirmation (height : BitcoinBlockHeight) (tx : Transaction)
    (sm : ContractSM) : outcome (option OperatorDuty) :=
  match cstate sm with
  | Requested _ | Deposited _ | Disproved | Resolved _ _ _ _ _ | Aborted => reject sm UnexpectedState
  | Assigned _ _ _ _ _ => process_fulfillment_confirmation height tx sm
  | Fulfilled _ _ _ _ _ => process_claim_confirmation height tx sm
  | Claimed _ _ _ _ _ _ =>
      or_else (process_challenge_confirmation tx)
        (or_else (process_optimistic_payout_confirmation tx) (process_pre_assert_confirmation tx)) sm
  | Challenged _ _ _ _ _ _ => process_pre_assert_confirmation tx sm
  | PreAssertConfirmed _ _ _ _ _ _ _ => process_assert_data_confirmation tx sm
  | AssertDataConfirmed _ _ _ _ _ => process_post_assert_confirmation tx height sm
  | Asserted _ _ _ _ _ _ =>
      or_else (process_disprove_confirmation tx) (process_defended_payout_confirmation tx) sm
  end.

(** ** Events *)

(** [.map(|x| x.into_iter().collect())]. *)
Definition collect_duty (o : outcome (option OperatorDuty)) : outcome (list OperatorDuty) :=
  p ← o; mret (p.1, match p.2 with Ok duty => Ok (opt_list duty) | Err e => Err e end).

Definition process_contract_event (multi_thread_graph_gen : bool) (ev : ContractEvent) (sm : ContractSM)
    : outcome (list OperatorDuty) :=
  match ev with
  | EvDepositSetup p2p_key btc_key stake_hash stake_txid wots_keys =>
      process_deposit_setup multi_thread_graph_gen p2p_key btc_key stake_hash stake_txid wots_keys sm
  | EvGraphNonces signer claim pubnonces => process_graph_nonces signer claim pubnonces sm
  | EvGraphSigs signer claim sigs => collect_duty (process_graph_signatures signer claim sigs sm)
  | EvAggregatedSigs agg_sigs => process_aggregate_sigs agg_sigs sm
  | EvRootNonce op nonce => collect_duty (process_root_nonce op nonce sm)
  | EvRootSig op sig => collect_duty (process_root_signature op sig sm)
  | EvDepositConfirmation tx => collect_duty (process_deposit_confirmation tx sm)
  | EvAssignment entry stake_tx l1_start_height =>
      collect_duty (process_assignment entry stake_tx l1_start_height sm)
  | EvPegOutGraphConfirmation tx height =>
      collect_duty (process_peg_out_graph_tx_confirmation height tx sm)
  | EvBlock height => collect_duty (notify_new_block height sm)
  | EvClaimFailure => collect_duty (process_claim_verification_failure sm)
  | EvAssertionFailure => collect_duty (process_assertion_verification_failure sm)
  end.

(** ** Runs of the machine *)

(** A node feeds the machine with events, with or without worker threads, and may restart from
    the persisted configuration and state. *)
Inductive Input := Feed (multi_thread_graph_gen : bool) (ev : ContractEvent) | Restart.

Definition outputs : Type := list (result TransitionErr (list OperatorDuty)).

Definition input_step (i : Input) (sm : ContractSM) : comp (ContractSM * outputs) :=
  match i with
  | Feed mt ev => p ← process_contract_event mt ev sm; mret (p.1, [p.2])
  | Restart => mret (restore (cfg sm) (mstate sm), [])
  end.

Fixpoint run (inputs : list Input) (sm : ContractSM) : comp (ContractSM * outputs) :=
  match inputs with
  | [] => mret (sm, [])
  | i :: inputs => p ← input_step i sm; q ← run inputs p.1; mret (q.1, p.2 ++ q.2)
  end.

Definition events (inputs : list Input) : list ContractEvent :=
  omap (λ i, match i with Feed _ ev => Some ev | Restart => None end) inputs.

End csm.
