(* ===== verification/ContractExample.v ===== *)
(** * A concrete bridge

    Small instances of the libraries the contract is written against, two operators, and the
    events of a deposit from the request to its resolution.  The witnesses of the contract's
    theorems run the machine on them. *)

From S2P Require Import Prelude Bitcoin OperatorTable PogMusig Wots TxTypes Taproot Deposit Predicates ContractTypes ContractSM.

Definition example_profile : BuildProfile := true.

Definition example_sighash : SighashLib := {|
  taproot_key_spend_signature_hash tx i _ _ := Some (lock_time tx + N.of_nat i)%N;
  taproot_script_spend_signature_hash tx i _ _ _ := Some (lock_time tx + N.of_nat i)%N;
|}.

(** A partial signature is valid when it is one more than the signer's nonce. *)
Definition example_musig : @Musig2Lib example_keyagg := {|
  AggNonce_sum l := foldr N.add 0%N l;
  verify_partial _ sig _ _ nonce _ := (sig =? nonce + 1)%N;
  aggregate_partial_signatures _ _ sigs _ := Some (foldr N.add 0%N sigs);
|}.

(** The same value for every input of a graph without stakes to slash. *)
Definition constant_pog {T} (x : T) : PogMusigF T :=
  mkPog x x (vreplicate _ x) (vreplicate _ x) (vreplicate _ x) x [].

(** Keys and signatures made of one number. *)
Definition example_sigs (n : N) : Groth16Sigs :=
  mkGroth16Sigs (vreplicate _ [[n]]) (vreplicate _ [[n]]) (vreplicate _ [[n]]).
Definition example_wots_keys (n : N) : PublicKeys :=
  mkPublicKeys [[n]] (mkGroth16PublicKeys (vreplicate _ [[n]]) (vreplicate _ [[n]]) (vreplicate _ [[n]])).

(** A graph is its input and deposit; the ids of its transactions follow from its stake. *)
Definition example_graph : TxGraphOps := {|
  Graph := PegOutGraphInput * Txid;
  generate i _ deposit_txid _ _ _ := Val (i, deposit_txid);
  graph_claim_txid g := (100 * op_txid (stake_outpoint g.1) + 1)%N;
  summarize g :=
    let s := op_txid (stake_outpoint g.1) in
    mkPegOutGraphSummary s (100 * s + 1) (100 * s + 2) (100 * s + 3)
      (vmap (λ k, 100 * s + 10 + N.of_nat k)%N (list_to_vec (seq 0 39))) (100 * s + 4) (100 * s + 5) [];
  musig_sighash_types _ := Val (constant_pog SighashDefault);
  musig_sighashes g := Val (constant_pog (op_txid (stake_outpoint g.1)));
  musig_inpoints g := constant_pog (stake_outpoint g.1);
  musig_witnesses _ := constant_pog Key;
  parse_witness tx := Val (match version tx with 0%N => None | v => Some [[v]] end);
  parse_witnesses txs := Val (Some (example_sigs (foldr N.add 0%N (version <$> vec_to_list txs))));
|}.

(** A transaction with a given id. *)
Definition tx_with (txid : Txid) (outs : list TxOut) : Transaction := mkTransaction 2 txid [] outs.

Definition example_deposit_tx : DepositTx :=
  mkCovenantTx
    (mkPsbt (mkTransaction 2 9 [mkTxIn (mkOutPoint 8 0) [] 0 []] [mkTxOut (10 * BTC) [5%N]])
       [mkPsbtInput None (Some SighashDefault) None])
    [mkTxOut (10 * BTC + 1000) [6%N]] [# Tweaked 77%N].

Definition example_cfg : ContractCfg :=
  mkContractCfg 1 example_table ConnectorParams_default PegOutGraphParams_default
    (mkRollupParams 20) StakeChainParams_default 0 example_deposit_tx.

(** The setup of both operators, from the exchange of keys to the deposit. *)
Definition example_setup : list ContractEvent :=
  let nonces (n : N) := replicate 51 n in
  [EvDepositSetup 10 1000 7 51 (example_wots_keys 3); EvDepositSetup 20 2000 8 52 (example_wots_keys 4);
   EvGraphNonces 10 5101 (nonces 1%N); EvGraphNonces 20 5101 (nonces 2%N);
   EvGraphNonces 10 5201 (nonces 3%N); EvGraphNonces 20 5201 (nonces 4%N);
   EvGraphSigs 10 5101 (nonces 2%N); EvGraphSigs 20 5101 (nonces 3%N);
   EvGraphSigs 10 5201 (nonces 4%N); EvGraphSigs 20 5201 (nonces 5%N);
   EvRootNonce 10 6; EvRootNonce 20 7; EvRootSig 10 7; EvRootSig 20 8;
   EvDepositConfirmation (tx_with 9 [])]%N.

Definition example_assignment (idx : OperatorIdx) : ContractEvent :=
  EvAssignment (mkDepositEntry 0 (Dispatched (mkDispatchedState idx [55%N] 500)) (Some 66%N)
      (mkOutPoint 9 0) (10 * BTC))
    (StakeHead (mkStakeTx (mkPsbt (tx_with (51 + idx) []) []) 7 [# Key; Key])) 100.

(** The fulfillment by operator [idx], and the other transactions of the graphs. *)
Definition example_fulfillment (idx : OperatorIdx) : Transaction :=
  tx_with 700 [mkTxOut 990000000 [0; 55]%N;
    mkTxOut 0 (OP_RETURN :: wm_op_return_data (mkWithdrawalMetadata BRIDGE_TAG idx 0 9))].

Definition confirm (height : N) (tx : Transaction) : ContractEvent := EvPegOutGraphConfirmation tx height.

Definition example_served (idx : OperatorIdx) : list ContractEvent :=
  example_setup ++ [example_assignment idx; confirm 110 (example_fulfillment idx);
    confirm 120 (tx_with (100 * (51 + idx) + 1) [])]%N.

Definition example_asserted (idx : OperatorIdx) : list ContractEvent :=
  let s := (100 * (51 + idx))%N in
  example_served idx
  ++ [confirm 130 (mkTransaction 2 (s + 6) [mkTxIn (mkOutPoint (s + 1) 1) [] 0 []] [mkTxOut 0 []]);
      confirm 140 (tx_with (s + 3) (replicate 40 (mkTxOut 330 [1%N])))]%N
  ++ ((λ k, confirm 150 (tx_with (s + 10 + N.of_nat k)%N [])) <$> seq 0 39)
  ++ [confirm 160 (tx_with (s + 4)%N [])].

(** The machine of the example after a run. *)
Section machine.
#[local] Existing Instances example_profile example_bitcoin example_sighash example_instructions
  example_descriptor example_keyagg example_musig example_graph.

Definition example_start : ContractSM :=
  match ContractSM_new example_cfg 90 600 with
  | Val sm => sm
  | Panic => restore example_cfg (mkMachineState 0 Aborted)
  end.

Definition example_after (inputs : list Input) : ContractSM * outputs :=
  match run inputs example_start with
  | Val p => p
  | Panic => (example_start, [])
  end.

End machine.
