(* ===== verification/GraphInstance.v ===== *)
(** * The contract on real peg-out graphs

    [ContractSM] and the files after it are verified against an interface to peg-out graphs,
    [TxGraphOps].  The graphs of [PegOutGraph] implement it, and with them the first step of
    signing, when the operators' setups are complete, is followed from the message to the duties
    it gives rise to. *)

From S2P Require Import Prelude Bitcoin OperatorTable PogMusig Wots TxTypes Taproot Deposit Predicates Connectors Script.
From S2P Require Import StakeChain ConnectorsAssert TxGraph PegOutGraph GraphSpec GraphProperties GraphFinalize.
From S2P Require Import SpendConditions DisproveScript ParseWitness ContractTypes ContractSM ContractExample.

Section instance.
Context `{BuildProfile, TaprootLaws, ConnectorLib, ScriptLib, !DustLaws, BitcoinLib, SighashLib, AssertLib, NmulLib,
  ParseLib}.

(** [summarize], for any graph; a generated one has an input to its claim. *)
Definition graph_summary (g : PegOutGraph) : PegOutGraphSummary :=
  mkPegOutGraphSummary
    (default 0%N ((λ txin, op_txid (previous_output txin)) <$> input (unsigned_tx (graph_claim g)) !! 0))
    (claim_compute_txid (pog_claim_tx g))
    (covenant_txid (payout_optimistic_tx (pog_payout_optimistic g)))
    (covenant_txid (pre_assert_tx (chain_pre_assert (pog_assert_chain g))))
    (assert_data_compute_txids (chain_assert_data (pog_assert_chain g)))
    (covenant_txid (post_assert_tx (chain_post_assert (pog_assert_chain g))))
    (covenant_txid (payout_tx (pog_payout_tx g)))
    (covenant_txid <$> pog_slash_stake_txs g).

#[global] Instance peg_out_graphs : TxGraphOps := {|
  Graph := PegOutGraph;
  generate input context deposit_txid graph_params connector_params stake_chain_params :=
    fst <$> PegOutGraph_generate input context deposit_txid graph_params connector_params stake_chain_params [];
  graph_claim_txid g := claim_compute_txid (pog_claim_tx g);
  summarize := graph_summary;
  musig_sighash_types := PegOutGraph_musig_sighash_types;
  musig_sighashes := PegOutGraph_musig_sighashes;
  musig_inpoints := PegOutGraph_musig_inpoints;
  musig_witnesses := PegOutGraph_musig_witnesses;
  parse_witness := ClaimTx_parse_witness;
  parse_witnesses := AssertDataTxBatch_parse_witnesses;
|}.

#[global] Instance peg_out_graphs_laws : TxGraphLaws.
Proof. by split. Qed.

Context `{InstructionsLib, DepositLib, DescriptorLib, Musig2Lib, !TxidLaws}.

(** The parameters of a contract for which graphs are generated. *)
Definition cfg_ok (c : ContractCfg) : Prop :=
  (N.of_nat (2 + NUM_TAPS) ≤ 2 ^ 128)%N ∧ (deposit_amount (peg_out_graph_params c) + 27060 ≤ U64_MAX)%N ∧
  ∃ ctx, tx_build_context (operator_table c) (network c) = Val ctx.

(** The cache holds graphs of the contract. *)
Definition cache_generated (c : ContractCfg) (cache : BTreeMap Txid Graph) : Prop :=
  map_Forall (λ _ g, ∃ i, build_graph c i = Val g) cache.

Lemma build_graph_spec c i : cfg_ok c →
  ∃ g, build_graph c i = Val g ∧ NoDup (Pog.pack (musig_inpoints g)) ∧
    PegOutGraph_summarize g = Val (summarize g).
Proof.
  intros (Htaps & Hamt & ctx & Ectx). unfold build_graph. rewrite Ectx. cbn [mbind comp_bind generate peg_out_graphs].
  destruct (generate_spec i ctx (covenant_txid (deposit_tx c)) (peg_out_graph_params c) (connector_params c)
    (stake_chain_params c) []) as (a3 & b1 & b0 & b3 & E & _); [done|done|by left|].
  rewrite E. eexists. split_and!; [done| |done].
  eapply musig_inpoints_distinct; [exact Htaps|exact Hamt|by left|constructor|exact E].
Qed.

Lemma cached_graph_generated c cache i : cfg_ok c → cache_generated c cache →
  ∃ cache' g, cached_graph c cache i = Val (cache', g) ∧ cache_generated c cache' ∧ ∃ i', build_graph c i' = Val g.
Proof.
  intros Hc Hcache. unfold cached_graph. destruct (cache !! _) as [g|] eqn:E.
  - exists cache, g. split_and!; [done|done|]. by apply (map_Forall_lookup_1 _ _ _ _ Hcache) in E.
  - destruct (build_graph_spec c i Hc) as (g & Eg & _). rewrite Eg. eexists _, g. split_and!; [done| |eauto].
    apply map_Forall_insert_2; [eauto|done].
Qed.

Lemma setup_fold c l cache acc : cfg_ok c → cache_generated c cache →
  Forall (λ sg, ∃ i, build_graph c i = Val sg.2) acc →
  ∃ cache' graphs, foldlM (λ '(cache, graphs) '(signer, i),
      '(cache, g) ← cached_graph c cache i;
      mret (cache, graphs ++ [(signer, g)])) (cache, acc) l = Val (cache', graphs) ∧
    cache_generated c cache' ∧ Forall (λ sg : P2POperatorPubKey * Graph, ∃ i, build_graph c i = Val sg.2) graphs.
Proof.
  intros Hc. revert cache acc. induction l as [|[signer i] l IH]; intros cache acc Hcache Hacc; [by exists cache, acc|].
  destruct (cached_graph_generated c cache i Hc Hcache) as (cache' & g & E & Hcache' & Hg).
  cbn [foldlM]. rewrite E. cbn [mbind comp_bind mret comp_ret].
  apply IH; [done|]. apply Forall_app. by split; [|constructor].
Qed.

Lemma setup_graphs_generated mt c cache inputs : cfg_ok c → cache_generated c cache →
  ∃ cache' graphs, setup_graphs mt c cache inputs = Val (cache', graphs) ∧ cache_generated c cache' ∧
    Forall (λ sg, ∃ i, build_graph c i = Val sg.2) graphs.
Proof.
  intros Hc Hcache. unfold setup_graphs. generalize (bt_iter inputs) as l. intros l. destruct mt.
  - assert (∃ graphs, mapM (λ '(signer, i), g ← build_graph c i; mret (signer, g)) l = Val graphs ∧
      Forall (λ sg, ∃ i, build_graph c i = Val sg.2) graphs) as (graphs & -> & Hg); [|by exists cache, graphs].
    induction l as [|[signer i] l (graphs & E & IH)]; [by exists []|].
    destruct (build_graph_spec c i Hc) as (g & Eg & _). exists ((signer, g) :: graphs).
    cbn [mapM]. rewrite Eg. cbn [mbind comp_bind mret comp_ret]. rewrite E. split; [done|]. constructor; [by exists i|done].
  - apply setup_fold; [done|done|constructor].
Qed.

(** C24: From an operator's setup to the duties of signing.  On real graphs, whatever setup message a
    contract receives and in whatever state, with or without worker threads, it never panics;
    its cache holds graphs of the contract only, as before; and every duty that it returns asks
    for nonces for a graph of the contract, with the claim that identifies it in the summaries,
    and with an outpoint of its own for each input to sign. *)
Theorem deposit_setup_graphs mt signer operator_pubkey stake_hash stake_txid wots_keys sm :
  cfg_ok (cfg sm) → cache_generated (cfg sm) (pog sm) →
  ∃ sm' res, process_deposit_setup mt signer operator_pubkey stake_hash stake_txid wots_keys sm = Val (sm', res) ∧
    cfg sm' = cfg sm ∧ cache_generated (cfg sm) (pog sm') ∧
    ∀ duties d, res = Ok duties → d ∈ duties → ∃ i g summary, build_graph (cfg sm) i = Val g ∧
      PegOutGraph_summarize g = Val summary ∧
      d = PublishGraphNonces (claim_txid summary) (PegOutGraph_musig_inpoints g) (PegOutGraph_musig_witnesses g) None ∧
      NoDup (Pog.pack (PegOutGraph_musig_inpoints g)).
Proof.
  intros Hc Hcache. unfold process_deposit_setup. destruct (state (mstate sm)) as [r| | | | | | | | | | |] eqn:Es;
    try (eexists _, _; split_and!; [done|done|done|]; intros duties d Hd Hin; simplify_eq/=; by apply elem_of_nil in Hin).
  case_bool_decide.
  { eexists _, _; split_and!; [done|done|done|]; intros duties d Hd Hin; simplify_eq/=; by apply elem_of_nil in Hin. }
  set (inputs := <[signer := _]> _).
  destruct (setup_graphs_generated mt (cfg sm) (pog sm) inputs Hc Hcache) as (cache' & graphs & E & Hcache' & Hg).
  rewrite E. eexists _, _. split_and!; [done|done|done|]. intros duties d Hd Hin. simplify_eq/=.
  apply list_elem_of_fmap in Hin as ([s g] & -> & Hin). rewrite Forall_forall in Hg.
  destruct (Hg _ Hin) as [i Ei]. destruct (build_graph_spec (cfg sm) i Hc) as (g' & Eg & Hnd & Hs).
  rewrite Ei in Eg. injection Eg as <-. by exists i, g, (graph_summary g).
Qed.

End instance.

(** ** Witnesses *)

(** Transaction ids that name all of a transaction but its witnesses. *)
Definition example_hashes : BitcoinLib := {|
  compute_txid t := Npos (encode (version t, lock_time t,
    (λ i, (op_txid (previous_output i), op_vout (previous_output i), script_sig i, sequence i)) <$> input t,
    (λ o, (value o, script_pubkey o)) <$> output t));
  block_hash b := header_rest b;
  bip34_block_height b := Some (header_rest b);
|}.

#[global] Instance example_hashes_laws : @TxidLaws example_hashes.
Proof.
  split. intros [v l i o] [v' l' i' o'] E. cbn in E. injection E as E%encode_inj. injection E as -> -> Ei Eo.
  unfold without_witnesses. cbn. f_equal.
  - revert i' Ei. induction i as [|x i IH]; intros [|x' i'] Ei; try done. cbn in Ei |- *.
    injection Ei as E1 E2 E3 E4 Ei. rewrite (IH _ Ei). destruct x as [[] ? ? ?], x' as [[] ? ? ?]. cbn in *. by simplify_eq.
  - revert o' Eo. induction o as [|x o IH]; intros [|x' o'] Eo; try done. cbn in Eo |- *.
    injection Eo as E1 E2 Eo. rewrite (IH _ Eo). destruct x, x'. cbn in *. by simplify_eq.
Qed.

Section witness.
#[local] Existing Instances example_taproot example_digit_connectors example_dust example_hashes example_digit_assert
  example_assert_nmul example_profile example_parse example_sighash example_instructions example_descriptor
  example_keyagg example_musig example_deposit.

(** A contract that has the setup of one of two operators. *)
Definition example_half_setup : ContractSM :=
  restore example_cfg (mkMachineState 90 (Requested (set_inputs
    (mkRequested 8 600 ∅ ∅ ∅ ∅ ∅ ∅ ∅ ∅ ∅)
    {[10%N := upsert_input None 1000 7 51 (example_wots_keys 3)]}))).

Lemma deposit_setup_graphs_witness :
  ∃ sm' res, process_deposit_setup true 20 2000 8 52 (example_wots_keys 4) example_half_setup = Val (sm', res) ∧
    cfg sm' = cfg example_half_setup.
Proof.
  destruct (deposit_setup_graphs true 20 2000 8 52 (example_wots_keys 4) example_half_setup)
    as (sm' & res & E & Hcfg & _).
  - split; [done|]. split; [done|]. eexists. vm_compute. reflexivity.
  - apply map_Forall_empty.
  - exists sm', res. split; [exact E|exact Hcfg].
Defined.

End witness.
