(* ===== verification/Persistence.v ===== *)
(** * Persistence ([duty-tracker/src/contract_persister.rs] and [stake_chain_persister.rs])

    The contracts and the stake chains of all operators are written to the database as they
    change and loaded from it after a restart.  [bincode] and [serde_json], which encode what the
    rows hold, are parameters.

    The theorems: loading gives back every contract exactly once, in the state it was last
    committed in, also when it was committed under the id of another transaction than its deposit
    ([contracts_load_latest]); the stake chains load back as they were committed
    ([stake_chains_load_back]), unless the data of a stake changed after it had first been
    committed ([changed_stake_data_not_committed]). *)

From S2P Require Import Prelude Bitcoin OperatorTable PogMusig Wots TxTypes Taproot Deposit Predicates Connectors.
From S2P Require Import StakeChain ContractTypes Database StakeChainSM ContractSM ContractExample.

(** ** Contracts *)

Inductive ContractPersistErr := PersistUnexpected.

(** The encodings, which are opaque to the database. *)
Class SerdeLib := {
  deposit_tx_bytes : Type;
  operator_table_bytes : Type;
  state_json : Type;
  serialize_deposit_tx : DepositTx → result ContractPersistErr deposit_tx_bytes;
  deserialize_deposit_tx : deposit_tx_bytes → result ContractPersistErr DepositTx;
  serialize_table : OperatorTable → result ContractPersistErr operator_table_bytes;
  deserialize_table : operator_table_bytes → result ContractPersistErr OperatorTable;
  serialize_state : MachineState → result ContractPersistErr state_json;
  deserialize_state : state_json → result ContractPersistErr MachineState;
}.

(** What was encoded is decoded. *)
Class SerdeLaws `{SerdeLib} : Prop := {
  deposit_tx_serde : ∀ x b, serialize_deposit_tx x = Ok b → deserialize_deposit_tx b = Ok x;
  table_serde : ∀ x b, serialize_table x = Ok b → deserialize_table b = Ok x;
  state_serde : ∀ x b, serialize_state x = Ok b → deserialize_state b = Ok x;
}.

(** The table [contracts]: [deposit_txid] is the primary key and [deposit_idx] is unique. *)
Record ContractRow `{SerdeLib} := mkContractRow {
  row_deposit_txid : Txid;
  row_deposit_idx : N;
  row_deposit_tx : deposit_tx_bytes;
  row_operator_table : operator_table_bytes;
  row_state : state_json;
}.

Definition conflicts `{SerdeLib} (r r' : ContractRow) : Prop :=
  row_deposit_txid r = row_deposit_txid r' ∨ row_deposit_idx r = row_deposit_idx r'.
#[global] Instance conflicts_dec `{SerdeLib} r r' : Decision (conflicts r r').
Proof. unfold conflicts. apply _. Defined.

Definition insert_contract `{SerdeLib} (rows : list ContractRow) (r : ContractRow) : list ContractRow :=
  filter (λ r', ¬ conflicts r r') rows ++ [r].

Definition persist_err {A} (r : result DbError A) : result ContractPersistErr A :=
  match r with Ok a => Ok a | Err _ => Err PersistUnexpected end.

(** An error of the decoding, inside the closure that is retried. *)
Definition storage_err {A} (r : result ContractPersistErr A) : result DbError A :=
  match r with Ok a => Ok a | Err _ => Err (StorageErr InvalidData) end.

Section contracts.
Context `{SerdeLib, BitcoinLib, TxGraphOps}.
Abbreviation persister := (Pool (list ContractRow)).
Abbreviation persist_op A := (persister → persister * result ContractPersistErr A).

Definition encode_row (txid : Txid) (idx : N) (deposit_tx : DepositTx) (table : OperatorTable) (state : MachineState)
    : result ContractPersistErr ContractRow :=
  deposit_tx_bytes ← serialize_deposit_tx deposit_tx;
  operator_table_bytes ← serialize_table table;
  state_json ← serialize_state state;
  Ok (mkContractRow _ txid idx deposit_tx_bytes operator_table_bytes state_json).

(** A plain [INSERT], which fails when a constraint forbids the row. *)
Definition persister_init (c : ContractCfg) (state : MachineState) : persist_op unit := λ p,
  match encode_row (covenant_txid (deposit_tx c)) (deposit_idx c) (deposit_tx c) (operator_table c) state with
  | Err e => (p, Err e)
  | Ok row =>
      let '(p, r) := execute_with_retries (λ rows,
        if bool_decide (Exists (conflicts row) rows) then (rows, Err (StorageErr Driver))
        else (rows ++ [row], Ok tt)) p in
      (p, persist_err r)
  end.

Definition commit (deposit_txid : Txid) (deposit_idx : N) (deposit_tx : DepositTx) (table : OperatorTable)
    (state : MachineState) : persist_op unit := λ p,
  match encode_row deposit_txid deposit_idx deposit_tx table state with
  | Err e => (p, Err e)
  | Ok row => let '(p, r) := executes (λ rows, insert_contract rows row) p in (p, persist_err r)
  end.

Definition encode_contract (contract : Txid * ContractSM) : result ContractPersistErr ContractRow :=
  let c := cfg contract.2 in
  encode_row contract.1 (deposit_idx c) (deposit_tx c) (operator_table c) (mstate contract.2).

Definition commit_all (active_contracts : list (Txid * ContractSM)) : persist_op unit := λ p,
  match mapM encode_contract active_contracts with
  | Err e => (p, Err e)
  | Ok [] => (p, Ok tt)
  | Ok contracts_data =>
      let '(p, r) := executes (λ rows, foldl insert_contract rows contracts_data) p in (p, persist_err r)
  end.

Section load.
Variables (network : Network) (connector_params : ConnectorParams) (peg_out_graph_params : PegOutGraphParams)
  (sidesystem_params : RollupParams) (stake_chain_params : StakeChainParams).

Definition decode_row (row : ContractRow) : result ContractPersistErr (ContractCfg * MachineState) :=
  deposit_tx ← deserialize_deposit_tx (row_deposit_tx row);
  operator_table ← deserialize_table (row_operator_table row);
  state ← deserialize_state (row_state row);
  Ok (mkContractCfg network operator_table connector_params peg_out_graph_params sidesystem_params
        stake_chain_params (row_deposit_idx row) deposit_tx, state).

(** [fetch_one] is an error when there is no row. *)
Definition load (deposit_txid : Txid) : persist_op (ContractCfg * MachineState) := λ p,
  let '(p, r) := execute_with_retries (λ rows, (rows,
    match filter (λ row, row_deposit_txid row = deposit_txid) rows with
    | [] => Err (StorageErr Driver)
    | row :: _ => storage_err (decode_row row)
    end)) p in
  (p, persist_err r).

Definition load_all : persist_op (list (ContractCfg * MachineState)) := λ p,
  let '(p, r) := execute_with_retries (λ rows, (rows, storage_err (mapM decode_row rows))) p in
  (p, persist_err r).

End load.
End contracts.

(** ** Stake chains *)

Section stakes.
Context {S : Type} `{StakesDb S}.

Definition commit_prestake (operator_id : OperatorIdx) (prestake : OutPoint) : db_op S unit :=
  set_pre_stake operator_id prestake.

(** The [expect] panics for a key that is not in the table. *)
Definition commit_stake_data (table : OperatorTable) (state : BTreeMap P2POperatorPubKey StakeChainInputs) (s : S)
    : comp (S * result DbError unit) :=
  match convert_map_p2p_to_idx table state with
  | Err _ => Panic
  | Ok op_id_and_chain_inputs =>
      let stake_chain_data := mjoin ((λ '(operator_id, chain_inputs),
        (λ '(stake_index, stake_input), (operator_id, stake_index, stake_input)) <$> bt_iter (stake_inputs chain_inputs))
        <$> bt_iter op_id_and_chain_inputs) in
      Val (add_all_stake_data stake_chain_data s)
  end.

Fixpoint load_operators (table : OperatorTable) (operator_ids : list OperatorIdx)
    (stake_chain_inputs : BTreeMap P2POperatorPubKey StakeChainInputs)
    : db_op S (BTreeMap P2POperatorPubKey StakeChainInputs) := λ s,
  match operator_ids with
  | [] => (s, Ok stake_chain_inputs)
  | operator_id :: operator_ids =>
      match get_all_stake_data operator_id s with
      | (s, Err e) => (s, Err e)
      | (s, Ok stake_inputs) =>
          match get_pre_stake operator_id s with
          | (s, Err e) => (s, Err e)
          | (s, Ok pre_stake_outpoint) =>
              match pre_stake_outpoint, idx_to_p2p_key table operator_id with
              | Some pre_stake_outpoint, Some p2p_key =>
                  load_operators table operator_ids
                    (<[p2p_key := mkStakeChainInputs stake_inputs pre_stake_outpoint]> stake_chain_inputs) s
              | _, _ => load_operators table operator_ids stake_chain_inputs s
              end
          end
      end
  end.

Definition load_stake_chains (table : OperatorTable) : db_op S (BTreeMap P2POperatorPubKey StakeChainInputs) :=
  load_operators table (elements (operator_idxs table)) ∅.

End stakes.

(** ** Properties of the contracts *)

(** A history of commits, one by one or of all contracts at once. *)
Inductive PersistCall `{TxGraphOps} :=
| Commit (key : Txid) (sm : ContractSM)
| CommitAll (contracts : list (Txid * ContractSM)).

Definition committed `{TxGraphOps} (call : PersistCall) : list (Txid * ContractSM) :=
  match call with Commit key sm => [(key, sm)] | CommitAll contracts => contracts end.

(** The last of the entries with this index. *)
Definition latest `{TxGraphOps} (idx : N) (history : list (Txid * ContractSM)) : option ContractSM :=
  snd <$> last (filter (λ entry : Txid * ContractSM, deposit_idx (cfg entry.2) = idx) history).

Section contract_properties.
Context `{SerdeLaws, BitcoinLib, TxGraphOps}.

Definition persist_call (p : Pool (list ContractRow)) (call : PersistCall) : Pool (list ContractRow) :=
  match call with
  | Commit key sm =>
      let c := cfg sm in (commit key (deposit_idx c) (deposit_tx c) (operator_table c) (mstate sm) p).1
  | CommitAll contracts => (commit_all contracts p).1
  end.

Lemma elem_of_inserted (rs : list ContractRow) :
  (∀ r r', r ∈ rs → r' ∈ rs → row_deposit_txid r = row_deposit_txid r' → row_deposit_idx r = row_deposit_idx r') →
  let rows := foldl insert_contract [] rs in
  NoDup (row_deposit_idx <$> rows) ∧
  ∀ r, r ∈ rows ↔ last (filter (λ r', row_deposit_idx r' = row_deposit_idx r) rs) = Some r.
Proof.
  intros Hkeys. induction rs as [|x rs IH] using rev_ind.
  - cbn. split; [constructor|]. intros r. rewrite elem_of_nil. naive_solver.
  - destruct IH as [Hnd Hin].
    { intros r r' Hr Hr'. apply Hkeys; apply elem_of_app; by left. }
    assert (∀ r, r ∈ foldl insert_contract [] rs → conflicts x r ↔ row_deposit_idx x = row_deposit_idx r) as Hconf.
    { intros r Hr%Hin. unfold conflicts. split; [intros [Ht|]; [|done]|by right].
      apply last_Some_elem_of, list_elem_of_filter in Hr as [_ Hr].
      apply Hkeys; [..|done]; apply elem_of_app; [right; by apply list_elem_of_singleton|by left]. }
    intros rows.
    assert (rows = filter (λ r', ¬ conflicts x r') (foldl insert_contract [] rs) ++ [x]) as ->
      by (unfold rows; by rewrite foldl_snoc).
    split.
    + rewrite fmap_app. cbn. apply NoDup_app. split_and!; [|intros i (r & -> & Hr)%list_elem_of_fmap Hi|apply NoDup_singleton].
      * eapply sublist_NoDup; [exact Hnd|]. apply fmap_sublist, sublist_filter.
      * apply list_elem_of_singleton in Hi. apply list_elem_of_filter in Hr as [Hn Hr].
        apply Hn, Hconf; [done|]. done.
    + intros r. rewrite elem_of_app, list_elem_of_filter, list_elem_of_singleton, filter_app, filter_cons.
      destruct (decide (row_deposit_idx x = row_deposit_idx r)) as [Hi|Hi].
      * change (filter _ []) with (@nil ContractRow). rewrite last_snoc. split; [intros [[Hn Hr]|Hr]|intros [= ->]; by right]; [|by subst].
        destruct Hn. by apply Hconf.
      * change (filter _ []) with (@nil ContractRow). rewrite app_nil_r, <- Hin. split; [|intros Hr; left; split; [|done]; by rewrite Hconf].
        intros [[_ Hr]| ->]; done.
Qed.

Definition cfg_params (c : ContractCfg) :=
  (network c, connector_params c, peg_out_graph_params c, sidesystem_params c, stake_chain_params c).

Lemma encode_contract_spec e r :
  encode_contract e = Ok r →
  row_deposit_txid r = e.1 ∧ row_deposit_idx r = deposit_idx (cfg e.2) ∧
  ∀ n cp gp sp scp, cfg_params (cfg e.2) = (n, cp, gp, sp, scp) →
    decode_row n cp gp sp scp r = Ok (cfg e.2, mstate e.2).
Proof.
  unfold encode_contract, encode_row. destruct e as [key [c s pg]]. cbn [fst snd cfg mstate].
  destruct (serialize_deposit_tx (deposit_tx c)) as [b1|] eqn:E1; [|done].
  destruct (serialize_table (operator_table c)) as [b2|] eqn:E2; [|done].
  destruct (serialize_state s) as [b3|] eqn:E3; [|done]. intros [= <-]. split_and!; [done..|].
  intros n cp gp sp scp Hp. unfold decode_row. cbn [row_deposit_tx row_operator_table row_state row_deposit_idx].
  rewrite (deposit_tx_serde _ _ E1), (table_serde _ _ E2), (state_serde _ _ E3).
  destruct c. unfold cfg_params in Hp. cbn in *. by injection Hp as -> -> -> -> ->.
Qed.

Lemma mapM_Ok_Forall2 {A B} (f : A → result ContractPersistErr B) l :
  Forall (λ a, is_ok (f a) = true) l → ∃ k, mapM f l = Ok k ∧ Forall2 (λ a b, f a = Ok b) l k.
Proof.
  induction 1 as [|x l Hx _ (k & E & Hk)]; [by exists []|]. destruct (f x) as [b|] eqn:Ex; [|done].
  exists (b :: k). split; [|by constructor]. cbn. rewrite Ex. cbn. fold (mapM f l). by rewrite E.
Qed.

Lemma Forall2_mapM_Ok {A B} (f : A → result ContractPersistErr B) l k :
  Forall2 (λ a b, f a = Ok b) l k → mapM f l = Ok k.
Proof. induction 1 as [|a b l k E _ IH]; [done|]. cbn. rewrite E. cbn. fold (mapM f l). by rewrite IH. Qed.

Lemma mapM_Ok_inv {A B} (f : A → result ContractPersistErr B) l k :
  mapM f l = Ok k → Forall2 (λ a b, f a = Ok b) l k.
Proof.
  revert k. induction l as [|a l IH]; intros k; [by intros [= <-]|]. cbn. fold (mapM f l).
  destruct (f a) as [b|] eqn:Ea; [|done]. cbn. destruct (mapM f l) as [k'|]; [|done]. intros [= <-].
  constructor; [done|by apply IH].
Qed.

Lemma persist_history c calls rows rs :
  mapM encode_contract (mjoin (committed <$> calls)) = Ok rs →
  foldl persist_call (mkPool c rows []) calls = mkPool c (foldl insert_contract rows rs) [].
Proof.
  revert rows rs. induction calls as [|call calls IH]; intros rows rs E; [by injection E as <-|].
  cbn [foldl]. change (mjoin (committed <$> call :: calls)) with (committed call ++ mjoin (committed <$> calls)) in E.
  assert (∃ r1 r2, mapM encode_contract (committed call) = Ok r1 ∧
    mapM encode_contract (mjoin (committed <$> calls)) = Ok r2 ∧ rs = r1 ++ r2) as (r1 & r2 & E1 & E2 & ->).
  { revert rs E. generalize (mjoin (committed <$> calls)) as l'. induction (committed call) as [|x l IHl]; intros l' rs E.
    - by exists [], rs.
    - cbn in E. destruct (encode_contract x) as [b|] eqn:Ex; [|done]. cbn in E. fold (mapM encode_contract (l ++ l')) in E.
      destruct (mapM encode_contract (l ++ l')) as [k|] eqn:Ek; [|done]. injection E as <-.
      destruct (IHl l' k Ek) as (r1 & r2 & E1 & E2 & ->). exists (b :: r1), r2. split_and!; [|done|done].
      cbn. rewrite Ex. cbn. fold (mapM encode_contract l). by rewrite E1. }
  rewrite foldl_app. rewrite <- (IH _ _ E2). f_equal. destruct call as [key sm|contracts]; cbn [persist_call committed] in *.
  - cbn in E1. unfold commit. change (encode_row key _ _ _ _) with (encode_contract (key, sm)).
    destruct (encode_contract (key, sm)) as [r|]; [|done]. injection E1 as <-. by rewrite executes_no_faults.
  - unfold commit_all. rewrite E1. destruct r1; [done|]. by rewrite executes_no_faults.
Qed.

(** The rows that are loaded, for the entries they encode. *)
Lemma last_filter_Forall2 {A B} (R : A → B → Prop) (P : A → Prop) (Q : B → Prop)
    `{∀ a, Decision (P a), ∀ b, Decision (Q b)} l k :
  Forall2 R l k → (∀ a b, R a b → P a ↔ Q b) →
  match last (filter P l), last (filter Q k) with Some a, Some b => R a b | None, None => True | _, _ => False end.
Proof.
  intros Hl Hpq. revert k Hl. induction l as [|a l IH] using rev_ind; intros k' Hl.
  { apply Forall2_nil_inv_l in Hl as ->. done. }
  apply Forall2_app_inv_l in Hl as (k & kb & Hk & Hab & ->). specialize (IH k Hk).
  apply Forall2_cons_inv_l in Hab as (b & kb' & Hab & Hnil & ->). apply Forall2_nil_inv_l in Hnil as ->.
  rewrite !filter_app, !filter_cons. change (filter P []) with (@nil A). change (filter Q []) with (@nil B).
  destruct (decide (P a)) as [Hp|Hp]; [rewrite (decide_True (P := Q b)) by (by apply (Hpq a b))
    |rewrite (decide_False (P := Q b)) by (by rewrite <- (Hpq a b))].
  - by rewrite !last_snoc.
  - by rewrite !app_nil_r.
Qed.

Lemma latest_rows history rs idx :
  Forall2 (λ e r, encode_contract e = Ok r) history rs →
  let entry := last (filter (λ e : Txid * ContractSM, deposit_idx (cfg e.2) = idx) history) in
  let row := last (filter (λ r, row_deposit_idx r = idx) rs) in
  (∀ e, entry = Some e → e ∈ history ∧ ∃ r, row = Some r ∧ encode_contract e = Ok r) ∧
  (∀ r, row = Some r → ∃ e, entry = Some e ∧ e ∈ history ∧ encode_contract e = Ok r).
Proof.
  intros Hrs entry row.
  pose proof (last_filter_Forall2 _ (λ e, deposit_idx (cfg e.2) = idx) (λ r, row_deposit_idx r = idx) _ _ Hrs) as Hlast.
  fold entry row in Hlast.
  assert (∀ e, entry = Some e → e ∈ history) as Hin.
  { intros e He. by apply last_Some_elem_of, list_elem_of_filter in He as [_ He]. }
  destruct entry as [e|], row as [r|]; try (destruct Hlast; intros ? ? E; by destruct (encode_contract_spec _ _ E) as (_ & -> & _)).
  - split; [intros e' [= <-]|intros r' [= <-]]; specialize (Hin e eq_refl).
    + split; [done|]. exists r. split; [done|]. apply Hlast. intros ? ? E. by destruct (encode_contract_spec _ _ E) as (_ & -> & _).
    + exists e. split_and!; [done|done|]. apply Hlast. intros ? ? E. by destruct (encode_contract_spec _ _ E) as (_ & -> & _).
  - split; done.
Qed.

Lemma decode_row_idx n cp gp sp scp r cs :
  decode_row n cp gp sp scp r = Ok cs → row_deposit_idx r = deposit_idx cs.1.
Proof.
  unfold decode_row. destruct (deserialize_deposit_tx _); [|done]. destruct (deserialize_table _); [|done].
  destruct (deserialize_state _); [|done]. by intros [= <-].
Qed.

(** The table after a history of commits: a row for each index, that of its last entry. *)
Lemma history_rows c calls :
  let history := mjoin (committed <$> calls) in
  Forall (λ e, is_ok (encode_contract e) = true) history →
  (∀ e e', e ∈ history → e' ∈ history → e.1 = e'.1 → deposit_idx (cfg e.2) = deposit_idx (cfg e'.2)) →
  ∃ rows, foldl persist_call (mkPool c [] []) calls = mkPool c rows [] ∧ NoDup (row_deposit_idx <$> rows) ∧
    ∀ r, r ∈ rows ↔ ∃ e, last (filter (λ e : Txid * ContractSM, deposit_idx (cfg e.2) = row_deposit_idx r) history)
      = Some e ∧ e ∈ history ∧ encode_contract e = Ok r.
Proof.
  intros history Henc Hkeys. destruct (mapM_Ok_Forall2 _ _ Henc) as (rs & Ers & Hrs).
  fold history in Ers. exists (foldl insert_contract [] rs). split; [by apply persist_history|].
  assert (∀ r, r ∈ rs → ∃ e, e ∈ history ∧ encode_contract e = Ok r) as Hfrom.
  { intros r [i Hi]%list_elem_of_lookup. destruct (Forall2_lookup_r _ _ _ _ _ Hrs Hi) as (e & He & E).
    exists e. split; [by eapply list_elem_of_lookup_2|done]. }
  destruct (elem_of_inserted rs) as [Hnd Hin].
  { intros r r' (e & He & E)%Hfrom (e' & He' & E')%Hfrom.
    destruct (encode_contract_spec _ _ E) as (-> & -> & _), (encode_contract_spec _ _ E') as (-> & -> & _). by apply Hkeys. }
  split; [done|]. intros r. rewrite Hin. destruct (latest_rows history rs (row_deposit_idx r) Hrs) as [Hto Hback].
  split; [apply Hback|]. intros (e & He & _ & E). destruct (Hto e He) as (_ & r' & Hr & E'). congruence.
Qed.

(** What a history of commits loads as. *)
Lemma load_all_latest c calls n cp gp sp scp :
  let history := mjoin (committed <$> calls) in
  Forall (λ e, is_ok (encode_contract e) = true) history →
  (∀ e e', e ∈ history → e' ∈ history → e.1 = e'.1 → deposit_idx (cfg e.2) = deposit_idx (cfg e'.2)) →
  Forall (λ e, cfg_params (cfg e.2) = (n, cp, gp, sp, scp)) history →
  ∃ l, (load_all n cp gp sp scp (foldl persist_call (mkPool c [] []) calls)).2 = Ok l ∧
    NoDup ((λ cs, deposit_idx cs.1) <$> l) ∧
    ∀ cs, cs ∈ l ↔ ∃ sm, latest (deposit_idx cs.1) history = Some sm ∧ cs = (cfg sm, mstate sm).
Proof.
  intros history Henc Hkeys Hparams. destruct (history_rows c calls Henc Hkeys) as (rows & -> & Hnd & Hin).
  fold history in Hin. assert (∀ e, e ∈ history → ∀ r, encode_contract e = Ok r →
    row_deposit_idx r = deposit_idx (cfg e.2) ∧ decode_row n cp gp sp scp r = Ok (cfg e.2, mstate e.2)) as Hdec.
  { intros e He r E. destruct (encode_contract_spec _ _ E) as (_ & Hi & Hd). split; [done|]. apply Hd.
    by apply (proj1 (Forall_forall _ _) Hparams). }
  destruct (mapM_Ok_Forall2 (decode_row n cp gp sp scp) rows) as (l & El & Hl).
  { apply Forall_forall. intros r (e & _ & He & E)%Hin. by destruct (Hdec e He r E) as [_ ->]. }
  exists l. split; [|split].
  - unfold load_all. by erewrite execute_no_faults by (by rewrite El).
  - replace ((λ cs, deposit_idx cs.1) <$> l) with (row_deposit_idx <$> rows); [done|].
    apply list_eq_Forall2, Forall2_fmap. eapply Forall2_impl; [exact Hl|]. intros r cs Hr. by rewrite (decode_row_idx _ _ _ _ _ _ _ Hr).
  - intros cs. unfold latest. split.
    + intros [i Hi]%list_elem_of_lookup. destruct (Forall2_lookup_r _ _ _ _ _ Hl Hi) as (r & Hr & Ed).
      apply list_elem_of_lookup_2, Hin in Hr as (e & He' & He & E). rewrite (decode_row_idx _ _ _ _ _ _ _ Ed) in He'.
      rewrite He'. exists e.2. split; [done|]. destruct (Hdec e He r E) as [_ Ed']. congruence.
    + intros (sm & (e & He & ->)%fmap_Some & ->). cbn [fst] in He.
      assert (e ∈ history) as Hein by (by apply last_Some_elem_of, list_elem_of_filter in He as [_ He]).
      assert (is_ok (encode_contract e) = true) as Hok by (by apply (proj1 (Forall_forall _ _) Henc)).
      destruct (encode_contract e) as [r|] eqn:E; [|done]. destruct (Hdec e Hein r E) as [Hi Hd].
      assert (r ∈ rows) as Hr by (apply Hin; exists e; by rewrite Hi).
      apply list_elem_of_lookup in Hr as [i Hi']. destruct (Forall2_lookup_l _ _ _ _ _ Hl Hi') as (cs & Hcs & Hd').
      rewrite Hd in Hd'. injection Hd' as <-. by eapply list_elem_of_lookup_2.
Qed.

(** Loading gives back what was committed last.  After any history of commits, of single
    contracts or of all of them, in any order and under any keys, as long as no key is used for
    two indices, loading succeeds and returns for each deposit index that occurs the configuration
    and the state of its last commit, exactly once. *)
Theorem contracts_load_latest c calls n cp gp sp scp :
  let history := mjoin (committed <$> calls) in
  Forall (λ e, is_ok (encode_contract e) = true) history →
  (∀ e e', e ∈ history → e' ∈ history → e.1 = e'.1 → deposit_idx (cfg e.2) = deposit_idx (cfg e'.2)) →
  Forall (λ e, cfg_params (cfg e.2) = (n, cp, gp, sp, scp)) history →
  ∃ l, (load_all n cp gp sp scp (foldl persist_call (mkPool c [] []) calls)).2 = Ok l ∧
    NoDup ((λ cs, deposit_idx cs.1) <$> l) ∧
    ∀ cs, cs ∈ l ↔ ∃ sm, latest (deposit_idx cs.1) history = Some sm ∧ cs = (cfg sm, mstate sm).
Proof. apply load_all_latest. Qed.

End contract_properties.

(** ** Properties of the stake chains *)

Lemma select_key_functional {K V} `{EqDecision K} (k : K) (v : V) t :
  (∀ v', (k, v') ∈ t → v' = v) → (k, v) ∈ t → select_key k t = Some v.
Proof.
  intros Hf. induction t as [|[k' v'] t IH]; [by intros ?%elem_of_nil|].
  rewrite elem_of_cons. intros Hin. cbn. case_decide as Hk; [subst; f_equal; apply Hf; by left|].
  apply IH; [intros v'' Hv; apply Hf; by right|]. destruct Hin as [[= ? ?]|]; [congruence|done].
Qed.

(** The rows after a dump: the old ones, and the new ones for other keys. *)
Lemma select_dump k data t :
  let t' := foldl (λ t '(o, stake_index, data), insert_stake_data o stake_index data t) t data in
  operator_pre_stake_data t' = operator_pre_stake_data t ∧
  (NoDup (operator_stake_data t).*1 → NoDup (operator_stake_data t').*1) ∧
  select_key k (operator_stake_data t')
    = match select_key k (operator_stake_data t) with
      | Some d => Some d
      | None => DbStakeTxData_new <$> select_key k data
      end.
Proof.
  revert t. induction data as [|[[o i] d] data IH]; intros t t'.
  - unfold t'. cbn. split_and!; [done..|]. by destruct (select_key k _).
  - destruct (IH (insert_stake_data o i d t)) as (Hp & Hn & Hs). unfold t'. cbn [foldl]. split_and!.
    + by rewrite Hp.
    + intros Hnd. apply Hn. by apply insert_or_ignore_NoDup.
    + rewrite Hs. cbn [insert_stake_data operator_stake_data]. rewrite select_insert_or_ignore.
      destruct (select_key k (operator_stake_data t)); [done|]. cbn. repeat case_decide; congruence || done.
Qed.

(** The dump of the inputs of all operators. *)
Lemma select_flattened (m : BTreeMap OperatorIdx StakeChainInputs) o i :
  select_key (o, i) (mjoin ((λ '(operator_id, chain_inputs),
    (λ '(stake_index, stake_input), (operator_id, stake_index, stake_input)) <$> bt_iter (stake_inputs chain_inputs))
    <$> bt_iter m)) = m !! o ≫= λ inputs, stake_inputs inputs !! i.
Proof.
  set (l := mjoin _).
  assert (∀ d, ((o, i), d) ∈ l ↔ (m !! o ≫= λ inputs, stake_inputs inputs !! i) = Some d) as Hin.
  { intros d. unfold l. rewrite list_elem_of_join. rewrite bind_Some. split.
    - intros (l' & Hl & ([o' inputs] & -> & Ho)%list_elem_of_fmap).
      apply list_elem_of_fmap in Hl as ([i' d'] & [= -> -> ->] & Hd). exists inputs.
      split; by apply elem_of_bt_iter.
    - intros (inputs & Ho & Hd). eexists. split; [|apply list_elem_of_fmap; exists (o, inputs); split; [done|by apply elem_of_bt_iter]].
      apply list_elem_of_fmap. exists (i, d). split; [done|]. by apply elem_of_bt_iter. }
  destruct (m !! o ≫= _) as [d|] eqn:E.
  - apply select_key_functional; [|by apply Hin]. intros d' Hd%Hin. congruence.
  - apply select_key_None. intros ([[o' i'] d] & [= <- <-] & Hd)%list_elem_of_fmap. by apply Hin in Hd.
Qed.

Section stake_properties.
Context (c : DbConfig) (table : OperatorTable) (Hwf : table_wf table).

(** What is on the disk, as inputs of the operators. *)
Definition disk_inputs (t : SqlStakes) (op : P2POperatorPubKey) : option StakeChainInputs :=
  idx ← p2p_key_to_idx table op;
  pre ← select_key idx (operator_pre_stake_data t);
  Some (mkStakeChainInputs (operator_stakes idx (operator_stake_data t)) (mkOutPoint pre.1 pre.2)).

Lemma load_operators_spec ids acc t :
  let read id := pre ← select_key id (operator_pre_stake_data t); op ← idx_to_p2p_key table id;
    Some (op, mkStakeChainInputs (operator_stakes id (operator_stake_data t)) (mkOutPoint pre.1 pre.2)) in
  load_operators table ids acc (mkPool c t [])
  = (mkPool c t [], Ok (foldl (λ m kv, <[kv.1 := kv.2]> m) acc (omap read ids))).
Proof.
  intros read. revert acc. induction ids as [|id ids IH]; intros acc; [done|].
  cbn [load_operators omap list_omap]. cbn [get_all_stake_data get_pre_stake sqlite_stakes_db].
  rewrite !queries_no_faults. unfold read at 1.
  destruct (select_key id (operator_pre_stake_data t)) as [pre|]; cbn; [|apply IH].
  destruct (idx_to_p2p_key table id) as [op|]; cbn; apply IH.
Qed.

Lemma load_stake_chains_spec t : ∃ chains,
  load_stake_chains table (mkPool c t []) = (mkPool c t [], Ok chains) ∧
  ∀ op, chains !! op = disk_inputs t op.
Proof.
  eexists. split; [apply load_operators_spec|]. set (l := omap _ _). fold (bt_collect l). intros op.
  assert (∀ inputs, (op, inputs) ∈ l ↔ disk_inputs t op = Some inputs) as Hin.
  { intros inputs. unfold l, disk_inputs. rewrite list_elem_of_omap. split.
    - intros (id & _ & (pre & Hpre & (op' & Hop & [= -> <-])%bind_Some)%bind_Some).
      rewrite (proj1 (idx_p2p_iff _ Hwf _ _) Hop). cbn. by rewrite Hpre.
    - intros (id & Hid & (pre & Hpre & [= <-])%bind_Some)%bind_Some. exists id.
      apply (idx_p2p_iff _ Hwf) in Hid. split.
      + apply elem_of_elements, elem_of_dom. unfold idx_to_p2p_key in Hid. by apply fmap_Some in Hid as (x & -> & _).
      + by rewrite Hpre; cbn; rewrite Hid. }
  destruct (bt_collect l !! op) as [inputs|] eqn:E.
  - symmetry. apply Hin. by apply bt_collect_elem_of.
  - symmetry. apply eq_None_not_Some. intros [inputs Hd%Hin]. apply bt_collect_lookup_None in E. destruct E.
    apply list_elem_of_fmap. by exists (op, inputs).
Qed.

Lemma commit_stake_data_spec chains t :
  (∀ op, is_Some (chains !! op) → is_Some (p2p_key_to_idx table op)) → NoDup (operator_stake_data t).*1 →
  ∃ t', commit_stake_data table chains (mkPool c t []) = Val (mkPool c t' [], Ok tt) ∧
    operator_pre_stake_data t' = operator_pre_stake_data t ∧ NoDup (operator_stake_data t').*1 ∧
    ∀ op idx i, p2p_key_to_idx table op = Some idx →
      select_key (idx, i) (operator_stake_data t')
      = match select_key (idx, i) (operator_stake_data t) with
        | Some d => Some d
        | None => DbStakeTxData_new <$> (chains !! op ≫= λ inputs, stake_inputs inputs !! i)
        end.
Proof.
  intros Hkeys Hnd. unfold commit_stake_data, convert_map_p2p_to_idx.
  destruct (convert_map_total (p2p_key_to_idx table) chains Hkeys) as (m & Em). rewrite Em.
  apply convert_map_Ok in Em as [_ Hm].
  2: { intros k1 k2 k' H1 H2. apply (idx_p2p_iff _ Hwf) in H1, H2. congruence. }
  set (data := mjoin _). cbn [add_all_stake_data sqlite_stakes_db]. rewrite executes_no_faults.
  eexists. split; [done|]. destruct (select_dump (0, 0)%N data t) as (Hp & Hn & _). split_and!; [done|by apply Hn|].
  intros op idx i Hop. destruct (select_dump (idx, i) data t) as (_ & _ & ->).
  destruct (select_key _ _); [done|]. f_equal. unfold data. rewrite select_flattened.
  destruct (m !! idx) as [inputs|] eqn:E.
  - apply Hm in E as (op' & Hop' & E). apply (idx_p2p_iff _ Hwf) in Hop, Hop'.
    assert (op' = op) as -> by congruence. by rewrite E.
  - destruct (chains !! op) as [inputs|] eqn:E'; [|done]. exfalso.
    assert (m !! idx = Some inputs) by (apply Hm; eauto). congruence.
Qed.

(** Stake chains load back.  When the pre-stakes on the disk are those of the operators, and
    the stakes that are on the disk already are those of the chains, committing all chains and
    loading gives back exactly the chains. *)
Theorem stake_chains_load_back chains t :
  (∀ op, is_Some (chains !! op) → is_Some (p2p_key_to_idx table op)) → NoDup (operator_stake_data t).*1 →
  (∀ op idx, p2p_key_to_idx table op = Some idx →
     pre_stake_outpoint <$> chains !! op = (λ pre, mkOutPoint pre.1 pre.2) <$> select_key idx (operator_pre_stake_data t)) →
  (∀ op idx i d, p2p_key_to_idx table op = Some idx → select_key (idx, i) (operator_stake_data t) = Some d →
     chains !! op ≫= (λ inputs, stake_inputs inputs !! i) = Some (into_stake_tx_data d)) →
  ∃ p, commit_stake_data table chains (mkPool c t []) = Val (p, Ok tt) ∧ (load_stake_chains table p).2 = Ok chains.
Proof.
  intros Hkeys Hnd Hpre Hsub. destruct (commit_stake_data_spec chains t Hkeys Hnd) as (t' & E & Hp & Hnd' & Hs).
  eexists. split; [exact E|]. destruct (load_stake_chains_spec t') as (chains' & -> & Hc). cbn. f_equal.
  apply map_eq. intros op. rewrite Hc. unfold disk_inputs.
  destruct (p2p_key_to_idx table op) as [idx|] eqn:Hop.
  2: { destruct (chains !! op) eqn:Ec; [|done]. destruct (Hkeys op) as [? ?]; [by eexists|congruence]. }
  specialize (Hpre op idx Hop). cbn. rewrite Hp. destruct (select_key idx _) as [pre|] eqn:Epre; cbn in Hpre |- *.
  - destruct (chains !! op) as [inputs|] eqn:Ec; [|done]. cbn in Hpre. injection Hpre as Hpre. f_equal.
    destruct inputs as [stakes pre']. cbn in Hpre. subst pre'. f_equal. apply map_eq. intros i.
    rewrite operator_stakes_lookup, (Hs op idx i Hop), Ec by done. cbn.
    destruct (select_key (idx, i) _) as [d|] eqn:Ed; cbn.
    + specialize (Hsub op idx i d Hop Ed). rewrite Ec in Hsub. by cbn in Hsub.
    + destruct (stakes !! i) as [[[? ?] ? ? ?]|]; done.
  - by destruct (chains !! op).
Qed.

(** The data of a stake is written once: when the disk has data for a stake already, and the
    data of the chain is another one by now, committing succeeds, but loading gives the old data
    and not the chains that were committed. *)
Theorem changed_stake_data_not_committed chains t op idx i old inputs new :
  (∀ op, is_Some (chains !! op) → is_Some (p2p_key_to_idx table op)) → NoDup (operator_stake_data t).*1 →
  p2p_key_to_idx table op = Some idx → is_Some (select_key idx (operator_pre_stake_data t)) →
  select_key (idx, i) (operator_stake_data t) = Some old →
  chains !! op = Some inputs → stake_inputs inputs !! i = Some new → new ≠ into_stake_tx_data old →
  ∃ p chains', commit_stake_data table chains (mkPool c t []) = Val (p, Ok tt) ∧
    (load_stake_chains table p).2 = Ok chains' ∧
    chains' !! op ≫= (λ inputs', stake_inputs inputs' !! i) = Some (into_stake_tx_data old) ∧ chains' ≠ chains.
Proof.
  intros Hkeys Hnd Hop [pre Hpre] Hold Hc Hnew Hne.
  destruct (commit_stake_data_spec chains t Hkeys Hnd) as (t' & E & Hp & Hnd' & Hs).
  destruct (load_stake_chains_spec t') as (chains' & El & Hl).
  assert (chains' !! op ≫= (λ inputs', stake_inputs inputs' !! i) = Some (into_stake_tx_data old)) as Hget.
  { rewrite Hl. unfold disk_inputs. rewrite Hop. cbn. rewrite Hp, Hpre. cbn.
    by rewrite operator_stakes_lookup, (Hs op idx i Hop), Hold by done. }
  exists (mkPool c t' []), chains'. split_and!; [exact E|by rewrite El|exact Hget|].
  intros ->. rewrite Hc in Hget. cbn in Hget. congruence.
Qed.

End stake_properties.

(** ** Witnesses *)

Definition example_serde : SerdeLib := {|
  serialize_deposit_tx := Ok; deserialize_deposit_tx := Ok; serialize_table := Ok; deserialize_table := Ok;
  serialize_state := Ok; deserialize_state := Ok |}.
#[global] Instance example_serde_laws : @SerdeLaws example_serde.
Proof. split; by intros ? ? [= ->]. Qed.

#[local] Existing Instances example_serde example_graph example_txids.

Definition example_machine (height : N) : ContractSM := mkContractSM _ example_cfg (mkMachineState height Aborted) ∅.

(** A contract committed under the id of its deposit, then under another one, then again. *)
Lemma contracts_load_latest_witness :
  let calls := [CommitAll [(9%N, example_machine 1)]; Commit 5101 (example_machine 2); CommitAll [(9%N, example_machine 3)]] in
  ∃ l, (load_all 1 ConnectorParams_default PegOutGraphParams_default (mkRollupParams 20) StakeChainParams_default
    (foldl persist_call (mkPool (mkDbConfig 0) [] []) calls)).2 = Ok l ∧
    (example_cfg, mkMachineState 3 Aborted) ∈ l.
Proof.
  intros calls. destruct (contracts_load_latest (mkDbConfig 0) calls 1%N ConnectorParams_default PegOutGraphParams_default
    (mkRollupParams 20) StakeChainParams_default) as (l & E & _ & Hl).
  - repeat (constructor; [reflexivity|]). constructor.
  - assert (Forall (λ e : N * ContractSM, deposit_idx (cfg e.2) = 0%N) (mjoin (committed <$> calls))) as Hidx
      by (repeat (constructor; [reflexivity|]); constructor).
    intros e e' He He' _. by rewrite (proj1 (Forall_forall _ _) Hidx e He), (proj1 (Forall_forall _ _) Hidx e' He').
  - repeat (constructor; [reflexivity|]). constructor.
  - exists l. split; [exact E|]. apply Hl. exists (example_machine 3). split; reflexivity.
Defined.

Lemma example_table_wf : table_wf example_table.
Proof. by apply (new_wf [(0, 10, 100); (1, 20, 200)]%N (select_idx 0)). Qed.

Definition example_stored (n : N) : StakeTxData := mkStakeTxData (mkOutPoint n 1) 4 [[5%N]] 6.
Definition example_stored_chains (n : N) : BTreeMap P2POperatorPubKey StakeChainInputs :=
  {[10%N := mkStakeChainInputs {[0%N := example_stored 3; 1%N := example_stored n]} (mkOutPoint 1 2)]}.

Lemma example_stored_keys n op :
  is_Some (example_stored_chains n !! op) → is_Some (p2p_key_to_idx example_table op).
Proof. unfold example_stored_chains. intros [? [<- _]%lookup_singleton_Some]. by eexists. Qed.

Lemma stake_chains_load_back_witness :
  ∃ p, commit_stake_data example_table (example_stored_chains 4)
      (mkPool (mkDbConfig 0) (mkSqlStakes [(0%N, (1%N, 2%N))] [((0%N, 0%N), DbStakeTxData_new (example_stored 3))]) [])
      = Val (p, Ok tt) ∧
    (load_stake_chains example_table p).2 = Ok (example_stored_chains 4).
Proof.
  apply (stake_chains_load_back (mkDbConfig 0) example_table example_table_wf (example_stored_chains 4)
    (mkSqlStakes [(0%N, (1%N, 2%N))] [((0%N, 0%N), DbStakeTxData_new (example_stored 3))])).
  - apply example_stored_keys.
  - apply NoDup_singleton.
  - intros op idx Hop. apply (idx_p2p_iff _ example_table_wf) in Hop. unfold idx_to_p2p_key in Hop.
    apply fmap_Some in Hop as ([op' btc] & Hop & ->). revert Hop.
    change (idx_key example_table) with (<[1%N := (20%N, 200%N)]> {[0%N := (10%N, 100%N)]} : gmap N (N * N)).
    rewrite lookup_insert_Some, lookup_singleton_Some. intros [[<- [= <- <-]]|(_ & <- & [= <- <-])]; reflexivity.
  - intros op idx i d Hop Hd. cbn in Hd. case_decide as Hk; [|done]. injection Hk as <- <-. injection Hd as <-.
    apply (idx_p2p_iff _ example_table_wf) in Hop. cbn in Hop. injection Hop as <-. reflexivity.
Defined.

Lemma changed_stake_data_not_committed_witness :
  ∃ p chains', commit_stake_data example_table (example_stored_chains 4)
      (mkPool (mkDbConfig 0) (mkSqlStakes [(0%N, (1%N, 2%N))] [((0%N, 1%N), DbStakeTxData_new (example_stored 3))]) [])
      = Val (p, Ok tt) ∧
    (load_stake_chains example_table p).2 = Ok chains' ∧ chains' ≠ example_stored_chains 4.
Proof.
  destruct (changed_stake_data_not_committed (mkDbConfig 0) example_table example_table_wf (example_stored_chains 4)
    (mkSqlStakes [(0%N, (1%N, 2%N))] [((0%N, 1%N), DbStakeTxData_new (example_stored 3))]) 10%N 0%N 1%N
    (DbStakeTxData_new (example_stored 3))
    (mkStakeChainInputs {[0%N := example_stored 3; 1%N := example_stored 4]} (mkOutPoint 1 2)) (example_stored 4))
    as (p & chains' & E & El & _ & Hne);
    [apply example_stored_keys|apply NoDup_singleton|reflexivity|by eexists|reflexivity|reflexivity|reflexivity|done|].
  exists p, chains'. split; [exact E|]. split; [exact El|exact Hne].
Defined.
