(* ===== verification/ContractManager.v ===== *)
(** * The contract manager ([duty-tracker/src/contract_manager.rs] and [shutdown.rs])

    The manager owns the contracts, the stake chains of all operators and the database they are
    kept in.  It feeds them with blocks and with the messages of the other operators, answers
    requests, asks for what is missing, and collects the duties to be executed.

    The handlers are written in a monad of state and errors: they may change the manager, return
    an error, after which the changes remain, or panic.  The reading of checkpoints, which the
    [strata] crates do, is a parameter. *)

From S2P Require Import Prelude Bitcoin OperatorTable PogMusig BtcNotify TxDriver Wots TxTypes Taproot Deposit Predicates.
From S2P Require Import Connectors.
From S2P Require Import StakeChain ContractTypes Checkpoint Database StakeChainSM ContractSM ContractExample Persistence.

(** ** Handlers *)

Section handlers.
Context {S E : Type}.

Definition h_ret {A} (a : A) : handler S E A := λ s, Val (s, Ok a).
Definition h_bind {A B} (m : handler S E A) (k : A → handler S E B) : handler S E B := λ s,
  p ← m s; match p.2 with Ok a => k a p.1 | Err e => Val (p.1, Err e) end.
Definition h_throw {A} (e : E) : handler S E A := λ s, Val (s, Err e).
Definition h_get {A} (f : S → A) : handler S E A := λ s, Val (s, Ok (f s)).
Definition h_modify (f : S → S) : handler S E unit := λ s, Val (f s, Ok tt).
Definition h_comp {A} (c : comp A) : handler S E A := λ s, a ← c; Val (s, Ok a).
Definition h_result {E' A} (f : E' → E) (r : result E' A) : handler S E A := λ s,
  Val (s, match r with Ok a => Ok a | Err e => Err (f e) end).

(** A [for] loop that threads a value. *)
Fixpoint h_fold {A B} (f : B → A → handler S E B) (b : B) (l : list A) : handler S E B :=
  match l with
  | [] => h_ret b
  | a :: l => h_bind (f b a) (λ b, h_fold f b l)
  end.

End handlers.

Notation "'let!' x := m 'in' k" := (h_bind m (λ x, k))
  (at level 10, x pattern, k at level 200) : bridge_scope.

(** ** Messages *)

(** Scopes and session ids are the 32 bytes of a txid. *)
Abbreviation Scope := N (only parsing).
Abbreviation SessionId := N (only parsing).
Abbreviation StakeChainId := N (only parsing).

Inductive UnsignedGossipsubMsg :=
| StakeChainExchange (stake_chain_id : StakeChainId) (operator_pk : XOnlyPublicKey) (pre_stake_txid : Txid) (pre_stake_vout : N)
| DepositSetup (scope : Scope) (index : N) (hash : Sha256Hash) (funding_txid : Txid) (funding_vout : N)
    (operator_pk : XOnlyPublicKey) (wots_pks : P2PWotsPublicKeys)
| Musig2NoncesExchange (session_id : SessionId) (nonces : list PubNonce)
| Musig2SignaturesExchange (session_id : SessionId) (signatures : list PartialSignature).

Record GossipsubMsg := mkGossipsubMsg { msg_key : P2POperatorPubKey; unsigned : UnsignedGossipsubMsg }.

Inductive GetMessageRequest :=
| GetStakeChainExchange (stake_chain_id : StakeChainId) (operator_pk : P2POperatorPubKey)
| GetDepositSetup (scope : Scope) (operator_pk : P2POperatorPubKey)
| GetMusig2Nonces (session_id : SessionId) (operator_pk : P2POperatorPubKey)
| GetMusig2Signatures (session_id : SessionId) (operator_pk : P2POperatorPubKey).

Definition request_operator (req : GetMessageRequest) : P2POperatorPubKey :=
  match req with
  | GetStakeChainExchange _ op | GetDepositSetup _ op | GetMusig2Nonces _ op | GetMusig2Signatures _ op => op
  end.

(** ** Errors *)

(** The errors of the clients that the executors use carry no data here. *)
Inductive ContractManagerErr :=
| ContractPersistError (e : ContractPersistErr)
| TransitionError (e : TransitionErr)
| StakeChainError (e : StakeChainErr)
| TxGraphError
| InvalidP2PMessage (msg : UnsignedGossipsubMsg)
| InvalidP2PRequest (req : GetMessageRequest)
| BitcoinCoreRPCErr
| SecretServiceErr
| DbErr (e : DbError)
| CreateTxErr
| FatalErr
| TxDriverErr (e : DriveErr).

(** ** State *)

Record StakeTxRetryConfig := mkStakeTxRetryConfig { max_retries : N; retry_delay : N }.

Record ExecutionConfig := mkExecutionConfig {
  ec_network : Network;
  ec_connector_params : ConnectorParams;
  ec_pegout_graph_params : PegOutGraphParams;
  ec_stake_chain_params : StakeChainParams;
  ec_sidesystem_params : RollupParams;
  ec_operator_table : OperatorTable;
  stake_tx_retry_config : StakeTxRetryConfig;
  pre_stake_pubkey : ScriptBuf;
  funding_address : ScriptBuf;
  is_faulty : bool;
  min_withdrawal_fulfillment_window : N;
  stake_funding_pool_size : N;
}.

Record ExecutionState `{TxGraphOps} := mkExecutionState {
  active_contracts : BTreeMap Txid ContractSM;
  claim_index : BTreeMap Txid Txid;
  es_stake_chains : StakeChainSM;
  es_operator_table : OperatorTable;
}.

Record StateHandles `{SerdeLib} := mkStateHandles {
  contract_persister : Pool (list ContractRow);
  stake_chain_persister : Pool SqlStakes;
}.

Record ContractManagerCtx `{TxGraphOps, SerdeLib} := mkContractManagerCtx {
  ctx_cfg : ExecutionConfig;
  state_handles : StateHandles;
  ctx_state : ExecutionState;
}.

Section manager.
Context `{BuildProfile, BitcoinLib, SighashLib, InstructionsLib, TaprootLib, DepositLib, ConnectorLib, ScriptLib,
  DescriptorLib, Musig2Lib, TxGraphOps, SerdeLib, CheckpointLib}.
(** Whether the graphs are generated by worker threads. *)
Variable multi_thread_graph_gen : bool.

Abbreviation M A := (handler ContractManagerCtx ContractManagerErr A) (only parsing).

(** *** Access to the parts *)

Definition with_es (s : ExecutionState) (ctx : ContractManagerCtx) : ContractManagerCtx :=
  mkContractManagerCtx _ _ (ctx_cfg ctx) (state_handles ctx) s.
Definition contracts (ctx : ContractManagerCtx) : BTreeMap Txid ContractSM := active_contracts (ctx_state ctx).
Definition with_contracts (m : BTreeMap Txid ContractSM) (ctx : ContractManagerCtx) : ContractManagerCtx :=
  let s := ctx_state ctx in
  with_es (mkExecutionState _ m (claim_index s) (es_stake_chains s) (es_operator_table s)) ctx.
Definition with_claim_index (m : BTreeMap Txid Txid) (ctx : ContractManagerCtx) : ContractManagerCtx :=
  let s := ctx_state ctx in
  with_es (mkExecutionState _ (active_contracts s) m (es_stake_chains s) (es_operator_table s)) ctx.
Definition with_stakes (m : StakeChainSM) (ctx : ContractManagerCtx) : ContractManagerCtx :=
  let s := ctx_state ctx in
  with_es (mkExecutionState _ (active_contracts s) (claim_index s) m (es_operator_table s)) ctx.
Definition with_handles (h : StateHandles) (ctx : ContractManagerCtx) : ContractManagerCtx :=
  mkContractManagerCtx _ _ (ctx_cfg ctx) h (ctx_state ctx).

Definition the_table (ctx : ContractManagerCtx) : OperatorTable := ec_operator_table (ctx_cfg ctx).

(** [contract.process_contract_event(ev)] on the contract under this key, which is changed in
    place. *)
Definition feed_contract (key : Txid) (contract : ContractSM) (ev : ContractEvent) : M (result TransitionErr (list OperatorDuty)) :=
  λ ctx,
  p ← process_contract_event multi_thread_graph_gen ev contract;
  Val (with_contracts (<[key := p.1]> (contracts ctx)) ctx, Ok p.2).

Definition feed_or_fail (key : Txid) (contract : ContractSM) (ev : ContractEvent) : M (list OperatorDuty) :=
  let! r := feed_contract key contract ev in h_result TransitionError r.

Definition run_stakes {A} (f : StakeChainSM → comp (StakeChainSM * result StakeChainErr A)) : M A := λ ctx,
  p ← f (es_stake_chains (ctx_state ctx));
  Val (with_stakes p.1 ctx, match p.2 with Ok a => Ok a | Err e => Err (StakeChainError e) end).

Definition run_stake_db {A} (f : Pool SqlStakes → comp (Pool SqlStakes * result DbError A)) : M A := λ ctx,
  p ← f (stake_chain_persister (state_handles ctx));
  Val (with_handles (mkStateHandles _ (contract_persister (state_handles ctx)) p.1) ctx,
       match p.2 with Ok a => Ok a | Err e => Err (DbErr e) end).

Definition run_contract_db {A} (f : Pool (list ContractRow) → Pool (list ContractRow) * result ContractPersistErr A) : M A := λ ctx,
  let p := f (contract_persister (state_handles ctx)) in
  Val (with_handles (mkStateHandles _ p.1 (stake_chain_persister (state_handles ctx))) ctx,
       match p.2 with Ok a => Ok a | Err e => Err (ContractPersistError e) end).

(** *** Assignments *)

Definition is_dispatched (entry : DepositEntry) : bool :=
  match deposit_state entry with Dispatched _ => true | NotDispatchedState _ => false end.

Definition process_entry (checkpoint : Checkpoint) (duties : list OperatorDuty) (entry : DepositEntry)
    : M (list OperatorDuty) :=
  let deposit_txid := op_txid (de_output entry) in
  let! sm := h_bind (h_get contracts) (λ m, h_comp (expect (m !! deposit_txid))) in
  let! table := h_get the_table in
  let! pov_op_p2p_key := h_comp (pov_p2p_key table) in
  let! stakes := h_get (λ ctx, es_stake_chains (ctx_state ctx)) in
  let! r := h_comp (stake_tx stakes pov_op_p2p_key (de_idx entry)) in
  match r with
  | Ok (Some stake_tx) =>
      let! l1_start_height := h_comp (u64_add (l1_end_height checkpoint) 1) in
      let! new_duties := feed_or_fail deposit_txid sm (EvAssignment entry stake_tx l1_start_height) in
      h_ret (duties ++ new_duties)
  | _ => h_ret duties
  end.

Definition process_assignments (tx : Transaction) : M (list OperatorDuty) :=
  let! params := h_get (λ ctx, ec_sidesystem_params (ctx_cfg ctx)) in
  let! checkpoint := h_comp (parse_strata_checkpoint tx params) in
  match checkpoint with
  | None => h_ret []
  | Some checkpoint =>
      match chainstate_from_slice (chainstate checkpoint) with
      | None => h_ret []
      | Some chain_state =>
          h_fold (process_entry checkpoint) [] (List.filter is_dispatched (chainstate_deposits chain_state))
      end
  end.

(** *** Blocks *)

(** [u32] addition. *)
Definition u32_add (a b : N) : comp N :=
  if (a + b <=? U32_MAX)%N then Val (a + b)%N
  else if debug_assertions then Panic else Val ((a + b) mod (U32_MAX + 1))%N.

(** One more than the greatest index of a contract. *)
Definition deposit_idx_offset (m : BTreeMap Txid ContractSM) : comp N :=
  match (λ sm, deposit_idx (cfg sm)) <$> bt_values m with
  | [] => Val 0%N
  | idxs => u32_add (foldr N.max 0%N idxs) 1
  end.

Definition new_contract (ec : ExecutionConfig) (height deposit_idx : N) (deposit_tx : DepositTx) : comp ContractSM :=
  let c := mkContractCfg (ec_network ec) (ec_operator_table ec) (ec_connector_params ec) (ec_pegout_graph_params ec)
    (ec_sidesystem_params ec) (ec_stake_chain_params ec) deposit_idx deposit_tx in
  abort_deadline ← u64_add height (refund_delay (ec_pegout_graph_params ec));
  ContractSM_new c height abort_deadline.

(** The duties and the new contracts so far. *)
Abbreviation progress := (list OperatorDuty * list ContractSM)%type.

Definition process_request (height deposit_idx : N) (pov_key : P2POperatorPubKey) (data : DepositRequestData)
    (acc : progress) : M progress :=
  let! ec := h_get ctx_cfg in
  let! context := h_comp (tx_build_context (ec_operator_table ec) (ec_network ec)) in
  let! r := h_comp (DepositTx_new data context (ec_pegout_graph_params ec) (ec_sidesystem_params ec)) in
  match r with
  | Err _ => h_ret acc
  | Ok deposit_tx =>
      let deposit_txid := covenant_txid deposit_tx in
      let! known := h_get (λ ctx, bool_decide (is_Some (contracts ctx !! deposit_txid))) in
      if known : bool then h_ret acc
      else
        let! chains := h_get (λ ctx, stake_chains (es_stake_chains (ctx_state ctx))) in
        let! stake_chain_inputs := h_comp (expect (chains !! pov_key)) in
        let! sm := h_comp (new_contract ec height deposit_idx deposit_tx) in
        h_ret (acc.1 ++ [PublishDepositSetup deposit_txid deposit_idx stake_chain_inputs], acc.2 ++ [sm])
  end.

(** A contract that has not seen this height yet is asked whether the transaction is one of its
    graphs, and is told when it is. *)
Definition confirm_in_contract (height : N) (tx : Transaction) (duties : list OperatorDuty) (entry : Txid * ContractSM)
    : M (list OperatorDuty) :=
  let '(key, contract) := entry in
  if (height <=? block_height (mstate contract))%N then h_ret duties
  else
    let! relevant := h_comp (transaction_filter contract tx) in
    if relevant : bool then
      let! new_duties := feed_or_fail key contract (EvPegOutGraphConfirmation tx height) in
      h_ret (duties ++ new_duties)
    else h_ret duties.

Definition process_tx (height offset : N) (pov_key : P2POperatorPubKey) (acc : progress) (tx : Transaction) : M progress :=
  let! assignment_duties := process_assignments tx in
  match assignment_duties with
  | _ :: _ => h_ret (acc.1 ++ assignment_duties, acc.2)
  | [] =>
      let! deposit_idx := h_comp (u32_add offset (N.of_nat (length acc.2) mod 2 ^ 32)) in
      let! ec := h_get ctx_cfg in
      let! context := h_comp (tx_build_context (ec_operator_table ec) (ec_network ec)) in
      let! request := h_comp (deposit_request_info tx (ec_sidesystem_params ec) (ec_pegout_graph_params ec)
        context deposit_idx) in
      match request with
      | Some data => process_request height deposit_idx pov_key data acc
      | None =>
          let! m := h_get contracts in
          match m !! compute_txid tx with
          | Some contract =>
              if (height <=? block_height (mstate contract))%N then h_ret acc
              else
                let! r := feed_contract (compute_txid tx) contract (EvDepositConfirmation tx) in
                h_ret (acc.1 ++ match r with Ok new_duties => new_duties | Err _ => [] end, acc.2)
          | None =>
              let! duties := h_fold (confirm_in_contract height tx) acc.1 (bt_iter m) in
              h_ret (duties, acc.2)
          end
      end
  end.

Definition notify_contract (height : N) (duties : list OperatorDuty) (entry : Txid * ContractSM) : M (list OperatorDuty) :=
  let! new_duties := feed_or_fail entry.1 entry.2 (EvBlock height) in
  h_ret (duties ++ new_duties).

Definition insert_contracts (new_contracts : list ContractSM) (m : BTreeMap Txid ContractSM) : BTreeMap Txid ContractSM :=
  foldl (λ m sm, <[deposit_txid sm := sm]> m) m new_contracts.

Definition process_block (block : Block) : M (list OperatorDuty) :=
  let height := default 0%N (bip34_block_height block) in
  let! pov_key := h_bind (h_get the_table) (λ table, h_comp (pov_p2p_key table)) in
  let! offset := h_bind (h_get contracts) (λ m, h_comp (deposit_idx_offset m)) in
  let! acc := h_fold (process_tx height offset pov_key) ([], []) (txdata block) in
  let! entries := h_get (λ ctx, bt_iter (contracts ctx)) in
  let! duties := h_fold (notify_contract height) acc.1 entries in
  let! _ := h_modify (λ ctx, with_contracts (insert_contracts acc.2 (contracts ctx)) ctx) in
  let! entries := h_get (λ ctx, bt_iter (contracts ctx)) in
  let! _ := run_contract_db (commit_all entries) in
  h_ret duties.

(** *** Messages of the operators *)

(** The first contract, in the order of the keys, whose request this is. *)
Fixpoint find_by_request (txid : Txid) (entries : list (Txid * ContractSM)) : comp (option (Txid * ContractSM)) :=
  match entries with
  | [] => Val None
  | entry :: entries =>
      request ← cfg_deposit_request_txid (cfg entry.2);
      if bool_decide (request = txid) then Val (Some entry) else find_by_request txid entries
  end.

(** The contract of a session: by the id of a claim, or else of a deposit request. *)
Definition session_contract (txid : Txid) : M ((Txid * ContractSM) + option (Txid * ContractSM)) :=
  let! index := h_get (λ ctx, claim_index (ctx_state ctx)) in
  let! m := h_get contracts in
  match deposit_txid ← index !! txid; contract ← m !! deposit_txid; Some (deposit_txid, contract) with
  | Some entry => h_ret (inl entry)
  | None => let! found := h_comp (find_by_request txid (bt_iter m)) in h_ret (inr found)
  end.

(** The ids of the claims, skimmed off the duties. *)
Definition index_claims (deposit_txid : Txid) (duties : list OperatorDuty) (index : BTreeMap Txid Txid) : BTreeMap Txid Txid :=
  foldl (λ index duty, match duty with
    | PublishGraphNonces claim_txid _ _ _ => <[claim_txid := deposit_txid]> index
    | _ => index
    end) index duties.

(** [contract_persister.commit] for the contract under this key, with the key it is saved under,
    when there are duties. *)
Definition commit_contract (key save_key : Txid) (duties : list OperatorDuty) : M unit :=
  match duties with
  | [] => h_ret tt
  | _ :: _ =>
      let! contract := h_bind (h_get contracts) (λ m, h_comp (expect (m !! key))) in
      let c := cfg contract in
      run_contract_db (commit save_key (deposit_idx c) (deposit_tx c) (operator_table c) (mstate contract))
  end.

Definition process_stake_chain_exchange (key : P2POperatorPubKey) (sender_id : OperatorIdx) (pre_stake : OutPoint)
    : M (list OperatorDuty) :=
  let! _ := run_stakes (λ sm, Val (process_exchange key pre_stake sm)) in
  let! _ := run_stake_db (λ db, Val (commit_prestake sender_id pre_stake db)) in
  h_ret [].

(** The stake transaction of the sender for the contract, after its data has been taken in and
    committed; [None] when the chain is broken. *)
Definition take_in_stake (key : P2POperatorPubKey) (setup : DepositSetupMsg) (deposit_idx : N) : M (option StakeTxKind) :=
  let! stake_txid := run_stakes (process_setup key setup) in
  match stake_txid with
  | None => h_ret None
  | Some _ =>
      let! table := h_get the_table in
      let! chains := h_get (λ ctx, stake_chains (es_stake_chains (ctx_state ctx))) in
      let! _ := run_stake_db (commit_stake_data table chains) in
      let! stakes := h_get (λ ctx, es_stake_chains (ctx_state ctx)) in
      let! r := h_comp (stake_tx stakes key deposit_idx) in
      let! tx := h_result StakeChainError r in
      let! tx := h_result StakeChainError (ok_or tx (StakeTxNotFound key deposit_idx)) in
      h_ret (Some tx)
  end.

Definition process_setup_msg (key : P2POperatorPubKey) (deposit_txid : Txid) (contract : ContractSM) (setup : DepositSetupMsg)
    : M (list OperatorDuty) :=
  let! tx := take_in_stake key setup (deposit_idx (cfg contract)) in
  match tx with
  | None => h_ret []
  | Some stake_tx =>
      let! r := h_comp (PublicKeys_try_from (ds_wots_pks setup)) in
      match r with
      | inl (_, wots_pks) => h_throw (InvalidP2PMessage (DepositSetup deposit_txid (ds_index setup) (ds_hash setup)
          (op_txid (ds_funding_outpoint setup)) (op_vout (ds_funding_outpoint setup)) (ds_operator_pk setup) wots_pks))
      | inr wots_keys =>
          let! duties := feed_or_fail deposit_txid contract
            (EvDepositSetup key (ds_operator_pk setup) (ds_hash setup) (kind_txid stake_tx) wots_keys) in
          let! _ := h_modify (λ ctx, with_claim_index (index_claims deposit_txid duties (claim_index (ctx_state ctx))) ctx) in
          let! _ := commit_contract deposit_txid deposit_txid duties in
          h_ret duties
      end
  end.

Definition process_nonces_msg (key : P2POperatorPubKey) (session_id : SessionId) (nonces : list PubNonce) : M (list OperatorDuty) :=
  let! found := session_contract session_id in
  match found with
  | inl (deposit_txid, contract) => feed_or_fail deposit_txid contract (EvGraphNonces key session_id nonces)
  | inr (Some (deposit_txid, contract)) =>
      match last nonces with
      | None => h_throw (InvalidP2PMessage (Musig2NoncesExchange session_id []))
      | Some nonce =>
          match removelast nonces with
          | [] => feed_or_fail deposit_txid contract (EvRootNonce key nonce)
          | rest => h_throw (InvalidP2PMessage (Musig2NoncesExchange session_id rest))
          end
      end
  | inr None => h_ret []
  end.

Definition process_signatures_msg (key : P2POperatorPubKey) (session_id : SessionId) (signatures : list PartialSignature)
    : M (list OperatorDuty) :=
  let! found := session_contract session_id in
  match found with
  | inl (deposit_txid, contract) =>
      let! duties := feed_or_fail deposit_txid contract (EvGraphSigs key session_id signatures) in
      let! _ := commit_contract deposit_txid session_id duties in
      h_ret duties
  | inr (Some (deposit_txid, contract)) =>
      match signatures with
      | [sig] => feed_or_fail deposit_txid contract (EvRootSig key sig)
      | _ => h_throw (InvalidP2PMessage (Musig2SignaturesExchange session_id signatures))
      end
  | inr None => h_ret []
  end.

Definition process_unsigned_gossip_msg (msg : UnsignedGossipsubMsg) (key : P2POperatorPubKey) (sender_id : OperatorIdx)
    : M (list OperatorDuty) :=
  match msg with
  | StakeChainExchange _ _ pre_stake_txid pre_stake_vout =>
      process_stake_chain_exchange key sender_id (mkOutPoint pre_stake_txid pre_stake_vout)
  | DepositSetup scope index hash funding_txid funding_vout operator_pk wots_pks =>
      let! m := h_get contracts in
      match m !! scope with
      | None => h_ret []
      | Some contract => process_setup_msg key scope contract
          (mkDepositSetup index hash (mkOutPoint funding_txid funding_vout) operator_pk wots_pks)
      end
  | Musig2NoncesExchange session_id nonces => process_nonces_msg key session_id nonces
  | Musig2SignaturesExchange session_id signatures => process_signatures_msg key session_id signatures
  end.

Definition process_p2p_message (msg : GossipsubMsg) : M (list OperatorDuty) :=
  let! table := h_get the_table in
  let! sender_id := h_comp (expect (p2p_key_to_idx table (msg_key msg))) in
  process_unsigned_gossip_msg (unsigned msg) (msg_key msg) sender_id.

(** *** Requests of the operators *)

Definition process_deposit_setup_request (scope : Scope) : M (option OperatorDuty) :=
  let! pov_key := h_bind (h_get the_table) (λ table, h_comp (pov_p2p_key table)) in
  let! chains := h_get (λ ctx, stake_chains (es_stake_chains (ctx_state ctx))) in
  let! stake_chain_inputs := h_comp (expect (chains !! pov_key)) in
  let! m := h_get contracts in
  match m !! scope with
  | Some sm => h_ret (Some (PublishDepositSetup scope (deposit_idx (cfg sm)) stake_chain_inputs))
  | None => h_throw (InvalidP2PRequest (GetDepositSetup scope pov_key))
  end.

(** The input of the graph with this claim; [expect]s that an owner of a claim has one. *)
Definition claimed_input (r : RequestedState) (claim_txid : Txid) : comp (option PegOutGraphInput) :=
  match claim_to_operator (Requested r) claim_txid with
  | None => Val None
  | Some graph_owner => input ← expect (peg_out_graph_inputs r !! graph_owner); Val (Some input)
  end.

Definition process_graph_nonces_request (claim_txid : Txid) (csm : ContractSM) : comp (option OperatorDuty) :=
  match state (mstate csm) with
  | Requested r =>
      input ← claimed_input r claim_txid;
      match input with
      | None => Val None
      | Some input =>
          g ← graph_or_build csm input;
          existing_nonces ← match graph_nonces r !! claim_txid with
            | None => Val None
            | Some session_nonces => pov_key ← pov_p2p_key (operator_table (cfg csm)); Val (session_nonces !! pov_key)
            end;
          Val (Some (PublishGraphNonces claim_txid (musig_inpoints g) (musig_witnesses g) existing_nonces))
      end
  | _ => Val None
  end.

Definition process_root_nonces_request (deposit_request_txid : Txid) (csm : ContractSM) : comp (option OperatorDuty) :=
  match state (mstate csm) with
  | Requested r =>
      if bool_decide (size (r_graph_sigs r) ≠ cardinality (operator_table (cfg csm))) then Val None
      else
        pov_key ← pov_p2p_key (operator_table (cfg csm));
        Val (Some (PublishRootNonce deposit_request_txid (Vector.hd (witnesses (deposit_tx (cfg csm))))
          (root_nonces r !! pov_key)))
  | _ => Val None
  end.

Definition process_graph_signatures_request (table : OperatorTable) (claim_txid : Txid) (csm : ContractSM)
    : comp (option OperatorDuty) :=
  match state (mstate csm) with
  | Requested r =>
      our_p2p_key ← pov_p2p_key table;
      let existing_partials := graph_partials r !! claim_txid ≫= (.!! our_p2p_key) in
      input ← claimed_input r claim_txid;
      match input with
      | None => Val None
      | Some input =>
          g ← graph_or_build csm input;
          hashes ← musig_sighashes g;
          match agg_nonces r !! claim_txid with
          | None => Val None
          | Some aggnonces => Val (Some (PublishGraphSignatures claim_txid aggnonces (musig_inpoints g) hashes
              (musig_witnesses g) existing_partials))
          end
      end
  | _ => Val None
  end.

(** The nonces are added up in the order of the bitcoin keys. *)
Definition process_root_signatures_request (deposit_request_txid : Txid) (csm : ContractSM) : comp (option OperatorDuty) :=
  match state (mstate csm) with
  | Requested r =>
      our_p2p_key ← pov_p2p_key (operator_table (cfg csm));
      sighash ← deposit_sighash (cfg csm);
      nonces ← expect_ok (convert_map_p2p_to_btc (operator_table (cfg csm)) (root_nonces r));
      Val (Some (PublishRootSignature deposit_request_txid (AggNonce_sum (bt_values nonces)) sighash
        (Vector.hd (witnesses (deposit_tx (cfg csm)))) (root_partials r !! our_p2p_key)))
  | _ => Val None
  end.

Definition process_musig2_nonces_exchange_request (session_id : SessionId) : M (option OperatorDuty) :=
  let! found := session_contract session_id in
  match found with
  | inl (_, csm) => h_comp (process_graph_nonces_request session_id csm)
  | inr (Some (_, csm)) => h_comp (process_root_nonces_request session_id csm)
  | inr None => h_ret None
  end.

Definition process_musig2_signatures_exchange_request (session_id : SessionId) : M (option OperatorDuty) :=
  let! found := session_contract session_id in
  let! table := h_get the_table in
  match found with
  | inl (_, csm) => h_comp (process_graph_signatures_request table session_id csm)
  | inr (Some (_, csm)) => h_comp (process_root_signatures_request session_id csm)
  | inr None => h_ret None
  end.

Definition process_p2p_request (req : GetMessageRequest) : M (option OperatorDuty) :=
  match req with
  | GetStakeChainExchange _ _ => h_ret (Some PublishStakeChainExchange)
  | GetDepositSetup scope _ => process_deposit_setup_request scope
  | GetMusig2Nonces session_id _ => process_musig2_nonces_exchange_request session_id
  | GetMusig2Signatures session_id _ => process_musig2_signatures_exchange_request session_id
  end.

(** *** Nagging *)

(** [want.difference(&have)], in the order of the keys. *)
Definition missing {A} (want : list P2POperatorPubKey) (have : BTreeMap P2POperatorPubKey A) : list P2POperatorPubKey :=
  filter (λ key, have !! key = None) want.

(** If there is something to ask for at this stage, the next one is not looked at. *)
Definition or_next {A} (requests : list A) (next : list A) : list A :=
  match requests with [] => next | _ => requests end.

(** What is missing of each claim's session. *)
Definition missing_of_claims {A} (want : list P2POperatorPubKey) (claims : list Txid)
    (sessions : BTreeMap Txid (BTreeMap P2POperatorPubKey A)) (request : SessionId → P2POperatorPubKey → GetMessageRequest)
    : list GetMessageRequest :=
  mjoin ((λ claim_txid, request claim_txid <$> missing want (default ∅ (sessions !! claim_txid))) <$> claims).

Definition nag_requested (want : list P2POperatorPubKey) (txid : Txid) (r : RequestedState) : list GetMessageRequest :=
  or_next (GetDepositSetup txid <$> missing want (peg_out_graph_inputs r))
  (or_next (missing_of_claims want (bt_values (r_claim_txids r)) (graph_nonces r) GetMusig2Nonces)
  (or_next (missing_of_claims want (bt_values (r_claim_txids r)) (graph_partials r) GetMusig2Signatures)
  (or_next (GetMusig2Nonces (deposit_request_txid r) <$> missing want (root_nonces r))
           (GetMusig2Signatures (deposit_request_txid r) <$> missing want (root_partials r))))).

Definition nag_contract (want : list P2POperatorPubKey) (stakes : StakeChainSM) (entry : Txid * ContractSM)
    : list GetMessageRequest :=
  let '(txid, contract) := entry in
  or_next (GetDepositSetup txid <$> filter (λ key, sc_stake_txid stakes key (deposit_idx (cfg contract)) = None) want)
    match state (mstate contract) with Requested r => nag_requested want txid r | _ => [] end.

Definition nag (ctx : ContractManagerCtx) : list GetMessageRequest :=
  let want := bt_keys (p2p_key (the_table ctx)) in
  let stakes := es_stake_chains (ctx_state ctx) in
  (GetStakeChainExchange 0 <$> missing want (stake_chains stakes))
  ++ mjoin (nag_contract want stakes <$> bt_iter (contracts ctx)).

(** *** Start and synchronisation *)

(** [u64] subtraction. *)
Definition u64_sub (a b : N) : comp N :=
  if (b <=? a)%N then Val (a - b)%N
  else if debug_assertions then Panic else Val (U64_MAX + 1 + a - b)%N.

Definition load_contracts (ec : ExecutionConfig) (db : Pool (list ContractRow))
    : Pool (list ContractRow) * result ContractPersistErr (BTreeMap Txid ContractSM) :=
  let '(db, r) := load_all (ec_network ec) (ec_connector_params ec) (ec_pegout_graph_params ec) (ec_sidesystem_params ec)
    (ec_stake_chain_params ec) db in
  (db, match r with
       | Err e => Err e
       | Ok contract_data => Ok (bt_collect ((λ cs, (covenant_txid (deposit_tx cs.1), restore cs.1 cs.2)) <$> contract_data))
       end).

(** The claims of all contracts, with the deposits they belong to. *)
Definition index_of_contracts (m : BTreeMap Txid ContractSM) : BTreeMap Txid Txid :=
  bt_collect (mjoin ((λ '(deposit_txid, csm), (λ claim_txid, (claim_txid, deposit_txid)) <$> claim_txids (state (mstate csm)))
    <$> bt_iter m)).

Definition load_state (ec : ExecutionConfig) (handles : StateHandles)
    : comp (StateHandles * result ContractManagerErr ExecutionState) :=
  let '(contract_db, r) := load_contracts ec (contract_persister handles) in
  match r with
  | Err e => Val (mkStateHandles _ contract_db (stake_chain_persister handles), Err (ContractPersistError e))
  | Ok active_contracts =>
      let '(stake_db, r) := load_stake_chains (ec_operator_table ec) (stake_chain_persister handles) in
      let handles := mkStateHandles _ contract_db stake_db in
      match r with
      | Err e => Val (handles, Err (DbErr e))
      | Ok chains =>
          r ← StakeChainSM_restore (ec_network ec) (ec_operator_table ec) (ec_stake_chain_params ec) chains;
          Val (handles, match r with
            | Err e => Err (StakeChainError e)
            | Ok stake_chains => Ok (mkExecutionState _ active_contracts (index_of_contracts active_contracts) stake_chains
                (ec_operator_table ec))
            end)
      end
  end.

(** The least height that a contract has seen, or the current height if there is none. *)
Definition first_cursor (m : BTreeMap Txid ContractSM) (current : N) : N :=
  match (λ sm, block_height (mstate sm)) <$> bt_values m with
  | [] => current
  | h :: heights => foldr N.min h heights
  end.

Section sync.
(** [rpc_client.get_block_at]; [None] is an error of the client. *)
Variable get_block_at : N → option Block.

(** [while cursor < current], which runs [remaining = current - cursor] times; the result is the
    duties to execute.  An error of [process_block] makes it panic. *)
Fixpoint rpc_sync (remaining : nat) (cursor : N) : M (list OperatorDuty) :=
  match remaining with
  | O => h_ret []
  | Datatypes.S remaining =>
      let next := (cursor + 1)%N in
      match get_block_at next with
      | None => h_throw BitcoinCoreRPCErr
      | Some block => λ ctx,
          p ← process_block block ctx;
          match p.2 with
          | Err _ => Panic
          | Ok duties => h_bind (rpc_sync remaining next) (λ more, h_ret (duties ++ more)) p.1
          end
      end
  end.

Definition startup (ec : ExecutionConfig) (block_count : option N) (bury_depth : N) (handles : StateHandles)
    : comp (StateHandles * result ContractManagerErr (ContractManagerCtx * list OperatorDuty)) :=
  p ← load_state ec handles;
  let '(handles, r) := p in
  match r, block_count with
  | Err e, _ => Val (handles, Err e)
  | Ok _, None => Val (handles, Err BitcoinCoreRPCErr)
  | Ok state, Some a =>
      current ← u64_sub a bury_depth;
      let cursor := first_cursor (active_contracts state) current in
      p ← rpc_sync (N.to_nat (current - cursor)) cursor (mkContractManagerCtx _ _ ec handles state);
      let '(ctx, r) := p in
      Val (state_handles ctx, match r with Err e => Err e | Ok duties => Ok (ctx, duties) end)
  end.
End sync.

(** *** The event loop *)

Inductive ManagerEvent :=
| OuroborosMsg (msg : option UnsignedGossipsubMsg)
| OuroborosReq (req : option GetMessageRequest)
| ShutdownSignal
| NewBlock (event : BlockEvent)
| ReceivedMessage (msg : GossipsubMsg)
| ReceivedRequest (req : GetMessageRequest)
| PeerError
| Tick.

(** What the loop does besides changing its state. *)
Inductive Action :=
| Publish (msg : UnsignedGossipsubMsg)
| Forward (req : GetMessageRequest)
| Request (req : GetMessageRequest)
| Execute (duty : OperatorDuty)
| SendState (state : ExecutionState).

(** The outcome of one turn: the loop goes on, or returns an error. *)
Definition turn : Type := ContractManagerCtx * list Action * option ContractManagerErr.

(** A handler whose error is logged and dropped, its changes kept. *)
Definition logged {A} (m : M A) (on_ok : A → list Action) (ctx : ContractManagerCtx) : comp turn :=
  p ← m ctx;
  Val (p.1, match p.2 with Ok a => on_ok a | Err _ => [] end, None).

Definition loop_step (event : ManagerEvent) (ctx : ContractManagerCtx) : comp turn :=
  let table := the_table ctx in
  match event with
  | OuroborosMsg None | OuroborosReq None => Val (ctx, [], Some FatalErr)
  | OuroborosMsg (Some msg) =>
      pov_key ← pov_p2p_key table;
      logged (process_unsigned_gossip_msg msg pov_key (pov_idx table)) (λ duties, Publish msg :: (Execute <$> duties)) ctx
  | OuroborosReq (Some req) =>
      pov_key ← pov_p2p_key table;
      if bool_decide (request_operator req = pov_key)
      then logged (process_p2p_request req) (λ duty, Execute <$> option_list duty) ctx
      else Val (ctx, [Forward req], None)
  | ShutdownSignal =>
      let s := ctx_state ctx in
      let ec := ctx_cfg ctx in
      let fresh := StakeChainSM_new (ec_network ec) (ec_operator_table ec) (ec_stake_chain_params ec) in
      Val (with_es (mkExecutionState _ ∅ ∅ fresh (es_operator_table s)) ctx,
           [SendState (mkExecutionState _ (active_contracts s) (claim_index s) (es_stake_chains s) (ec_operator_table ec))],
           Some FatalErr)
  | NewBlock event =>
      match be_status event with
      | BlockBuried =>
          _ ← expect (bip34_block_height (be_block event));
          p ← process_block (be_block event) ctx;
          match p.2 with
          | Ok duties => Val (p.1, Execute <$> (duties : list OperatorDuty), None)
          | Err e => Val (p.1, [], Some e)
          end
      | _ => Val (ctx, [], None)
      end
  | ReceivedMessage msg => logged (process_p2p_message msg) (fmap Execute) ctx
  | ReceivedRequest req => logged (process_p2p_request req) (λ duty, Execute <$> option_list duty) ctx
  | PeerError => Val (ctx, [], None)
  | Tick => Val (ctx, Request <$> nag ctx, None)
  end.

(** The events until the loop returns. *)
Fixpoint event_loop (events : list ManagerEvent) (ctx : ContractManagerCtx) : comp turn :=
  match events with
  | [] => Val (ctx, [], None)
  | event :: events =>
      p ← loop_step event ctx;
      let '(ctx, actions, exit) := p in
      match exit with
      | Some e => Val (ctx, actions, Some e)
      | None => q ← event_loop events ctx; let '(ctx, more, exit) := q in Val (ctx, actions ++ more, exit)
      end
  end.

End manager.

(** ** Shutdown *)

Inductive ShutdownErr := ShutdownContractPersist (e : ContractPersistErr) | ShutdownStakePersist (e : DbError) | ShutdownTimeout.

(** A write under a timeout: it returns in time, or is given up, before or after its transaction
    has been committed. *)
Inductive Deadline := Met | Missed (written : bool).

(** Whether the guard asks to stop at each of the four times it is asked, and what becomes of the
    two writes. *)
Record ShutdownGuard := mkShutdownGuard {
  stop_at_start : bool; stop_at_contracts : bool; stop_between : bool; stop_at_stakes : bool;
  contracts_deadline : Deadline; stakes_deadline : Deadline;
}.

Definition timeout {D} (deadline : Deadline) (before : D) (p : D * result ShutdownErr unit) : D * result ShutdownErr unit :=
  match deadline with
  | Met => p
  | Missed written => (if written then p.1 else before, Err ShutdownTimeout)
  end.

Section shutdown.
Context `{BitcoinLib, TxGraphOps, SerdeLib}.

Definition persist_contract_state (state : ExecutionState) (stop : bool) (db : Pool (list ContractRow))
    : Pool (list ContractRow) * result ShutdownErr unit :=
  if stop then (db, Ok tt)
  else
    let '(db, r) := commit_all (bt_iter (active_contracts state)) db in
    (db, match r with Ok _ => Ok tt | Err e => Err (ShutdownContractPersist e) end).

Definition persist_stake_chain_state (state : ExecutionState) (stop : bool) (db : Pool SqlStakes)
    : comp (Pool SqlStakes * result ShutdownErr unit) :=
  if stop then Val (db, Ok tt)
  else
    p ← commit_stake_data (es_operator_table state) (stake_chains (es_stake_chains state)) db;
    Val (p.1, match p.2 with Ok _ => Ok tt | Err e => Err (ShutdownStakePersist e) end).

Definition persist_state_before_shutdown (state : ExecutionState) (guard : ShutdownGuard) (handles : StateHandles)
    : comp (StateHandles * result ShutdownErr unit) :=
  if stop_at_start guard then Val (handles, Ok tt)
  else
    let '(contract_db, r) := timeout (contracts_deadline guard) (contract_persister handles)
      (persist_contract_state state (stop_at_contracts guard) (contract_persister handles)) in
    let handles := mkStateHandles _ contract_db (stake_chain_persister handles) in
    match r with
    | Err e => Val (handles, Err e)
    | Ok _ =>
        if stop_between guard then Val (handles, Ok tt)
        else
          p ← persist_stake_chain_state state (stop_at_stakes guard) (stake_chain_persister handles);
          let '(stake_db, r) := timeout (stakes_deadline guard) (stake_chain_persister handles) p in
          Val (mkStateHandles _ contract_db stake_db, r)
    end.
End shutdown.
