(* ===== verification/ContractLifecycle.v ===== *)
(** * The life of a deposit: an abstract machine and its refinement

    [transition] is what the contract promises to the rest of the bridge: which event, carrying
    which evidence, moves a deposit from one phase to the next.  The handlers of [ContractSM]
    refine it, and what a phase says about the chain is proved from it by rule induction. *)

From S2P Require Import Prelude Bitcoin OperatorTable PogMusig Wots TxTypes Taproot Deposit Predicates ContractTypes ContractSM ContractExample.

Section lifecycle.
Context `{BuildProfile, BitcoinLib, SighashLib, InstructionsLib, TaprootLib, DepositLib,
  DescriptorLib, Musig2Lib, TxGraphOps}.

Abbreviation cstate sm := (state (mstate sm)).

(** ** The abstract machine *)

(** The events of the setup, which only fill in the [Requested] state. *)
Definition setup_event (ev : ContractEvent) : bool :=
  match ev with
  | EvDepositSetup _ _ _ _ _ | EvGraphNonces _ _ _ | EvGraphSigs _ _ _ | EvAggregatedSigs _
  | EvRootNonce _ _ | EvRootSig _ _ => true
  | _ => false
  end.

(** The withdrawal an assignment asks for. *)
Definition assigns (c : ContractCfg) (entry : DepositEntry) (g : Graphs) (w : Withdrawal)
    (recipient : Descriptor) (deadline : BitcoinBlockHeight) : Prop :=
  de_idx entry = deposit_idx c ∧
  ∃ d key claim, deposit_state entry = Dispatched d ∧
    assignee d = fulfiller w ∧ head (withdraw_outputs d) = Some recipient ∧
    exec_deadline d = deadline ∧ de_withdrawal_request_txid entry = Some (w_withdrawal_request_txid w) ∧
    idx_to_p2p_key (operator_table c) (fulfiller w) = Some key ∧
    g_claim_txids g !! key = Some claim ∧ peg_out_graphs g !! claim = Some (active_graph w).

Definition fulfills (c : ContractCfg) (w : Withdrawal) (recipient : Descriptor) (tx : Transaction) : Prop :=
  is_fulfillment_tx (network c) (peg_out_graph_params c) (fulfiller w) (deposit_idx c)
    (covenant_txid (deposit_tx c)) recipient tx = Val true.

Inductive transition (c : ContractCfg) : ContractEvent → ContractState → ContractState → Prop :=
| TSetup ev r r' : setup_event ev = true →
    deposit_request_txid r' = deposit_request_txid r → abort_deadline r' = abort_deadline r →
    transition c ev (Requested r) (Requested r')
| TDeposit tx r gs : compute_txid tx = covenant_txid (deposit_tx c) → take_graphs r = Val gs →
    transition c (EvDepositConfirmation tx) (Requested r)
      (Deposited (mkGraphs gs (r_claim_txids r) (r_graph_sigs r)))
| TAbort h r : (abort_deadline r ≤ h)%N → transition c (EvBlock h) (Requested r) Aborted
| TAssign entry stx h g w recipient deadline : assigns c entry g w recipient deadline →
    transition c (EvAssignment entry stx h) (Deposited g) (Assigned g w recipient deadline h)
| TReassign entry stx h g w0 rcpt0 dl0 h0 w recipient deadline : assigns c entry g w recipient deadline →
    transition c (EvAssignment entry stx h) (Assigned g w0 rcpt0 dl0 h0) (Assigned g w recipient deadline h)
| TFulfill tx h g w recipient deadline l1 : fulfills c w recipient tx →
    transition c (EvPegOutGraphConfirmation tx h) (Assigned g w recipient deadline l1)
      (Fulfilled g w (compute_txid tx) h l1)
| TClaim tx h g w ftxid fh l1 commitment : compute_txid tx = claim_txid (active_graph w).2 →
    parse_witness tx = Val (Some commitment) →
    transition c (EvPegOutGraphConfirmation tx h) (Fulfilled g w ftxid fh l1)
      (Claimed g w h ftxid commitment l1)
| TChallenge tx h g w ch ftxid commitment l1 : is_challenge (claim_txid (active_graph w).2) tx = true →
    transition c (EvPegOutGraphConfirmation tx h) (Claimed g w ch ftxid commitment l1)
      (Challenged g w ch ftxid commitment l1)
| TOptimistic tx h g w ch ftxid commitment l1 :
    compute_txid tx = payout_optimistic_txid (active_graph w).2 →
    transition c (EvPegOutGraphConfirmation tx h) (Claimed g w ch ftxid commitment l1)
      (Resolved (claim_txid (active_graph w).2) (w_withdrawal_request_txid w) ftxid (compute_txid tx)
        Optimistic)
| TPreAssertClaimed tx h g w ch ftxid commitment l1 : compute_txid tx = pre_assert_txid (active_graph w).2 →
    transition c (EvPegOutGraphConfirmation tx h) (Claimed g w ch ftxid commitment l1)
      (PreAssertConfirmed g w ch ftxid commitment l1 ∅)
| TPreAssert tx h g w ch ftxid commitment l1 : compute_txid tx = pre_assert_txid (active_graph w).2 →
    transition c (EvPegOutGraphConfirmation tx h) (Challenged g w ch ftxid commitment l1)
      (PreAssertConfirmed g w ch ftxid commitment l1 ∅)
| TAssertData tx h g w ch ftxid commitment l1 signed :
    compute_txid tx ∈ vec_to_list (assert_data_txids (active_graph w).2) →
    transition c (EvPegOutGraphConfirmation tx h) (PreAssertConfirmed g w ch ftxid commitment l1 signed)
      (PreAssertConfirmed g w ch ftxid commitment l1 (<[compute_txid tx := tx]> signed))
| TAssertDataLast tx h g w ch ftxid commitment l1 signed :
    compute_txid tx ∈ vec_to_list (assert_data_txids (active_graph w).2) →
    NUM_ASSERT_DATA_TX ≤ size (<[compute_txid tx := tx]> signed) →
    transition c (EvPegOutGraphConfirmation tx h) (PreAssertConfirmed g w ch ftxid commitment l1 signed)
      (AssertDataConfirmed g w ftxid commitment (<[compute_txid tx := tx]> signed))
| TPostAssert tx h g w ftxid commitment signed txs proof :
    compute_txid tx = post_assert_txid (active_graph w).2 →
    Pog.vsequence (vmap (λ txid, signed !! txid) (assert_data_txids (active_graph w).2)) = Some txs →
    parse_witnesses txs = Val (Some proof) →
    transition c (EvPegOutGraphConfirmation tx h) (AssertDataConfirmed g w ftxid commitment signed)
      (Asserted g w h ftxid commitment proof)
| TDisprove tx h g w pah ftxid commitment proof : is_disprove (post_assert_txid (active_graph w).2) tx = true →
    transition c (EvPegOutGraphConfirmation tx h) (Asserted g w pah ftxid commitment proof) Disproved
| TPayout tx h g w pah ftxid commitment proof : compute_txid tx = payout_txid (active_graph w).2 →
    transition c (EvPegOutGraphConfirmation tx h) (Asserted g w pah ftxid commitment proof)
      (Resolved (claim_txid (active_graph w).2) (w_withdrawal_request_txid w) ftxid (compute_txid tx)
        Contested).

(** What a handler does to the machine, seen from outside: the configuration stays, and the state
    stays or makes a move of the abstract machine. *)
Definition refines (ev : ContractEvent) (sm sm' : ContractSM) : Prop :=
  cfg sm' = cfg sm ∧ (cstate sm' = cstate sm ∨ transition (cfg sm) ev (cstate sm) (cstate sm')).

(** A life of the abstract machine, with the events that made its moves. *)
Inductive timeline (c : ContractCfg) (s0 : ContractState) : list ContractEvent → ContractState → Prop :=
| TL_start : timeline c s0 [] s0
| TL_move l ev s s' : timeline c s0 l s → transition c ev s s' → timeline c s0 (l ++ [ev]) s'.

(** The order of the phases. *)
Definition rank (s : ContractState) : nat :=
  match s with
  | Requested _ => 0 | Deposited _ => 1 | Assigned _ _ _ _ _ => 2 | Fulfilled _ _ _ _ _ => 3
  | Claimed _ _ _ _ _ _ => 4 | Challenged _ _ _ _ _ _ => 5 | PreAssertConfirmed _ _ _ _ _ _ _ => 6
  | AssertDataConfirmed _ _ _ _ _ => 7 | Asserted _ _ _ _ _ _ => 8
  | Disproved | Resolved _ _ _ _ _ | Aborted => 9
  end.

Definition terminal (s : ContractState) : bool :=
  match s with Disproved | Resolved _ _ _ _ _ | Aborted => true | _ => false end.

(** ** What a phase says about the chain

    The events that led to a phase, in their order: the deposit, the last assignment, the
    fulfillment, the claim, the pre-assert and the post-assert. *)

Definition assigned_by (c : ContractCfg) (ms : list ContractEvent) (w : Withdrawal) (recipient : Descriptor) : Prop :=
  ∃ txd entry d stx h,
    ms = [EvDepositConfirmation txd; EvAssignment entry stx h] ∧
    compute_txid txd = covenant_txid (deposit_tx c) ∧
    de_idx entry = deposit_idx c ∧ deposit_state entry = Dispatched d ∧ assignee d = fulfiller w ∧
    head (withdraw_outputs d) = Some recipient ∧
    de_withdrawal_request_txid entry = Some (w_withdrawal_request_txid w).

Definition fulfilled_by (c : ContractCfg) (ms : list ContractEvent) (w : Withdrawal) (ftxid : Txid) : Prop :=
  ∃ ms0 recipient tx h, ms = ms0 ++ [EvPegOutGraphConfirmation tx h] ∧ assigned_by c ms0 w recipient ∧
    fulfills c w recipient tx ∧ compute_txid tx = ftxid.

(** The events [ms0] and then the confirmation of the transaction [txid]. *)
Definition then_confirmed (P : list ContractEvent → Prop) (txid : Txid) (ms : list ContractEvent) : Prop :=
  ∃ ms0 tx h, ms = ms0 ++ [EvPegOutGraphConfirmation tx h] ∧ P ms0 ∧ compute_txid tx = txid.

Definition claimed_by c ms w ftxid :=
  then_confirmed (λ ms, fulfilled_by c ms w ftxid) (claim_txid (active_graph w).2) ms.
Definition pre_asserted_by c ms w ftxid :=
  then_confirmed (λ ms, claimed_by c ms w ftxid) (pre_assert_txid (active_graph w).2) ms.
Definition asserted_by c ms w ftxid :=
  then_confirmed (λ ms, pre_asserted_by c ms w ftxid) (post_assert_txid (active_graph w).2) ms.

Definition confirmed_in (l : list ContractEvent) (tx : Transaction) : Prop :=
  ∃ h, EvPegOutGraphConfirmation tx h ∈ l.

(** All the assert-data transactions of the active graph are confirmed. *)
Definition proof_published (l : list ContractEvent) (w : Withdrawal) : Prop :=
  ∀ txid, txid ∈ vec_to_list (assert_data_txids (active_graph w).2) →
    ∃ tx, confirmed_in l tx ∧ compute_txid tx = txid.

Definition data_confirmed (l : list ContractEvent) (signed : gmap Txid Transaction) : Prop :=
  ∀ txid tx, signed !! txid = Some tx → compute_txid tx = txid ∧ confirmed_in l tx.

(** The graphs with which the deposit was confirmed. *)
Definition registered (c : ContractCfg) (s0 : ContractState) (g : Graphs) : Prop :=
  ∃ l, timeline c s0 l (Deposited g).

(** The active graph is the one registered for the operator that serves the withdrawal. *)
Definition graph_of_fulfiller (c : ContractCfg) (g : Graphs) (w : Withdrawal) : Prop :=
  ∃ key claim, idx_to_p2p_key (operator_table c) (fulfiller w) = Some key ∧
    g_claim_txids g !! key = Some claim ∧ peg_out_graphs g !! claim = Some (active_graph w).

Definition served_by_registered (c : ContractCfg) (s0 : ContractState) (w : Withdrawal) : Prop :=
  ∃ g, registered c s0 g ∧ graph_of_fulfiller c g w.

Definition evidence (c : ContractCfg) (s0 : ContractState) (l : list ContractEvent) (s : ContractState) : Prop :=
  (∀ g, graphs_of s = Some g → registered c s0 g ∧
    ∀ w, withdrawal_of s = Some w → graph_of_fulfiller c g w) ∧
  match s with
  | Requested _ | Aborted => True
  | Deposited _ => ∃ tx, [EvDepositConfirmation tx] `sublist_of` l ∧
      compute_txid tx = covenant_txid (deposit_tx c)
  | Assigned _ w recipient _ _ => ∃ ms, ms `sublist_of` l ∧ assigned_by c ms w recipient
  | Fulfilled _ w ftxid _ _ => ∃ ms, ms `sublist_of` l ∧ fulfilled_by c ms w ftxid
  | Claimed _ w _ ftxid _ _ | Challenged _ w _ ftxid _ _ => ∃ ms, ms `sublist_of` l ∧ claimed_by c ms w ftxid
  | PreAssertConfirmed _ w _ ftxid _ _ signed | AssertDataConfirmed _ w ftxid _ signed =>
      (∃ ms, ms `sublist_of` l ∧ pre_asserted_by c ms w ftxid) ∧ data_confirmed l signed
  | Asserted _ w _ ftxid _ _ =>
      (∃ ms, ms `sublist_of` l ∧ asserted_by c ms w ftxid) ∧ proof_published l w
  | Disproved => ∃ ms w ftxid, ms `sublist_of` l ∧ served_by_registered c s0 w ∧
      asserted_by c ms w ftxid ∧ proof_published l w
  | Resolved claim request ftxid payout Optimistic => ∃ ms w, ms `sublist_of` l ∧ served_by_registered c s0 w ∧
      then_confirmed (λ ms, claimed_by c ms w ftxid) payout ms ∧ claim = claim_txid (active_graph w).2 ∧
      payout = payout_optimistic_txid (active_graph w).2 ∧ request = w_withdrawal_request_txid w
  | Resolved claim request ftxid payout Contested => ∃ ms w, ms `sublist_of` l ∧ served_by_registered c s0 w ∧
      then_confirmed (λ ms, asserted_by c ms w ftxid) payout ms ∧ claim = claim_txid (active_graph w).2 ∧
      payout = payout_txid (active_graph w).2 ∧ request = w_withdrawal_request_txid w ∧ proof_published l w
  end.

(** A handler of a chain of alternatives that rejects leaves the machine as it found it. *)
Definition inert {A} (h : ContractSM → comp (ContractSM * result TransitionErr A)) : Prop :=
  ∀ sm sm' e, h sm = Val (sm', Err e) → sm' = sm.

End lifecycle.

(** ** Inverting a handler *)

(** Every equation between a handler and its outcome, down to the branch that was taken. *)
Ltac handler_inv :=
  repeat match goal with
  | H : mbind _ _ = Val _ |- _ => apply comp_bind_Val in H as (? & ? & ?)
  | H : expect _ = Val _ |- _ => apply expect_Val in H
  | H : mret _ = Val _ |- _ => unfold mret, comp_ret in H; simplify_eq
  | H : accept _ _ = Val _ |- _ => unfold accept in H; simplify_eq
  | H : reject _ _ = Val _ |- _ => unfold reject in H; simplify_eq
  | H : or_reject ?o _ _ _ = Val _ |- _ => destruct o eqn:?; cbn [or_reject] in H
  | H : (if ?b then _ else _) = Val _ |- _ => destruct b eqn:?
  | H : (match ?x with _ => _ end) = Val _ |- _ => destruct x eqn:?
  | H : Panic = Val _ |- _ => discriminate H
  | H : Val _ = Val _ |- _ => simplify_eq
  end.

(** Boolean tests of the code as propositions. *)
Ltac bool_props :=
  repeat match goal with
  | H : negb _ = true |- _ => apply negb_true_iff in H
  | H : negb _ = false |- _ => apply negb_false_iff in H
  | H : bool_decide _ = true |- _ => apply bool_decide_eq_true in H
  | H : bool_decide _ = false |- _ => apply bool_decide_eq_false in H
  | H : ¬ (_ ≠ _) |- _ => apply dec_stable in H
  | H : (_ <=? _)%N = true |- _ => apply N.leb_le in H
  | H : (_ <=? _)%N = false |- _ => apply N.leb_gt in H
  | H : _ && _ = true |- _ => apply andb_true_iff in H as [? ?]
  end.

Section refinement.
Context `{BuildProfile, BitcoinLib, SighashLib, InstructionsLib, TaprootLib, DepositLib,
  DescriptorLib, Musig2Lib, TxGraphOps}.

Abbreviation cstate sm := (state (mstate sm)).

Lemma register_graphs_fixed graphs r :
  deposit_request_txid (foldl register_graph r graphs) = deposit_request_txid r ∧
  abort_deadline (foldl register_graph r graphs) = abort_deadline r ∧
  peg_out_graph_inputs (foldl register_graph r graphs) = peg_out_graph_inputs r ∧
  root_nonces (foldl register_graph r graphs) = root_nonces r ∧
  root_partials (foldl register_graph r graphs) = root_partials r.
Proof.
  revert r. induction graphs as [|sg graphs IH]; intros r; [done|].
  cbn [foldl]. destruct (IH (register_graph r sg)) as (-> & -> & -> & -> & ->). done.
Qed.

(** Reads the outcome off each branch of a handler; [tac] proves the moves. *)
Ltac refines_by Hs tac :=
  handler_inv; bool_props; cbn; rewrite ?Hs; split; try done; try (by left); right; tac.

Lemma deposit_setup_refines mt signer pk hash txid wots sm sm' res :
  process_deposit_setup mt signer pk hash txid wots sm = Val (sm', res) →
  refines (EvDepositSetup signer pk hash txid wots) sm sm'.
Proof.
  unfold process_deposit_setup, refines. intros Hp. destruct (cstate sm) eqn:Hs; handler_inv;
    cbn; rewrite ?Hs; split; try done; try by left.
  - right. by apply TSetup.
  - right. edestruct register_graphs_fixed as (Hreq & Hdl & _). by apply TSetup; [|rewrite Hreq|rewrite Hdl].
Qed.

Lemma graph_nonces_refines signer claim nonces sm sm' res :
  process_graph_nonces signer claim nonces sm = Val (sm', res) →
  refines (EvGraphNonces signer claim nonces) sm sm'.
Proof.
  unfold process_graph_nonces, refines. intros Hp. destruct (cstate sm) eqn:Hs; refines_by Hs ltac:(by apply TSetup).
Qed.

Lemma graph_signatures_refines signer claim sigs sm sm' res :
  process_graph_signatures signer claim sigs sm = Val (sm', res) →
  refines (EvGraphSigs signer claim sigs) sm sm'.
Proof.
  unfold process_graph_signatures, refines. intros Hp. destruct (cstate sm) eqn:Hs; refines_by Hs ltac:(by apply TSetup).
Qed.

Lemma aggregate_sigs_refines sigs sm sm' res :
  process_aggregate_sigs sigs sm = Val (sm', res) → refines (EvAggregatedSigs sigs) sm sm'.
Proof.
  unfold process_aggregate_sigs, refines. intros Hp. destruct (cstate sm) eqn:Hs; refines_by Hs ltac:(by apply TSetup).
Qed.

Lemma root_nonce_refines signer nonce sm sm' res :
  process_root_nonce signer nonce sm = Val (sm', res) → refines (EvRootNonce signer nonce) sm sm'.
Proof.
  unfold process_root_nonce, refines. intros Hp. destruct (cstate sm) eqn:Hs; refines_by Hs ltac:(by apply TSetup).
Qed.

Lemma root_signature_refines signer sig sm sm' res :
  process_root_signature signer sig sm = Val (sm', res) → refines (EvRootSig signer sig) sm sm'.
Proof.
  unfold process_root_signature, refines. intros Hp. destruct (cstate sm) eqn:Hs; refines_by Hs ltac:(by apply TSetup).
Qed.

Lemma deposit_confirmation_refines tx sm sm' res :
  process_deposit_confirmation tx sm = Val (sm', res) → refines (EvDepositConfirmation tx) sm sm'.
Proof.
  unfold process_deposit_confirmation, refines. intros Hp.
  destruct (cstate sm) eqn:Hs; refines_by Hs ltac:(by apply TDeposit).
Qed.

Lemma assignment_refines entry stx h sm sm' res :
  process_assignment entry stx h sm = Val (sm', res) → refines (EvAssignment entry stx h) sm sm'.
Proof.
  unfold process_assignment, refines. intros Hp.
  destruct (cstate sm) eqn:Hs; refines_by Hs
    ltac:(constructor; (split; [done|]); eexists _, _, _; split_and!; eauto).
Qed.

Lemma new_block_refines h sm sm' res :
  notify_new_block h sm = Val (sm', res) → refines (EvBlock h) sm sm'.
Proof.
  unfold notify_new_block, refines. intros Hp. handler_inv; cbn in *; handler_inv; bool_props; cbn;
    split; try done; try (by left).
  right. match goal with Hs : cstate sm = _ |- _ => rewrite Hs end. by apply TAbort.
Qed.

Lemma or_else_Val {A} (h1 h2 : ContractSM → comp (ContractSM * result TransitionErr A)) sm sm' res :
  inert h1 → or_else h1 h2 sm = Val (sm', res) →
  (∃ a, res = Ok a ∧ h1 sm = Val (sm', Ok a)) ∨ ((∃ e, h1 sm = Val (sm, Err e)) ∧ h2 sm = Val (sm', res)).
Proof.
  intros Hi. unfold or_else. intros ([sm1 [a|e]] & Hh1 & Hh2)%comp_bind_Val.
  - left. unfold accept in Hh2. simplify_eq. eauto.
  - right. specialize (Hi _ _ _ Hh1) as ->. eauto.
Qed.

Lemma challenge_inert tx : inert (process_challenge_confirmation tx).
Proof. intros sm sm' e. unfold process_challenge_confirmation. intros Hp. handler_inv; done. Qed.

Lemma optimistic_payout_inert tx : inert (process_optimistic_payout_confirmation tx).
Proof. intros sm sm' e. unfold process_optimistic_payout_confirmation. intros Hp. handler_inv; done. Qed.

Lemma pre_assert_inert tx : inert (process_pre_assert_confirmation tx).
Proof. intros sm sm' e. unfold process_pre_assert_confirmation. intros Hp. handler_inv; done. Qed.

Lemma disprove_inert tx : inert (process_disprove_confirmation tx).
Proof. intros sm sm' e. unfold process_disprove_confirmation. intros Hp. handler_inv; done. Qed.

Lemma claimed_refines tx h sm sm' res g w ch ftxid commitment l1 :
  cstate sm = Claimed g w ch ftxid commitment l1 →
  process_peg_out_graph_tx_confirmation h tx sm = Val (sm', res) →
  refines (EvPegOutGraphConfirmation tx h) sm sm'.
Proof.
  intros Hs. unfold process_peg_out_graph_tx_confirmation. rewrite Hs.
  intros [(a & -> & Hp)|[_ [(a & -> & Hp)|[_ Hp]]%(or_else_Val _ _ _ _ _ (optimistic_payout_inert tx))]]
    %(or_else_Val _ _ _ _ _ (challenge_inert tx)); revert Hp; unfold refines.
  - unfold process_challenge_confirmation. rewrite Hs. intros Hp. refines_by Hs ltac:(by apply TChallenge).
  - unfold process_optimistic_payout_confirmation. rewrite Hs. intros Hp.
    refines_by Hs ltac:(by eapply TOptimistic).
  - unfold process_pre_assert_confirmation. rewrite Hs. intros Hp.
    refines_by Hs ltac:(by apply TPreAssertClaimed).
Qed.

Lemma asserted_refines tx h sm sm' res g w pah ftxid commitment proof :
  cstate sm = Asserted g w pah ftxid commitment proof →
  process_peg_out_graph_tx_confirmation h tx sm = Val (sm', res) →
  refines (EvPegOutGraphConfirmation tx h) sm sm'.
Proof.
  intros Hs. unfold process_peg_out_graph_tx_confirmation. rewrite Hs.
  intros [(a & -> & Hp)|[_ Hp]]%(or_else_Val _ _ _ _ _ (disprove_inert tx)); revert Hp; unfold refines.
  - unfold process_disprove_confirmation. rewrite Hs. intros Hp. refines_by Hs ltac:(by apply TDisprove).
  - unfold process_defended_payout_confirmation. rewrite Hs. intros Hp.
    refines_by Hs ltac:(by eapply TPayout).
Qed.

Lemma graph_tx_refines tx h sm sm' res :
  process_peg_out_graph_tx_confirmation h tx sm = Val (sm', res) →
  refines (EvPegOutGraphConfirmation tx h) sm sm'.
Proof.
  intros Hp. destruct (cstate sm) eqn:Hs;
    try (by eapply claimed_refines); try (by eapply asserted_refines);
    revert Hp; unfold process_peg_out_graph_tx_confirmation; rewrite Hs; unfold refines;
    try (by intros Hp; refines_by Hs idtac).
  - unfold process_fulfillment_confirmation. rewrite Hs. intros Hp.
    destruct (is_fulfillment_tx _ _ _ _ _ _ _) as [[]|] eqn:Hf; cbn in Hp; refines_by Hs ltac:(by apply TFulfill).
  - unfold process_claim_confirmation. rewrite Hs. intros Hp.
    destruct (parse_witness tx) as [[]|] eqn:Hw; refines_by Hs ltac:(by apply TClaim).
  - unfold process_pre_assert_confirmation. rewrite Hs. intros Hp. refines_by Hs ltac:(by apply TPreAssert).
  - unfold process_assert_data_confirmation. rewrite Hs. intros Hp. cbn in Hp.
    refines_by Hs ltac:(first [by apply TAssertData|apply TAssertDataLast; [done|lia]]).
  - unfold process_post_assert_confirmation. rewrite Hs. intros Hp.
    handler_inv; bool_props; cbn; rewrite ?Hs; split; try done; try (by left); right; eapply TPostAssert; eauto.
Qed.

Lemma claim_failure_refines ev sm sm' res :
  process_claim_verification_failure sm = Val (sm', res) → refines ev sm sm'.
Proof. unfold process_claim_verification_failure. intros Hp. handler_inv; split; auto. Qed.

Lemma assertion_failure_refines ev sm sm' res :
  process_assertion_verification_failure sm = Val (sm', res) → refines ev sm sm'.
Proof. unfold process_assertion_verification_failure. intros Hp. handler_inv; split; auto. Qed.

Lemma event_refines mt ev sm sm' res :
  process_contract_event mt ev sm = Val (sm', res) → refines ev sm sm'.
Proof.
  destruct ev; cbn [process_contract_event]; unfold collect_duty; intros Hp; handler_inv;
    try match goal with H : _ = Val ?p |- _ => is_var p; destruct p end; cbn;
    eauto using deposit_setup_refines, graph_nonces_refines, graph_signatures_refines,
      aggregate_sigs_refines, root_nonce_refines, root_signature_refines, deposit_confirmation_refines,
      assignment_refines, new_block_refines, graph_tx_refines, claim_failure_refines,
      assertion_failure_refines.
Qed.

(** ** Runs and timelines *)

Lemma run_timeline inputs sm sm' outs :
  run inputs sm = Val (sm', outs) →
  cfg sm' = cfg sm ∧ ∃ l, l `sublist_of` events inputs ∧ timeline (cfg sm) (cstate sm) l (cstate sm').
Proof.
  assert (Hgen : ∀ l0 pre s0, timeline (cfg sm) s0 l0 (cstate sm) → l0 `sublist_of` pre →
    run inputs sm = Val (sm', outs) → cfg sm' = cfg sm ∧
    ∃ l, l `sublist_of` (pre ++ events inputs) ∧ timeline (cfg sm) s0 l (cstate sm')).
  2: { intros Hr. apply (Hgen [] []); [apply TL_start|constructor|exact Hr]. }
  revert sm outs. induction inputs as [|i inputs IH]; intros sm outs l0 pre s0 Htl Hsub Hr; cbn in Hr.
  - handler_inv. split; [done|]. exists l0. by rewrite app_nil_r.
  - apply comp_bind_Val in Hr as ([sm1 o1] & Hi & ([sm2 o2] & Hr & Hout)%comp_bind_Val).
    unfold mret, comp_ret in Hout; simplify_eq/=. destruct i as [mt ev|].
    + cbn in Hi. apply comp_bind_Val in Hi as ([sm3 res] & [Hcfg Hmove]%event_refines & Hi). handler_inv.
      rewrite <-Hcfg. cbn [events omap list_omap].
      destruct Hmove as [Heq|Hmove].
      * eapply (IH sm1 o2 l0 (pre ++ [ev])) in Hr; [|by rewrite Hcfg, Heq|by apply sublist_inserts_r].
        by rewrite <-app_assoc in Hr.
      * eapply (IH sm1 o2 (l0 ++ [ev]) (pre ++ [ev])) in Hr;
          [|rewrite Hcfg; by eapply TL_move|by apply sublist_app].
        by rewrite <-app_assoc in Hr.
    + cbn in Hi. handler_inv. by eapply (IH _ _ l0 pre s0) in Hr.
Qed.

Lemma transition_rank c ev s s' : transition c ev s s' → rank s ≤ rank s' ∧ terminal s = false.
Proof. destruct 1; cbn; split; (lia || done). Qed.

Lemma timeline_rank c s0 l s : timeline c s0 l s → rank s0 ≤ rank s ∧ (terminal s0 = true → s = s0).
Proof.
  induction 1 as [|l ev s s' _ [IHr IHt] Ht]; [done|]. apply transition_rank in Ht as [Hr Hterm].
  split; [lia|]. intros H0'. rewrite (IHt H0') in Hterm. congruence.
Qed.

Lemma sublist_keep (ms l : list ContractEvent) ev : ms `sublist_of` l → ms `sublist_of` (l ++ [ev]).
Proof. intros. by apply sublist_inserts_r. Qed.

Lemma sublist_extend (ms l : list ContractEvent) ev :
  ms `sublist_of` l → (ms ++ [ev]) `sublist_of` (l ++ [ev]).
Proof. intros. by apply sublist_app. Qed.

Lemma data_confirmed_keep l ev signed : data_confirmed l signed → data_confirmed (l ++ [ev]) signed.
Proof.
  intros Hd txid tx (? & h & ?)%Hd. split; [done|]. exists h. apply elem_of_app. by left.
Qed.

Lemma data_confirmed_insert l tx h signed :
  data_confirmed l signed →
  data_confirmed (l ++ [EvPegOutGraphConfirmation tx h]) (<[compute_txid tx := tx]> signed).
Proof.
  intros Hd txid tx' [[<- <-]|[_ Hl]]%lookup_insert_Some; [|by apply (data_confirmed_keep _ _ signed)].
  split; [done|]. exists h. apply elem_of_app. right. by left.
Qed.

Lemma proof_published_keep l ev w : proof_published l w → proof_published (l ++ [ev]) w.
Proof.
  intros Hp txid (tx & [h ?] & ?)%Hp. exists tx. split; [|done]. exists h. apply elem_of_app. by left.
Qed.

Lemma vsequence_lookups {n} (signed : gmap Txid Transaction) (txids : vec Txid n) txs txid :
  Pog.vsequence (vmap (λ txid, signed !! txid) txids) = Some txs →
  txid ∈ vec_to_list txids → ∃ tx, signed !! txid = Some tx.
Proof.
  induction txids as [|t n txids IH]; cbn; [set_solver|].
  intros (tx & Htx & (txs' & Hs & _)%bind_Some)%bind_Some [->|Hin]%elem_of_cons; eauto.
Qed.

Lemma all_data_published l (signed : gmap Txid Transaction) w txs :
  data_confirmed l signed →
  Pog.vsequence (vmap (λ txid, signed !! txid) (assert_data_txids (active_graph w).2)) = Some txs →
  proof_published l w.
Proof.
  intros Hd Hs txid Hin. destruct (vsequence_lookups _ _ _ _ Hs Hin) as [tx Htx].
  exists tx. apply Hd in Htx. naive_solver.
Qed.

Lemma assigned_by_intro c l txd entry stx h g w recipient deadline :
  [EvDepositConfirmation txd] `sublist_of` l → compute_txid txd = covenant_txid (deposit_tx c) →
  assigns c entry g w recipient deadline →
  ∃ ms, ms `sublist_of` (l ++ [EvAssignment entry stx h]) ∧ assigned_by c ms w recipient.
Proof.
  intros Hsub Htxid (Hidx & d & key & claim & ?). exists [EvDepositConfirmation txd; EvAssignment entry stx h].
  split; [by apply (sublist_extend [_])|]. exists txd, entry, d, stx, h. naive_solver.
Qed.

Lemma then_confirmed_intro (P : list ContractEvent → Prop) l tx h txid :
  (∃ ms, ms `sublist_of` l ∧ P ms) → compute_txid tx = txid →
  ∃ ms, ms `sublist_of` (l ++ [EvPegOutGraphConfirmation tx h]) ∧ then_confirmed P txid ms.
Proof.
  intros (ms & Hsub & HP) Htx. exists (ms ++ [EvPegOutGraphConfirmation tx h]).
  split; [by apply sublist_extend|]. by exists ms, tx, h.
Qed.

Lemma transition_graphs c s0 l ev s s' : timeline c s0 l s → transition c ev s s' →
  (∀ g, graphs_of s = Some g → registered c s0 g ∧
    ∀ w, withdrawal_of s = Some w → graph_of_fulfiller c g w) →
  ∀ g, graphs_of s' = Some g → registered c s0 g ∧
    ∀ w, withdrawal_of s' = Some w → graph_of_fulfiller c g w.
Proof.
  intros Htl Ht Hg. pose proof (TL_move _ _ _ _ _ _ Htl Ht) as Htl'.
  destruct Ht; cbn in *; intros ? [= <-]; split; try (intros ? [= <-]); try (by apply Hg).
  - by eexists.
  - destruct H9 as (_ & d & key & claim & Ha). exists key, claim. naive_solver.
  - destruct H9 as (_ & d & key & claim & Ha). exists key, claim. naive_solver.
Qed.

Lemma served_intro c s0 s g w :
  (∀ g, graphs_of s = Some g → registered c s0 g ∧
    ∀ w, withdrawal_of s = Some w → graph_of_fulfiller c g w) →
  graphs_of s = Some g → withdrawal_of s = Some w → served_by_registered c s0 w.
Proof. intros Hg Hgs Hw. exists g. destruct (Hg _ Hgs). eauto. Qed.

Lemma evidence_move c s0 l ev s s' :
  timeline c s0 l s → evidence c s0 l s → transition c ev s s' → evidence c s0 (l ++ [ev]) s'.
Proof.
  intros Htl [Hg Hev] Ht. split; [by eapply transition_graphs|].
  pose proof (served_intro c s0 s) as Hserved.
  destruct Ht as [| | |? stx h ? w recipient ? Ha|? stx h ???? h0 w recipient ? Ha
    |tx h ? w recipient ?? Hf|tx h|tx h|tx h|tx h|tx h|tx h|tx h|tx h ?????? txs ?? Hseq|tx h|tx h];
    cbn in *; try done.
  - exists tx. split; [|done]. by apply sublist_inserts_l.
  - destruct Hev as (txd & Hsub & Htxd). by eapply assigned_by_intro.
  - destruct Hev as (ms & Hsub & txd & entry0 & d & stx0 & h' & -> & Htxd & _).
    eapply assigned_by_intro; [|done..]. etrans; [|done]. apply sublist_skip, sublist_nil_l.
  - destruct Hev as (ms & Hsub & Hms). exists (ms ++ [EvPegOutGraphConfirmation tx h]).
    split; [by apply sublist_extend|]. by exists ms, recipient, tx, h.
  - by eapply then_confirmed_intro.
  - destruct Hev as (ms & ? & ?). exists ms. split; [by apply sublist_keep|done].
  - eapply (then_confirmed_intro _ _ tx h) in Hev as (ms & ? & ?); [|reflexivity].
    exists ms, w. split_and!; eauto.
  - split; [|done]. by eapply then_confirmed_intro.
  - split; [|done]. by eapply then_confirmed_intro.
  - destruct Hev as [(ms & ? & ?) Hd]. split; [|by apply data_confirmed_insert].
    exists ms. split; [by apply sublist_keep|done].
  - destruct Hev as [(ms & ? & ?) Hd]. split; [|by apply data_confirmed_insert].
    exists ms. split; [by apply sublist_keep|done].
  - destruct Hev as [Hms Hd]. split; [by eapply then_confirmed_intro|].
    by eapply proof_published_keep, all_data_published.
  - destruct Hev as [(ms & ? & ?) Hd]. exists ms, w, ftxid.
    split_and!; eauto using sublist_keep, proof_published_keep.
  - destruct Hev as [Hms Hd]. eapply (then_confirmed_intro _ _ tx h) in Hms as (ms & ? & ?); [|reflexivity].
    exists ms, w. split_and!; eauto using proof_published_keep.
Qed.

Lemma timeline_evidence c r l s : timeline c (Requested r) l s → evidence c (Requested r) l s.
Proof. induction 1; [by split|by eapply evidence_move]. Qed.

Lemma new_state c h d sm : ContractSM_new c h d = Val sm →
  cfg sm = c ∧ pog sm = ∅ ∧ block_height (mstate sm) = h ∧
  ∃ txid, cfg_deposit_request_txid c = Val txid ∧ cstate sm = ContractState_new txid d.
Proof.
  unfold ContractSM_new. intros (txid & Ht & Hsm)%comp_bind_Val. unfold mret, comp_ret in Hsm.
  simplify_eq. eauto 6.
Qed.

(** ** Properties *)


(** C1: A deposit is resolved only when it was served.  If a machine that started with a deposit
    request is in [Resolved], the deliveries contain, in this order, the confirmation of the
    deposit transaction, an assignment of this deposit, a transaction that pays the assigned
    recipient as the withdrawal fulfillment of the assigned operator, the claim transaction of the
    graph registered for that operator when the deposit was confirmed, and its payout; on the contested path also, before the payout, the
    pre-assert and post-assert of that graph, with all its assert-data transactions confirmed.
    The recorded transaction ids are those of these transactions. *)
Theorem resolved_deposit_was_served c h deadline sm inputs sm' outs claim request ftxid payout path :
  ContractSM_new c h deadline = Val sm → run inputs sm = Val (sm', outs) →
  cstate sm' = Resolved claim request ftxid payout path →
  ∃ ms w, ms `sublist_of` events inputs ∧ served_by_registered c (cstate sm) w ∧
    claim = claim_txid (active_graph w).2 ∧ request = w_withdrawal_request_txid w ∧
    match path with
    | Optimistic => then_confirmed (λ ms, claimed_by c ms w ftxid) payout ms ∧
        payout = payout_optimistic_txid (active_graph w).2
    | Contested => then_confirmed (λ ms, asserted_by c ms w ftxid) payout ms ∧
        payout = payout_txid (active_graph w).2 ∧ proof_published (events inputs) w
    end.
Proof.
  intros (Hc & _ & _ & txid & _ & Hs)%new_state (_ & l & Hl & Htl)%run_timeline Hres.
  rewrite Hc, Hs, Hres in Htl. rewrite Hs. apply timeline_evidence in Htl as [_ Hev].
  destruct path; cbn in Hev; destruct Hev as (ms & w & Hms & Hev).
  - exists ms, w. split; [by etrans|]. naive_solver.
  - exists ms, w. split; [by etrans|]. destruct Hev as (? & ? & ? & ? & ? & Hp). split_and!; try done.
    intros t (tx & [ht Hin] & Ht)%Hp. exists tx. split; [|done]. exists ht.
    eapply elem_of_submseteq; [done|by apply sublist_submseteq].
Qed.

End refinement.

(** ** Witnesses *)

Section witnesses.
#[local] Existing Instances example_profile example_bitcoin example_sighash example_instructions
  example_descriptor example_keyagg example_musig example_graph.


Lemma resolved_deposit_was_served_witness :
  let inputs := (Feed false <$> example_asserted 1) ++ [Restart; Feed true (confirm 170 (tx_with 5205 []))]%N in
  ∃ ms w, ms `sublist_of` events inputs ∧ served_by_registered example_cfg (state (mstate example_start)) w ∧
    (5201%N = claim_txid (active_graph w).2 ∧ 66%N = w_withdrawal_request_txid w ∧
     then_confirmed (λ ms, asserted_by example_cfg ms w 700%N) 5205%N ms ∧
     5205%N = payout_txid (active_graph w).2 ∧ proof_published (events inputs) w).
Proof.
  intros inputs.
  destruct (resolved_deposit_was_served example_cfg 90 600 example_start inputs (example_after inputs).1
    (example_after inputs).2 5201 66 700 5205 Contested) as (ms & w & Hms);
    [vm_compute; reflexivity..|].
  exists ms, w. exact Hms.
Defined.

End witnesses.
