(* ===== verification/ContractDuties.v ===== *)
(** * What the contract asks for, and what it must be told

    The transactions of the graphs that move a contract pass its filter, the deposit only once a graph is
    registered; the duties that wait for a timelock are
    due exactly when it has run out; the deposit is published only with the signatures of all
    operators; and who is asked to verify a claim and an assertion. *)

From S2P Require Import Prelude Bitcoin OperatorTable PogMusig Wots TxTypes Taproot Deposit Predicates ContractTypes ContractSM ContractExample ContractLifecycle.

Section duties.
Context `{BuildProfile, BitcoinLib, SighashLib, InstructionsLib, TaprootLib, DepositLib,
  DescriptorLib, Musig2Lib, TxGraphOps}.

Abbreviation cstate sm := (state (mstate sm)).

(** The height at which our duty is due, and the duty, in the states that wait for a timelock. *)
Definition maturity (c : ContractCfg) (s : ContractState) : option (BitcoinBlockHeight * OperatorDuty) :=
  w ← withdrawal_of s;
  g ← graphs_of s;
  sigs ← g_graph_sigs g !! claim_txid (active_graph w).2;
  let summary := (active_graph w).2 in
  let p := connector_params c in
  let dtxid := covenant_txid (deposit_tx c) in
  if bool_decide (fulfiller w = pov_idx (operator_table c)) then
    match s with
    | Claimed _ _ claim_height _ _ _ =>
        Some ((claim_height + payout_optimistic_timelock p)%N,
          DFulfiller (PublishPayoutOptimistic dtxid (claim_txid summary) (stake_txid summary)
            (deposit_idx c) (payout_optimistic sigs)))
    | Challenged _ _ claim_height _ _ _ =>
        Some ((claim_height + pre_assert_timelock p)%N,
          DFulfiller (PublishPreAssert (deposit_idx c) dtxid (claim_txid summary) (pre_assert sigs)))
    | Asserted _ _ post_assert_height _ _ _ =>
        Some ((post_assert_height + payout_timelock p)%N,
          DFulfiller (PublishPayout (deposit_idx c) dtxid (post_assert_txid summary)
            (claim_txid summary) (op_txid (stake_outpoint (active_graph w).1)) (payout sigs)))
    | _ => None
    end
  else None.

(** The heights of the [n] blocks after height [b]. *)
Definition next_heights (b : BitcoinBlockHeight) (n : nat) : list BitcoinBlockHeight :=
  (λ k, b + 1 + N.of_nat k)%N <$> seq 0 n.

Definition blocks (b : BitcoinBlockHeight) (n : nat) : list Input :=
  (λ h, Feed false (EvBlock h)) <$> next_heights b n.

(** The partial signature [sig] of the deposit was checked for the operator with key [btc] against
    the nonces [m] that were known when it arrived, a part of those in [r]. *)
Definition verified_root_partial (c : ContractCfg) (r : RequestedState) (op : P2POperatorPubKey)
    (btc : PublicKey) (sig : PartialSignature) : Prop :=
  ∃ nonce m ctx msg, root_nonces r !! op = Some nonce ∧ m ⊆ root_nonces r ∧
    create_agg_ctx (btc_keys (operator_table c)) (Vector.hd (witnesses (deposit_tx c))) = Ok ctx ∧
    deposit_sighash c = Val msg ∧
    verify_partial ctx sig (AggNonce_sum (bt_values m)) btc nonce msg = true.

Definition root_partials_verified (c : ContractCfg) (r : RequestedState) : Prop :=
  ∀ op sig, root_partials r !! op = Some sig →
    ∃ btc, p2p_key_to_btc_key (operator_table c) op = Some btc ∧ verified_root_partial c r op btc sig.

Definition requested_inv (P : RequestedState → Prop) (s : ContractState) : Prop :=
  match s with Requested r => P r | _ => True end.

(** Only the two events on the deposit's signature change what is known of it. *)
Definition root_event (ev : ContractEvent) : bool :=
  match ev with EvRootNonce _ _ | EvRootSig _ _ => true | _ => false end.

(** The P2P keys in the order of the indices. *)
Definition p2p_order (t : OperatorTable) : list P2POperatorPubKey := fst <$> bt_values (idx_key t).

End duties.

Section filter.
Context `{BuildProfile, BitcoinLib, SighashLib, InstructionsLib, TaprootLib, DepositLib,
  DescriptorLib, Musig2Lib, TxGraphOps}.

Abbreviation cstate sm := (state (mstate sm)).

Lemma anyM_true {A} (p : A → comp bool) l x :
  (∀ y, y ∈ l → ∃ b, p y = Val b) → x ∈ l → p x = Val true → anyM p l = Val true.
Proof.
  induction l as [|y l IH]; intros Hall Hin Hx; [by apply not_elem_of_nil in Hin|]. cbn.
  destruct (Hall y) as [b Hb]; [by left|]. rewrite Hb. cbn. destruct b; [done|].
  apply elem_of_cons in Hin as [->|Hin]; [congruence|]. apply IH; auto. intros z Hz. apply Hall. by right.
Qed.

Lemma fulfillment_any_operator net params op1 op2 dep txid recipient tx b :
  is_fulfillment_tx net params op1 dep txid recipient tx = Val b →
  ∃ b', is_fulfillment_tx net params op2 dep txid recipient tx = Val b'.
Proof.
  unfold is_fulfillment_tx. intros (a & Ha & _)%comp_bind_Val. rewrite Ha. cbn. eauto.
Qed.

Lemma active_graph_in_summaries c g w s :
  graphs_of s = Some g → graph_of_fulfiller c g w → (active_graph w).2 ∈ summaries s.
Proof.
  intros Hg (key & claim & _ & _ & Hl).
  assert (summaries s = snd <$> bt_values (peg_out_graphs g)) as ->
    by (destruct s; cbn in *; simplify_eq; done).
  apply list_elem_of_fmap. exists (active_graph w). split; [done|]. apply elem_of_bt_values. eauto.
Qed.

(** The transactions that the abstract machine moves on are transactions of the active graph, or the
    fulfillment by the operator that is assigned. *)
Lemma move_is_graph_tx c tx h s s' w :
  transition c (EvPegOutGraphConfirmation tx h) s s' → withdrawal_of s = Some w →
  (∃ g recipient dl l1, s = Assigned g w recipient dl l1 ∧ fulfills c w recipient tx) ∨
  (rank s ≠ 2 ∧ graph_tx tx (active_graph w).2 = true).
Proof.
  intros Ht Hw. inversion Ht; subst; cbn in Hw; simplify_eq; [left; by eauto 8|right..];
    (split; [done|]); unfold graph_tx;
    rewrite !orb_true_iff, !bool_decide_eq_true;
    try match goal with E : compute_txid tx = _ |- _ => symmetry in E end; tauto.
Qed.

Lemma move_has_withdrawal c tx h s s' : transition c (EvPegOutGraphConfirmation tx h) s s' →
  ∃ g w, graphs_of s = Some g ∧ withdrawal_of s = Some w.
Proof. intros Ht. inversion Ht; subst; cbn; eauto. done. Qed.

Lemma move_passes_filter sm tx h s' g w :
  graphs_of (cstate sm) = Some g → withdrawal_of (cstate sm) = Some w →
  graph_of_fulfiller (cfg sm) g w →
  transition (cfg sm) (EvPegOutGraphConfirmation tx h) (cstate sm) s' →
  transaction_filter sm tx = Val true.
Proof.
  intros Hg Hw Hgw Ht. unfold transaction_filter.
  destruct (move_is_graph_tx _ _ _ _ _ _ Ht Hw) as [(g' & recipient & dl & l1 & Hs & Hf)|[Hr Htx]].
  - rewrite Hs in *. erewrite (anyM_true _ _ (fulfiller w)); [done| | |exact Hf].
    + intros op _. by eapply fulfillment_any_operator.
    + destruct Hgw as (key & _ & Hk & _). unfold idx_to_p2p_key in Hk. apply elem_of_elements, elem_of_dom.
      destruct (idx_key _ !! _); [by eexists|done].
  - assert (existsb (λ g, bool_decide (deposit_txid sm = compute_txid tx) || graph_tx tx g)
      (summaries (cstate sm)) = true) as Hex.
    { apply existsb_true. exists (active_graph w).2. split; [by eapply active_graph_in_summaries|].
      by rewrite Htx, orb_true_r. }
    destruct (cstate sm); cbn in *; try done; by rewrite Hex.
Qed.

(** A requested contract lets the deposit through once a graph is registered. *)
Lemma deposit_filter sm tx r :
  cstate sm = Requested r → compute_txid tx = deposit_txid sm →
  transaction_filter sm tx = Val (if decide (peg_out_graph_summaries r = ∅) then false else true).
Proof.
  intros Hr Htx. unfold transaction_filter. rewrite Hr. cbn [mbind comp_bind mret comp_ret summaries]. f_equal.
  case_decide as E; [by rewrite E|]. destruct (map_choose _ E) as (claim & summary & Hl). apply existsb_true.
  exists summary. split; [apply elem_of_bt_values; eauto|]. by rewrite Htx, bool_decide_eq_true_2.
Qed.

(** C25: Which transactions that matter pass the filter.  On every reachable machine, if a confirmed
    transaction of a graph or a fulfillment would make the contract change its state,
    [transaction_filter] lets it through.  The deposit transaction is different: its confirmation
    takes a requested contract to [Deposited], and the filter lets it through exactly when a graph is registered, so
    that before the first setup it does not. *)
Theorem filter_passes_graph_moves c h deadline sm inputs sm' outs :
  ContractSM_new c h deadline = Val sm → run inputs sm = Val (sm', outs) →
  (∀ mt tx height sm'' res,
    process_contract_event mt (EvPegOutGraphConfirmation tx height) sm' = Val (sm'', res) →
    cstate sm'' ≠ cstate sm' → transaction_filter sm' tx = Val true) ∧
  (∀ mt tx r, cstate sm' = Requested r → compute_txid tx = covenant_txid (deposit_tx c) →
    (∀ sm'' res, process_contract_event mt (EvDepositConfirmation tx) sm' = Val (sm'', res) →
      ∃ g, cstate sm'' = Deposited g) ∧
    (transaction_filter sm' tx = Val true ↔ peg_out_graph_summaries r ≠ ∅) ∧
    (transaction_filter sm' tx = Val false ↔ peg_out_graph_summaries r = ∅)).
Proof.
  intros (Hc & _ & _ & txid & _ & Hs)%new_state (Hc' & l & _ & Htl)%run_timeline. rewrite Hs, Hc in Htl.
  apply timeline_evidence in Htl as [Hg _]. split.
  - intros mt tx height sm'' res [_ [?|Ht]]%event_refines Hne; [done|].
    destruct (move_has_withdrawal _ _ _ _ _ Ht) as (g & w & Hgs & Hw).
    destruct (Hg g Hgs) as [_ Hgw]. rewrite <-Hc, <-Hc' in Hgw. by eapply move_passes_filter; eauto.
  - intros mt tx r Hr Htx. split.
    { intros sm'' res ([sm1 r1] & Hp & [= <- _])%comp_bind_Val. unfold process_deposit_confirmation, deposit_txid in Hp.
      rewrite Hr, Hc', Hc, Htx, bool_decide_eq_false_2 in Hp by auto. apply comp_bind_Val in Hp as (graphs & _ & Hp).
      injection Hp as <- _. by eexists. }
    rewrite (deposit_filter sm' tx r Hr) by (unfold deposit_txid; by rewrite Hc', Hc, Htx).
    destruct (decide (peg_out_graph_summaries r = ∅)) as [E|E]; split; split; congruence.
Qed.

End filter.

Section timelocks.
Context `{BuildProfile, BitcoinLib, SighashLib, InstructionsLib, TaprootLib, DepositLib,
  DescriptorLib, Musig2Lib, TxGraphOps}.

Abbreviation cstate sm := (state (mstate sm)).

Lemma next_heights_S b n : next_heights b (S n) = (b + 1)%N :: next_heights (b + 1) n.
Proof.
  unfold next_heights. cbn [seq fmap list_fmap]. rewrite N.add_0_r. f_equal.
  rewrite <-(fmap_S_seq 0 n), <-list_fmap_compose. apply list_fmap_ext. intros i x _. cbn. lia.
Qed.

Lemma timelock_over_small sm since timelock idx : (since + timelock ≤ U64_MAX)%N →
  timelock_over sm since timelock idx =
    Val ((since + timelock <=? block_height (mstate sm))%N && is_pov sm idx).
Proof. intros Hle. unfold timelock_over. by rewrite u64_add_small. Qed.

Lemma run_block mt b n sm sm1 res outs sm' :
  notify_new_block (b + 1) sm = Val (sm1, res) → run (blocks (b + 1) n) sm1 = Val (sm', outs) →
  run (Feed mt (EvBlock (b + 1)) :: blocks (b + 1) n) sm =
    Val (sm', match res with Ok d => Ok (opt_list d) | Err e => Err e end :: outs).
Proof.
  intros Hn Hr. cbn [run input_step process_contract_event]. unfold collect_duty.
  rewrite Hn. cbn [mbind comp_bind mret comp_ret fst snd]. by rewrite Hr.
Qed.

Lemma blocks_S b n : blocks b (S n) = Feed false (EvBlock (b + 1)) :: blocks (b + 1) n.
Proof. unfold blocks. by rewrite next_heights_S. Qed.

(** The machine after a block that changes nothing but its height. *)
Lemma notify_matured sm due duty :
  maturity (cfg sm) (cstate sm) = Some (due, duty) → (due ≤ U64_MAX)%N →
  (block_height (mstate sm) + 1 ≤ U64_MAX)%N →
  notify_new_block (block_height (mstate sm) + 1) sm =
    Val (with_height sm (block_height (mstate sm) + 1),
         Ok (if (due <=? block_height (mstate sm) + 1)%N then Some duty else None)).
Proof.
  intros Hm Hdue Hb. unfold maturity in Hm.
  apply bind_Some in Hm as (w & Hw & (g & Hg & (sigs & Hsigs & Hm)%bind_Some)%bind_Some).
  case_bool_decide as Hpov; [|done].
  unfold notify_new_block. rewrite u64_add_small by done. cbn [mbind comp_bind].
  rewrite bool_decide_eq_false_2 by auto. cbn [cfg with_height mstate state].
  destruct (cstate sm); simplify_eq; cbn in Hw, Hg; simplify_eq;
    rewrite timelock_over_small by done; cbn [mbind comp_bind]; unfold is_pov;
    cbn [block_height mstate with_height cfg]; rewrite (bool_decide_eq_true_2 _ Hpov), andb_true_r;
    case_match; [rewrite Hsigs|..]; done || by rewrite Hsigs.
Qed.

(** C39: A duty that waits for a timelock is due exactly when it has run out.  For the operator
    serving a withdrawal, with the graph's signatures at hand, in the state after the claim, the
    challenge or the post-assert: the machine accepts every following block, and asks for the
    optimistic payout, the pre-assert or the payout at each block from the height at which the
    timelock ends and at no block before it. *)
Theorem timelocked_duties sm n due duty :
  maturity (cfg sm) (cstate sm) = Some (due, duty) → (due ≤ U64_MAX)%N →
  (block_height (mstate sm) + N.of_nat n ≤ U64_MAX)%N →
  run (blocks (block_height (mstate sm)) n) sm =
    Val (with_height sm (block_height (mstate sm) + N.of_nat n),
         (λ h, Ok (if (due <=? h)%N then [duty] else [])) <$> next_heights (block_height (mstate sm)) n).
Proof.
  revert sm. induction n as [|n IH]; intros sm Hm Hdue Hb.
  - rewrite N.add_0_r. by destruct sm as [? []].
  - rewrite blocks_S, next_heights_S.
    pose proof (IH (with_height sm (block_height (mstate sm) + 1)) Hm Hdue ltac:(cbn; lia)) as Hr.
    erewrite run_block; [|apply (notify_matured _ _ _ Hm); [done|lia]|exact Hr].
    cbn [block_height mstate with_height fmap list_fmap].
    replace (block_height (mstate sm) + 1 + N.of_nat n)%N
      with (block_height (mstate sm) + N.of_nat (S n))%N by lia.
    do 3 f_equal. by destruct (_ <=? _)%N.
Qed.

Lemma notify_aborted sm :
  cstate sm = Aborted → (block_height (mstate sm) + 1 ≤ U64_MAX)%N →
  notify_new_block (block_height (mstate sm) + 1) sm =
    Val (with_height sm (block_height (mstate sm) + 1), Ok None).
Proof.
  intros Hs Hb. unfold notify_new_block. rewrite u64_add_small by done. cbn [mbind comp_bind].
  rewrite bool_decide_eq_false_2 by auto. cbn [mstate with_height state]. by rewrite Hs.
Qed.

Lemma notify_requested sm r :
  cstate sm = Requested r → (block_height (mstate sm) + 1 ≤ U64_MAX)%N →
  notify_new_block (block_height (mstate sm) + 1) sm =
    Val (if (abort_deadline r <=? block_height (mstate sm) + 1)%N
         then (with_state (with_height sm (block_height (mstate sm) + 1)) Aborted, Ok (Some Abort))
         else (with_height sm (block_height (mstate sm) + 1), Ok None)).
Proof.
  intros Hs Hb. unfold notify_new_block. rewrite u64_add_small by done. cbn [mbind comp_bind].
  rewrite bool_decide_eq_false_2 by auto. cbn [mstate with_height state]. rewrite Hs. by case_match.
Qed.

Lemma blocks_aborted sm n :
  cstate sm = Aborted → (block_height (mstate sm) + N.of_nat n ≤ U64_MAX)%N →
  run (blocks (block_height (mstate sm)) n) sm =
    Val (with_height sm (block_height (mstate sm) + N.of_nat n),
         (λ _, Ok []) <$> next_heights (block_height (mstate sm)) n).
Proof.
  revert sm. induction n as [|n IH]; intros sm Hs Hb.
  - rewrite N.add_0_r. by destruct sm as [? []].
  - rewrite blocks_S, next_heights_S.
    pose proof (IH (with_height sm (block_height (mstate sm) + 1)) Hs ltac:(cbn; lia)) as Hr.
    erewrite run_block; [|apply (notify_aborted _ Hs); lia|exact Hr].
    cbn [block_height mstate with_height fmap list_fmap].
    by replace (block_height (mstate sm) + 1 + N.of_nat n)%N
      with (block_height (mstate sm) + N.of_nat (S n))%N by lia.
Qed.

(** A request that is not deposited in time is aborted, once, and at the right block.  While
    blocks arrive and nothing else happens, a requested contract stays as it is before its abort
    deadline, moves to [Aborted] with the duty to abort at the first block that reaches the
    deadline, and asks for nothing afterwards. *)
Theorem request_aborts_at_deadline sm r n :
  cstate sm = Requested r → (block_height (mstate sm) + N.of_nat n ≤ U64_MAX)%N →
  let b := block_height (mstate sm) in
  let due := N.max (abort_deadline r) (b + 1) in
  ∃ sm', run (blocks b n) sm =
      Val (sm', (λ h, Ok (if (h =? due)%N then [Abort] else [])) <$> next_heights b n) ∧
    block_height (mstate sm') = (b + N.of_nat n)%N ∧
    cstate sm' = if (due <=? b + N.of_nat n)%N then Aborted else Requested r.
Proof.
  revert sm. induction n as [|n IH]; intros sm Hs Hb b due; subst b due.
  - exists sm. rewrite N.add_0_r, (proj2 (N.leb_gt _ _)) by lia. done.
  - rewrite blocks_S, next_heights_S. pose proof (notify_requested sm r Hs) as Hn.
    destruct (N.leb_spec (abort_deadline r) (block_height (mstate sm) + 1)) as [Hd|Hd].
    + pose proof (blocks_aborted (with_state (with_height sm (block_height (mstate sm) + 1)) Aborted) n
        eq_refl ltac:(cbn; lia)) as Hr.
      eexists. split.
      * erewrite run_block; [|apply Hn; lia|exact Hr].
        cbn [fmap list_fmap opt_list]. rewrite (proj2 (N.eqb_eq _ _)) by lia. do 3 f_equal.
        apply list_fmap_ext. intros i x Hx. f_equal. apply list_elem_of_lookup_2 in Hx.
        apply list_elem_of_fmap in Hx as (k & -> & _). rewrite (proj2 (N.eqb_neq _ _)) by (cbn; lia). done.
      * cbn. rewrite (proj2 (N.leb_le _ _)) by lia. split; [lia|done].
    + destruct (IH (with_height sm (block_height (mstate sm) + 1)) Hs) as (sm' & Hr & Hh & Hst); [cbn; lia|].
      cbn [block_height mstate with_height] in Hr, Hh, Hst. exists sm'. split; [|split].
      * erewrite run_block; [|apply Hn; lia|exact Hr]. cbn [fmap list_fmap opt_list].
        rewrite !N.max_l by lia. rewrite (proj2 (N.eqb_neq _ _)) by lia. done.
      * rewrite Hh. lia.
      * rewrite Hst, !N.max_l by lia. replace (block_height (mstate sm) + 1 + N.of_nat n)%N
          with (block_height (mstate sm) + N.of_nat (S n))%N by lia. done.
Qed.

End timelocks.

Section signing.
Context `{BuildProfile, BitcoinLib, SighashLib, InstructionsLib, TaprootLib, DepositLib,
  DescriptorLib, Musig2Lib, TxGraphOps}.

Abbreviation cstate sm := (state (mstate sm)).

(** An invariant of the machine holds along its runs. *)
Lemma run_ind (P : ContractSM → Prop) inputs sm sm' outs :
  P sm →
  (∀ mt ev sm sm' res, Feed mt ev ∈ inputs → P sm → process_contract_event mt ev sm = Val (sm', res) → P sm') →
  (∀ sm, P sm → P (restore (cfg sm) (mstate sm))) →
  run inputs sm = Val (sm', outs) → P sm'.
Proof.
  intros Hsm Hev Hre. revert sm outs Hsm. induction inputs as [|i inputs IH]; intros sm outs Hsm Hr; cbn in Hr.
  - by handler_inv.
  - apply comp_bind_Val in Hr as ([sm1 o1] & Hi & ([sm2 o2] & Hr & Hout)%comp_bind_Val).
    unfold mret, comp_ret in Hout; simplify_eq/=. eapply IH; [| |exact Hr].
    + intros mt ev s s' res ?. apply Hev. by right.
    + destruct i as [mt ev|]; cbn in Hi.
      * apply comp_bind_Val in Hi as ([sm3 res] & Hp & Hi). handler_inv. eapply Hev; [by left|done..].
      * handler_inv. by apply Hre.
Qed.

Lemma root_fields_kept mt ev sm sm' res r r' :
  root_event ev = false → process_contract_event mt ev sm = Val (sm', res) →
  cstate sm = Requested r → cstate sm' = Requested r' →
  root_nonces r' = root_nonces r ∧ root_partials r' = root_partials r.
Proof.
  intros Hev Hp Hs Hs'. destruct (setup_event ev) eqn:Hset.
  - destruct ev; try done; cbn [process_contract_event] in Hp; unfold collect_duty in Hp;
      try apply comp_bind_Val in Hp as ([sm1 res1] & Hp & ?); handler_inv; cbn in *; revert Hp;
      unfold process_deposit_setup, process_graph_nonces, process_graph_signatures, process_aggregate_sigs;
      rewrite Hs; intros Hp; handler_inv; cbn in Hs'; try rewrite Hs in Hs'; simplify_eq; try done.
    edestruct register_graphs_fixed as (_ & _ & _ & -> & ->). done.
  - apply event_refines in Hp as [_ [Heq|Ht]]; rewrite Hs, Hs' in *; [by simplify_eq|].
    inversion Ht; congruence.
Qed.


Lemma requested_before mt ev sm sm' res r' :
  process_contract_event mt ev sm = Val (sm', res) → cstate sm' = Requested r' →
  cfg sm' = cfg sm ∧ ∃ r, cstate sm = Requested r.
Proof.
  intros [Hc [Heq|Ht]]%event_refines Hs'; split; try done; rewrite Hs' in *; [by eexists|].
  inversion Ht. by eexists.
Qed.

Lemma verified_root_partial_mono c r r' op btc sig :
  root_nonces r ⊆ root_nonces r' → verified_root_partial c r op btc sig → verified_root_partial c r' op btc sig.
Proof.
  intros Hsub (nonce & m & ctx & msg & Hn & Hm & Hrest). exists nonce, m, ctx, msg.
  split_and!; [by eapply lookup_weaken|by etrans|naive_solver..].
Qed.

Lemma root_nonce_step signer nonce sm sm' res r :
  process_root_nonce signer nonce sm = Val (sm', res) → cstate sm = Requested r →
  sm' = sm ∨ root_nonces r !! signer = None ∧
    cstate sm' = Requested (set_root_nonces r (<[signer := nonce]> (root_nonces r))).
Proof.
  unfold process_root_nonce. intros Hp Hs. rewrite Hs in Hp. handler_inv; auto.
Qed.

Lemma root_signature_step signer sig sm sm' res r :
  process_root_signature signer sig sm = Val (sm', res) → cstate sm = Requested r →
  (sm' = sm ∧ ∀ d, res ≠ Ok (Some d)) ∨
  ∃ btc, p2p_key_to_btc_key (operator_table (cfg sm)) signer = Some btc ∧
    root_partials r !! signer = None ∧ verified_root_partial (cfg sm) r signer btc sig ∧
    cstate sm' = Requested (set_root_partials r (<[signer := sig]> (root_partials r))) ∧
    res = Ok (if bool_decide (size (<[signer := sig]> (root_partials r)) = cardinality (operator_table (cfg sm)))
      then Some (PublishDeposit (deposit_tx (cfg sm))
        (in_table_order (operator_table (cfg sm)) (<[signer := sig]> (root_partials r)))
        (AggNonce_sum (bt_values (root_nonces r)))) else None).
Proof.
  unfold process_root_signature. intros Hp Hs. rewrite Hs in Hp.
  destruct (create_agg_ctx _ _) as [ctx|] eqn:Hctx; handler_inv; bool_props; try (by left).
  right. unfold expect_ok in *. simplify_eq. eexists. split_and!; try done.
  eexists _, (root_nonces r), _, _. split_and!; eauto.
Qed.

Lemma root_signature_duty signer sig sm sm' d :
  process_root_signature signer sig sm = Val (sm', Ok (Some d)) → ∃ r, cstate sm = Requested r.
Proof. unfold process_root_signature. intros Hp. handler_inv; eauto. Qed.

Lemma root_partials_verified_event mt ev sm sm' res :
  requested_inv (root_partials_verified (cfg sm)) (cstate sm) →
  process_contract_event mt ev sm = Val (sm', res) →
  requested_inv (root_partials_verified (cfg sm')) (cstate sm').
Proof.
  intros Hinv Hp. destruct (cstate sm') as [r'| | | | | | | | | | |] eqn:Hs'; try done. cbn.
  destruct (requested_before _ _ _ _ _ _ Hp Hs') as (Hc & r & Hs). rewrite Hc. rewrite Hs in Hinv. cbn in Hinv.
  destruct (root_event ev) eqn:Hev.
  - destruct ev; try done; cbn in Hp; unfold collect_duty in Hp;
      apply comp_bind_Val in Hp as ([sm1 res1] & Hp & ?); handler_inv; cbn in Hs'.
    + apply (root_nonce_step _ _ _ _ _ r) in Hp as [->|[Hn Hr']]; [|rewrite Hs' in Hr'; injection Hr' as ->|done].
      { rewrite Hs in Hs'. by injection Hs' as <-. }
      intros op s (btc & Hb & Hv)%Hinv. exists btc. split; [done|].
      eapply verified_root_partial_mono; [|exact Hv]. by apply insert_subseteq.
    + apply (root_signature_step _ _ _ _ _ r) in Hp as [[-> _]|(btc & Hb & Hn & Hv & Hr' & _)];
        [|rewrite Hs' in Hr'; injection Hr' as ->|done].
      { rewrite Hs in Hs'. by injection Hs' as <-. }
      intros op s. cbn [root_partials set_root_partials].
      intros [[<- <-]|[_ Hl]]%lookup_insert_Some; [by exists btc|]. by apply Hinv.
  - destruct (root_fields_kept _ _ _ _ _ _ _ Hev Hp Hs Hs') as [Hn Hpart].
    intros op s. rewrite Hpart. intros (btc & Hb & Hv)%Hinv. exists btc. split; [done|].
    eapply verified_root_partial_mono; [|exact Hv]. by rewrite Hn.
Qed.


Lemma NoDup_p2p_order t : table_wf t → NoDup (p2p_order t).
Proof.
  intros Hwf. unfold p2p_order, bt_values. rewrite <- list_fmap_compose.
  apply NoDup_fmap_2_strong; [|rewrite bt_iter_perm; apply NoDup_map_to_list].
  intros [i [o b]] [i' [o' b']] Hi%elem_of_bt_iter Hi'%elem_of_bt_iter [= ->].
  apply (wf_p2p t Hwf) in Hi, Hi'. congruence.
Qed.

Lemma in_table_order_omap {V} t (m : gmap P2POperatorPubKey V) :
  table_wf t → in_table_order t m = omap (λ op, m !! op) (p2p_order t).
Proof.
  intros Hwf. unfold in_table_order, btc_keys, p2p_order, bt_values. rewrite !omap_fmap_list.
  apply omap_ext_in. intros [idx [op btc]] Hi%elem_of_bt_iter. cbn.
  apply (wf_btc t Hwf) in Hi. unfold btc_key_to_p2p_key. by rewrite Hi.
Qed.

(** As many entries as operators, all from operators: the entries of all operators. *)
Lemma all_operators_present {V} t (m : gmap P2POperatorPubKey V) :
  table_wf t → size m = cardinality t → (∀ op, is_Some (m !! op) → is_Some (p2p_key_to_btc_key t op)) →
  bt_keys m ≡ₚ p2p_order t.
Proof.
  intros Hwf Hsize Hop. apply submseteq_length_Permutation.
  - apply NoDup_submseteq; [apply NoDup_bt_keys|]. intros op Hin%elem_of_bt_keys%Hop.
    destruct Hin as [btc Hbtc]. unfold p2p_key_to_btc_key in Hbtc.
    apply fmap_Some in Hbtc as ([idx b] & Hl & ->). apply (wf_p2p t Hwf) in Hl.
    apply list_elem_of_fmap. exists (op, b). split; [done|]. apply elem_of_bt_values. eauto.
  - unfold p2p_order. by rewrite length_fmap, length_bt_values, length_bt_keys, Hsize.
Qed.

Lemma table_order_complete {V} t (m : gmap P2POperatorPubKey V) :
  table_wf t → size m = cardinality t → (∀ op, is_Some (m !! op) → is_Some (p2p_key_to_btc_key t op)) →
  Forall2 (λ btc v, ∃ op, p2p_key_to_btc_key t op = Some btc ∧ m !! op = Some v) (btc_keys t) (in_table_order t m).
Proof.
  intros Hwf Hsize Hop. pose proof (all_operators_present t m Hwf Hsize Hop) as Hperm.
  rewrite in_table_order_omap by done. unfold p2p_order in *. unfold btc_keys, bt_values in *.
  rewrite !omap_fmap_list. rewrite <-list_fmap_compose in *.
  assert (∀ idx op btc, (idx, (op, btc)) ∈ bt_iter (idx_key t) →
    p2p_key_to_btc_key t op = Some btc ∧ is_Some (m !! op)) as Hl.
  { intros idx op btc Hin. split.
    - apply elem_of_bt_iter, (wf_p2p t Hwf) in Hin. unfold p2p_key_to_btc_key. by rewrite Hin.
    - apply elem_of_bt_keys. rewrite Hperm. apply list_elem_of_fmap. by exists (idx, (op, btc)). }
  clear Hperm. induction (bt_iter (idx_key t)) as [|[idx [op btc]] l IH]; cbn; [done|].
  destruct (Hl idx op btc) as [Hb [v Hv]]; [by left|]. rewrite Hv. constructor; [by exists op|].
  apply IH. intros. eapply Hl. by right.
Qed.

(** C3: The deposit is published only with the signatures of all operators.  On every reachable
    machine with a well-formed operator table, when a partial signature makes the contract issue
    [PublishDeposit], the duty carries the deposit transaction and one partial signature for each
    operator, in the order of the operator table; each was checked against that operator's key and
    nonce for the deposit's signature hash; and the aggregated nonce is that of all known nonces. *)
Theorem deposit_published_with_all_signatures c h deadline sm inputs sm1 outs mt signer sig sm2 dtx partials agg :
  table_wf (operator_table c) →
  ContractSM_new c h deadline = Val sm → run inputs sm = Val (sm1, outs) →
  process_contract_event mt (EvRootSig signer sig) sm1 = Val (sm2, Ok [PublishDeposit dtx partials agg]) →
  dtx = deposit_tx c ∧ ∃ r, cstate sm2 = Requested r ∧ agg = AggNonce_sum (bt_values (root_nonces r)) ∧
    Forall2 (λ btc sig, ∃ op, p2p_key_to_btc_key (operator_table c) op = Some btc ∧
      root_partials r !! op = Some sig ∧ verified_root_partial c r op btc sig)
      (btc_keys (operator_table c)) partials.
Proof.
  intros Hwf (Hc & _ & _ & txid & _ & Hs)%new_state Hrun Hp.
  assert (requested_inv (root_partials_verified (cfg sm1)) (cstate sm1)) as Hinv.
  { eapply (run_ind (λ sm, requested_inv (root_partials_verified (cfg sm)) (cstate sm))); [| | |exact Hrun]; [..|done].
    - rewrite Hs. intros op s Hl. change ((∅ : gmap N N) !! op = Some s) in Hl. by rewrite lookup_empty in Hl.
    - intros *  _. apply root_partials_verified_event. }
  apply run_timeline in Hrun as [Hc1 _]. rewrite Hc in Hc1.
  pose proof (root_partials_verified_event _ _ _ _ _ Hinv Hp) as Hinv2.
  pose proof (proj1 (event_refines _ _ _ _ _ Hp)) as Hc2. rewrite Hc2, Hc1 in Hinv2.
  cbn in Hp. unfold collect_duty in Hp. apply comp_bind_Val in Hp as ([sm3 res] & Hp & Hres).
  unfold mret, comp_ret in Hres. simplify_eq/=. destruct res as [[d|]|]; simplify_eq/=.
  destruct (root_signature_duty _ _ _ _ _ Hp) as [r Hs1].
  apply (root_signature_step _ _ _ _ _ r) in Hp as [[_ Hd]|(btc & Hb & _ & _ & Hs2 & Hres)];
    [by destruct (Hd _ eq_refl)| |done].
  case_bool_decide as Hsize; simplify_eq. rewrite Hc1 in *. split; [done|].
  rewrite Hs2 in Hinv2. eexists. split; [done|]. split; [done|]. cbn in Hinv2.
  eapply Forall2_impl; [apply table_order_complete; try done|].
  - intros op [s Hl]. destruct (Hinv2 op s Hl) as (b & ? & _). by exists b.
  - intros b s (op & Hop & Hl). exists op. split_and!; [done|done|].
    destruct (Hinv2 op s Hl) as (b' & Hb' & Hv). by simplify_eq.
Qed.

End signing.

Section verification.
Context `{BuildProfile, BitcoinLib, SighashLib, InstructionsLib, TaprootLib, DepositLib,
  DescriptorLib, Musig2Lib, TxGraphOps}.

Abbreviation cstate sm := (state (mstate sm)).

Lemma claimed_asks_no_check tx h sm sm' d g w ch ftxid commitment l1 :
  cstate sm = Claimed g w ch ftxid commitment l1 →
  process_peg_out_graph_tx_confirmation h tx sm = Val (sm', Ok (Some d)) →
  ∃ f, d = DFulfiller f.
Proof.
  intros Hs. unfold process_peg_out_graph_tx_confirmation. rewrite Hs.
  intros [(a & [= <-] & Hp)|[_ [(a & [= <-] & Hp)|[_ Hp]]%(or_else_Val _ _ _ _ _ (optimistic_payout_inert tx))]]
    %(or_else_Val _ _ _ _ _ (challenge_inert tx)); revert Hp.
  - unfold process_challenge_confirmation. rewrite Hs. intros Hp. handler_inv.
  - unfold process_optimistic_payout_confirmation. rewrite Hs. intros Hp. handler_inv.
  - unfold process_pre_assert_confirmation. rewrite Hs. intros Hp. handler_inv. eauto.
Qed.

Lemma asserted_asks_no_check tx h sm sm' d g w pah ftxid commitment proof :
  cstate sm = Asserted g w pah ftxid commitment proof →
  process_peg_out_graph_tx_confirmation h tx sm = Val (sm', Ok d) → d = None.
Proof.
  intros Hs. unfold process_peg_out_graph_tx_confirmation. rewrite Hs.
  intros [(a & [= <-] & Hp)|[_ Hp]]%(or_else_Val _ _ _ _ _ (disprove_inert tx)); revert Hp.
  - unfold process_disprove_confirmation. rewrite Hs. intros Hp. by handler_inv.
  - unfold process_defended_payout_confirmation. rewrite Hs. intros Hp. by handler_inv.
Qed.

Lemma no_check_elsewhere tx h sm sm' d :
  ¬ (rank (cstate sm) = 3 ∨ rank (cstate sm) = 7) →
  process_peg_out_graph_tx_confirmation h tx sm = Val (sm', Ok d) →
  ∀ d', d = Some d' → ∃ f, d' = DFulfiller f.
Proof.
  intros Hr Hp d' ->. destruct (cstate sm) eqn:Hs; cbn in Hr; try lia;
    try (by eapply claimed_asks_no_check); try (by eapply asserted_asks_no_check in Hp);
    unfold process_peg_out_graph_tx_confirmation in Hp; rewrite Hs in Hp; handler_inv.
  - unfold process_fulfillment_confirmation in Hp. rewrite Hs in Hp. handler_inv; branches; eauto.
  - unfold process_pre_assert_confirmation in Hp. rewrite Hs in Hp. handler_inv; eauto.
  - unfold process_assert_data_confirmation in Hp. rewrite Hs in Hp. handler_inv; eauto.
Qed.

(** Who is asked to check a claim and an assertion.  When a transaction of the graph confirms,
    the contract asks this operator to verify the claim exactly when the transaction is the claim
    of another operator.  It asks to verify the assertion exactly when the transaction is this
    operator's own post-assert: the operators who could challenge a faulty proof are never asked,
    against the documentation of [VerifyAssertion]. *)
Theorem assertion_checked_by_its_author_only mt tx h sm sm' duties :
  process_contract_event mt (EvPegOutGraphConfirmation tx h) sm = Val (sm', Ok duties) →
  (DVerifier VerifyClaim ∈ duties ↔
    ∃ w, rank (cstate sm) = 3 ∧ rank (cstate sm') = 4 ∧ withdrawal_of (cstate sm) = Some w ∧
      fulfiller w ≠ pov_idx (operator_table (cfg sm))) ∧
  (DVerifier VerifyAssertion ∈ duties ↔
    ∃ w, rank (cstate sm) = 7 ∧ rank (cstate sm') = 8 ∧ withdrawal_of (cstate sm) = Some w ∧
      fulfiller w = pov_idx (operator_table (cfg sm))).
Proof.
  cbn [process_contract_event]. unfold collect_duty.
  intros ([sm1 [d|]] & Hp & Hres)%comp_bind_Val; unfold mret, comp_ret in Hres; simplify_eq/=.
  destruct (decide (rank (cstate sm) = 3 ∨ rank (cstate sm) = 7)) as [Hr|Hr].
  - destruct (cstate sm) eqn:Hs; cbn in Hr; try lia; unfold process_peg_out_graph_tx_confirmation in Hp;
      rewrite Hs in Hp.
    + unfold process_claim_confirmation, is_pov in Hp. rewrite Hs in Hp. handler_inv.
      destruct (bool_decide (fulfiller _ = _)) eqn:Hpov; bool_props; cbn;
        rewrite ?list_elem_of_singleton, ?elem_of_nil; naive_solver.
    + unfold process_post_assert_confirmation, is_pov in Hp. rewrite Hs in Hp. handler_inv.
      destruct (bool_decide (fulfiller _ = _)) eqn:Hpov; bool_props; cbn;
        rewrite ?list_elem_of_singleton, ?elem_of_nil; naive_solver.
  - pose proof (no_check_elsewhere _ _ _ _ _ Hr Hp) as Hd. split; split;
      try (intros (w & ? & _); tauto); destruct d as [d|]; cbn; try (by intros ?%not_elem_of_nil);
      destruct (Hd d eq_refl) as [f ->]; by intros ?%list_elem_of_singleton.
Qed.

End verification.

(** ** Witnesses *)

Section witnesses.
#[local] Existing Instances example_profile example_bitcoin example_sighash example_instructions
  example_descriptor example_keyagg example_musig example_graph.

(** A claim passes, and so does the deposit after a setup; before any setup the deposit does not, although
    its confirmation moves the contract. *)
Lemma filter_passes_graph_moves_witness :
  transaction_filter (example_after (Feed false <$> example_served 1)).1 (tx_with 5202 []) = Val true ∧
  transaction_filter (example_after (Feed false <$> take 2 example_setup)).1 (tx_with 9 []) = Val true ∧
  transaction_filter example_start (tx_with 9 []) = Val false ∧
  (λ p, rank (state (mstate p.1))) <$> process_contract_event false (EvDepositConfirmation (tx_with 9 [])) example_start = Val 1.
Proof.
  split; [|split; [|split]].
  - destruct (filter_passes_graph_moves example_cfg 90 600 example_start (Feed false <$> example_served 1)
      (example_after (Feed false <$> example_served 1)).1 (example_after (Feed false <$> example_served 1)).2)
      as [Hmove _]; [vm_compute; reflexivity..|].
    eapply (Hmove false (tx_with 5202 []) 130%N); [vm_compute; reflexivity|vm_compute; discriminate].
  - destruct (filter_passes_graph_moves example_cfg 90 600 example_start (Feed false <$> take 2 example_setup)
      (example_after (Feed false <$> take 2 example_setup)).1 (example_after (Feed false <$> take 2 example_setup)).2)
      as [_ Hdeposit]; [vm_compute; reflexivity..|].
    edestruct (Hdeposit false (tx_with 9 [])) as (_ & [_ Hpass] & _); [vm_compute; reflexivity..|].
    apply Hpass. vm_compute. discriminate.
  - destruct (filter_passes_graph_moves example_cfg 90 600 example_start [] example_start [])
      as [_ Hdeposit]; [vm_compute; reflexivity..|].
    edestruct (Hdeposit false (tx_with 9 [])) as (_ & _ & [_ Hpass]); [vm_compute; reflexivity..|].
    apply Hpass. vm_compute. reflexivity.
  - vm_compute. reflexivity.
Defined.

(** The claim confirms at height 120; with a timelock of 1008 blocks, the payout is due at 1128. *)
Lemma timelocked_duties_witness :
  let sm := with_height (example_after (Feed false <$> example_served 0)).1 1126 in
  ∃ sm' duty, run (blocks 1126 3) sm = Val (sm', [Ok []; Ok [duty]; Ok [duty]]).
Proof.
  intros sm.
  pose (m := default (0%N, Abort) (maturity example_cfg (state (mstate sm)))).
  exists (with_height sm 1129), m.2.
  rewrite (timelocked_duties sm 3 m.1 m.2); [vm_compute; reflexivity|vm_compute; reflexivity|..];
    vm_compute; discriminate.
Defined.

Lemma request_aborts_at_deadline_witness :
  let sm := with_height example_start 598 in
  ∃ sm', run (blocks 598 3) sm = Val (sm', [Ok []; Ok [Abort]; Ok []]) ∧ state (mstate sm') = Aborted.
Proof.
  intros sm.
  destruct (request_aborts_at_deadline sm (match state (mstate sm) with Requested r => r
    | _ => mkRequested 0 0 ∅ ∅ ∅ ∅ ∅ ∅ ∅ ∅ ∅ end) 3) as (sm' & Hr & _ & Hs);
    [vm_compute; reflexivity|vm_compute; discriminate|].
  exists sm'. split; [exact Hr|exact Hs].
Defined.

Lemma deposit_published_with_all_signatures_witness :
  let sm1 := (example_after (Feed false <$> take 13 example_setup)).1 in
  ∃ r, agg_nonces r ≠ ∅ ∧ 13%N = AggNonce_sum (bt_values (root_nonces r)) ∧
    Forall2 (λ btc sig, ∃ op, p2p_key_to_btc_key example_table op = Some btc ∧
      root_partials r !! op = Some sig ∧ verified_root_partial example_cfg r op btc sig)
      (btc_keys example_table) [7; 8]%N.
Proof.
  intros sm1.
  pose (sm2 := (example_after (Feed false <$> take 14 example_setup)).1).
  destruct (deposit_published_with_all_signatures example_cfg 90 600 example_start
    (Feed false <$> take 13 example_setup) sm1 (example_after (Feed false <$> take 13 example_setup)).2
    false 20 8 sm2 example_deposit_tx [7; 8]%N 13) as (_ & r & Hs & Hagg & Hall).
  - eapply (new_wf [(0, 10, 100); (1, 20, 200)]%N (select_idx 0)). vm_compute. reflexivity.
  - vm_compute. reflexivity.
  - vm_compute. reflexivity.
  - vm_compute. reflexivity.
  - exists r. split; [|split; [exact Hagg|exact Hall]].
    vm_compute in Hs. injection Hs as <-. vm_compute. discriminate.
Defined.

(** Operator 0 is asked to verify its own assertion, and not that of operator 1. *)
Lemma assertion_checked_by_its_author_only_witness :
  let last s := confirm 160 (tx_with (100 * s + 4)%N []) in
  let before idx := (example_after (Feed false <$> take 59 (example_asserted idx))).1 in
  (∃ sm' duties, process_contract_event false (last 51%N) (before 0%N) = Val (sm', Ok duties) ∧
    DVerifier VerifyAssertion ∈ duties) ∧
  (∃ sm' duties, process_contract_event false (last 52%N) (before 1%N) = Val (sm', Ok duties) ∧
    DVerifier VerifyAssertion ∉ duties).
Proof.
  intros last before. split.
  - pose (sm' := (example_after (Feed false <$> example_asserted 0)).1).
    exists sm', [DVerifier VerifyAssertion]. split; [vm_compute; reflexivity|].
    destruct (assertion_checked_by_its_author_only false (tx_with 5104%N []) 160 (before 0%N) sm'
      [DVerifier VerifyAssertion]) as [_ [_ Hback]]; [vm_compute; reflexivity|].
    apply Hback. destruct (withdrawal_of (state (mstate (before 0%N)))) as [w|] eqn:Hw; [|by vm_compute in Hw].
    exists w. split_and!; [vm_compute; reflexivity..|]. vm_compute in Hw. injection Hw as <-. reflexivity.
  - pose (sm' := (example_after (Feed false <$> example_asserted 1)).1).
    exists sm', []. split; [vm_compute; reflexivity|].
    destruct (assertion_checked_by_its_author_only false (tx_with 5204%N []) 160 (before 1%N) sm' [])
      as [_ [Hforth _]]; [vm_compute; reflexivity|].
    intros (w & _ & _ & Hw & Hpov)%Hforth. vm_compute in Hw. injection Hw as <-. vm_compute in Hpov. discriminate.
Defined.

End witnesses.
