(* ===== verification/ContractCache.v ===== *)
(** * The graph cache of the contract

    The machine caches peg-out graphs by stake transaction, drops the cache when it is restored, and
    may build graphs on worker threads without caching them.  None of this can be observed as long as no
    two operators set up a deposit with the same stake transaction: the states, the duties and the
    errors are those of a machine that builds every graph afresh.  The machine itself does not check this;
    with a shared stake transaction the cache returns the graph of the other operator
    ([shared_stake_observable]). *)

From S2P Require Import Prelude Bitcoin OperatorTable PogMusig Wots TxTypes Taproot Deposit Predicates ContractTypes ContractSM ContractExample ContractLifecycle ContractDuties.

(** Two computations that panic together, or return related values. *)
Definition comp_rel {A B} (R : A → B → Prop) (c1 : comp A) (c2 : comp B) : Prop :=
  match c1, c2 with
  | Val a, Val b => R a b
  | Panic, Panic => True
  | _, _ => False
  end.

Section cache.
Context `{BuildProfile, BitcoinLib, SighashLib, InstructionsLib, TaprootLib, DepositLib,
  DescriptorLib, Musig2Lib, TxGraphOps}.

(** The operator a stake transaction belongs to, as the stake chains determine it. *)
Variable owner : Txid → P2POperatorPubKey.

(** A setup names a stake transaction of its sender. *)
Definition owned (ev : ContractEvent) : Prop :=
  match ev with EvDepositSetup signer _ _ stake_txid _ => owner stake_txid = signer | _ => True end.

Definition restake (i : PegOutGraphInput) (s : Txid) : PegOutGraphInput :=
  mkPegOutGraphInput (mkOutPoint s STAKE_VOUT) (mkOutPoint s WITHDRAWAL_FULFILLMENT_VOUT)
    (pgi_stake_hash i) (wots_public_keys i) (pgi_operator_pubkey i).

(** An input spends a stake of its owner. *)
Definition input_ok (p : P2POperatorPubKey) (i : PegOutGraphInput) : Prop :=
  owner (op_txid (stake_outpoint i)) = p ∧ restake i (op_txid (stake_outpoint i)) = i.

Definition inputs_ok (inputs : BTreeMap P2POperatorPubKey PegOutGraphInput) : Prop :=
  ∀ p i, inputs !! p = Some i → input_ok p i.

(** Every cached graph is the one that would be built for its stake. *)
Definition coherent (c : ContractCfg) (inputs : BTreeMap P2POperatorPubKey PegOutGraphInput)
    (cache : BTreeMap Txid Graph) : Prop :=
  ∀ k g, cache !! k = Some g → ∃ i, inputs !! owner k = Some i ∧ build_graph c (restake i k) = Val g.

Definition cache_inv (sm : ContractSM) : Prop :=
  requested_inv (λ r, inputs_ok (peg_out_graph_inputs r) ∧
    coherent (cfg sm) (peg_out_graph_inputs r) (pog sm)) (state (mstate sm)).

(** Two machines that differ at most in their caches. *)
Definition same_but_cache (sm1 sm2 : ContractSM) : Prop :=
  cfg sm1 = cfg sm2 ∧ mstate sm1 = mstate sm2 ∧ cache_inv sm1 ∧ cache_inv sm2.

(** What can be observed of an outcome. *)
Definition observe {A} (p : ContractSM * A) : MachineState * A := (mstate p.1, p.2).

End cache.

Section coherence.
Context `{BuildProfile, BitcoinLib, SighashLib, InstructionsLib, TaprootLib, DepositLib,
  DescriptorLib, Musig2Lib, TxGraphOps}.
Variable owner : Txid → P2POperatorPubKey.

Abbreviation cstate sm := (state (mstate sm)).

Lemma cached_graph_spec c inputs cache p i :
  coherent owner c inputs cache → inputs !! p = Some i → input_ok owner p i →
  comp_rel (λ o g, o.2 = g ∧ coherent owner c inputs o.1) (cached_graph c cache i) (build_graph c i).
Proof.
  intros Hcoh Hl [Ho Hi]. unfold cached_graph. destruct (cache !! _) as [g|] eqn:Hg.
  - destruct (Hcoh _ _ Hg) as (i' & Hl' & Hb). rewrite Ho, Hl in Hl'. simplify_eq.
    rewrite Hi in Hb. by rewrite Hb.
  - destruct (build_graph c i) as [g|] eqn:Hb; cbn; [|done]. split; [done|].
    intros k g' [[<- <-]|[_ Hk]]%lookup_insert_Some; [|by apply Hcoh].
    exists i. by rewrite Ho, Hi.
Qed.

Lemma coherent_empty c inputs : coherent owner c inputs ∅.
Proof. intros k g Hk. by rewrite lookup_empty in Hk. Qed.

(** A setup keeps the cached graphs right: it only replaces the stake of an input. *)
Lemma coherent_upsert c inputs cache signer pk hash stake wots :
  coherent owner c inputs cache →
  coherent owner c (<[signer := upsert_input (inputs !! signer) pk hash stake wots]> inputs) cache.
Proof.
  intros Hcoh k g Hk. destruct (Hcoh k g Hk) as (i & Hl & Hb).
  destruct (decide (signer = owner k)) as [->|Hne].
  - rewrite lookup_insert_eq. eexists. split; [done|]. rewrite Hl. exact Hb.
  - exists i. by rewrite lookup_insert_ne.
Qed.

Lemma inputs_ok_upsert inputs signer pk hash stake wots :
  inputs_ok owner inputs → owner stake = signer →
  inputs_ok owner (<[signer := upsert_input (inputs !! signer) pk hash stake wots]> inputs).
Proof.
  intros Hok Ho p i [[<- <-]|[_ Hl]]%lookup_insert_Some; [|by apply Hok].
  unfold input_ok, upsert_input. by destruct (inputs !! signer).
Qed.

Lemma comp_rel_bind {A1 A2 B1 B2} (R : A1 → A2 → Prop) (S : B1 → B2 → Prop) c1 c2
    (f1 : A1 → comp B1) (f2 : A2 → comp B2) :
  comp_rel R c1 c2 → (∀ a1 a2, R a1 a2 → comp_rel S (f1 a1) (f2 a2)) →
  comp_rel S (c1 ≫= f1) (c2 ≫= f2).
Proof. destruct c1, c2; cbn; naive_solver. Qed.

Lemma comp_rel_refl {A} (R : A → A → Prop) c : (∀ a, R a a) → comp_rel R c c.
Proof. destruct c; cbn; auto. Qed.

Lemma comp_rel_trans {A B C} (R : A → B → Prop) (S : B → C → Prop) (T : A → C → Prop) c1 c2 c3 :
  (∀ a b c, R a b → S b c → T a c) → comp_rel R c1 c2 → comp_rel S c2 c3 → comp_rel T c1 c3.
Proof. destruct c1, c2, c3; cbn; naive_solver. Qed.

Lemma comp_rel_flip {A B} (R : A → B → Prop) (S : B → A → Prop) c1 c2 :
  (∀ a b, R a b → S b a) → comp_rel R c1 c2 → comp_rel S c2 c1.
Proof. destruct c1, c2; cbn; naive_solver. Qed.

Lemma fold_cached_graphs c inputs l cache acc :
  inputs_ok owner inputs → coherent owner c inputs cache → (∀ p i, (p, i) ∈ l → inputs !! p = Some i) →
  comp_rel (λ o gs, o.2 = acc ++ gs ∧ coherent owner c inputs o.1)
    (foldlM (λ '(cache, graphs) '(signer, i),
      '(cache, g) ← cached_graph c cache i; mret (cache, graphs ++ [(signer, g)])) (cache, acc) l)
    (mapM (λ '(signer, i), g ← build_graph c i; mret (signer, g)) l).
Proof.
  intros Hok. revert cache acc. induction l as [|[p i] l IH]; intros cache acc Hcoh Hl.
  - cbn. by rewrite app_nil_r.
  - assert (inputs !! p = Some i) as Hp by (apply Hl; left).
    pose proof (cached_graph_spec _ _ _ _ _ Hcoh Hp (Hok _ _ Hp)) as Hg. cbn [foldlM mapM].
    destruct (cached_graph c cache i) as [[cache' g]|], (build_graph c i) as [g'|]; cbn in Hg; try done.
    destruct Hg as [-> Hcoh']. cbn.
    eapply comp_rel_trans; [|apply (IH cache' (acc ++ [(p, g')]) Hcoh'); intros; apply Hl; by right|].
    2: { instantiate (1 := λ gs o, o = (p, g') :: gs). destruct (mapM _ l); cbn; done. }
    intros a gs o [-> Hcoh''] ->. by rewrite <-app_assoc.
Qed.

Lemma setup_graphs_spec mt c inputs cache :
  inputs_ok owner inputs → coherent owner c inputs cache →
  comp_rel (λ o gs, o.2 = gs ∧ coherent owner c inputs o.1) (setup_graphs mt c cache inputs)
    (mapM (λ '(signer, i), g ← build_graph c i; mret (signer, g)) (bt_iter inputs)).
Proof.
  intros Hok Hcoh. unfold setup_graphs. destruct mt.
  - destruct (mapM _ _); cbn; done.
  - apply (fold_cached_graphs _ _ _ _ []); [done|done|]. intros p i. apply elem_of_bt_iter.
Qed.


(** Outcomes that agree up to the caches. *)
Abbreviation same_outcome := (comp_rel (λ p1 p2, same_but_cache owner p1.1 p2.1 ∧ p1.2 = p2.2)).

Lemma register_graphs_inputs graphs r :
  peg_out_graph_inputs (foldl register_graph r graphs) = peg_out_graph_inputs r.
Proof. edestruct register_graphs_fixed as (_ & _ & -> & _). done. Qed.

Lemma same_outcome_requested sm1 sm2 r cache1 cache2 {A} (res : A) :
  cfg sm1 = cfg sm2 → block_height (mstate sm1) = block_height (mstate sm2) →
  inputs_ok owner (peg_out_graph_inputs r) →
  coherent owner (cfg sm1) (peg_out_graph_inputs r) cache1 →
  coherent owner (cfg sm2) (peg_out_graph_inputs r) cache2 →
  same_outcome (Val (with_pog (with_state sm1 (Requested r)) cache1, res))
    (Val (with_pog (with_state sm2 (Requested r)) cache2, res)).
Proof.
  intros Hc Hh Hok Hcoh1 Hcoh2. split; [|done]. unfold same_but_cache, cache_inv. cbn.
  split_and!; try done. congruence.
Qed.

Lemma deposit_setup_same mt1 mt2 signer pk hash stake wots sm1 sm2 :
  same_but_cache owner sm1 sm2 → owner stake = signer →
  same_outcome (process_deposit_setup mt1 signer pk hash stake wots sm1)
    (process_deposit_setup mt2 signer pk hash stake wots sm2).
Proof.
  intros Hsim Ho. pose proof Hsim as (Hc & Hm & Hinv1 & Hinv2). unfold process_deposit_setup. rewrite <-Hc, <-Hm.
  unfold cache_inv in Hinv1, Hinv2. rewrite <-Hm, <-Hc in Hinv2. destruct (cstate sm1) as [r| | | | | | | | | | |] eqn:Hs; try done.
  destruct Hinv1 as [Hok Hcoh1], Hinv2 as [_ Hcoh2].
  pose proof (inputs_ok_upsert _ signer pk hash stake wots Hok Ho) as Hok'.
  pose proof (coherent_upsert _ _ _ signer pk hash stake wots Hcoh1) as Hcoh1'.
  pose proof (coherent_upsert _ _ _ signer pk hash stake wots Hcoh2) as Hcoh2'.
  case_bool_decide.
  - split; [|done]. unfold same_but_cache, cache_inv. cbn. rewrite <-Hc. split_and!; try done. by rewrite Hm.
  - pose proof (setup_graphs_spec mt1 _ _ _ Hok' Hcoh1') as Hg1.
    pose proof (setup_graphs_spec mt2 _ _ _ Hok' Hcoh2') as Hg2.
    eapply (comp_rel_bind (λ o1 o2, o1.2 = o2.2 ∧ _)).
    + eapply comp_rel_trans; [|exact Hg1|eapply comp_rel_flip; [|exact Hg2]].
      2: { intros a b Hab. exact Hab. }
      intros a gs b [Ha Hcoha] [Hb Hcohb]. split; [by rewrite Ha, Hb|exact (conj Hcoha Hcohb)].
    + intros [cache1 gs1] [cache2 gs2] (Heq & Hca & Hcb). cbn in Heq, Hca, Hcb. subst gs2.
      apply same_outcome_requested; rewrite ?register_graphs_inputs; try done; by rewrite ?Hm, <-?Hc.
Qed.

Lemma signature_duties_same c r owners claims cache1 cache2 duties :
  inputs_ok owner (peg_out_graph_inputs r) →
  coherent owner c (peg_out_graph_inputs r) cache1 → coherent owner c (peg_out_graph_inputs r) cache2 →
  comp_rel (λ o1 o2, coherent owner c (peg_out_graph_inputs r) o1.1 ∧
      coherent owner c (peg_out_graph_inputs r) o2.1 ∧ o1.2 = o2.2)
    (signature_duties c r owners claims cache1 duties) (signature_duties c r owners claims cache2 duties).
Proof.
  intros Hok. revert cache1 cache2 duties. induction claims as [|claim claims IH]; intros cache1 cache2 duties Hc1 Hc2;
    cbn; [done|].
  destruct (owners !! claim) as [p|]; [|done]. destruct (peg_out_graph_inputs r !! p) as [i|] eqn:Hl; [|done].
  pose proof (cached_graph_spec _ _ _ _ _ Hc1 Hl (Hok _ _ Hl)) as Hg1.
  pose proof (cached_graph_spec _ _ _ _ _ Hc2 Hl (Hok _ _ Hl)) as Hg2.
  destruct (build_graph c i) as [g|], (cached_graph c cache1 i) as [[k1 g1]|],
    (cached_graph c cache2 i) as [[k2 g2]|]; cbn in Hg1, Hg2; try done.
  destruct Hg1 as [-> Hk1], Hg2 as [-> Hk2]. cbn.
  destruct (pov_p2p_key _); [|done]. cbn. destruct (agg_nonces r !! claim); [|done].
  destruct (musig_sighashes g); [|done]. cbn. by apply IH.
Qed.


Lemma graph_nonces_same signer claim nonces sm1 sm2 :
  same_but_cache owner sm1 sm2 →
  same_outcome (process_graph_nonces signer claim nonces sm1) (process_graph_nonces signer claim nonces sm2).
Proof.
  intros Hsim. pose proof Hsim as (Hc & Hm & Hinv1 & Hinv2). unfold process_graph_nonces. rewrite <-Hc, <-Hm.
  unfold cache_inv in Hinv1, Hinv2. rewrite <-Hm, <-Hc in Hinv2.
  destruct (cstate sm1) as [r| | | | | | | | | | |] eqn:Hs; try done.
  destruct Hinv1 as [Hok Hcoh1], Hinv2 as [_ Hcoh2].
  destruct (Pog.unpack nonces) as [unpacked|]; [cbn|done]. destruct (graph_nonces r !! claim) as [session|]; [cbn|done].
  destruct (session !! signer) as [existing|].
  - eapply (comp_rel_bind (λ _ _, True)); [by apply comp_rel_refl|]. by intros _ _ _.
  - destruct (negb _).
    + split; [|done]. unfold same_but_cache, cache_inv. cbn. rewrite <-Hc. split_and!; try done. by rewrite Hm.
    + eapply comp_rel_bind; [by apply signature_duties_same|].
      intros [k1 res1] [k2 res2] (Hk1 & Hk2 & Hres). cbn in Hk1, Hk2, Hres. subst res2.
      apply same_outcome_requested; try done; by rewrite ?Hm, <-?Hc.
Qed.

Lemma graph_or_build_eq sm p i r :
  cache_inv owner sm → cstate sm = Requested r → peg_out_graph_inputs r !! p = Some i →
  graph_or_build sm i = build_graph (cfg sm) i.
Proof.
  unfold cache_inv, graph_or_build. intros Hinv Hs Hl. rewrite Hs in Hinv. destruct Hinv as [Hok Hcoh].
  destruct (pog sm !! _) as [g|] eqn:Hg; [|done]. destruct (Hok _ _ Hl) as [Ho Hi].
  destruct (Hcoh _ _ Hg) as (i' & Hl' & Hb). rewrite Ho, Hl in Hl'. simplify_eq. by rewrite Hi in Hb.
Qed.

Lemma graphs_or_build_eq sm r :
  cache_inv owner sm → cstate sm = Requested r →
  mapM (graph_or_build sm) (bt_values (peg_out_graph_inputs r))
  = mapM (build_graph (cfg sm)) (bt_values (peg_out_graph_inputs r)).
Proof.
  intros Hinv Hs.
  assert (∀ i, i ∈ bt_values (peg_out_graph_inputs r) → graph_or_build sm i = build_graph (cfg sm) i) as Hall.
  { intros i [p Hp]%elem_of_bt_values. by eapply graph_or_build_eq. }
  induction (bt_values (peg_out_graph_inputs r)) as [|i l IH]; [done|]. cbn.
  rewrite Hall by left. rewrite IH; [done|]. intros j ?. apply Hall. by right.
Qed.

Lemma graph_signatures_same signer claim sigs sm1 sm2 :
  same_but_cache owner sm1 sm2 →
  same_outcome (process_graph_signatures signer claim sigs sm1) (process_graph_signatures signer claim sigs sm2).
Proof.
  intros Hsim. pose proof Hsim as (Hc & Hm & Hinv1 & Hinv2). unfold process_graph_signatures.
  destruct (Pog.unpack sigs) as [unpacked|]; [cbn|done]. rewrite <-Hm.
  destruct (cstate sm1) as [r| | | | | | | | | | |] eqn:Hs1; try done. pose proof Hs1 as Hs2. rewrite Hm in Hs2.
  destruct (graph_partials r !! claim) as [session|]; [cbn|done].
  destruct (session !! signer) as [existing|].
  { eapply (comp_rel_bind (λ _ _, True)); [by apply comp_rel_refl|]. by intros _ _ _. }
  destruct (claim_owner _ _) as [p|]; [cbn|done]. destruct (peg_out_graph_inputs r !! p) as [i|] eqn:Hl; [cbn|done].
  rewrite (graph_or_build_eq sm1 p i r), (graph_or_build_eq sm2 p i r) by done. rewrite <-Hc.
  eapply (comp_rel_bind eq); [by apply comp_rel_refl|]. intros g ? <-.
  eapply (comp_rel_bind eq); [by apply comp_rel_refl|]. intros [[|]|e] ? <-; try done.
  assert (∀ r', peg_out_graph_inputs r' = peg_out_graph_inputs r →
    same_but_cache owner (with_state sm1 (Requested r')) (with_state sm2 (Requested r'))) as Hset.
  { intros r' Hr'. unfold same_but_cache, cache_inv in *. cbn in *. rewrite Hs1 in Hinv1. rewrite Hs2 in Hinv2.
    rewrite Hr', <-Hm, <-Hc in *. naive_solver. }
  destruct (negb _); [by split; [apply Hset|]|].
  cbn [peg_out_graph_inputs set_graph_partials].
  rewrite (graphs_or_build_eq sm1 r), (graphs_or_build_eq sm2 r), <-Hc by done.
  eapply (comp_rel_bind eq); [by apply comp_rel_refl|]. intros gs ? <-.
  eapply (comp_rel_bind eq); [by apply comp_rel_refl|]. intros aux ? <-.
  eapply (comp_rel_bind eq); [by apply comp_rel_refl|]. intros agg ? <-.
  unfold root_nonce_duty. rewrite <-Hc.
  eapply (comp_rel_bind eq); [by apply comp_rel_refl|]. intros duty ? <-.
  by split; [apply Hset|].
Qed.


(** The other handlers do not look at the cache: every branch leaves both machines the same. *)
Lemma same_leaf {A} c h s s' h' p1 p2 (res : A) :
  cache_inv owner (mkContractSM _ c (mkMachineState h s) p1) →
  cache_inv owner (mkContractSM _ c (mkMachineState h s) p2) →
  (∀ r', s' = Requested r' → ∃ r, s = Requested r ∧ peg_out_graph_inputs r' = peg_out_graph_inputs r) →
  same_outcome (Val (mkContractSM _ c (mkMachineState h' s') p1, res))
    (Val (mkContractSM _ c (mkMachineState h' s') p2, res)).
Proof.
  intros Hi1 Hi2 Hr. split; [|done]. unfold same_but_cache, cache_inv in *. cbn in *.
  destruct s' as [r'| | | | | | | | | | |]; try done. destruct (Hr r' eq_refl) as (r & -> & Hin).
  cbn in *. by rewrite Hin.
Qed.

Ltac same_branches :=
  repeat (cbn [comp_rel mstate state block_height cfg pog]; first
    [ done
    | eapply same_leaf; [eassumption|eassumption|intros ? [=]; subst; eexists; split; reflexivity]
    | match goal with |- context [match ?x with _ => _ end] =>
        lazymatch x with context [match _ with _ => _ end] => fail | _ => destruct x eqn:? end end ]).

(** Exposes the two machines, which differ in their caches only, to the code of a handler. *)
Ltac expose_machines :=
  match goal with |- same_but_cache _ ?sm1 ?sm2 → _ =>
    destruct sm1 as [? [? ?] ?], sm2 as [? ? ?]; intros (Hc & Hm & ? & ?); cbn in Hc, Hm; subst;
    unfold accept, reject, with_state, with_height, or_reject, deposit_txid, timelock_over,
      root_nonce_duty, clear_pog_cache, with_pog; unfold is_pov;
    cbn [mstate state block_height cfg pog]; unfold_comp
  end.

Lemma aggregate_sigs_same sigs sm1 sm2 :
  same_but_cache owner sm1 sm2 →
  same_outcome (process_aggregate_sigs sigs sm1) (process_aggregate_sigs sigs sm2).
Proof. unfold process_aggregate_sigs. expose_machines. same_branches. Qed.

Lemma root_nonce_same signer nonce sm1 sm2 :
  same_but_cache owner sm1 sm2 →
  same_outcome (process_root_nonce signer nonce sm1) (process_root_nonce signer nonce sm2).
Proof. unfold process_root_nonce. expose_machines. same_branches. Qed.

Lemma root_signature_same signer sig sm1 sm2 :
  same_but_cache owner sm1 sm2 →
  same_outcome (process_root_signature signer sig sm1) (process_root_signature signer sig sm2).
Proof. unfold process_root_signature. expose_machines. same_branches. Qed.

Lemma deposit_confirmation_same tx sm1 sm2 :
  same_but_cache owner sm1 sm2 →
  same_outcome (process_deposit_confirmation tx sm1) (process_deposit_confirmation tx sm2).
Proof. unfold process_deposit_confirmation. expose_machines. same_branches. Qed.

Lemma assignment_same entry stx h sm1 sm2 :
  same_but_cache owner sm1 sm2 →
  same_outcome (process_assignment entry stx h sm1) (process_assignment entry stx h sm2).
Proof. unfold process_assignment. expose_machines. same_branches. Qed.

Lemma new_block_same h sm1 sm2 :
  same_but_cache owner sm1 sm2 → same_outcome (notify_new_block h sm1) (notify_new_block h sm2).
Proof.
  unfold notify_new_block. expose_machines. same_branches.
Qed.

Lemma graph_tx_same h tx sm1 sm2 :
  same_but_cache owner sm1 sm2 →
  same_outcome (process_peg_out_graph_tx_confirmation h tx sm1) (process_peg_out_graph_tx_confirmation h tx sm2).
Proof.
  unfold process_peg_out_graph_tx_confirmation, or_else, process_fulfillment_confirmation,
    process_claim_confirmation, process_challenge_confirmation, process_optimistic_payout_confirmation,
    process_pre_assert_confirmation, process_assert_data_confirmation, process_post_assert_confirmation,
    process_disprove_confirmation, process_defended_payout_confirmation.
  expose_machines. same_branches.
Qed.

Lemma failures_same sm1 sm2 :
  same_but_cache owner sm1 sm2 →
  same_outcome (process_claim_verification_failure sm1) (process_claim_verification_failure sm2) ∧
  same_outcome (process_assertion_verification_failure sm1) (process_assertion_verification_failure sm2).
Proof.
  unfold process_claim_verification_failure, process_assertion_verification_failure. expose_machines.
  split; same_branches.
Qed.


Lemma collect_same o1 o2 : same_outcome o1 o2 → same_outcome (collect_duty o1) (collect_duty o2).
Proof.
  intros Ho. eapply comp_rel_bind; [exact Ho|]. intros [sm1 r1] [sm2 r2] [Hs Hr]. cbn in *. by subst.
Qed.

Lemma event_same mt1 mt2 ev sm1 sm2 :
  same_but_cache owner sm1 sm2 → owned owner ev →
  same_outcome (process_contract_event mt1 ev sm1) (process_contract_event mt2 ev sm2).
Proof.
  intros Hsim Ho. destruct ev; cbn [process_contract_event]; try apply collect_same;
    eauto using deposit_setup_same, graph_nonces_same, graph_signatures_same, aggregate_sigs_same,
      root_nonce_same, root_signature_same, assignment_same, deposit_confirmation_same, graph_tx_same,
      new_block_same.
  - by apply failures_same.
  - by apply failures_same.
Qed.

Lemma restart_same sm1 sm2 :
  same_but_cache owner sm1 sm2 → same_but_cache owner (restore (cfg sm1) (mstate sm1)) sm2.
Proof.
  intros (Hc & Hm & Hi1 & Hi2). unfold same_but_cache, cache_inv in *. cbn. split_and!; try done.
  destruct (cstate sm1); cbn in *; try done. split; [apply Hi1|apply coherent_empty].
Qed.

(** Every run agrees with the one that has no restarts and no threads. *)
Lemma run_same inputs sm1 sm2 :
  same_but_cache owner sm1 sm2 → Forall (owned owner) (events inputs) →
  same_outcome (run inputs sm1) (run (Feed false <$> events inputs) sm2).
Proof.
  revert sm1 sm2. induction inputs as [|i inputs IH]; intros sm1 sm2 Hsim Ho; [done|].
  destruct i as [mt ev|].
  - cbn [events omap list_omap] in *. apply Forall_cons in Ho as [Hev Ho]. cbn [fmap list_fmap run input_step].
    pose proof (event_same mt false ev sm1 sm2 Hsim Hev) as He.
    destruct (process_contract_event mt ev sm1) as [[sm1' r1]|],
      (process_contract_event false ev sm2) as [[sm2' r2]|]; cbn in He |- *; try done.
    destruct He as [Hsim' ->]. specialize (IH sm1' sm2' Hsim' Ho).
    eapply (comp_rel_bind _ _ _ _ _ _ IH). intros [a oa] [b ob] [Hab Hout]. cbn in *. by subst.
  - cbn [events omap list_omap run input_step] in *. cbn [mbind comp_bind mret comp_ret fst snd].
    specialize (IH _ sm2 (restart_same _ _ Hsim) Ho).
    destruct (run inputs _) as [[a oa]|], (run _ sm2) as [[b ob]|]; cbn in IH |- *; done.
Qed.

End coherence.

Section unobservable.
Context `{BuildProfile, BitcoinLib, SighashLib, InstructionsLib, TaprootLib, DepositLib,
  DescriptorLib, Musig2Lib, TxGraphOps}.

Definition setup_of (ev : ContractEvent) : option (Txid * P2POperatorPubKey) :=
  match ev with EvDepositSetup signer _ _ stake_txid _ => Some (stake_txid, signer) | _ => None end.

(** No two operators set up the deposit with the same stake transaction. *)
Definition stakes_unshared (evs : list ContractEvent) : Prop :=
  ∀ stake_txid p q, (stake_txid, p) ∈ omap setup_of evs → (stake_txid, q) ∈ omap setup_of evs → p = q.

(** Each stake transaction then belongs to the operator who names it. *)
Lemma unshared_owner evs : stakes_unshared evs → ∃ owner, Forall (owned owner) evs.
Proof.
  intros Hun. set (m := list_to_map (omap setup_of evs) : gmap Txid P2POperatorPubKey).
  exists (λ stake, default 0%N (m !! stake)). apply Forall_forall. intros ev Hev. destruct ev as [signer ? ? stake_txid ?| | | | | | | | | | |]; try done. cbn.
  assert ((stake_txid, signer) ∈ omap setup_of evs) as Hin by (apply list_elem_of_omap; eauto).
  destruct (m !! stake_txid) as [p|] eqn:E; cbn.
  - apply elem_of_list_to_map_2 in E. by apply (Hun stake_txid).
  - apply not_elem_of_list_to_map in E. destruct E. by apply (list_elem_of_fmap_2 fst) in Hin.
Qed.

(** C23: Restarts and worker threads cannot be observed, unless operators share a stake transaction.
    Two runs of a new machine over the same events, with different choices of when the node restarts and
    loses its graph cache and of which setups build their graphs on threads, end in the same state and
    produce the same duties and errors, or panic both, provided that no two operators set up the deposit
    with the same stake transaction.  The machine relies on its caller for that: the manager passes the
    transaction of the sender's own stake chain. *)
Theorem restarts_and_threads_unobservable c h deadline sm inputs1 inputs2 :
  ContractSM_new c h deadline = Val sm → events inputs1 = events inputs2 →
  stakes_unshared (events inputs1) →
  observe <$> run inputs1 sm = observe <$> run inputs2 sm.
Proof.
  intros (_ & Hpog & _ & txid & _ & Hs)%new_state Heq [owner Ho]%unshared_owner.
  assert (same_but_cache owner sm sm) as Hsim.
  { unfold same_but_cache, cache_inv. rewrite Hs, Hpog. cbn.
    assert (inputs_ok owner ∅) by (intros p i Hp; by rewrite lookup_empty in Hp).
    split_and!; try done; apply coherent_empty. }
  pose proof (run_same owner inputs1 sm sm Hsim Ho) as Hr1. rewrite Heq in Ho.
  pose proof (run_same owner inputs2 sm sm Hsim Ho) as Hr2. rewrite <-Heq in Hr2.
  destruct (run inputs1 sm) as [[a oa]|], (run inputs2 sm) as [[b ob]|],
    (run (Feed false <$> events inputs1) sm) as [[e oe]|]; cbn in Hr1, Hr2; try done.
  destruct Hr1 as [(_ & Hm1 & _) Ho1], Hr2 as [(_ & Hm2 & _) Ho2]. cbn in *. unfold observe. cbn. congruence.
Qed.

End unobservable.

(** ** Witnesses *)

Section witnesses.
#[local] Existing Instances example_profile example_bitcoin example_sighash example_instructions
  example_descriptor example_keyagg example_musig example_graph.

(** Restarting after every event, with threads, gives what one uninterrupted run gives. *)
Lemma restarts_and_threads_unobservable_witness :
  let restarting := mjoin ((λ ev, [Feed true ev; Restart]) <$> example_setup) in
  observe <$> run (Feed false <$> example_setup) example_start = observe <$> run restarting example_start.
Proof.
  intros restarting.
  apply (restarts_and_threads_unobservable example_cfg 90 600 example_start (Feed false <$> example_setup) restarting).
  - vm_compute. reflexivity.
  - vm_compute. reflexivity.
  - intros stake p q Hp%list_elem_of_In Hq%list_elem_of_In. vm_compute in Hp, Hq.
    destruct Hp as [[= <- <-]|[[= <- <-]|[]]], Hq as [[= <-]|[[= <-]|[]]]; done.
Defined.

End witnesses.

(** ** A shared stake transaction *)

Section shared.
(** Graphs whose claim depends on the key of the operator too, as that of a real graph does. *)
Definition keyed_graph : TxGraphOps := {|
  Graph := PegOutGraphInput * Txid;
  generate i _ deposit_txid _ _ _ := Val (i, deposit_txid);
  graph_claim_txid g := (100 * op_txid (stake_outpoint g.1) + pgi_operator_pubkey g.1)%N;
  summarize g :=
    let s := op_txid (stake_outpoint g.1) in
    mkPegOutGraphSummary s (100 * s + pgi_operator_pubkey g.1) (100 * s + 2) (100 * s + 3)
      (vmap (λ k, 100 * s + 10 + N.of_nat k)%N (list_to_vec (seq 0 39))) (100 * s + 4) (100 * s + 5) [];
  musig_sighash_types _ := Val (constant_pog SighashDefault);
  musig_sighashes g := Val (constant_pog (op_txid (stake_outpoint g.1)));
  musig_inpoints g := constant_pog (stake_outpoint g.1);
  musig_witnesses _ := constant_pog Key;
  parse_witness _ := Val None;
  parse_witnesses _ := Val None;
|}.

#[local] Existing Instances example_profile example_bitcoin example_sighash example_instructions
  example_descriptor example_keyagg example_musig keyed_graph.

(** Two operators set up a deposit with the stake transaction 51: the claim that is registered for the
    second one depends on whether its graph is built on a thread. *)
Lemma shared_stake_observable :
  let first := EvDepositSetup 10 1000 7 51 (example_wots_keys 3) in
  let second := EvDepositSetup 20 2000 8 51 (example_wots_keys 4) in
  let claims inputs :=
    match ContractSM_new example_cfg 90 600 with
    | Val sm => match run inputs sm with Val (sm, _) => claim_txids (state (mstate sm)) | Panic => [] end
    | Panic => []
    end in
  claims [Feed false first; Feed false second] ≠ claims [Feed false first; Feed true second].
Proof. vm_compute. discriminate. Qed.

End shared.
