(* ===== verification/ManagerProperties.v ===== *)
(** * Properties of the contract manager

    The invariant of the manager and that every turn of its loop keeps it; the contracts move in
    lockstep with the chain; a restart after a block finds the same contracts; what is asked of the
    operators is what is missing; and a transaction that a contract does not expect stops the
    node for good. *)

From S2P Require Import Prelude Bitcoin OperatorTable PogMusig BtcNotify Wots TxTypes Taproot Deposit Predicates Connectors.
From S2P Require Import StakeChain ContractTypes Checkpoint Database StakeChainSM ContractSM ContractExample Persistence.
From S2P Require Import ContractLifecycle ContractManager.

(** ** Rules for handlers *)

Create HintDb manager.

Section rules.
Context {S E : Type}.

Lemma h_bind_Val {A B} (m : handler S E A) (k : A → handler S E B) s s' r :
  h_bind m k s = Val (s', r) →
  ∃ s1 r1, m s = Val (s1, r1) ∧
    match r1 with Ok a => k a s1 = Val (s', r) | Err e => s' = s1 ∧ r = Err e end.
Proof.
  unfold h_bind. intros ([s1 r1] & Hm & Hk)%comp_bind_Val. exists s1, r1. split; [done|].
  cbn in Hk. destruct r1; [done|]. by injection Hk as <- <-.
Qed.

Lemma h_bind_Ok {A B} (m : handler S E A) (k : A → handler S E B) s s' b :
  h_bind m k s = Val (s', Ok b) → ∃ s1 a, m s = Val (s1, Ok a) ∧ k a s1 = Val (s', Ok b).
Proof. intros (s1 & [a|e] & Hm & Hk)%h_bind_Val; [eauto|]. by destruct Hk. Qed.

(** Looking at the state leaves it as it is. *)
Lemma h_get_bind {A B} (f : S → A) (k : A → handler S E B) s : h_bind (h_get f) k s = k (f s) s.
Proof. done. Qed.

(** From a state in [P], all that a handler does to the state is in [R], whether it succeeds or
    not, and what it returns is in [Q]. *)
Definition triple {A} (P : S → Prop) (R : S → S → Prop) (Q : A → Prop) (m : handler S E A) : Prop :=
  ∀ s s' r, P s → m s = Val (s', r) → R s s' ∧ ∀ a, r = Ok a → Q a.

Context (P : S → Prop) (R : S → S → Prop) `{!PreOrder R} (Hstable : ∀ s s', P s → R s s' → P s').

Lemma triple_weaken {A} (Q Q' : A → Prop) m : triple P R Q m → (∀ a, Q a → Q' a) → triple P R Q' m.
Proof. intros Hm HQ s s' r Hs Em. destruct (Hm s s' r Hs Em) as [? Hq]. eauto. Qed.
Lemma triple_ret {A} (Q : A → Prop) a : Q a → triple P R Q (h_ret a).
Proof. intros Ha s s' r _ [= <- <-]. split; [reflexivity|]. by intros ? [= <-]. Qed.
Lemma triple_throw {A} (Q : A → Prop) e : triple P R Q (h_throw e).
Proof. intros s s' r _ [= <- <-]. split; [reflexivity|]. done. Qed.
Lemma triple_get {A} (Q : A → Prop) (f : S → A) : (∀ s, P s → Q (f s)) → triple P R Q (h_get f).
Proof. intros Hf s s' r Hs [= <- <-]. split; [reflexivity|]. intros ? [= <-]. auto. Qed.
Lemma triple_comp {A} (Q : A → Prop) (c : comp A) : (∀ a, c = Val a → Q a) → triple P R Q (h_comp c).
Proof. intros Hc s s' r _ (a & Ea & [= <- <-])%comp_bind_Val. split; [reflexivity|]. intros ? [= <-]. auto. Qed.
Lemma triple_result {E' A} (Q : A → Prop) (f : E' → E) (x : result E' A) :
  (∀ a, x = Ok a → Q a) → triple P R Q (h_result f x).
Proof. intros Hx s s' r _ [= <- <-]. split; [reflexivity|]. intros a Ha. apply Hx. by destruct x; simplify_eq. Qed.
Lemma triple_modify f : (∀ s, P s → R s (f s)) → triple P R (λ _, True) (h_modify f).
Proof. intros Hf s s' r Hs [= <- <-]. auto. Qed.

Lemma triple_bind {A B} (Q : A → Prop) (Q' : B → Prop) (m : handler S E A) (k : A → handler S E B) :
  triple P R Q m → (∀ a, Q a → triple P R Q' (k a)) → triple P R Q' (h_bind m k).
Proof.
  intros Hm Hk s s' r Hs (s1 & r1 & E1 & E2)%h_bind_Val. destruct (Hm _ _ _ Hs E1) as [R1 Q1].
  destruct r1 as [a|e]; [|by destruct E2 as [-> ->]].
  destruct (Hk a (Q1 a eq_refl) _ _ _ (Hstable _ _ Hs R1) E2) as [R2 Q2]. split; [by etransitivity|done].
Qed.

Lemma triple_fold {A B} (Q : B → Prop) (f : B → A → handler S E B) b l :
  (∀ b a, a ∈ l → Q b → triple P R Q (f b a)) → Q b → triple P R Q (h_fold f b l).
Proof.
  intros Hf. revert b. induction l as [|a l IH]; intros b Hb; [by apply triple_ret|].
  apply (triple_bind Q); [apply Hf; [by left|done]|]. intros b' Hb'. apply IH; [|done]. intros b1 a1 Ha. apply Hf. by right.
Qed.

End rules.

Arguments triple_bind {_ _ _ _ _} _ {_ _} _ {_} _ _ _ _.
#[export] Hint Resolve triple_ret triple_throw triple_get triple_comp triple_result : manager.

(** ** What one contract does with an event *)

Section contract.
Context `{BuildProfile, BitcoinLib, SighashLib, InstructionsLib, TaprootLib, DepositLib,
  DescriptorLib, Musig2Lib, TxGraphOps}.

(** Every event but a new block leaves the height of the contract. *)
Definition keeps_height {A} (h : ContractSM → comp (ContractSM * result TransitionErr A)) : Prop :=
  ∀ sm sm' r, h sm = Val (sm', r) → block_height (mstate sm') = block_height (mstate sm).

Lemma or_else_keeps {A} (h1 h2 : ContractSM → comp (ContractSM * result TransitionErr A)) :
  keeps_height h1 → keeps_height h2 → keeps_height (or_else h1 h2).
Proof.
  intros Hk1 Hk2 sm sm' r. unfold or_else. intros ([sm1 r1] & E1 & E2)%comp_bind_Val. apply Hk1 in E1.
  destruct r1; [|by rewrite (Hk2 _ _ _ E2)]. unfold accept in E2. by simplify_eq.
Qed.

Ltac keeps := intros ? ? ? Hp; handler_inv; done.

Lemma graph_tx_keeps h tx : keeps_height (process_peg_out_graph_tx_confirmation h tx).
Proof.
  assert (keeps_height (process_challenge_confirmation tx)) by (unfold process_challenge_confirmation; keeps).
  assert (keeps_height (process_optimistic_payout_confirmation tx)) by (unfold process_optimistic_payout_confirmation; keeps).
  assert (keeps_height (process_pre_assert_confirmation tx)) by (unfold process_pre_assert_confirmation; keeps).
  assert (keeps_height (process_disprove_confirmation tx)) by (unfold process_disprove_confirmation; keeps).
  assert (keeps_height (process_defended_payout_confirmation tx)) by (unfold process_defended_payout_confirmation; keeps).
  intros sm sm' r. unfold process_peg_out_graph_tx_confirmation.
  destruct (state (mstate sm)) eqn:Hs; try (by unfold reject; intros [= <- _]).
  - unfold process_fulfillment_confirmation. intros Hp. by handler_inv.
  - unfold process_claim_confirmation. intros Hp. by handler_inv.
  - apply or_else_keeps; [done|]. by apply or_else_keeps.
  - match goal with Hk : keeps_height (process_pre_assert_confirmation tx) |- _ => apply Hk end.
  - unfold process_assert_data_confirmation. intros Hp. by handler_inv.
  - unfold process_post_assert_confirmation. intros Hp. by handler_inv.
  - by apply or_else_keeps.
Qed.

Lemma event_keeps mt ev : (∀ h, ev ≠ EvBlock h) → keeps_height (process_contract_event mt ev).
Proof.
  intros Hev sm sm' r Hp. destruct ev; try done; cbn [process_contract_event] in Hp; unfold collect_duty in Hp.
  all: try (apply comp_bind_Val in Hp as ([sm1 r1] & Hp & Hr); unfold mret, comp_ret in Hr; injection Hr as <- _; cbn).
  - unfold process_deposit_setup in Hp. by handler_inv.
  - unfold process_graph_nonces in Hp. by handler_inv.
  - unfold process_graph_signatures in Hp. by handler_inv.
  - unfold process_aggregate_sigs in Hp. by handler_inv.
  - unfold process_root_nonce in Hp. by handler_inv.
  - unfold process_root_signature in Hp. by handler_inv.
  - unfold process_assignment in Hp. by handler_inv.
  - unfold process_deposit_confirmation in Hp. by handler_inv.
  - by eapply graph_tx_keeps.
  - by destruct (Hev height).
  - unfold process_claim_verification_failure in Hp. by handler_inv.
  - unfold process_assertion_verification_failure in Hp. by handler_inv.
Qed.

(** A new block is accepted only when it is the next one. *)
Lemma block_event mt h sm sm' duties :
  process_contract_event mt (EvBlock h) sm = Val (sm', Ok duties) →
  u64_add (block_height (mstate sm)) 1 = Val h ∧ block_height (mstate sm') = h.
Proof.
  cbn. unfold collect_duty, notify_new_block. intros ([sm1 r1] & (next & Hn & Hp)%comp_bind_Val & Hr)%comp_bind_Val.
  unfold mret, comp_ret in Hr; injection Hr as <- Hd. cbn.
  destruct (bool_decide (next ≠ h)) eqn:Hb; bool_props.
  - unfold reject in Hp. by simplify_eq.
  - subst next. split; [done|]. handler_inv; done.
Qed.

End contract.

(** ** The invariant *)

(** A write either happens or, when all attempts fail, leaves the tables as they are. *)
Lemma executes_outcome {T} (f : T → T) (p p' : Pool T) r :
  executes f p = (p', r) → tables p' = match r with Ok _ => f (tables p) | Err _ => tables p end.
Proof.
  unfold executes, execute_with_retries. generalize (max_retry_count (config p)) as n. intros n. revert p.
  induction n as [|n IH]; intros [c t fs]; cbn; unfold transaction; cbn.
  all: destruct fs as [|[|] fs]; cbn; intros Hr; try (by injection Hr as <- <-). by apply IH in Hr.
Qed.

Section invariant.
Context `{BuildProfile, BitcoinLib, SighashLib, InstructionsLib, TaprootLib, DepositLib, ConnectorLib, ScriptLib,
  DescriptorLib, Musig2Lib, TxGraphOps, SerdeLib, CheckpointLib}.
Context (mt : bool).

(** What of the contracts does not change between two blocks. *)
Definition outline (ctx : ContractManagerCtx) : gmap Txid (ContractCfg * N) :=
  (λ sm, (cfg sm, block_height (mstate sm))) <$> contracts ctx.

Definition rows (ctx : ContractManagerCtx) : list ContractRow := tables (contract_persister (state_handles ctx)).

(** The row is that of one of the contracts. *)
Definition owned (ctx : ContractManagerCtx) (row : ContractRow) : Prop :=
  ∃ k c h, outline ctx !! k = Some (c, h) ∧ row_deposit_idx row = deposit_idx c.

(** What the handlers do apart from new blocks: the configuration and the outline stay, and what
    is written belongs to one of the contracts. *)
Definition quiet (ctx ctx' : ContractManagerCtx) : Prop :=
  ctx_cfg ctx' = ctx_cfg ctx ∧ es_operator_table (ctx_state ctx') = es_operator_table (ctx_state ctx) ∧
  outline ctx' = outline ctx ∧ ∀ row, row ∈ rows ctx' → row ∈ rows ctx ∨ owned ctx row.

#[export] Instance quiet_preorder : PreOrder quiet.
Proof.
  split; [by intros ctx; split_and!; auto|].
  intros ctx1 ctx2 ctx3 (E1 & F1 & O1 & R1) (E2 & F2 & O2 & R2). split_and!; try congruence.
  intros row [Hr|Hr]%R2; [by apply R1|]. right. unfold owned in *. by rewrite <- O1.
Qed.

(** The contracts and their indices; [b] bounds the indices. *)
Record manager_wf (b : N) (ctx : ContractManagerCtx) : Prop := {
  wf_table : es_operator_table (ctx_state ctx) = ec_operator_table (ctx_cfg ctx);
  wf_entry : ∀ k c h, outline ctx !! k = Some (c, h) →
    covenant_txid (deposit_tx c) = k ∧ operator_table c = ec_operator_table (ctx_cfg ctx) ∧
    cfg_params c = (ec_network (ctx_cfg ctx), ec_connector_params (ctx_cfg ctx), ec_pegout_graph_params (ctx_cfg ctx),
      ec_sidesystem_params (ctx_cfg ctx), ec_stake_chain_params (ctx_cfg ctx)) ∧
    (deposit_idx c < b)%N;
  wf_idx : ∀ k1 c1 h1 k2 c2 h2, outline ctx !! k1 = Some (c1, h1) → outline ctx !! k2 = Some (c2, h2) →
    deposit_idx c1 = deposit_idx c2 → k1 = k2;
  wf_height : ∀ k1 c1 h1 k2 c2 h2, outline ctx !! k1 = Some (c1, h1) → outline ctx !! k2 = Some (c2, h2) → h1 = h2;
  wf_rows : ∀ row, row ∈ rows ctx → owned ctx row;
}.

Lemma quiet_wf b ctx ctx' : quiet ctx ctx' → manager_wf b ctx → manager_wf b ctx'.
Proof.
  intros (Hc & Ht & Ho & Hr) [W1 W2 W3 W4 W5]. split; rewrite ?Hc, ?Ho, ?Ht; try done.
  intros row [Hrow|Hrow]%Hr; [apply W5 in Hrow|]; unfold owned in *; by rewrite Ho.
Qed.

(** *** Handlers that are quiet *)

(** What a handler does between blocks when [o] is the configuration and the outline of the
    contracts. *)
Definition frame (ctx : ContractManagerCtx) : ExecutionConfig * gmap Txid (ContractCfg * N) := (ctx_cfg ctx, outline ctx).

Definition within {A} (o : ExecutionConfig * gmap Txid (ContractCfg * N)) (Q : A → Prop)
    (m : handler ContractManagerCtx ContractManagerErr A) : Prop :=
  triple (λ ctx, frame ctx = o) quiet Q m.

Lemma frame_stable o ctx ctx' : frame ctx = o → quiet ctx ctx' → frame ctx' = o.
Proof. unfold frame. by intros Ho (-> & _ & -> & _). Qed.

Lemma within_bind {A B} o (Q : A → Prop) (Q' : B → Prop) m k :
  within o Q m → (∀ a, Q a → within o Q' (k a)) → within o Q' (h_bind m k).
Proof. apply triple_bind, frame_stable. Qed.

Lemma within_fold {A B} o (Q : B → Prop) (f : B → A → handler ContractManagerCtx ContractManagerErr B) b l :
  (∀ b a, a ∈ l → Q b → within o Q (f b a)) → Q b → within o Q (h_fold f b l).
Proof. intros Hf Hb. apply triple_fold; [apply _|apply frame_stable|exact Hf|exact Hb]. Qed.

(** The contract is in the outline, under its key. *)
Definition listed (o : gmap Txid (ContractCfg * N)) (entry : Txid * ContractSM) : Prop :=
  o !! entry.1 = Some (cfg entry.2, block_height (mstate entry.2)).

Lemma listed_contract ctx k sm : contracts ctx !! k = Some sm → listed (outline ctx) (k, sm).
Proof. intros Hk. unfold listed, outline. cbn. by rewrite lookup_fmap, Hk. Qed.

(** An event that is fed to a contract in its place. *)
Lemma feed_within o key sm ev : listed o.2 (key, sm) → (∀ h, ev ≠ EvBlock h) → within o (λ _, True) (feed_contract mt key sm ev).
Proof.
  intros Hk Hev ctx ctx' r Ho ([sm' r'] & Hp & [= <- <-])%comp_bind_Val. split; [|done].
  pose proof (event_keeps _ _ Hev _ _ _ Hp) as Hh. apply event_refines in Hp as [Hc _].
  split_and!; [done..| |by left]. unfold outline, contracts. cbn. rewrite fmap_insert, insert_id; [done|].
  unfold listed in Hk. cbn in Hk. rewrite <- Ho in Hk. cbn in Hk. unfold outline, contracts in Hk. rewrite Hk. by f_equal; f_equal.
Qed.

Lemma feed_or_fail_within o key sm ev :
  listed o.2 (key, sm) → (∀ h, ev ≠ EvBlock h) → within o (λ _, True) (feed_or_fail mt key sm ev).
Proof.
  intros Hk Hev. eapply within_bind; [by apply feed_within|]. intros r _. apply triple_result; [apply _|done].
Qed.

Lemma run_stakes_within {A} o (f : StakeChainSM → comp (StakeChainSM * result StakeChainErr A)) :
  within o (λ _, True) (run_stakes f).
Proof. intros ctx ctx' r _ (p & _ & [= <- _])%comp_bind_Val. split; [|done]. split_and!; auto. Qed.

Lemma run_stake_db_within {A} o (f : Pool SqlStakes → comp (Pool SqlStakes * result DbError A)) :
  within o (λ _, True) (run_stake_db f).
Proof. intros ctx ctx' r _ (p & _ & [= <- _])%comp_bind_Val. split; [|done]. split_and!; auto. Qed.

Lemma index_claims_within o f : within o (λ _, True) (h_modify (λ ctx, with_claim_index (f ctx) ctx)).
Proof. apply triple_modify. intros ctx _. split_and!; auto. Qed.

Lemma encode_row_ids txid idx dtx table st row :
  encode_row txid idx dtx table st = Ok row → row_deposit_txid row = txid ∧ row_deposit_idx row = idx.
Proof.
  unfold encode_row. destruct (serialize_deposit_tx _); [|done]. destruct (serialize_table _); [|done].
  destruct (serialize_state _); [|done]. by intros [= <-].
Qed.

Lemma commit_rows key sm (p p' : Pool (list ContractRow)) r row :
  let c := cfg sm in
  commit key (deposit_idx c) (deposit_tx c) (operator_table c) (mstate sm) p = (p', r) → row ∈ tables p' →
  row ∈ tables p ∨ row_deposit_idx row = deposit_idx c.
Proof.
  unfold commit. destruct (encode_row key _ _ _ (mstate sm)) as [row'|e] eqn:Ee; [|intros [= <- <-]; auto].
  destruct (executes _ p) as [p1 r1] eqn:Ex. intros [= <- <-]. apply executes_outcome in Ex. rewrite Ex.
  destruct r1; [|auto]. unfold insert_contract. rewrite elem_of_app, list_elem_of_filter, list_elem_of_singleton.
  intros [[_ Hr]| ->]; [by left|]. right.
  by apply encode_row_ids in Ee as [_ ?].
Qed.

Lemma commit_contract_within o key save duties : within o (λ _, True) (commit_contract key save duties).
Proof.
  destruct duties as [|d duties]; [by apply triple_ret; [apply _|]|]. intros ctx ctx' r Ho Hc. split; [|done].
  unfold commit_contract in Hc. apply h_bind_Val in Hc as (ctx1 & r1 & E1 & E2). unfold h_bind, h_get in E1. cbn in E1.
  destruct (contracts ctx !! key) as [sm|] eqn:Hk; [|done]. cbn in E1. injection E1 as <- <-. cbn in E2.
  unfold run_contract_db in E2. destruct (commit _ _ _ _ _ _) as [p' r'] eqn:Ec. injection E2 as <- _.
  split_and!; try done. intros row Hrow. eapply commit_rows in Ec as [Hr|Hr]; [by left| |exact Hrow].
  right. exists key, (cfg sm), (block_height (mstate sm)). split; [|done]. by apply listed_contract.
Qed.

Lemma within_get {A} o (Q : A → Prop) f : (∀ ctx, frame ctx = o → Q (f ctx)) → within o Q (h_get f).
Proof. apply triple_get, _. Qed.
Lemma within_ret {A} o (Q : A → Prop) a : Q a → within o Q (h_ret a).
Proof. apply triple_ret, _. Qed.
Lemma within_throw {A} o (Q : A → Prop) e : within o Q (h_throw e).
Proof. apply triple_throw, _. Qed.
Lemma within_comp {A} o (Q : A → Prop) c : (∀ a, c = Val a → Q a) → within o Q (h_comp c).
Proof. apply triple_comp, _. Qed.
Lemma within_result {E A} o (Q : A → Prop) (f : E → ContractManagerErr) x :
  (∀ a, x = Ok a → Q a) → within o Q (h_result f x).
Proof. apply triple_result, _. Qed.

(** Steps that need no fact about what they return. *)
Ltac quiet_steps :=
  repeat first
    [ match goal with |- ∀ _, _ => intros ? end
    | apply within_ret; exact I
    | apply within_throw
    | apply within_get; by intros
    | apply within_comp; by intros
    | apply within_result; by intros
    | apply run_stakes_within
    | apply run_stake_db_within
    | apply index_claims_within
    | apply commit_contract_within
    | apply feed_or_fail_within; [assumption|done]
    | match goal with |- within _ _ (match ?x with _ => _ end) => destruct x end
    | apply (within_bind _ (λ _, True)) ].

Lemma find_by_request_elem txid entries entry : find_by_request txid entries = Val (Some entry) → entry ∈ entries.
Proof.
  induction entries as [|e entries IH]; cbn [find_by_request]; [done|].
  intros (request & _ & Hf)%comp_bind_Val. destruct (bool_decide _); [injection Hf as <-; by left|right; auto].
Qed.

Lemma session_contract_within o txid :
  within o (λ found, match found with inl entry | inr (Some entry) => listed o.2 entry | inr None => True end)
    (session_contract txid).
Proof.
  unfold session_contract. apply (within_bind _ (λ _, True)); [by apply within_get|]. intros index _.
  apply (within_bind _ (λ m, ∀ k sm, m !! k = Some sm → listed o.2 (k, sm))).
  { apply within_get. intros ctx <- k sm. apply listed_contract. }
  intros m Hm. destruct (_ ≫= _) as [[k sm]|] eqn:Ek.
  - apply within_ret. apply Hm. by apply bind_Some in Ek as (k' & _ & (sm' & Hk & [= -> ->])%bind_Some).
  - apply (within_bind _ (λ found : option (Txid * ContractSM), from_option (listed o.2) True found)).
    + apply within_comp. intros [[k sm]|] Hf; [|done]. apply Hm, elem_of_bt_iter. by eapply find_by_request_elem.
    + intros [[k sm]|] Hf; by apply within_ret.
Qed.

Lemma setup_msg_within o key txid contract setup :
  listed o.2 (txid, contract) → within o (λ _, True) (process_setup_msg mt key txid contract setup).
Proof.
  intros Hl. unfold process_setup_msg, take_in_stake.
  quiet_steps.
Qed.

Lemma gossip_within o msg key sender : within o (λ _, True) (process_unsigned_gossip_msg mt msg key sender).
Proof.
  destruct msg as [? ? ? ?|scope ? ? ? ? ? ?|session nonces|session sigs]; cbn [process_unsigned_gossip_msg].
  - unfold process_stake_chain_exchange. quiet_steps.
  - apply (within_bind _ (λ m, ∀ k sm, m !! k = Some sm → listed o.2 (k, sm))).
    { apply within_get. intros ctx <- k sm. apply listed_contract. }
    intros m Hm. destruct (m !! scope) as [contract|] eqn:Hk; [|quiet_steps]. apply setup_msg_within. by apply Hm.
  - unfold process_nonces_msg. eapply within_bind; [apply session_contract_within|].
    intros [[k sm]|[[k sm]|]] Hl; [by apply feed_or_fail_within| |quiet_steps].
    destruct (last nonces); [|quiet_steps]. destruct (removelast nonces); [|quiet_steps]. by apply feed_or_fail_within.
  - unfold process_signatures_msg. eapply within_bind; [apply session_contract_within|].
    intros [[k sm]|[[k sm]|]] Hl; [quiet_steps| |quiet_steps].
    destruct sigs as [|sig [|]]; [quiet_steps| |quiet_steps]. by apply feed_or_fail_within.
Qed.

Lemma p2p_message_within o msg : within o (λ _, True) (process_p2p_message mt msg).
Proof. unfold process_p2p_message. do 2 (apply (within_bind _ (λ _, True)); [quiet_steps|]; intros ? _). apply gossip_within. Qed.

(** Requests are answered without any change. *)
Lemma p2p_request_reads req ctx ctx' r : process_p2p_request req ctx = Val (ctx', r) → ctx' = ctx.
Proof.
  assert (∀ txid, triple (λ _, True) eq (λ _, True) (session_contract txid)) as Hs.
  { intros txid c c' x _. unfold session_contract, h_bind, h_get. cbn. destruct (_ ≫= _); [by intros [= <- _]|].
    unfold h_comp. destruct (find_by_request _ _); [|done]. by intros [= <- _]. }
  intros Hp. enough (triple (λ _, True) eq (λ _, True) (process_p2p_request req)) as Ht by (symmetry; by eapply Ht).
  assert (∀ s s' : ContractManagerCtx, True → s = s' → True) as Hst by done.
  destruct req; cbn [process_p2p_request];
    unfold process_deposit_setup_request, process_musig2_nonces_exchange_request, process_musig2_signatures_exchange_request.
  all: repeat first
    [ match goal with |- ∀ _, _ => intros ? end
    | apply triple_ret; [apply _|exact I] | apply triple_throw; apply _ | apply triple_get; [apply _|by intros]
    | apply triple_comp; [apply _|by intros] | apply Hs
    | match goal with |- triple _ _ _ (match ?x with _ => _ end) => destruct x end
    | apply (triple_bind Hst (λ _, True)) ].
Qed.

(** *** Blocks *)

Lemma entry_within o checkpoint duties entry : within o (λ _, True) (process_entry mt checkpoint duties entry).
Proof.
  unfold process_entry. apply (within_bind _ (λ sm, listed o.2 (op_txid (de_output entry), sm))).
  { apply (within_bind _ (λ m, ∀ k sm, m !! k = Some sm → listed o.2 (k, sm))).
    - apply within_get. intros ctx <- k sm. apply listed_contract.
    - intros m Hm. apply within_comp. intros sm Hsm%expect_Val. by apply Hm. }
  quiet_steps.
Qed.

Lemma assignments_within o tx : within o (λ _, True) (process_assignments mt tx).
Proof.
  unfold process_assignments. do 2 (apply (within_bind _ (λ _, True)); [quiet_steps|]; intros ? _).
  quiet_steps. apply within_fold; [|done]. intros duties entry _ _. apply entry_within.
Qed.

Lemma confirm_within o h tx duties entry : listed o.2 entry → within o (λ _, True) (confirm_in_contract mt h tx duties entry).
Proof.
  destruct entry as [k sm]. intros Hl. unfold confirm_in_contract. destruct (_ <=? _)%N; [quiet_steps|]. quiet_steps.
Qed.

(** The new contracts of a block: they have the configuration of the node, the next indices, the
    height of the block, and ids that are not in use. *)
Definition fresh_contract (o : ExecutionConfig * gmap Txid (ContractCfg * N)) (h offset : N) (i : nat) (sm : ContractSM) : Prop :=
  operator_table (cfg sm) = ec_operator_table o.1 ∧
  cfg_params (cfg sm) = (ec_network o.1, ec_connector_params o.1, ec_pegout_graph_params o.1, ec_sidesystem_params o.1,
    ec_stake_chain_params o.1) ∧
  u32_add offset (N.of_nat i mod 2 ^ 32) = Val (deposit_idx (cfg sm)) ∧ block_height (mstate sm) = h ∧
  o.2 !! deposit_txid sm = None.

Definition fresh (o : ExecutionConfig * gmap Txid (ContractCfg * N)) (h offset : N) (news : list ContractSM) : Prop :=
  ∀ i sm, news !! i = Some sm → fresh_contract o h offset i sm.

Lemma fresh_snoc o h offset news sm : fresh o h offset news → fresh_contract o h offset (length news) sm →
  fresh o h offset (news ++ [sm]).
Proof.
  intros Hn Hsm i sm' [Hi|[Hi Hs]]%lookup_app_Some; [by apply Hn|].
  apply list_lookup_singleton_Some in Hs as [Hz <-]. by replace i with (length news) by lia.
Qed.

Lemma request_within o h offset pov data acc idx :
  fresh o h offset acc.2 → u32_add offset (N.of_nat (length acc.2) mod 2 ^ 32) = Val idx →
  within o (λ acc' : list OperatorDuty * list ContractSM, fresh o h offset acc'.2 ∧ length acc'.2 ≤ Datatypes.S (length acc.2))
    (process_request h idx pov data acc).
Proof.
  intros Hn Hi. unfold process_request. apply (within_bind _ (λ ec, ec = o.1)); [apply within_get; by intros ctx <-|].
  intros ec ->. do 2 (apply (within_bind _ (λ _, True)); [quiet_steps|]; intros ? _).
  match goal with |- within _ _ (match ?x with _ => _ end) => destruct x as [dtx|] end; [|apply within_ret; auto].
  apply (within_bind _ (λ known, known = bool_decide (is_Some (o.2 !! covenant_txid dtx)))).
  { apply within_get. intros ctx <-. cbn. unfold outline. rewrite lookup_fmap. apply bool_decide_ext. by rewrite fmap_is_Some. }
  intros known ->. case_bool_decide as Hk; [apply within_ret; auto|].
  do 2 (apply (within_bind _ (λ _, True)); [quiet_steps|]; intros ? _).
  apply (within_bind _ (λ sm, new_contract o.1 h idx dtx = Val sm)); [by apply within_comp|].
  intros sm Hsm. apply within_ret. cbn [snd]. split; [|rewrite length_app; cbn; lia]. apply fresh_snoc; [done|].
  unfold new_contract, ContractSM_new in Hsm. apply comp_bind_Val in Hsm as (deadline & _ & (rq & _ & [= <-])%comp_bind_Val).
  split_and!; try done. cbn. by apply eq_None_not_Some.
Qed.

Lemma tx_within o h offset pov acc tx :
  fresh o h offset acc.2 →
  within o (λ acc' : list OperatorDuty * list ContractSM, fresh o h offset acc'.2 ∧ length acc'.2 ≤ Datatypes.S (length acc.2))
    (process_tx mt h offset pov acc tx).
Proof.
  intros Hn. unfold process_tx. apply (within_bind _ (λ _, True)); [apply assignments_within|]. intros duties _.
  destruct duties; [|apply within_ret; auto].
  apply (within_bind _ (λ idx, u32_add offset (N.of_nat (length acc.2) mod 2 ^ 32) = Val idx)); [by apply within_comp|].
  intros idx Hi. do 3 (apply (within_bind _ (λ _, True)); [quiet_steps|]; intros ? _).
  match goal with |- within _ _ (match ?x with _ => _ end) => destruct x end; [by apply request_within|].
  apply (within_bind _ (λ m, ∀ k sm, m !! k = Some sm → listed o.2 (k, sm))).
  { apply within_get. intros ctx <- k sm. apply listed_contract. }
  intros m Hm. destruct (m !! compute_txid tx) as [sm|] eqn:Hk.
  - destruct (_ <=? _)%N; [apply within_ret; auto|].
    apply (within_bind _ (λ _, True)); [apply feed_within; [by apply Hm|done]|]. intros r _. apply within_ret. auto.
  - apply (within_bind _ (λ _, True)); [|intros ds _; apply within_ret; auto].
    apply within_fold; [|done]. intros ds [k sm] Hin _. apply confirm_within, Hm. by apply elem_of_bt_iter.
Qed.

Lemma txs_within o h offset pov acc txs :
  fresh o h offset acc.2 →
  within o (λ acc' : list OperatorDuty * list ContractSM,
      fresh o h offset acc'.2 ∧ length acc'.2 ≤ length txs + length acc.2)
    (h_fold (process_tx mt h offset pov) acc txs).
Proof.
  revert acc. induction txs as [|tx txs IH]; intros acc Hn; cbn [h_fold]; [by apply within_ret|].
  eapply within_bind; [by apply tx_within|]. intros acc' [Hn' Hl]. eapply triple_weaken; [by apply IH|].
  cbn. intros acc'' [Hn'' Hl']. split; [done|lia].
Qed.

(** Telling the contracts of a block: each of them expects it. *)
Lemma notify_fold h duties l ctx ctx' duties' :
  h_fold (notify_contract mt h) duties l ctx = Val (ctx', Ok duties') →
  Forall (λ e : Txid * ContractSM, u64_add (block_height (mstate e.2)) 1 = Val h) l ∧
  ctx_cfg ctx' = ctx_cfg ctx ∧ es_operator_table (ctx_state ctx') = es_operator_table (ctx_state ctx) ∧
  state_handles ctx' = state_handles ctx ∧
  outline ctx' = foldl (λ o e, <[e.1 := (cfg e.2, h)]> o) (outline ctx) l.
Proof.
  revert duties ctx. induction l as [|[k sm] l IH]; intros duties ctx; cbn [h_fold].
  { intros [= <- <-]. auto. }
  intros (ctx1 & d1 & E1 & E2)%h_bind_Ok. apply h_bind_Ok in E1 as (ctx2 & d2 & E1 & [= <- <-]).
  apply h_bind_Ok in E1 as (ctx3 & r & ([sm' r'] & Hp & [= <- <-])%comp_bind_Val & E1). cbn in E1.
  destruct r' as [d'|]; [|done]. injection E1 as <- <-.
  apply IH in E2 as (Hl & Hc & Ht & Hs & Ho). cbn [snd fst] in *.
  destruct (block_event _ _ _ _ _ Hp) as [Hn Hh]. apply event_refines in Hp as [Hcfg _].
  split_and!; [by constructor|done..|]. rewrite Ho. cbn [foldl]. f_equal. unfold outline, contracts. cbn.
  rewrite fmap_insert. by rewrite Hcfg, Hh.
Qed.

(** Insertions one after the other. *)
Lemma foldl_insert_lookup {A V} (key : A → N) (val : A → V) (m : gmap N V) l k :
  let m' := foldl (λ m a, <[key a := val a]> m) m l in
  (∀ p, m' !! k = Some p →
     (m !! k = Some p ∧ ∀ a, a ∈ l → key a ≠ k) ∨ ∃ i a, l !! i = Some a ∧ key a = k ∧ p = val a) ∧
  ((∀ a, a ∈ l → key a ≠ k) → m' !! k = m !! k) ∧
  ((∃ a, a ∈ l ∧ key a = k) → is_Some (m' !! k)).
Proof.
  induction l as [|x l IH] using rev_ind; cbn zeta in *.
  { cbn. split_and!; [|done|intros (? & ?%elem_of_nil & _); done]. intros p Hp. left. split; [done|]. by intros a ?%elem_of_nil. }
  rewrite foldl_snoc. destruct IH as (IH1 & IH2 & IH3). split_and!.
  - intros p. rewrite lookup_insert_Some. intros [[Hk <-]|[Hx [[Hm Hl]|(i & a & Hi & Hk)]%IH1]].
    + right. exists (length l), x. split; [|done]. by rewrite lookup_app_r, Nat.sub_diag by lia.
    + left. split; [done|]. intros a [Ha|Ha%list_elem_of_singleton]%elem_of_app; [by apply Hl|by subst].
    + right. exists i, a. split; [|done]. by apply lookup_app_l_Some.
  - intros Hne. rewrite lookup_insert_ne by (apply Hne, elem_of_app; right; by apply list_elem_of_singleton).
    apply IH2. intros a Ha. apply Hne, elem_of_app. by left.
  - intros (a & Ha & Hk). destruct (decide (key x = k)) as [<-|Hx]; [rewrite lookup_insert_eq; by eexists|].
    rewrite lookup_insert_ne by done. apply IH3. exists a. split; [|done].
    apply elem_of_app in Ha as [Ha|Ha%list_elem_of_singleton]; [done|by subst].
Qed.

Lemma notified_outline h ctx :
  foldl (λ o (e : Txid * ContractSM), <[e.1 := (cfg e.2, h)]> o) (outline ctx) (bt_iter (contracts ctx))
  = (λ p, (p.1, h)) <$> outline ctx.
Proof.
  apply map_eq. intros k.
  destruct (foldl_insert_lookup (λ e : Txid * ContractSM, e.1) (λ e, (cfg e.2, h)) (outline ctx) (bt_iter (contracts ctx)) k)
    as (Hget & Hother & Hsome). rewrite lookup_fmap. unfold outline at 2. rewrite lookup_fmap.
  destruct (contracts ctx !! k) as [sm|] eqn:Hk; cbn.
  - destruct Hsome as [p Hp]; [exists (k, sm); split; [by apply elem_of_bt_iter|done]|].
    destruct (Hget p Hp) as [[_ Hne]|(i & [k' sm'] & Hi & Hk' & ->)].
    + destruct (Hne (k, sm)); [by apply elem_of_bt_iter|done].
    + cbn in Hk'. subst k'. apply list_elem_of_lookup_2, elem_of_bt_iter in Hi. rewrite Hp. cbn. congruence.
  - rewrite Hother; [unfold outline; by rewrite lookup_fmap, Hk|].
    intros [k' sm] Hin%elem_of_bt_iter. cbn. intros ->. congruence.
Qed.

Lemma insert_contracts_outline news ctx :
  outline (with_contracts (insert_contracts news (contracts ctx)) ctx)
  = foldl (λ o sm, <[deposit_txid sm := (cfg sm, block_height (mstate sm))]> o) (outline ctx) news.
Proof.
  unfold outline at 1, contracts at 1, insert_contracts. cbn [with_contracts with_es ctx_state active_contracts].
  unfold outline. induction news as [|sm news IH] using rev_ind; [done|]. rewrite !foldl_snoc, fmap_insert. by rewrite IH.
Qed.

(** What a block does when it is processed without an error. *)
Lemma manager_block_spec block ctx ctx' duties :
  process_block mt block ctx = Val (ctx', Ok duties) →
  let h := default 0%N (bip34_block_height block) in
  ∃ offset news before rs,
    deposit_idx_offset (contracts ctx) = Val offset ∧ fresh (frame ctx) h offset news ∧ length news ≤ length (txdata block) ∧
    (∀ k c h', outline ctx !! k = Some (c, h') → u64_add h' 1 = Val h) ∧
    ctx_cfg ctx' = ctx_cfg ctx ∧ es_operator_table (ctx_state ctx') = es_operator_table (ctx_state ctx) ∧
    outline ctx' = foldl (λ o sm, <[deposit_txid sm := (cfg sm, block_height (mstate sm))]> o)
      ((λ p, (p.1, h)) <$> outline ctx) news ∧
    (∀ row, row ∈ before → row ∈ rows ctx ∨ owned ctx row) ∧
    Forall2 (λ e r, encode_contract e = Ok r) (bt_iter (contracts ctx')) rs ∧ rows ctx' = foldl insert_contract before rs.
Proof.
  intros Hp h. unfold process_block in Hp. fold h in Hp.
  apply h_bind_Ok in Hp as (c1 & pov & E1 & Hp). rewrite h_get_bind in E1. unfold h_comp in E1.
  apply comp_bind_Val in E1 as (pov' & _ & [= <- <-]).
  apply h_bind_Ok in Hp as (c1 & offset & E1 & Hp). rewrite h_get_bind in E1. unfold h_comp in E1.
  apply comp_bind_Val in E1 as (offset' & Hoff & [= <- <-]).
  apply h_bind_Ok in Hp as (c1 & acc & E1 & Hp).
  assert (fresh (frame ctx) h offset' []) as Hnil by (intros i sm; by rewrite lookup_nil).
  destruct (txs_within (frame ctx) h offset' pov' ([], []) (txdata block) Hnil _ _ _ eq_refl E1) as [(Hc1 & Ht1 & Ho1 & Hr1) Hacc].
  destruct (Hacc acc eq_refl) as [Hnews Hlen]. rewrite h_get_bind in Hp.
  apply h_bind_Ok in Hp as (c2 & d & E2 & Hp). apply notify_fold in E2 as (Hnext & Hc2 & Ht2 & Hs2 & Ho2).
  rewrite notified_outline in Ho2.
  apply h_bind_Ok in Hp as (c3 & u & [= <-] & Hp). rewrite h_get_bind in Hp.
  set (c3 := with_contracts (insert_contracts acc.2 (contracts c2)) c2) in *.
  apply h_bind_Ok in Hp as (c4 & u' & E4 & [= <- <-]). unfold run_contract_db in E4.
  destruct (commit_all (bt_iter (contracts c3)) _) as [db r] eqn:Ec. injection E4 as <- Hu. destruct r as [[]|]; [|done].
  exists offset', acc.2, (rows c2).
  destruct (mapM encode_contract (bt_iter (contracts c3))) as [rs|e] eqn:Em; unfold commit_all in Ec; rewrite Em in Ec; [|done].
  exists rs. split_and!; [done|done|by cbn in Hlen; lia| | | | | | |].
  - intros k c h' Hk. rewrite <- Ho1 in Hk. unfold outline in Hk. apply lookup_fmap_Some in Hk as (sm & [= <- <-] & Hk).
    apply elem_of_bt_iter in Hk. by apply (proj1 (Forall_forall _ _) Hnext (k, sm)).
  - cbn. congruence.
  - cbn. congruence.
  - change (outline _) with (outline c3) at 1. unfold c3. rewrite insert_contracts_outline, Ho2, Ho1. done.
  - unfold rows. rewrite Hs2. exact Hr1.
  - change (contracts _) with (contracts c3). by apply mapM_Ok_inv.
  - unfold rows at 1. cbn. destruct rs as [|r0 rs]; [by injection Ec as <-|].
    destruct (executes _ _) as [db' r'] eqn:Ex. injection Ec as <- Hr. apply executes_outcome in Ex. rewrite Ex.
    destruct r' as [[]|]; [|done]. done.
Qed.

(** Where the contracts after a block come from. *)
Lemma outline_after h offset ctx news o' :
  fresh (frame ctx) h offset news →
  o' = foldl (λ o sm, <[deposit_txid sm := (cfg sm, block_height (mstate sm))]> o) ((λ p, (p.1, h)) <$> outline ctx) news →
  (∀ k c h', o' !! k = Some (c, h') → h' = h ∧
     ((∃ h0, outline ctx !! k = Some (c, h0)) ∨
      ∃ i sm, news !! i = Some sm ∧ deposit_txid sm = k ∧ c = cfg sm ∧ fresh_contract (frame ctx) h offset i sm)) ∧
  (∀ k c h0, outline ctx !! k = Some (c, h0) → o' !! k = Some (c, h)).
Proof.
  intros Hn ->. split.
  - intros k c h' Hk. eapply (foldl_insert_lookup deposit_txid (λ sm : ContractSM, (cfg sm, block_height (mstate sm)))) in Hk
      as [[Hk _]|(i & sm & Hi & Hd & [= -> ->])].
    + apply lookup_fmap_Some in Hk as ([c0 h0] & [= -> ->] & Hk). eauto.
    + pose proof (Hn i sm Hi) as Hf. split; [by destruct Hf as (_ & _ & _ & Hh & _)|]. right. eauto 10.
  - intros k c h0 Hk. rewrite (proj1 (proj2 (foldl_insert_lookup deposit_txid
      (λ sm : ContractSM, (cfg sm, block_height (mstate sm))) _ news k))); [by rewrite lookup_fmap, Hk|].
    intros sm [i Hi]%list_elem_of_lookup <-. destruct (Hn i sm Hi) as (_ & _ & _ & _ & Hnone). cbn in Hnone. congruence.
Qed.

Lemma max_index_lt (m : gmap Txid ContractSM) offset b :
  deposit_idx_offset m = Val offset → (∀ k sm, m !! k = Some sm → deposit_idx (cfg sm) < b)%N → (b ≤ U32_MAX)%N →
  (∀ k sm, m !! k = Some sm → deposit_idx (cfg sm) < offset)%N ∧ (offset ≤ b)%N.
Proof.
  unfold deposit_idx_offset. intros Hoff Hb Hmax.
  assert (∀ i, i ∈ ((λ sm, deposit_idx (cfg sm)) <$> bt_values m) ↔ ∃ k sm, m !! k = Some sm ∧ deposit_idx (cfg sm) = i) as Hin.
  { intros i. rewrite list_elem_of_fmap. setoid_rewrite elem_of_bt_values. naive_solver. }
  destruct (_ <$> bt_values m) as [|i idxs] eqn:El.
  - injection Hoff as <-. split; [|lia]. intros k sm Hk. exfalso. apply (elem_of_nil (deposit_idx (cfg sm))). apply Hin. eauto.
  - assert (∀ l, (∀ j, j ∈ l → j < b)%N → (0 < b)%N → (foldr N.max 0 l < b)%N ∧ ∀ j, j ∈ l → (j ≤ foldr N.max 0 l)%N) as Hl.
    { induction l as [|j l IH]; intros Hj Hz; [split; [done|by intros ? ?%elem_of_nil]|]. cbn.
      destruct IH as [I1 I2]; [intros; apply Hj; by right|done|]. split; [pose proof (Hj j (list_elem_of_here _ _)); lia|].
      intros j' [->|Hj']%elem_of_cons; [lia|]. specialize (I2 j' Hj'). lia. }
    assert (∀ j, j ∈ i :: idxs → j < b)%N as Hlt by (intros j (k & sm & Hk & <-)%Hin; eauto).
    destruct (Hl (i :: idxs) Hlt) as [Hm Hle]; [pose proof (Hlt i (list_elem_of_here _ _)); lia|].
    set (top := foldr N.max 0%N (i :: idxs)) in *. unfold u32_add in Hoff.
    rewrite (proj2 (N.leb_le _ _)) in Hoff by lia. assert (offset = top + 1)%N as -> by congruence. split; [|lia].
    intros k sm Hk. specialize (Hle (deposit_idx (cfg sm))). rewrite Hin in Hle. specialize (Hle ltac:(eauto)). lia.
Qed.

Lemma fresh_index o h offset i sm b n :
  fresh_contract o h offset i sm → i < n → (offset ≤ b)%N → (b + N.of_nat n ≤ U32_MAX)%N →
  deposit_idx (cfg sm) = (offset + N.of_nat i)%N.
Proof.
  intros (_ & _ & Hi & _) Hn Hb Hmax.
  assert (N.of_nat i mod 2 ^ 32 = N.of_nat i)%N as Hm by (apply N.mod_small; change (2 ^ 32)%N with (U32_MAX + 1)%N; lia).
  rewrite Hm in Hi. unfold u32_add in Hi. rewrite (proj2 (N.leb_le _ _)) in Hi by lia. congruence.
Qed.

Lemma elem_of_insert_contracts (before rs : list ContractRow) row :
  row ∈ foldl insert_contract before rs → row ∈ before ∨ row ∈ rs.
Proof.
  induction rs as [|r rs IH] using rev_ind; [by left|]. rewrite foldl_snoc. unfold insert_contract at 1.
  rewrite !elem_of_app, list_elem_of_filter, list_elem_of_singleton. intros [[_ Hr%IH]| ->]; naive_solver.
Qed.

Lemma block_wf b block ctx ctx' duties :
  manager_wf b ctx → (b + N.of_nat (length (txdata block)) ≤ U32_MAX)%N →
  process_block mt block ctx = Val (ctx', Ok duties) → manager_wf (b + N.of_nat (length (txdata block))) ctx'.
Proof.
  intros [W1 W2 W3 W4 W5] Hb Hp. apply manager_block_spec in Hp as
    (offset & news & before & rs & Hoff & Hn & Hlen & _ & Hc & Ht & Ho & Hbefore & Hrs & Hrows).
  set (h := default 0%N _) in *. destruct (outline_after h offset ctx news _ Hn Ho) as [Hfrom Hold].
  destruct (max_index_lt (contracts ctx) offset b Hoff) as [Hlt Hle]; [|lia|].
  { intros k sm Hk%listed_contract. by destruct (W2 _ _ _ Hk) as (_ & _ & _ & ?). }
  assert (∀ k c h0, outline ctx !! k = Some (c, h0) → deposit_idx c < offset)%N as Hlt'.
  { intros k c h0 (sm & [= <- <-] & Hk)%lookup_fmap_Some. eauto. }
  assert (∀ i sm, news !! i = Some sm → fresh_contract (frame ctx) h offset i sm → deposit_idx (cfg sm) = (offset + N.of_nat i)%N) as Hidx.
  { intros i sm Hi Hf. eapply fresh_index; [done| |done|done]. apply lookup_lt_Some in Hi. lia. }
  split.
  - rewrite Ht, Hc. done.
  - intros k c h' [_ [[h0 Hk]|(i & sm & Hi & Hk & -> & Hf)]]%Hfrom; rewrite Hc.
    + destruct (W2 k c h0 Hk) as (? & ? & ? & ?). split_and!; try done. lia.
    + pose proof (Hidx i sm Hi Hf) as Hd. apply lookup_lt_Some in Hi. destruct Hf as (? & ? & _). split_and!; try done. lia.
  - intros k1 c1 h1 k2 c2 h2 [_ F1]%Hfrom [_ F2]%Hfrom Heq.
    destruct F1 as [[h0 K1]|(i & sm & I1 & K1 & -> & F1)], F2 as [[h0' K2]|(j & sm' & I2 & K2 & -> & F2)].
    + by eapply W3.
    + rewrite (Hidx j sm' I2 F2) in Heq. apply Hlt' in K1. lia.
    + rewrite (Hidx i sm I1 F1) in Heq. apply Hlt' in K2. lia.
    + rewrite (Hidx i sm I1 F1), (Hidx j sm' I2 F2) in Heq. assert (i = j) as -> by lia. congruence.
  - intros k1 c1 h1 k2 c2 h2 [-> _]%Hfrom [-> _]%Hfrom. done.
  - rewrite Hrows. intros row [Hr|Hr]%elem_of_insert_contracts.
    + assert (owned ctx row) as (k & c & h0 & Hk & Hi) by (apply Hbefore in Hr as [Hr|Hr]; auto).
      exists k, c, h. split; [by eapply Hold|done].
    + apply list_elem_of_lookup in Hr as [i Hi]. destruct (Forall2_lookup_r _ _ _ _ _ Hrs Hi) as ([k sm] & He & E).
      apply list_elem_of_lookup_2, elem_of_bt_iter, listed_contract in He. exists k, (cfg sm), (block_height (mstate sm)).
      split; [done|]. by apply encode_row_ids in E as [_ ?].
Qed.

(** How many transactions the buried blocks among the events have. *)
Definition event_txs (event : ManagerEvent) : nat :=
  match event with NewBlock (mkBlockEvent block BlockBuried) => length (txdata block) | _ => 0 end.
Definition block_txs (events : list ManagerEvent) : nat := foldr (λ event n, event_txs event + n)%nat 0 events.

Lemma logged_quiet {A} (m : handler ContractManagerCtx ContractManagerErr A) on_ok ctx ctx' acts exit :
  within (frame ctx) (λ _, True) m → logged m on_ok ctx = Val (ctx', acts, exit) → quiet ctx ctx'.
Proof.
  intros Hm. unfold logged. intros ([ctx1 r] & Hp & [= <- _ _])%comp_bind_Val. by destruct (Hm _ _ _ eq_refl Hp).
Qed.

Lemma turn_wf b event ctx ctx' acts :
  manager_wf b ctx → (b + N.of_nat (event_txs event) ≤ U32_MAX)%N → loop_step mt event ctx = Val (ctx', acts, None) →
  manager_wf (b + N.of_nat (event_txs event)) ctx'.
Proof.
  assert (∀ b' c, (b ≤ b')%N → manager_wf b c → manager_wf b' c) as Hmono.
  { intros b' c Hb [W1 W2 W3 W4 W5]. split; try done. intros k cf h Hk. destruct (W2 k cf h Hk) as (? & ? & ? & ?).
    split_and!; try done. lia. }
  intros Hwf Hb Hs.
  enough (quiet ctx ctx' ∨ manager_wf (b + N.of_nat (event_txs event)) ctx') as [Hq|Hw];
    [eapply Hmono; [|by eapply quiet_wf]; lia|done|].
  destruct event as [[msg|]|[req|]| |[block []]|msg|req| |]; cbn [loop_step be_status be_block] in Hs; try (left; by simplify_eq).
  - left. apply comp_bind_Val in Hs as (pov & _ & Hs). eapply logged_quiet; [apply gossip_within|exact Hs].
  - left. apply comp_bind_Val in Hs as (pov & _ & Hs). destruct (bool_decide _); [|by simplify_eq].
    unfold logged in Hs. apply comp_bind_Val in Hs as ([ctx1 r] & Hp%p2p_request_reads & [= <- _]). by subst.
  - right. apply comp_bind_Val in Hs as (h & _ & ([ctx1 [d|e]] & Hp & [= <- _])%comp_bind_Val).
    by eapply block_wf.
  - left. eapply logged_quiet; [apply p2p_message_within|exact Hs].
  - left. unfold logged in Hs. apply comp_bind_Val in Hs as ([ctx1 r] & Hp%p2p_request_reads & [= <- _]). by subst.
Qed.

(** C4: The manager's invariant is kept by every event.  Its contracts are stored under the ids of
    their deposits, have the configuration of the node and pairwise different indices below a
    bound, and are all at the same height; the database has rows of these contracts only.  This
    holds after any sequence of blocks, messages, requests and nags during which the loop goes on,
    with the bound raised by one for each transaction, as long as that fits into 32 bits. *)
Theorem manager_keeps_invariant b events ctx ctx' acts :
  manager_wf b ctx → (b + N.of_nat (block_txs events) ≤ U32_MAX)%N → event_loop mt events ctx = Val (ctx', acts, None) →
  manager_wf (b + N.of_nat (block_txs events)) ctx'.
Proof.
  revert b ctx acts. induction events as [|event events IH]; intros b ctx acts Hwf Hb Hl.
  { injection Hl as <- _. cbn in *. by rewrite N.add_0_r. }
  cbn [event_loop] in Hl. apply comp_bind_Val in Hl as ([[ctx1 acts1] exit] & Hs & Hl). destruct exit; [done|].
  apply comp_bind_Val in Hl as ([[ctx2 acts2] exit] & Hl & [= -> _ ->]).
  change (block_txs (event :: events)) with (event_txs event + block_txs events)%nat in *.
  rewrite Nat2N.inj_add, N.add_assoc in *. eapply IH; [|done|done]. eapply turn_wf; [done|lia|done].
Qed.

(** C30: The contracts move in lockstep with the chain.  A block that is processed without an error
    is the next one for every contract, and afterwards every contract, old or new, is at its
    height.  So a contract that has seen the block already is not skipped: no block is processed
    when the heights of two contracts differ. *)
Theorem blocks_in_lockstep block ctx ctx' duties :
  process_block mt block ctx = Val (ctx', Ok duties) →
  let h := default 0%N (bip34_block_height block) in
  (∀ k sm, contracts ctx !! k = Some sm → u64_add (block_height (mstate sm)) 1 = Val h) ∧
  (∀ k sm, contracts ctx' !! k = Some sm → block_height (mstate sm) = h) ∧
  (∀ k, is_Some (contracts ctx !! k) → is_Some (contracts ctx' !! k)).
Proof.
  intros Hp h. apply manager_block_spec in Hp as (offset & news & before & rs & _ & Hn & _ & Hnext & _ & _ & Ho & _).
  destruct (outline_after h offset ctx news _ Hn Ho) as [Hfrom Hold]. split_and!.
  - intros k sm Hk%listed_contract. by eapply Hnext.
  - intros k sm Hk%listed_contract. by destruct (Hfrom _ _ _ Hk).
  - intros k [sm Hk%listed_contract%Hold]. apply lookup_fmap_Some in Hk as (sm' & _ & Hk). by exists sm'.
Qed.

(** *** Restarts *)

Lemma insert_contracts_split (old new rs : list ContractRow) :
  foldl insert_contract (old ++ new) rs
  = filter (λ row, Forall (λ r, ¬ conflicts r row) rs) old ++ foldl insert_contract new rs.
Proof.
  revert old new. induction rs as [|r rs IH]; intros old new; cbn [foldl].
  { f_equal. symmetry. apply filter_all. intros row _. constructor. }
  unfold insert_contract at 2 4. rewrite filter_app, <- app_assoc, IH. f_equal. rewrite list_filter_filter.
  apply list_filter_iff. intros row. rewrite Forall_cons. naive_solver.
Qed.

Lemma insert_distinct (old rs : list ContractRow) :
  NoDup (row_deposit_txid <$> old ++ rs) → NoDup (row_deposit_idx <$> old ++ rs) →
  foldl insert_contract old rs = old ++ rs.
Proof.
  revert old. induction rs as [|r rs IH]; intros old Ht Hi; cbn [foldl]; [by rewrite app_nil_r|].
  assert (insert_contract old r = old ++ [r]) as ->.
  { unfold insert_contract. f_equal. apply filter_all. intros row Hrow Hconf. rewrite fmap_app in Ht, Hi.
    apply NoDup_app in Ht as (_ & Ht & _), Hi as (_ & Hi & _). destruct Hconf as [Hc|Hc].
    - apply (Ht (row_deposit_txid row)); [by apply list_elem_of_fmap_2|]. cbn. rewrite <- Hc. by left.
    - apply (Hi (row_deposit_idx row)); [by apply list_elem_of_fmap_2|]. cbn. rewrite <- Hc. by left. }
  rewrite IH; rewrite <- ?app_assoc; done.
Qed.

Lemma Forall2_fmap_eq {A B C} (f : A → C) (g : B → C) (Rel : A → B → Prop) l k :
  Forall2 Rel l k → (∀ a b, a ∈ l → Rel a b → f a = g b) → f <$> l = g <$> k.
Proof.
  induction 1 as [|a b l k Hab _ IH]; intros Hfg; [done|]. cbn. f_equal; [apply Hfg; [by left|done]|].
  apply IH. intros ? ? ?. apply Hfg. by right.
Qed.

(** After all contracts have been written over the rows of some of them, they load back. *)
Lemma written_contracts_load `{!SerdeLaws} b ctx before rs p :
  manager_wf b ctx → (∀ row, row ∈ before → owned ctx row) →
  Forall2 (λ e r, encode_contract e = Ok r) (bt_iter (contracts ctx)) rs →
  tables p = foldl insert_contract before rs → faults p = [] →
  (load_contracts (ctx_cfg ctx) p).2 = Ok (clear_pog_cache <$> contracts ctx).
Proof.
  intros [W1 W2 W3 W4 W5] Hbefore Hrs Hp Hf.
  assert (∀ e r, e ∈ bt_iter (contracts ctx) → encode_contract e = Ok r → row_deposit_txid r = e.1 ∧
    row_deposit_idx r = deposit_idx (cfg e.2)) as Hids by (intros e r _ E; by apply encode_row_ids in E).
  assert (tables p = rs) as Hrows.
  { rewrite Hp, <- (app_nil_r before), insert_contracts_split.
    rewrite (insert_distinct [] rs); cbn [app]; [| |].
    - rewrite (elem_of_nil_inv (filter _ before)); [done|]. intros row [Hall Hrow]%list_elem_of_filter. destruct (Hbefore row Hrow) as (k & c & h & Hk & Hi).
      apply lookup_fmap_Some in Hk as (sm & [= <- <-] & Hk). apply elem_of_bt_iter, list_elem_of_lookup in Hk as [i Hlook].
      destruct (Forall2_lookup_l _ _ _ _ _ Hrs Hlook) as (r & Hr & E). apply list_elem_of_lookup_2 in Hr, Hlook.
      apply (proj1 (Forall_forall _ _) Hall r Hr). right. rewrite Hi. by apply (Hids (k, sm)).
    - rewrite <- (Forall2_fmap_eq fst _ _ _ _ Hrs); [apply NoDup_bt_keys|]. intros e r He E. symmetry. by apply Hids.
    - rewrite <- (Forall2_fmap_eq (λ e, deposit_idx (cfg e.2)) _ _ _ _ Hrs); [|intros e r He E; symmetry; by apply Hids].
      apply NoDup_fmap_2_strong; [|eapply NoDup_fmap_1, NoDup_bt_keys].
      intros [k1 s1] [k2 s2] K1%elem_of_bt_iter K2%elem_of_bt_iter Heq. cbn in Heq.
      assert (k1 = k2) as -> by (eapply W3; [by apply listed_contract|by apply listed_contract|done]). by simplify_eq. }
  unfold load_contracts, load_all. destruct p as [cf t fs]. cbn in Hrows, Hf. subst t fs.
  assert (mapM (decode_row (ec_network (ctx_cfg ctx)) (ec_connector_params (ctx_cfg ctx)) (ec_pegout_graph_params (ctx_cfg ctx))
    (ec_sidesystem_params (ctx_cfg ctx)) (ec_stake_chain_params (ctx_cfg ctx))) rs
    = Ok ((λ e : Txid * ContractSM, (cfg e.2, mstate e.2)) <$> bt_iter (contracts ctx))) as Hd.
  { apply Forall2_mapM_Ok, Forall2_fmap_r, Forall2_flip. apply Forall2_same_length_lookup in Hrs as [Hlen Hrs].
    apply Forall2_same_length_lookup. split; [done|]. intros i [k sm] r Hi Hr. apply (encode_contract_spec (k, sm)); [by eapply Hrs|].
    apply list_elem_of_lookup_2, elem_of_bt_iter, listed_contract in Hi. by apply W2 in Hi as (_ & _ & -> & _). }
  erewrite execute_no_faults by (by rewrite Hd). cbn. f_equal. rewrite <- list_fmap_compose.
  rewrite <- (bt_collect_iter (clear_pog_cache <$> contracts ctx)), bt_iter_fmap. f_equal.
  apply list_fmap_ext. intros i [k sm] Hi%list_elem_of_lookup_2%elem_of_bt_iter. cbn.
  apply listed_contract, W2 in Hi as [Hk _]. cbn in Hk. by rewrite Hk.
Qed.

(** C6: A restart after a block finds the same contracts.  When a block has been processed without
    an error, loading the database gives back exactly the contracts of the manager, under the same
    keys, with the same configurations and states; only the cached graphs are gone. *)
Theorem restart_after_block `{!SerdeLaws} b block ctx ctx' duties p :
  manager_wf b ctx → (b + N.of_nat (length (txdata block)) ≤ U32_MAX)%N →
  process_block mt block ctx = Val (ctx', Ok duties) →
  tables p = tables (contract_persister (state_handles ctx')) → faults p = [] →
  (load_contracts (ctx_cfg ctx) p).2 = Ok (clear_pog_cache <$> contracts ctx').
Proof.
  intros Hwf Hb Hp Ht Hf. pose proof (block_wf _ _ _ _ _ Hwf Hb Hp) as Hwf'.
  apply manager_block_spec in Hp as (offset & news & before & rs & _ & Hn & _ & _ & Hc & _ & Ho & Hbefore & Hrs & Hrows).
  rewrite <- Hc. eapply (written_contracts_load _ _ before rs); [done| |done|by rewrite Ht|done].
  intros row Hr. assert (owned ctx row) as (k & c & h0 & Hk & Hi) by (apply Hbefore in Hr as [Hr|Hr]; [by eapply wf_rows|done]).
  exists k, c, (default 0%N (bip34_block_height block)). split; [|done].
  by eapply (outline_after _ _ _ _ _ Hn Ho).
Qed.

(** A graceful shutdown loses nothing of the contracts.  The shutdown signal hands out the whole
    state; when it is then persisted, in time and without being told to stop or an error, loading
    gives back exactly the contracts the manager had. *)
Theorem shutdown_keeps_contracts `{!SerdeLaws} b ctx ctx' acts exit state guard handles p :
  manager_wf b ctx → loop_step mt ShutdownSignal ctx = Val (ctx', acts, exit) → SendState state ∈ acts →
  stop_at_start guard = false → stop_at_contracts guard = false →
  persist_state_before_shutdown state guard (state_handles ctx) = Val (handles, Ok tt) →
  tables p = tables (contract_persister handles) → faults p = [] →
  (load_contracts (ctx_cfg ctx) p).2 = Ok (clear_pog_cache <$> contracts ctx).
Proof.
  intros Hwf Hs Hst Hg1 Hg2 Hp Ht Hf. cbn in Hs. injection Hs as _ <- _. apply list_elem_of_singleton in Hst. injection Hst as ->.
  unfold persist_state_before_shutdown in Hp. rewrite Hg1, Hg2 in Hp. unfold persist_contract_state in Hp. cbn in Hp.
  change (active_contracts (ctx_state ctx)) with (contracts ctx) in Hp.
  destruct (commit_all (bt_iter (contracts ctx)) (contract_persister (state_handles ctx))) as [db r] eqn:Ec.
  destruct (contracts_deadline guard); [|done]. cbn in Hp. destruct r as [[]|]; [|done].
  assert (contract_persister handles = db) as Hdb.
  { destruct (stop_between guard); [by injection Hp as <-|]. apply comp_bind_Val in Hp as (q & _ & Hp).
    destruct (timeout _ _ q) as [q1 q2]. by injection Hp as <- _. }
  unfold commit_all in Ec. destruct (mapM encode_contract (bt_iter (contracts ctx))) as [rs|] eqn:Em; [|done].
  eapply (written_contracts_load _ _ (rows ctx) rs); [done|by eapply wf_rows|by apply mapM_Ok_inv| |done].
  rewrite Ht, Hdb. destruct rs as [|r0 rs]; [by injection Ec as <-|].
  destruct (executes _ _) as [db' r'] eqn:Ex. injection Ec as <- Hr. apply executes_outcome in Ex. rewrite Ex.
  by destruct r' as [[]|].
Qed.

(** *** A transaction that a contract does not expect *)

Lemma feed_or_fail_Ok k sm ev ctx ctx' duties :
  feed_or_fail mt k sm ev ctx = Val (ctx', Ok duties) →
  ∃ sm', process_contract_event mt ev sm = Val (sm', Ok duties) ∧ ctx' = with_contracts (<[k := sm']> (contracts ctx)) ctx.
Proof.
  intros (ctx1 & r & ([sm' r'] & Hp & [= <- <-])%comp_bind_Val & E)%h_bind_Ok. cbn in E.
  destruct r' as [d|]; [|done]. injection E as <- <-. by exists sm'.
Qed.

(** The loop over the contracts comes to an end only if the transaction does not concern a contract
    that is in state [Deposited]. *)
Lemma confirm_deposited h tx k sm g l duties ctx ctx' duties' :
  state (mstate sm) = Deposited g → (block_height (mstate sm) < h)%N → (∀ e, e ∈ l → e.1 = k → e.2 = sm) →
  h_fold (confirm_in_contract mt h tx) duties l ctx = Val (ctx', Ok duties') →
  ((k, sm) ∈ l → transaction_filter sm tx = Val false) ∧ contracts ctx' !! k = contracts ctx !! k ∧ ctx_cfg ctx' = ctx_cfg ctx.
Proof.
  intros Hs Hh. revert duties ctx. induction l as [|[k' sm'] l IH]; intros duties ctx Hl Hf; cbn [h_fold] in Hf.
  { injection Hf as <- _. split_and!; [by intros ?%elem_of_nil|done..]. }
  apply h_bind_Ok in Hf as (ctx1 & d1 & E1 & Hf). apply IH in Hf as (Hin & Hk & Hc); [|intros; apply Hl; [by right|done]].
  unfold confirm_in_contract in E1. destruct (decide (k' = k)) as [->|Hne].
  - assert (sm' = sm) as -> by (apply (Hl (k, sm')); [by left|done]).
    rewrite (proj2 (N.leb_gt _ _)) in E1 by done. apply h_bind_Ok in E1 as (ctx2 & rel & E & E1).
    unfold h_comp in E. apply comp_bind_Val in E as (rel' & Hrel & [= <- <-]). destruct rel'.
    + apply h_bind_Ok in E1 as (ctx3 & d3 & (sm3 & Hp & _)%feed_or_fail_Ok & _). cbn in Hp.
      unfold collect_duty, process_peg_out_graph_tx_confirmation in Hp. rewrite Hs in Hp. done.
    + injection E1 as <- <-. split_and!; [|done|done]. intros _. done.
  - assert (contracts ctx1 !! k = contracts ctx !! k ∧ ctx_cfg ctx1 = ctx_cfg ctx) as [Hk1 Hc1].
    { destruct (_ <=? _)%N; [by injection E1 as <- _|]. apply h_bind_Ok in E1 as (ctx2 & rel & E & E1).
      unfold h_comp in E. apply comp_bind_Val in E as (rel' & Hrel & [= <- <-]). destruct rel'; [|by injection E1 as <- _].
      apply h_bind_Ok in E1 as (ctx3 & d3 & (sm3 & Hp & ->)%feed_or_fail_Ok & [= <- _]). cbn.
      split; [|done]. unfold contracts at 1. cbn. by rewrite lookup_insert_ne. }
    split_and!; [|congruence|congruence]. intros [[= -> _]|Hin']%elem_of_cons; [done|auto].
Qed.

Lemma tx_deposited h offset pov acc tx k sm g ctx ctx' acc' :
  state (mstate sm) = Deposited g → (block_height (mstate sm) < h)%N → contracts ctx !! k = Some sm →
  parse_strata_checkpoint tx (ec_sidesystem_params (ctx_cfg ctx)) = Val None →
  process_tx mt h offset pov acc tx ctx = Val (ctx', Ok acc') →
  contracts ctx' !! k = Some sm ∧ ctx_cfg ctx' = ctx_cfg ctx ∧
  ((∀ context idx, deposit_request_info tx (ec_sidesystem_params (ctx_cfg ctx)) (ec_pegout_graph_params (ctx_cfg ctx)) context idx
      = Val None) → contracts ctx !! compute_txid tx = None → transaction_filter sm tx = Val false).
Proof.
  intros Hs Hh Hk Hno Hp. unfold process_tx in Hp. apply h_bind_Ok in Hp as (ctx1 & ds & E1 & Hp).
  assert (ctx1 = ctx ∧ ds = []) as [-> ->].
  { unfold process_assignments in E1. rewrite h_get_bind in E1. rewrite Hno in E1. by injection E1 as <- <-. }
  apply h_bind_Ok in Hp as (ctx1 & idx & (idx' & Hi & [= <- <-])%comp_bind_Val & Hp). rewrite h_get_bind in Hp.
  apply h_bind_Ok in Hp as (ctx1 & tcx & (tcx' & Ht & [= <- <-])%comp_bind_Val & Hp).
  apply h_bind_Ok in Hp as (ctx1 & req & (req' & Hr & [= <- <-])%comp_bind_Val & Hp).
  destruct req' as [data|].
  - assert (triple (λ _, True) eq (λ _, True) (process_request h idx' pov data acc)) as Ht'.
    { assert (∀ s s' : ContractManagerCtx, True → s = s' → True) as Hst by done. unfold process_request.
      repeat first
        [ match goal with |- ∀ _, _ => intros ? end
        | apply triple_ret; [apply _|exact I] | apply triple_throw; apply _ | apply triple_get; [apply _|by intros]
        | apply triple_comp; [apply _|by intros]
        | match goal with |- triple _ _ _ (match ?x with _ => _ end) => destruct x end
        | apply (triple_bind Hst (λ _, True)) ]. }
    destruct (Ht' _ _ _ I Hp) as [<- _]. split_and!; [done|done|]. intros Hnone. by rewrite Hnone in Hr.
  - rewrite h_get_bind in Hp. destruct (contracts ctx !! compute_txid tx) as [sm'|] eqn:Hc.
    + destruct (_ <=? _)%N; [by injection Hp as <- _|].
      apply h_bind_Ok in Hp as (ctx1 & r & ([sm2 r2] & Hp & [= <- <-])%comp_bind_Val & [= <- _]). split_and!; [|done|done].
      unfold contracts at 1. cbn. destruct (decide (compute_txid tx = k)) as [He|Hne]; [|by rewrite lookup_insert_ne].
      rewrite He in Hc |- *. assert (sm' = sm) as -> by congruence. rewrite lookup_insert_eq. f_equal.
      cbn in Hp. unfold collect_duty, process_deposit_confirmation in Hp. rewrite Hs in Hp.
      destruct (bool_decide _); by injection Hp as <- _.
    + apply h_bind_Ok in Hp as (ctx1 & d & Hf & [= <- _]).
      eapply (confirm_deposited _ _ k sm g) in Hf as (Hin & Hk' & Hc'); [|done|done|].
      * split_and!; [congruence|done|]. intros _ _. apply Hin. by apply elem_of_bt_iter.
      * intros [k' sm'] Hin%elem_of_bt_iter. cbn. intros ->. cbn in Hin. congruence.
Qed.

Lemma deposited_filter sm tx g input summary :
  state (mstate sm) = Deposited g → (input, summary) ∈ bt_values (peg_out_graphs g) → graph_tx tx summary = true →
  transaction_filter sm tx = Val true.
Proof.
  intros Hs Hg Ht. unfold transaction_filter. rewrite Hs. cbn. unfold mret, comp_ret. f_equal. apply existsb_true.
  exists summary. split; [|by rewrite Ht, orb_true_r]. apply list_elem_of_fmap. by exists (input, summary).
Qed.


(** *** What is asked of the operators *)

Section due.
Variable ctx : ContractManagerCtx.

Definition known_operator (op : P2POperatorPubKey) : Prop := is_Some (p2p_key (the_table ctx) !! op).
Definition everyone {A} (m : BTreeMap P2POperatorPubKey A) : Prop := ∀ op, known_operator op → is_Some (m !! op).
Definition everyone_for_claims {A} (r : RequestedState) (sessions : BTreeMap Txid (BTreeMap P2POperatorPubKey A)) : Prop :=
  ∀ claim, claim ∈ bt_values (r_claim_txids r) → everyone (default ∅ (sessions !! claim)).
Definition stake_of (sm : ContractSM) (op : P2POperatorPubKey) : option Txid :=
  sc_stake_txid (es_stake_chains (ctx_state ctx)) op (deposit_idx (cfg sm)).

(** The contract is being set up and the stakes of all operators for it are known. *)
Definition setting_up (txid : Txid) (r : RequestedState) : Prop :=
  ∃ sm, contracts ctx !! txid = Some sm ∧ state (mstate sm) = Requested r ∧
    ∀ op, known_operator op → is_Some (stake_of sm op).

(** What is missing from an operator, each kind of message only when all earlier ones are there. *)
Inductive due : GetMessageRequest → Prop :=
| due_exchange op : known_operator op → stake_chains (es_stake_chains (ctx_state ctx)) !! op = None →
    due (GetStakeChainExchange 0 op)
| due_stake txid sm op : contracts ctx !! txid = Some sm → known_operator op → stake_of sm op = None →
    due (GetDepositSetup txid op)
| due_setup txid r op : setting_up txid r → known_operator op → peg_out_graph_inputs r !! op = None →
    due (GetDepositSetup txid op)
| due_graph_nonces txid r claim op : setting_up txid r → everyone (peg_out_graph_inputs r) → known_operator op →
    claim ∈ bt_values (r_claim_txids r) → default ∅ (graph_nonces r !! claim) !! op = None →
    due (GetMusig2Nonces claim op)
| due_graph_sigs txid r claim op : setting_up txid r → everyone (peg_out_graph_inputs r) →
    everyone_for_claims r (graph_nonces r) → known_operator op → claim ∈ bt_values (r_claim_txids r) →
    default ∅ (graph_partials r !! claim) !! op = None → due (GetMusig2Signatures claim op)
| due_root_nonce txid r op : setting_up txid r → everyone (peg_out_graph_inputs r) →
    everyone_for_claims r (graph_nonces r) → everyone_for_claims r (graph_partials r) → known_operator op →
    root_nonces r !! op = None → due (GetMusig2Nonces (deposit_request_txid r) op)
| due_root_sig txid r op : setting_up txid r → everyone (peg_out_graph_inputs r) →
    everyone_for_claims r (graph_nonces r) → everyone_for_claims r (graph_partials r) → everyone (root_nonces r) →
    known_operator op → root_partials r !! op = None → due (GetMusig2Signatures (deposit_request_txid r) op).

Abbreviation want := (bt_keys (p2p_key (the_table ctx))).

Lemma fmap_nil_iff {A B} (f : A → B) l : f <$> l = [] ↔ l = [].
Proof. by destruct l. Qed.

Lemma elem_of_or_next {A} (x : A) l next : x ∈ or_next l next ↔ x ∈ l ∨ (l = [] ∧ x ∈ next).
Proof. destruct l; cbn; [rewrite elem_of_nil|]; naive_solver. Qed.

Lemma elem_of_missing {A} (m : BTreeMap P2POperatorPubKey A) op : op ∈ missing want m ↔ known_operator op ∧ m !! op = None.
Proof. unfold missing, known_operator. rewrite list_elem_of_filter, elem_of_bt_keys. naive_solver. Qed.

Lemma asked_missing {A} (m : BTreeMap P2POperatorPubKey A) (f : P2POperatorPubKey → GetMessageRequest) req :
  req ∈ f <$> missing want m ↔ ∃ op, req = f op ∧ known_operator op ∧ m !! op = None.
Proof. rewrite list_elem_of_fmap. by setoid_rewrite elem_of_missing. Qed.

Lemma missing_none {A} (m : BTreeMap P2POperatorPubKey A) (f : P2POperatorPubKey → GetMessageRequest) :
  f <$> missing want m = [] ↔ everyone m.
Proof.
  rewrite fmap_nil_iff. split.
  - intros Hm op Hop. apply not_eq_None_Some. intros Hn. apply (elem_of_nil op). rewrite <- Hm. by apply elem_of_missing.
  - intros Hm. apply elem_of_nil_inv. intros op [Hop Hn]%elem_of_missing. destruct (Hm op Hop). congruence.
Qed.

Lemma asked_for_claims {A} r (sessions : BTreeMap Txid (BTreeMap P2POperatorPubKey A)) f req :
  req ∈ missing_of_claims want (bt_values (r_claim_txids r)) sessions f ↔
  ∃ claim op, req = f claim op ∧ claim ∈ bt_values (r_claim_txids r) ∧ known_operator op ∧
    default ∅ (sessions !! claim) !! op = None.
Proof.
  unfold missing_of_claims. rewrite list_elem_of_join. split.
  - intros (l & Hreq & (claim & -> & Hc)%list_elem_of_fmap). apply asked_missing in Hreq as (op & -> & Hop & Hn). eauto 10.
  - intros (claim & op & -> & Hc & Hop & Hn). eexists. split; [|by apply list_elem_of_fmap_2]. apply asked_missing. eauto.
Qed.

Lemma missing_for_claims_none {A} r (sessions : BTreeMap Txid (BTreeMap P2POperatorPubKey A)) f :
  missing_of_claims want (bt_values (r_claim_txids r)) sessions f = [] ↔ everyone_for_claims r sessions.
Proof.
  split.
  - intros Hm claim Hc op Hop. apply not_eq_None_Some. intros Hn. apply (elem_of_nil (f claim op)). rewrite <- Hm.
    apply asked_for_claims. eauto 10.
  - intros Hm. apply elem_of_nil_inv. intros req (claim & op & -> & Hc & Hop & Hn)%asked_for_claims.
    destruct (Hm claim Hc op Hop). congruence.
Qed.
End due.

Lemma nag_due ctx req : req ∈ nag ctx ↔ due ctx req.
Proof.
  unfold nag. rewrite elem_of_app, asked_missing, list_elem_of_join. split.
  - intros [(op & -> & Hop & Hn)|(l & Hreq & ([txid sm] & -> & Hin%elem_of_bt_iter)%list_elem_of_fmap)]; [by constructor|].
    unfold nag_contract in Hreq. rewrite elem_of_or_next, list_elem_of_fmap, fmap_nil_iff in Hreq.
    destruct Hreq as [(op & -> & [Hn Hop%elem_of_bt_keys]%list_elem_of_filter)|[Hall Hreq]]; [by eapply due_stake|].
    destruct (state (mstate sm)) as [r| | | | | | | | | | |] eqn:Hs; try (by apply elem_of_nil in Hreq).
    assert (setting_up ctx txid r) as Hup.
    { exists sm. split_and!; [done..|]. intros op Hop. apply not_eq_None_Some. intros Hn. apply (elem_of_nil op).
      rewrite <- Hall. apply list_elem_of_filter. split; [done|by apply elem_of_bt_keys]. }
    unfold nag_requested in Hreq.
    repeat (apply elem_of_or_next in Hreq as [Hreq|[?%missing_none Hreq]] || apply elem_of_or_next in Hreq as [Hreq|[?%missing_for_claims_none Hreq]]).
    all: first [apply asked_missing in Hreq as (op & -> & Hop & Hn) | apply asked_for_claims in Hreq as (claim & op & -> & Hc & Hop & Hn)].
    all: eauto using due.
  - intros Hdue.
    assert (∀ txid r, setting_up ctx txid r → req ∈ nag_requested (bt_keys (p2p_key (the_table ctx))) txid r →
      ∃ l, req ∈ l ∧ l ∈ nag_contract (bt_keys (p2p_key (the_table ctx))) (es_stake_chains (ctx_state ctx)) <$> bt_iter (contracts ctx))
      as Hup.
    { intros txid r (sm & Hk & Hs & Hst) Hreq. eexists. split; [|apply list_elem_of_fmap_2; by apply elem_of_bt_iter].
      unfold nag_contract. rewrite Hs. apply elem_of_or_next. right. split; [|done]. rewrite fmap_nil_iff.
      apply elem_of_nil_inv. intros op [Hn Hop%elem_of_bt_keys]%list_elem_of_filter. destruct (Hst op Hop). unfold stake_of in *. congruence. }
    destruct Hdue as [op|txid sm op Hk Hop Hn|txid r op Hr|txid r claim op Hr|txid r claim op Hr|txid r op Hr|txid r op Hr]; [left; eauto|right..].
    1: { eexists. split; [|apply list_elem_of_fmap_2; by apply elem_of_bt_iter]. apply elem_of_or_next. left.
         apply list_elem_of_fmap_2, list_elem_of_filter. split; [done|by apply elem_of_bt_keys]. }
    all: apply (Hup txid r Hr); unfold nag_requested; rewrite !elem_of_or_next, !missing_none, !missing_for_claims_none,
      !asked_missing, !asked_for_claims; eauto 15.
Qed.

(** C31: The manager asks exactly for what is missing, also of itself.  A request is among its nags if
    and only if the operator it names is in the table and the message is due: the exchange of the
    stake chain, the stake or the setup for a contract, then the nonces and signatures of its graphs,
    then those of its deposit, each only when everyone's earlier messages for the contract have
    come in.  The operators of the table include the node itself, so that a node that has not taken in its
    own exchange of the stake chain sends a request for it to itself, although the documentation of
    [nag] says that the node does not nag itself. *)
Theorem nag_is_due ctx :
  (∀ req, req ∈ nag ctx ↔ due ctx req) ∧
  (table_wf (the_table ctx) → ∃ own, pov_p2p_key (the_table ctx) = Val own ∧
    (stake_chains (es_stake_chains (ctx_state ctx)) !! own = None → GetStakeChainExchange 0 own ∈ nag ctx)).
Proof.
  split; [intros req; apply nag_due|]. intros Hwf. destruct (pov_keys _ Hwf) as (own & btc & Hown & _ & Hidx & _).
  exists own. split; [done|]. intros Hn. apply nag_due. constructor; [|done].
  unfold known_operator. unfold p2p_key_to_idx in Hidx. by destruct (p2p_key (the_table ctx) !! own).
Qed.

End invariant.

(** ** Witnesses *)

(** Transactions without an envelope. *)
Definition example_checkpoints : CheckpointLib := {|
  TxFilterConfig := unit; SignedCheckpoint := Checkpoint;
  derive_from _ := Some tt;
  taproot_leaf_script _ := None;
  parse_envelope_payloads _ _ := None;
  signed_checkpoint_from_slice _ := None;
  verify_signed_checkpoint_sig _ _ := true;
  into_checkpoint c := c;
  Chainstate := list DepositEntry;
  chainstate_from_slice _ := None;
  chainstate_deposits l := l;
|}.

#[local] Existing Instances example_profile example_bitcoin example_sighash example_instructions example_taproot
  example_deposit example_connectors example_dust example_descriptor example_keyagg example_musig example_graph example_serde
  example_checkpoints.

(** A node with two operators and the contract of the example, after its deposit. *)
Definition example_config : ExecutionConfig :=
  mkExecutionConfig 1 ConnectorParams_default PegOutGraphParams_default StakeChainParams_default (mkRollupParams 20)
    example_table (mkStakeTxRetryConfig 1 1) [] [] false 1 1.

Definition example_contract : ContractSM := (example_after (Feed false <$> example_setup)).1.

#[local] Opaque example_contract.

Definition example_manager : ContractManagerCtx :=
  mkContractManagerCtx _ _ example_config (mkStateHandles _ (mkPool (mkDbConfig 0) [] []) (mkPool (mkDbConfig 0) (mkSqlStakes [] []) []))
    (mkExecutionState _ {[9%N := example_contract]} ∅ example_start_sm example_table).

Definition example_spend (txid : Txid) : Transaction := mkTransaction 2 txid [mkTxIn (mkOutPoint 1 1) [] 0 []] [].

Lemma example_manager_wf : manager_wf 1 example_manager.
Proof.
  assert (outline example_manager = {[9%N := (example_cfg, 90%N)]}) as Ho by (vm_compute; reflexivity).
  split.
  - reflexivity.
  - intros k c h. rewrite Ho, lookup_singleton_Some. intros [<- [= <- <-]]. split_and!; reflexivity.
  - intros k1 c1 h1 k2 c2 h2. rewrite Ho, !lookup_singleton_Some. by intros [<- _] [<- _].
  - intros k1 c1 h1 k2 c2 h2. rewrite Ho, !lookup_singleton_Some. by intros [_ [= _ <-]] [_ [= _ <-]].
  - intros row Hrow. unfold rows, example_manager in Hrow. cbn [state_handles contract_persister tables] in Hrow.
    destruct (not_elem_of_nil row Hrow).
Qed.

(** A block with a transaction that is none of the bridge's. *)
Definition example_next : Block := mkBlock 90 91 [example_spend 500].

(** The state a computation ends in, when its result is known. *)
Definition final {S A} (c : comp (S * A)) (start : S) : S := match c with Val (s, _) => s | Panic => start end.

Lemma comp_final {S A} (c : comp (S * A)) (start : S) (a : A) :
  match c with Val (_, x) => x = a | Panic => False end → c = Val (final c start, a).
Proof. by destruct c as [[s x]|]; [intros ->|]. Qed.

Definition example_run (events : list ManagerEvent) : ContractManagerCtx * list Action :=
  final (event_loop false events example_manager) (example_manager, []).

Lemma manager_keeps_invariant_witness :
  let events := [Tick; NewBlock (mkBlockEvent example_next BlockBuried); Tick] in
  manager_wf 2 (example_run events).1 ∧ default 0%N (snd <$> outline (example_run events).1 !! 9%N) = 91%N.
Proof.
  intros events. split; [|vm_compute; reflexivity].
  apply (manager_keeps_invariant false 1 events example_manager _ (example_run events).2);
    [apply example_manager_wf|vm_compute; discriminate|].
  transitivity (Val (example_run events, @None ContractManagerErr)); [|by destruct (example_run events)].
  apply comp_final. vm_compute. reflexivity.
Defined.

Definition example_block_result : ContractManagerCtx := final (process_block false example_next example_manager) example_manager.

Lemma example_block_ok : process_block false example_next example_manager = Val (example_block_result, Ok []).
Proof. apply comp_final. vm_compute. reflexivity. Qed.

Lemma blocks_in_lockstep_witness :
  u64_add (block_height (mstate example_contract)) 1 = Val 91%N ∧
  (∀ k sm, contracts example_block_result !! k = Some sm → block_height (mstate sm) = 91%N).
Proof.
  destruct (blocks_in_lockstep false example_next example_manager example_block_result [] example_block_ok) as (Hold & Hnew & _).
  split; [apply (Hold 9%N); reflexivity|exact Hnew].
Defined.

Lemma restart_after_block_witness :
  (load_contracts example_config (contract_persister (state_handles example_block_result))).2
  = Ok (clear_pog_cache <$> contracts example_block_result) ∧
  size (contracts example_block_result) = 1.
Proof.
  split; [|vm_compute; reflexivity].
  apply (restart_after_block false 1 example_next example_manager example_block_result [] _ example_manager_wf);
    [done|apply example_block_ok|reflexivity|vm_compute; reflexivity].
Defined.

Definition example_guard : ShutdownGuard := mkShutdownGuard false false false false Met Met.
Definition example_shutdown : comp (StateHandles * result ShutdownErr unit) :=
  persist_state_before_shutdown (ctx_state example_manager) example_guard (state_handles example_manager).
Definition example_saved : StateHandles := final example_shutdown (state_handles example_manager).

Lemma example_shutdown_ok : example_shutdown = Val (example_saved, Ok tt).
Proof. apply comp_final. vm_compute. reflexivity. Qed.

Lemma shutdown_keeps_contracts_witness :
  (load_contracts (ctx_cfg example_manager) (contract_persister example_saved)).2 = Ok (clear_pog_cache <$> contracts example_manager).
Proof.
  apply (shutdown_keeps_contracts false 1 example_manager _ _ _ (ctx_state example_manager) example_guard example_saved
    (contract_persister example_saved) example_manager_wf eq_refl).
  - by left.
  - reflexivity.
  - reflexivity.
  - apply example_shutdown_ok.
  - reflexivity.
  - vm_compute. reflexivity.
Defined.

(** The claim of the first operator, published before any assignment. *)
Definition example_early : Block := mkBlock 90 91 [example_spend 500; example_spend 5101].

Lemma deposited_graphs s : match s with Deposited _ => true | _ => false end = true → ∃ g, s = Deposited g.
Proof. destruct s; eauto || done. Qed.

