(* ===== verification/BridgeProof.v ===== *)
(** * The bridge proof ([bridge-proof/primitives], [bridge-proof/protocol])

    The program an operator runs in a zkVM to prove that it has served a withdrawal: from a
    checkpoint of the side system and the fulfillment transaction, both with proofs of their
    inclusion in a chain of block headers, it checks that the assigned operator paid the
    recipient in time, and commits to the txids of the deposit and of the fulfillment.

    - [Inclusion]: transactions with proofs of inclusion ([tx.rs], [tx_inclusion_proof.rs]);
    - [TxInfo]: what is read of the two transactions ([tx_info.rs]);
    - [Statement]: the checks ([statement.rs]), the program ([lib.rs]) and its input
      ([program.rs]).

    The [strata] crates (checkpoints, chain state, header verification, Merkle proofs), the
    [bitcoin] crate's encodings and the hash functions are parameters. *)

From S2P Require Import Prelude Bitcoin Wots TxTypes Taproot Deposit Predicates ContractTypes Checkpoint.

(** [?] in a function that may panic and returns a [Result]. *)
Definition try_bind {E A B} (m : comp (result E A)) (k : A → comp (result E B)) : comp (result E B) :=
  r ← m; match r with Ok a => k a | Err e => Val (Err e) end.
Notation "'let?' x := m 'in' k" := (try_bind m (λ x, k)) (at level 10, x name, k at level 200).

(** [u32::to_le_bytes]. *)
Definition to_le_bytes (width : nat) (n : N) : list N := rev (to_be_bytes width n).
Definition from_le_bytes (l : list N) : N := from_be_bytes (rev l).

(** ** The libraries *)

(** The consensus encodings of the [bitcoin] crate. *)
Class EncodingLib := {
  Header : Type;
  merkle_root : Header → Buf32;
  serialize_header : Header → list N;
  deserialize_header : list N → option Header;
  serialize_tx : Transaction → list N;
  deserialize_tx : list N → option Transaction;
  is_coinbase : Transaction → bool;
}.

Class EncodingLaws `{EncodingLib} : Prop := {
  header_size : ∀ h, length (serialize_header h) = 80;
  header_round_trip : ∀ h, deserialize_header (serialize_header h) = Some h;
  tx_round_trip : ∀ tx, deserialize_tx (serialize_tx tx) = Some tx;
  (** A coinbase has exactly one input. *)
  coinbase_input : ∀ tx, is_coinbase tx = true → length (input tx) = 1;
}.

(** Merkle proofs of a txid ([L1TxProof]) and of a wtxid ([L1WtxProof]), and the commitment of a
    coinbase to the wtxids of its block. *)
Class InclusionLib := {
  L1TxProof : Type;
  L1WtxProof : Type;
  L1TxProof_generate : list Transaction → nat → L1TxProof;
  L1TxProof_verify : L1TxProof → Transaction → Buf32 → bool;
  L1WtxProof_generate : list Transaction → nat → L1WtxProof;
  L1WtxProof_compute_root : L1WtxProof → Transaction → Buf32;
  sha256d : list N → Buf32;
  witness_commitment_from_coinbase : Transaction → option Buf32;
}.

(** A generated proof leads to the root of the tree of all txids (wtxids). *)
Class InclusionLaws `{InclusionLib} (txid_root wtxid_root : list Transaction → Buf32) : Prop := {
  txid_proof : ∀ txs i tx, txs !! i = Some tx →
    L1TxProof_verify (L1TxProof_generate txs i) tx (txid_root txs) = true;
  wtxid_proof : ∀ txs i tx, txs !! i = Some tx →
    L1WtxProof_compute_root (L1WtxProof_generate txs i) tx = wtxid_root txs;
}.

(** What the proof reads of the chain state and of a checkpoint, and what it verifies. *)
Class ChainstateLib `{CheckpointLib, EncodingLib} := {
  HeaderVerificationState : Type;
  L1VerificationError : Type;
  header_vs : Chainstate → HeaderVerificationState;
  last_verified_height : HeaderVerificationState → N;
  check_and_update_continuity : RollupParams → HeaderVerificationState → Header
    → result L1VerificationError HeaderVerificationState;
  get_deposit : Chainstate → N → option DepositEntry;
  (** The wallet key of [operator_table().get_operator(idx)]. *)
  get_operator_wallet_pk : Chainstate → OperatorIdx → option Buf32;
  compute_state_root : Chainstate → Buf32;
  post_state_root : SignedCheckpoint → Buf32;
  (** [verify_rollup_groth16_proof_receipt] of [construct_receipt()]. *)
  verify_receipt : SignedCheckpoint → RollupParams → bool;
  verify_schnorr_sig : list N → Buf32 → Buf32 → bool;
  (** [strata_proofimpl_btc_blockspace::tx::compute_txid], [Buf32: From<Txid>] and
      [BitcoinAmount: Add]. *)
  blockspace_compute_txid : Transaction → Buf32;
  buf32_from_txid : Txid → Buf32;
  bitcoin_amount_add : Amount → Amount → comp Amount;
}.

Class ChainstateLaws `{ChainstateLib} : Prop := {
  (** A header that follows the last verified one becomes the last verified one. *)
  continuity_height : ∀ params vs h vs', check_and_update_continuity params vs h = Ok vs' →
    last_verified_height vs' = (last_verified_height vs + 1)%N;
  amount_add_fits : ∀ a b, (a + b <= U64_MAX)%N → bitcoin_amount_add a b = Val (a + b)%N;
}.

(** The bytes of OP_RETURN and a push of at most 75 bytes. *)
Class OpReturnBytes `{ScriptLib} : Prop :=
  op_return_bytes : ∀ data, length data ≤ 75 →
    op_return_push data = OP_RETURN :: N.of_nat (length data) :: data.

(** ** Transactions with proofs of inclusion *)

Module Inclusion.

(** [BitcoinTx]'s Borsh encoding: the length as a [u32], then the consensus encoding. *)
Definition BitcoinTx_serialize `{EncodingLib} (tx : Transaction) : list N :=
  let tx_bytes := serialize_tx tx in
  to_le_bytes 4 (N.of_nat (length tx_bytes) mod (U32_MAX + 1)) ++ tx_bytes.

(** [Read::read_exact]. *)
Definition read_exact (n : nat) (reader : list N) : option (list N * list N) :=
  if decide (n ≤ length reader) then Some (take n reader, drop n reader) else None.

Definition BitcoinTx_deserialize `{EncodingLib} (reader : list N) : option (Transaction * list N) :=
  '(len_bytes, reader) ← read_exact 4 reader;
  let tx_len := N.to_nat (from_le_bytes len_bytes) in
  '(tx_bytes, reader) ← read_exact tx_len reader;
  tx ← deserialize_tx tx_bytes;
  Some (tx, reader).

Section inclusion.
Context `{EncodingLib, InclusionLib}.

Record L1TxWithIdProof (P : Type) := mkL1TxWithIdProof { id_tx : Transaction; proof : P }.
Arguments mkL1TxWithIdProof {_} _ _.
Arguments id_tx {_} _.
Arguments proof {_} _.

Definition L1TxWithIdProof_verify (t : L1TxWithIdProof L1TxProof) (root : Buf32) : bool :=
  L1TxProof_verify (proof t) (id_tx t) root.

Record L1TxWithProofBundle := mkL1TxWithProofBundle {
  base_tx : L1TxWithIdProof L1TxProof;
  witness_tx : option (L1TxWithIdProof L1WtxProof);
}.

Definition transaction (b : L1TxWithProofBundle) : Transaction :=
  match witness_tx b with Some tx => id_tx tx | None => id_tx (base_tx b) end.

Definition bundle_generate (txs : list Transaction) (idx : nat) : comp L1TxWithProofBundle :=
  tx ← expect (txs !! idx);
  let witness_empty := forallb (λ i, bool_decide (witness i = [])) (input tx) in
  if witness_empty then
    let tx_proof := L1TxProof_generate txs idx in
    Val (mkL1TxWithProofBundle (mkL1TxWithIdProof tx tx_proof) None)
  else
    let tx_proof := L1WtxProof_generate txs idx in
    let witness_tx := Some (mkL1TxWithIdProof tx tx_proof) in
    coinbase ← expect (txs !! 0);
    let coinbase_proof := L1TxProof_generate txs 0 in
    Val (mkL1TxWithProofBundle (mkL1TxWithIdProof coinbase coinbase_proof) witness_tx).

Definition bundle_verify (b : L1TxWithProofBundle) (header : Header) : comp bool :=
  if negb (L1TxWithIdProof_verify (base_tx b) (merkle_root header)) then Val false
  else
    match witness_tx b with
    | Some w =>
        let coinbase := id_tx (base_tx b) in
        if negb (is_coinbase coinbase) then Val false
        else
          let witness_root := to_be_bytes 32 (L1WtxProof_compute_root (proof w) (id_tx w)) in
          coinbase_input ← expect (input coinbase !! 0);
          match witness coinbase_input with
          | [reserved] =>
              if decide (length reserved = 32) then
                let commitment := sha256d (witness_root ++ reserved) in
                match witness_commitment_from_coinbase coinbase with
                | Some root => Val (bool_decide (commitment = root))
                | None => Val false
                end
              else Val false
          | _ => Val false
          end
    | None => Val true
    end.

End inclusion.
Arguments mkL1TxWithIdProof {_} _ _.
Arguments id_tx {_} _.
Arguments proof {_} _.

End Inclusion.
Import Inclusion.

(** ** What is read of the two transactions *)

(** The arguments of the messages in [BridgeRelatedTx::WithdrawalFulfillment]. *)
Inductive FulfillmentMessage :=
| NoMessage
| TooFewOutputs (got : nat)
| MetadataSizeMismatch (expected got : nat)
| TagConversion (got : nat)
| TagMismatch (expected got : Tag).

Inductive BridgeRelatedTx :=
| StrataCheckpoint
| WithdrawalFulfillmentTx (message : FulfillmentMessage).

Inductive ChainStateError :=
| DepositNotFound (idx : N)
| InvalidDepositState
| MismatchedDepositTxid (deposit_txid_in_chainstate deposit_txid_in_fulfillment : Txid).

Inductive BridgeProofError {E : Type} :=
| InvalidParams
| TxInfoExtractionError (tx : BridgeRelatedTx)
| InvalidMerkleProof (tx : BridgeRelatedTx)
| ChainStateMismatch
| ChainStateErr (e : ChainStateError)
| InvalidWithdrawalData
| InvalidOperatorSignature
| UnsatisfiedStrataCredRule
| InvalidStrataProof
| DeadlineExceeded
| InvalidTxOrder (first second : BridgeRelatedTx)
| InsufficientBlocksAfterWithdrawalFulfillment (expected got : nat)
| InvalidHeader (e : E).
Arguments BridgeProofError : clear implicits.

Module TxInfo.

Section tx_info.
Context `{ChainstateLib}.

Definition check_checkpoint (rollup_params : RollupParams) (checkpoint : SignedCheckpoint)
    : comp (result (BridgeProofError L1VerificationError) Chainstate) :=
  if negb (verify_signed_checkpoint_sig checkpoint rollup_params)
  then Val (Err UnsatisfiedStrataCredRule)
  else
    cs ← expect (chainstate_from_slice (chainstate (into_checkpoint checkpoint)));
    if negb (bool_decide (compute_state_root cs = post_state_root checkpoint))
    then Val (Err ChainStateMismatch)
    else if negb (verify_receipt checkpoint rollup_params) then Val (Err InvalidStrataProof)
    else Val (Ok cs).

(** The checkpoint an input carries, if any: the innermost conditions of the loop. *)
Definition checkpoint_of (filter_config : TxFilterConfig) (inp : TxIn) : option SignedCheckpoint :=
  scr ← taproot_leaf_script (witness inp);
  payload ← parse_envelope_payloads scr filter_config;
  inscription ← head payload;
  signed_checkpoint_from_slice inscription.

(** The loop over the inputs, which ends at the first checkpoint. *)
Fixpoint scan_inputs (rollup_params : RollupParams) (filter_config : TxFilterConfig)
    (inputs : list TxIn) : comp (result (BridgeProofError L1VerificationError) Chainstate) :=
  match inputs with
  | [] => Val (Err (TxInfoExtractionError StrataCheckpoint))
  | inp :: inputs =>
      match checkpoint_of filter_config inp with
      | Some checkpoint => check_checkpoint rollup_params checkpoint
      | None => scan_inputs rollup_params filter_config inputs
      end
  end.

Definition extract_valid_chainstate_from_checkpoint (tx : Transaction) (rollup_params : RollupParams)
    : comp (result (BridgeProofError L1VerificationError) Chainstate) :=
  match derive_from rollup_params with
  | None => Val (Err InvalidParams)
  | Some filter_config => scan_inputs rollup_params filter_config (input tx)
  end.

End tx_info.

Record WithdrawalInfo := mkWithdrawalInfo {
  wi_tag : Tag;
  wi_operator_idx : OperatorIdx;
  wi_deposit_idx : N;
  wi_deposit_txid : Txid;
  withdrawal_address : ScriptBuf;
  withdrawal_amount : Amount;
}.

Definition OP_RETURN_INSTRUCTION_SIZE : nat := 2.
Definition OPERATOR_IDX_SIZE : nat := 4.
Definition DEPOSIT_IDX_SIZE : nat := 4.
Definition DEPOSIT_TXID_SIZE : nat := 32.
Definition expected_metadata_size : nat :=
  OP_RETURN_INSTRUCTION_SIZE + TAG_SIZE + OPERATOR_IDX_SIZE + DEPOSIT_IDX_SIZE + DEPOSIT_TXID_SIZE.

(** The conversions of the last three slices, which have the size of their type, do not fail. *)
Definition extract_withdrawal_info {E} (tx : Transaction) (expected_tag : Tag)
    : comp (result (BridgeProofError E) WithdrawalInfo) :=
  let error m := Val (Err (TxInfoExtractionError (WithdrawalFulfillmentTx m))) in
  match output tx with
  | withdrawal_fulfillment_output :: withdrawal_metadata_output :: _ =>
      let metadata_script := script_pubkey withdrawal_metadata_output in
      if negb (length metadata_script =? expected_metadata_size)
      then error (MetadataSizeMismatch expected_metadata_size (length metadata_script))
      else
        let offset := OP_RETURN_INSTRUCTION_SIZE in
        tag_bytes ← expect (slice metadata_script offset (offset + TAG_SIZE));
        match Tag_try_from tag_bytes with
        | Err _ => error (TagConversion (length tag_bytes))
        | Ok tag =>
            if negb (bool_decide (tag = expected_tag)) then error (TagMismatch expected_tag tag)
            else
              let offset := offset + TAG_SIZE in
              operator_idx_bytes ← expect (slice metadata_script offset (offset + OPERATOR_IDX_SIZE));
              let offset := offset + OPERATOR_IDX_SIZE in
              deposit_idx_bytes ← expect (slice metadata_script offset (offset + DEPOSIT_IDX_SIZE));
              let offset := offset + DEPOSIT_IDX_SIZE in
              deposit_txid_bytes ← expect (slice metadata_script offset (offset + DEPOSIT_TXID_SIZE));
              Val (Ok (mkWithdrawalInfo tag (from_be_bytes operator_idx_bytes)
                (from_be_bytes deposit_idx_bytes) (from_be_bytes deposit_txid_bytes)
                (script_pubkey withdrawal_fulfillment_output) (value withdrawal_fulfillment_output)))
        end
  | outputs => error (TooFewOutputs (length outputs))
  end.

End TxInfo.
Import TxInfo.

(** ** The statement *)

Module Statement.

Definition REQUIRED_NUM_OF_HEADERS_AFTER_WITHDRAWAL_FULFILLMENT_TX : nat := 10.

Section statement.
Context `{ChainstateLib} `{InclusionLib, DescriptorLib, BuildProfile}.

Abbreviation Error := (BridgeProofError L1VerificationError).

Record BridgeProofInputBorsh := mkBridgeProofInputBorsh {
  strata_checkpoint_tx : L1TxWithProofBundle * nat;
  withdrawal_fulfillment_tx : L1TxWithProofBundle * nat;
  op_signature : list N;
}.

Record BridgeProofPublicOutput := mkBridgeProofPublicOutput {
  out_deposit_txid : Buf32;
  out_withdrawal_fulfillment_txid : Buf32;
}.

Definition verify_tx_inclusion (tx : L1TxWithProofBundle) (tx_marker : BridgeRelatedTx)
    (header : Header) (expect_witness : bool) : comp (result Error unit) :=
  if expect_witness && match witness_tx tx with None => true | Some _ => false end
  then Val (Err (InvalidMerkleProof tx_marker))
  else
    ok ← bundle_verify tx header;
    if negb ok then Val (Err (InvalidMerkleProof tx_marker)) else Val (Ok tt).

Fixpoint verify_headers (rollup_params : RollupParams) (vs : HeaderVerificationState)
    (headers : list Header) : result L1VerificationError HeaderVerificationState :=
  match headers with
  | [] => Ok vs
  | header :: headers =>
      vs ← check_and_update_continuity rollup_params vs header;
      verify_headers rollup_params vs headers
  end.

(** 3c: the entry of the deposit. *)
Definition find_entry (cs : Chainstate) (info : WithdrawalInfo) : result Error DepositEntry :=
  match get_deposit cs (wi_deposit_idx info) with
  | None => Err (ChainStateErr (DepositNotFound (wi_deposit_idx info)))
  | Some entry =>
      let deposit_txid_in_chainstate := op_txid (de_output entry) in
      if negb (bool_decide (deposit_txid_in_chainstate = wi_deposit_txid info))
      then Err (ChainStateErr (MismatchedDepositTxid deposit_txid_in_chainstate (wi_deposit_txid info)))
      else Ok entry
  end.

(** 3d: [||] does not evaluate the sum unless the first two comparisons agree. *)
Definition data_mismatch (fee : Amount) (info : WithdrawalInfo) (entry : DepositEntry)
    (dispatched_state : DispatchedState) (withdrawal : Descriptor) : comp bool :=
  if negb (bool_decide (wi_operator_idx info = assignee dispatched_state))
    || negb (bool_decide (withdrawal_address info = to_script withdrawal))
  then Val true
  else
    total ← bitcoin_amount_add (withdrawal_amount info) fee;
    Val (negb (bool_decide (total = de_amt entry))).

(** 3c to 3e: the fulfillment against the chain state.  Heights and the deadline are cast to [usize], of
    64 bits here, which keeps them. *)
Definition check_fulfillment (cs : Chainstate) (fee : Amount) (info : WithdrawalInfo) (idx : nat)
    : comp (result Error unit) :=
  let? entry := Val (find_entry cs info) in
  match deposit_state entry with
  | Dispatched dispatched_state =>
      withdrawal ← expect (head (withdraw_outputs dispatched_state));
      mismatch ← data_mismatch fee info entry dispatched_state withdrawal;
      if (mismatch : bool) then Val (Err InvalidWithdrawalData)
      else
        height ← u64_add (last_verified_height (header_vs cs)) (N.of_nat idx);
        if (exec_deadline dispatched_state <? height)%N then Val (Err DeadlineExceeded)
        else Val (Ok tt)
  | NotDispatchedState _ => Val (Err (ChainStateErr InvalidDepositState))
  end.

(** 6 to 8: the order of the transactions and the chain of headers. *)
Definition check_headers (cs : Chainstate) (headers : list Header) (rollup_params : RollupParams)
    (checkpoint_idx fulfillment_idx : nat) : result Error unit :=
  if fulfillment_idx <? checkpoint_idx
  then Err (InvalidTxOrder StrataCheckpoint (WithdrawalFulfillmentTx NoMessage))
  else
    match verify_headers rollup_params (header_vs cs) headers with
    | Err e => Err (InvalidHeader e)
    | Ok _ =>
        let headers_after := length headers - fulfillment_idx in
        if headers_after <? REQUIRED_NUM_OF_HEADERS_AFTER_WITHDRAWAL_FULFILLMENT_TX
        then Err (InsufficientBlocksAfterWithdrawalFulfillment
          REQUIRED_NUM_OF_HEADERS_AFTER_WITHDRAWAL_FULFILLMENT_TX headers_after)
        else Ok tt
    end.

Definition process_bridge_proof (inp : BridgeProofInputBorsh) (headers : list Header)
    (rollup_params : RollupParams) (peg_out_graph_params : PegOutGraphParams)
    : comp (result Error BridgeProofPublicOutput) :=
  let '(checkpoint, checkpoint_idx) := strata_checkpoint_tx inp in
  let? cs := extract_valid_chainstate_from_checkpoint (transaction checkpoint) rollup_params in
  checkpoint_header ← expect (headers !! checkpoint_idx);
  let? _ := verify_tx_inclusion checkpoint StrataCheckpoint checkpoint_header true in
  let '(fulfillment, fulfillment_idx) := withdrawal_fulfillment_tx inp in
  let? info := extract_withdrawal_info (transaction fulfillment) (tag peg_out_graph_params) in
  fulfillment_header ← expect (headers !! fulfillment_idx);
  let? _ := verify_tx_inclusion fulfillment (WithdrawalFulfillmentTx NoMessage)
    fulfillment_header false in
  let? _ := check_fulfillment cs (operator_fee peg_out_graph_params) info fulfillment_idx in
  operator_pub_key ← expect (get_operator_wallet_pk cs (wi_operator_idx info));
  let withdrawal_fulfillment_txid := blockspace_compute_txid (transaction fulfillment) in
  if negb (verify_schnorr_sig (op_signature inp) withdrawal_fulfillment_txid operator_pub_key)
  then Val (Err InvalidOperatorSignature)
  else
    let? _ := Val (check_headers cs headers rollup_params checkpoint_idx fulfillment_idx) in
    Val (Ok (mkBridgeProofPublicOutput (buf32_from_txid (wi_deposit_txid info))
      withdrawal_fulfillment_txid)).

(** *** The program *)

Record BridgeProofInput := mkBridgeProofInput {
  bi_rollup_params : RollupParams;
  bi_pegout_graph_params : PegOutGraphParams;
  bi_headers : list Header;
  bi_deposit_idx : N;
  bi_strata_checkpoint_tx : L1TxWithProofBundle * nat;
  bi_withdrawal_fulfillment_tx : L1TxWithProofBundle * nat;
  bi_op_signature : list N;
}.

Definition BridgeProofInputBorsh_from (i : BridgeProofInput) : BridgeProofInputBorsh :=
  mkBridgeProofInputBorsh (bi_strata_checkpoint_tx i) (bi_withdrawal_fulfillment_tx i)
    (bi_op_signature i).

(** The values the zkVM passes from the host to the guest, in the order they are written.  A
    read of a value of another type fails to deserialize, and panics. *)
Inductive ZkVmValue :=
| RollupParamsSerde (p : RollupParams)
| PegOutGraphParamsSerde (p : PegOutGraphParams)
| Buf (bytes : list N)
| InputBorsh (i : BridgeProofInputBorsh).

Definition prepare_input (i : BridgeProofInput) : list ZkVmValue :=
  let headers_buf := foldl (λ acc header, acc ++ serialize_header header) [] (bi_headers i) in
  let borsh_input := BridgeProofInputBorsh_from i in
  [RollupParamsSerde (bi_rollup_params i); PegOutGraphParamsSerde (bi_pegout_graph_params i);
   Buf headers_buf; InputBorsh borsh_input].

(** [chunks_exact(n)], with as much fuel as there are bytes: what does not fill a chunk is left out. *)
Fixpoint chunks_exact_fuel (fuel n : nat) (l : list N) : list (list N) :=
  match fuel with
  | 0 => []
  | S fuel =>
      if n <=? length l then take n l :: chunks_exact_fuel fuel n (drop n l) else []
  end.
Definition chunks_exact (n : nat) (l : list N) : list (list N) := chunks_exact_fuel (length l) n l.

(** What the guest commits to; every error is a panic. *)
Definition process_bridge_proof_outer (zkvm : list ZkVmValue) : comp BridgeProofPublicOutput :=
  match zkvm with
  | [RollupParamsSerde rollup_params; PegOutGraphParamsSerde pegout_graph_params; Buf raw_headers;
     InputBorsh inp] =>
      headers ← mapM (λ chunk, expect (deserialize_header chunk)) (chunks_exact 80 raw_headers);
      r ← process_bridge_proof inp headers rollup_params pegout_graph_params;
      match r with Ok output => Val output | Err _ => Panic end
  | _ => Panic
  end.

(** [BridgeProgram::native_host] catches the panic. *)
Definition native_host (zkvm : list ZkVmValue) : option BridgeProofPublicOutput :=
  match process_bridge_proof_outer zkvm with Val output => Some output | Panic => None end.

Definition execute (i : BridgeProofInput) : option BridgeProofPublicOutput :=
  native_host (prepare_input i).

End statement.
End Statement.
Import Statement.

(** ** Specifications *)

Section spec.
Context `{ChainstateLib} `{InclusionLib, DescriptorLib, BuildProfile}.

(** [b] is proved to be in the block with header number [idx], with its witness if asked for. *)
Definition included (b : L1TxWithProofBundle) (headers : list Header) (idx : nat)
    (with_witness : bool) : Prop :=
  ∃ header, headers !! idx = Some header ∧ bundle_verify b header = Val true ∧
    (with_witness = true → is_Some (witness_tx b)).

(** The height of the block with header number [idx], counted by the verification of the
    headers up to and including it. *)
Definition block_height_at (rollup_params : RollupParams) (vs : HeaderVerificationState)
    (headers : list Header) (idx : nat) (height : N) : Prop :=
  ∃ vs', verify_headers rollup_params vs (take (S idx) headers) = Ok vs' ∧
    last_verified_height vs' = height.

(** The fulfillment [info], in the block with header number [idx], serves the withdrawal the
    chain state has assigned: the operator, the recipient, the amount and the fee are the
    entry's, and the block is at most one above the deadline. *)
Definition serves (cs : Chainstate) (params : PegOutGraphParams) (info : WithdrawalInfo)
    (height : N) : Prop :=
  ∃ entry d recipient,
    get_deposit cs (wi_deposit_idx info) = Some entry ∧
    op_txid (de_output entry) = wi_deposit_txid info ∧
    deposit_state entry = Dispatched d ∧
    head (withdraw_outputs d) = Some recipient ∧
    assignee d = wi_operator_idx info ∧
    withdrawal_address info = to_script recipient ∧
    bitcoin_amount_add (withdrawal_amount info) (operator_fee params) = Val (de_amt entry) ∧
    (height <= exec_deadline d + 1)%N.

End spec.

(** ** Lemmas *)

Lemma try_bind_Ok {E A B} (m : comp (result E A)) (k : A → comp (result E B)) b :
  try_bind m k = Val (Ok b) ↔ ∃ a, m = Val (Ok a) ∧ k a = Val (Ok b).
Proof.
  unfold try_bind. split; [destruct m as [[]|]; cbn; eauto; done|].
  by intros (a & -> & ?).
Qed.

Lemma expect_bind_Val {A B} (o : option A) (k : A → comp B) b :
  (a ← expect o; k a) = Val b ↔ ∃ a, o = Some a ∧ k a = Val b.
Proof. split; [destruct o; cbn; eauto; done|]. by intros (a & -> & ?). Qed.

(** The next call of the goal succeeds with [x]. *)
Ltac pass x := first [apply try_bind_Ok | apply expect_bind_Val]; exists x; split; [done|].

Lemma guard_Ok {E A} (b : bool) (e : E) (m : comp (result E A)) a :
  (if negb b then Val (Err e) else m) = Val (Ok a) ↔ b = true ∧ m = Val (Ok a).
Proof. destruct b; cbn; naive_solver. Qed.

Section statement_lemmas.
Context `{ChainstateLib} `{InclusionLib, DescriptorLib, BuildProfile}.

Lemma verify_tx_inclusion_Ok b marker headers idx w :
  (∃ header, headers !! idx = Some header ∧ verify_tx_inclusion b marker header w = Val (Ok tt)) ↔
  included b headers idx w.
Proof.
  unfold verify_tx_inclusion, included. split; intros (h & Hh & Hv); exists h; split; auto.
  - destruct w, (witness_tx b) eqn:Ew; cbn in Hv; try done;
      destruct (bundle_verify b h) as [[]|]; cbn in Hv; try done; eauto.
  - destruct Hv as [-> Hw]. destruct w, (witness_tx b); cbn; try done. by destruct (Hw eq_refl).
Qed.

Lemma verify_headers_app params vs hs1 hs2 :
  verify_headers params vs (hs1 ++ hs2) = vs' ← verify_headers params vs hs1; verify_headers params vs' hs2.
Proof.
  revert vs. induction hs1 as [|h hs1 IH]; intros vs; cbn; [done|].
  destruct (check_and_update_continuity params vs h) as [vs'|]; cbn; [apply IH|done].
Qed.

Lemma verify_headers_height `{!ChainstateLaws} params vs hs vs' :
  verify_headers params vs hs = Ok vs' →
  last_verified_height vs' = (last_verified_height vs + N.of_nat (length hs))%N.
Proof.
  revert vs. induction hs as [|h hs IH]; intros vs; cbn [verify_headers length].
  - intros [= ->]. lia.
  - destruct (check_and_update_continuity params vs h) as [vs1|] eqn:E; cbn; [|done].
    intros ->%IH. apply continuity_height in E. lia.
Qed.

(** In a verified chain of headers, number [idx] is the block [idx + 1] above the last verified. *)
Lemma block_height_at_eq `{!ChainstateLaws} params vs hs vs' idx :
  verify_headers params vs hs = Ok vs' → idx < length hs →
  block_height_at params vs hs idx (last_verified_height vs + N.of_nat idx + 1)%N.
Proof.
  intros Hv Hl. rewrite <- (take_drop (S idx) hs), verify_headers_app in Hv.
  destruct (verify_headers params vs (take (S idx) hs)) as [vs1|] eqn:E; [|done].
  exists vs1. split; [done|]. apply verify_headers_height in E as ->.
  rewrite length_take. lia.
Qed.

Lemma find_entry_Ok cs info entry :
  find_entry cs info = Ok entry ↔
  get_deposit cs (wi_deposit_idx info) = Some entry ∧ op_txid (de_output entry) = wi_deposit_txid info.
Proof.
  unfold find_entry. destruct (get_deposit cs (wi_deposit_idx info)) as [e|]; [|naive_solver].
  case_bool_decide; cbn; naive_solver.
Qed.

Lemma data_mismatch_false fee info entry d recipient :
  data_mismatch fee info entry d recipient = Val false ↔
  assignee d = wi_operator_idx info ∧ withdrawal_address info = to_script recipient ∧
  bitcoin_amount_add (withdrawal_amount info) fee = Val (de_amt entry).
Proof.
  unfold data_mismatch. case_bool_decide; cbn; [|naive_solver].
  case_bool_decide; cbn; [|naive_solver].
  destruct (bitcoin_amount_add _ _) as [total|]; cbn; [|naive_solver].
  case_bool_decide; cbn; naive_solver.
Qed.

Lemma check_fulfillment_Ok cs params info idx :
  (last_verified_height (header_vs cs) + N.of_nat idx <= U64_MAX)%N →
  check_fulfillment cs (operator_fee params) info idx = Val (Ok tt) ↔
  serves cs params info (last_verified_height (header_vs cs) + N.of_nat idx + 1).
Proof.
  intros Hfit. unfold check_fulfillment, serves. rewrite try_bind_Ok.
  unfold u64_add. rewrite (proj2 (N.leb_le _ _) Hfit). split.
  - intros (entry & [= [Hg Ht]%find_entry_Ok] & Hk).
    destruct (deposit_state entry) as [d|] eqn:Ed; [|done].
    apply expect_bind_Val in Hk as (w & Hw & (mm & Hm & Hk)%comp_bind_Val).
    destruct mm; [done|]. apply data_mismatch_false in Hm as (? & ? & ?).
    cbn in Hk. destruct (N.ltb_spec (exec_deadline d) (last_verified_height (header_vs cs) + N.of_nat idx));
      [done|].
    exists entry, d, w. split_and!; auto; lia.
  - intros (entry & d & w & Hg & Ht & Ed & Hw & Ha & Hr & Hs & Hd).
    exists entry. split; [f_equal; by apply find_entry_Ok|]. rewrite Ed, Hw. cbn.
    rewrite (proj2 (data_mismatch_false _ _ _ _ _)) by done. cbn.
    by rewrite (proj2 (N.ltb_ge _ _)) by lia.
Qed.

Lemma check_headers_Ok cs headers params i j :
  check_headers cs headers params i j = Ok tt ↔
  i ≤ j ∧ (∃ vs, verify_headers params (header_vs cs) headers = Ok vs) ∧ j + 10 ≤ length headers.
Proof.
  unfold check_headers, REQUIRED_NUM_OF_HEADERS_AFTER_WITHDRAWAL_FULFILLMENT_TX.
  destruct (Nat.ltb_spec j i); [split; [done|lia]|].
  destruct (verify_headers _ _ _) as [vs|]; [|naive_solver].
  destruct (Nat.ltb_spec (length headers - j) 10); [|naive_solver lia].
  split; [done|lia].
Qed.

End statement_lemmas.

(** ** Metadata *)

Lemma Tag_try_from_as_bytes t : Tag_try_from (as_bytes t) = Ok t.
Proof.
  unfold Tag_try_from. destruct (decide _) as [Hl|Hl]; [|destruct Hl; apply length_as_bytes].
  f_equal. apply vec_to_list_inj2. unfold as_bytes in *.
  assert (∀ n (Hn : length (vec_to_list t) = n),
    vec_to_list (eq_rect (length (vec_to_list t)) (vec N) (list_to_vec (vec_to_list t)) n Hn)
      = vec_to_list t) as Hgen by (intros n []; cbn; apply vec_to_list_to_vec).
  apply Hgen.
Qed.

Lemma slice_at (a b c : list N) i j :
  i = length a → j = i + length b → slice (a ++ b ++ c) i j = Some b.
Proof. intros -> ->. apply slice_app. Qed.

Lemma from_to_be_bytes_u32 n : (n <= U32_MAX)%N → from_be_bytes (to_be_bytes 4 n) = n.
Proof. intros Hn. apply from_to_be_bytes. change (256 ^ N.of_nat 4)%N with (U32_MAX + 1)%N. lia. Qed.

(** A transaction whose first output pays [amount] to [address] and whose second carries the
    metadata [m] is read as just that. *)
Lemma extract_metadata {E} `{OpReturnBytes} m tx out rest :
  (wm_operator_idx m <= U32_MAX)%N → (wm_deposit_idx m <= U32_MAX)%N →
  (wm_deposit_txid m < 2 ^ 256)%N →
  output tx = out :: mkTxOut 0 (op_return_push (wm_op_return_data m)) :: rest →
  extract_withdrawal_info (E := E) tx (wm_tag m) = Val (Ok (mkWithdrawalInfo (wm_tag m)
    (wm_operator_idx m) (wm_deposit_idx m) (wm_deposit_txid m) (script_pubkey out) (value out))).
Proof.
  intros Ho Hd Ht Hout. unfold extract_withdrawal_info. rewrite Hout. cbn [script_pubkey].
  pose proof (length_wm_op_return_data m) as Hl. rewrite op_return_bytes by lia.
  cbn [length]. rewrite Hl. change (46 =? expected_metadata_size) with true. cbn [negb].
  unfold wm_op_return_data. unfold OP_RETURN_INSTRUCTION_SIZE, TAG_SIZE, OPERATOR_IDX_SIZE,
    DEPOSIT_IDX_SIZE, DEPOSIT_TXID_SIZE.
  set (t := as_bytes (wm_tag m)). set (o := to_be_bytes 4 (wm_operator_idx m)).
  set (d := to_be_bytes 4 (wm_deposit_idx m)). set (x := serialize_txid (wm_deposit_txid m)).
  assert (length t = 4) as Lt by apply length_as_bytes.
  assert (length o = 4) as Lo by apply length_to_be_bytes.
  assert (length d = 4) as Ld by apply length_to_be_bytes.
  assert (length x = 32) as Lx by apply length_to_be_bytes.
  set (p := [OP_RETURN; N.of_nat 44]). assert (length p = 2) as Lp by done.
  change (OP_RETURN :: N.of_nat 44 :: t ++ o ++ d ++ x) with (p ++ t ++ o ++ d ++ x).
  rewrite (slice_at p t _ 2 (2 + 4)) by lia. cbn [expect mbind comp_bind].
  unfold t at 1. rewrite Tag_try_from_as_bytes, bool_decide_eq_true_2 by done. cbn [negb].
  replace (p ++ t ++ o ++ d ++ x) with ((p ++ t) ++ o ++ d ++ x) by by rewrite <- app_assoc.
  rewrite (slice_at (p ++ t) o _ (2 + 4) (2 + 4 + 4)) by (rewrite ?length_app; lia). cbn [expect mbind comp_bind].
  replace ((p ++ t) ++ o ++ d ++ x) with ((p ++ t ++ o) ++ d ++ x) by by rewrite <- !app_assoc.
  rewrite (slice_at (p ++ t ++ o) d _ (2 + 4 + 4) (2 + 4 + 4 + 4)) by (rewrite ?length_app; lia). cbn [expect mbind comp_bind].
  replace ((p ++ t ++ o) ++ d ++ x) with ((p ++ t ++ o ++ d) ++ x ++ [])
    by by rewrite app_nil_r, <- !app_assoc.
  rewrite (slice_at (p ++ t ++ o ++ d) x _ (2 + 4 + 4 + 4) (2 + 4 + 4 + 4 + 32)) by (rewrite ?length_app; lia).
  cbn [expect mbind comp_bind]. unfold o, d, x, serialize_txid.
  rewrite !from_to_be_bytes_u32 by done. by rewrite (from_to_be_bytes 32) by done.
Qed.

(** ** The input of the program *)

Lemma headers_buf_concat `{EncodingLib} acc hs :
  foldl (λ acc header, acc ++ serialize_header header) acc hs = acc ++ concat (serialize_header <$> hs).
Proof.
  revert acc. induction hs as [|h hs IH]; intros acc; cbn; [by rewrite app_nil_r|].
  by rewrite IH, app_assoc.
Qed.

Lemma chunks_of_headers `{EncodingLaws} hs fuel :
  length hs ≤ fuel →
  chunks_exact_fuel fuel 80 (concat (serialize_header <$> hs)) = serialize_header <$> hs.
Proof.
  revert fuel. induction hs as [|h hs IH]; intros fuel Hf.
  - destruct fuel; [done|]. cbn. done.
  - destruct fuel as [|fuel]; [cbn in Hf; lia|]. cbn [chunks_exact_fuel fmap list_fmap concat].
    rewrite length_app, header_size. cbn [Nat.leb Nat.add].
    rewrite <- (header_size h), take_app_length, drop_app_length.
    rewrite header_size. cbn in Hf. f_equal. apply IH. lia.
Qed.

Lemma length_headers_buf `{EncodingLaws} hs :
  length (concat (serialize_header <$> hs)) = 80 * length hs.
Proof.
  induction hs as [|h hs IH]; [done|]. cbn [fmap list_fmap concat length].
  rewrite length_app, header_size, IH. lia.
Qed.

Lemma mapM_expect {A B} (f : A → option B) (l : list A) (k : list B) :
  Forall2 (λ a b, f a = Some b) l k → mapM (M := comp) (λ a, expect (f a)) l = Val k.
Proof. induction 1 as [|a b l k Hab _ IH]; [done|]. cbn. rewrite Hab. cbn. by rewrite IH. Qed.

(** What the statement accepts; see [bridge_proof_accepts]. *)
Lemma process_bridge_proof_iff `{ChainstateLaws, InclusionLib, DescriptorLib, BuildProfile}
    inp headers rp gp out :
  (∀ cs, extract_valid_chainstate_from_checkpoint (transaction (strata_checkpoint_tx inp).1) rp = Val (Ok cs) →
    (last_verified_height (header_vs cs) + N.of_nat (length headers) <= U64_MAX)%N) →
  process_bridge_proof inp headers rp gp = Val (Ok out) ↔
  ∃ cs info height key,
    let '(checkpoint, i) := strata_checkpoint_tx inp in
    let '(fulfillment, j) := withdrawal_fulfillment_tx inp in
    let txid := blockspace_compute_txid (transaction fulfillment) in
    extract_valid_chainstate_from_checkpoint (transaction checkpoint) rp = Val (Ok cs) ∧
    included checkpoint headers i true ∧
    extract_withdrawal_info (E := L1VerificationError) (transaction fulfillment) (tag gp)
      = Val (Ok info) ∧
    included fulfillment headers j false ∧
    block_height_at rp (header_vs cs) headers j height ∧ serves cs gp info height ∧
    get_operator_wallet_pk cs (wi_operator_idx info) = Some key ∧
    verify_schnorr_sig (op_signature inp) txid key = true ∧
    i ≤ j ∧ (∃ vs, verify_headers rp (header_vs cs) headers = Ok vs) ∧ j + 10 ≤ length headers ∧
    out = mkBridgeProofPublicOutput (buf32_from_txid (wi_deposit_txid info)) txid.
Proof.
  intros Hfit. unfold process_bridge_proof.
  destruct (strata_checkpoint_tx inp) as [cp i], (withdrawal_fulfillment_tx inp) as [ff j].
  cbn [fst snd] in Hfit |- *. split.
  - intros (cs & Hcs & (ch & Hch & ([] & Hci & (info & Hinfo & Hk)%try_bind_Ok)%try_bind_Ok)
      %expect_bind_Val)%try_bind_Ok.
    apply expect_bind_Val in Hk as (fh & Hfh & ([] & Hfi & ([] & Hserve & Hk)%try_bind_Ok)%try_bind_Ok).
    apply expect_bind_Val in Hk as (key & Hkey & Hk).
    apply guard_Ok in Hk as [Hsig ([] & [= Hc] & [= <-])%try_bind_Ok].
    apply check_headers_Ok in Hc as (Hij & [vs Hvs] & Hlen).
    specialize (Hfit cs Hcs).
    exists cs, info, (last_verified_height (header_vs cs) + N.of_nat j + 1)%N, key.
    split_and!; eauto.
    + by eapply verify_tx_inclusion_Ok; eauto.
    + by eapply verify_tx_inclusion_Ok; eauto.
    + eapply block_height_at_eq; [done|lia].
    + apply check_fulfillment_Ok in Hserve; [done|lia].
  - intros (cs & info & height & key & Hcs & Hci & Hinfo & Hfi & Hh & Hserve & Hkey & Hsig & Hij & Hvs
      & Hlen & ->).
    apply (verify_tx_inclusion_Ok _ StrataCheckpoint) in Hci as (ch & Hch & Hci).
    apply (verify_tx_inclusion_Ok _ (WithdrawalFulfillmentTx NoMessage)) in Hfi as (fh & Hfh & Hfi).
    specialize (Hfit cs Hcs). destruct Hh as (vs' & Hv' & <-).
    apply verify_headers_height in Hv'. rewrite length_take in Hv'.
    replace (last_verified_height vs') with (last_verified_height (header_vs cs) + N.of_nat j + 1)%N
      in Hserve by lia.
    apply check_fulfillment_Ok in Hserve; [|lia].
    pass cs. pass ch. pass tt. pass info. pass fh. pass tt. pass tt. pass key.
    apply guard_Ok; split; [done|]. apply try_bind_Ok; exists tt; split; [|done].
    f_equal. by apply check_headers_Ok.
Qed.

(** See [program_proves_statement]. *)
Lemma execute_iff `{ChainstateLib, !EncodingLaws, InclusionLib, DescriptorLib, BuildProfile}
    (i : BridgeProofInput) out :
  execute i = Some out ↔
  process_bridge_proof (BridgeProofInputBorsh_from i) (bi_headers i) (bi_rollup_params i)
    (bi_pegout_graph_params i) = Val (Ok out).
Proof.
  unfold execute, native_host, prepare_input, process_bridge_proof_outer.
  rewrite headers_buf_concat. cbn [app]. unfold chunks_exact.
  rewrite chunks_of_headers by (rewrite length_headers_buf; lia).
  rewrite (mapM_expect deserialize_header _ (bi_headers i)).
  - cbn. destruct (process_bridge_proof _ _ _ _) as [[]|]; cbn; naive_solver.
  - apply Forall2_fmap_l, Forall_Forall2_diag, Forall_true. apply header_round_trip.
Qed.

(** ** Properties *)

(** C7: The bridge proof accepts exactly the inputs it should: the checkpoint transaction carries
    a valid chain state and is in the chain with its witness; the fulfillment is in the chain, not
    before the checkpoint, and its metadata names a deposit the chain state has dispatched to the
    operator it names, with the recipient and the amount of the dispatch; the assigned operator
    has signed its txid; the headers continue the verified chain and reach nine blocks beyond
    that of the fulfillment.  It then commits to the two txids.  The deadline is checked one block
    late: a fulfillment in the block directly above the deadline is accepted. *)
Theorem bridge_proof_accepts `{ChainstateLaws, InclusionLib, DescriptorLib, BuildProfile}
    inp headers rp gp out :
  (∀ cs, extract_valid_chainstate_from_checkpoint (transaction (strata_checkpoint_tx inp).1) rp = Val (Ok cs) →
    (last_verified_height (header_vs cs) + N.of_nat (length headers) <= U64_MAX)%N) →
  process_bridge_proof inp headers rp gp = Val (Ok out) ↔
  ∃ cs info height key,
    let '(checkpoint, i) := strata_checkpoint_tx inp in
    let '(fulfillment, j) := withdrawal_fulfillment_tx inp in
    let txid := blockspace_compute_txid (transaction fulfillment) in
    extract_valid_chainstate_from_checkpoint (transaction checkpoint) rp = Val (Ok cs) ∧
    included checkpoint headers i true ∧
    extract_withdrawal_info (E := L1VerificationError) (transaction fulfillment) (tag gp)
      = Val (Ok info) ∧
    included fulfillment headers j false ∧
    block_height_at rp (header_vs cs) headers j height ∧ serves cs gp info height ∧
    get_operator_wallet_pk cs (wi_operator_idx info) = Some key ∧
    verify_schnorr_sig (op_signature inp) txid key = true ∧
    i ≤ j ∧ (∃ vs, verify_headers rp (header_vs cs) headers = Ok vs) ∧ j + 10 ≤ length headers ∧
    out = mkBridgeProofPublicOutput (buf32_from_txid (wi_deposit_txid info)) txid.
Proof. apply process_bridge_proof_iff. Qed.

(** C8: An honest operator can always prove its fulfillment.  The transaction
    [WithdrawalFulfillment::new] builds for the withdrawal the chain state has assigned to it, mined
    before the deadline in a block with nine more on top of it, and signed by the operator, is
    accepted together with any valid checkpoint at or before it that holds the assignment. *)
Theorem honest_fulfillment_proves
    `{ChainstateLaws, InclusionLib, DescriptorLib, BuildProfile, OpReturnBytes}
    inp headers rp gp cs m outpoints amount change recipient entry d key vs :
  let '(checkpoint, i) := strata_checkpoint_tx inp in
  let '(fulfillment, j) := withdrawal_fulfillment_tx inp in
  let txid := blockspace_compute_txid (transaction fulfillment) in
  WithdrawalFulfillment_new m outpoints amount change recipient = Val (transaction fulfillment) →
  wm_tag m = tag gp → (wm_operator_idx m <= U32_MAX)%N → (wm_deposit_idx m <= U32_MAX)%N →
  (wm_deposit_txid m < 2 ^ 256)%N →
  extract_valid_chainstate_from_checkpoint (transaction checkpoint) rp = Val (Ok cs) →
  included checkpoint headers i true → included fulfillment headers j false →
  get_deposit cs (wm_deposit_idx m) = Some entry → op_txid (de_output entry) = wm_deposit_txid m →
  deposit_state entry = Dispatched d → head (withdraw_outputs d) = Some recipient →
  assignee d = wm_operator_idx m →
  (amount + operator_fee gp)%N = de_amt entry → (de_amt entry <= U64_MAX)%N →
  (last_verified_height (header_vs cs) + N.of_nat j + 1 <= exec_deadline d <= U64_MAX)%N →
  get_operator_wallet_pk cs (wm_operator_idx m) = Some key →
  verify_schnorr_sig (op_signature inp) txid key = true → i ≤ j →
  verify_headers rp (header_vs cs) headers = Ok vs → j + 10 ≤ length headers →
  process_bridge_proof inp headers rp gp =
    Val (Ok (mkBridgeProofPublicOutput (buf32_from_txid (wm_deposit_txid m)) txid)).
Proof.
  unfold process_bridge_proof.
  destruct (strata_checkpoint_tx inp) as [cp i], (withdrawal_fulfillment_tx inp) as [ff j].
  intros Htx Htag Ho Hdi Hdt Hcs Hci Hfi Hg Hx Hd Hw Ha Hamt Hmax Hdl Hkey Hsig Hij Hvs Hlen.
  apply (verify_tx_inclusion_Ok _ StrataCheckpoint) in Hci as (ch & Hch & Hci).
  apply (verify_tx_inclusion_Ok _ (WithdrawalFulfillmentTx NoMessage)) in Hfi as (fh & Hfh & Hfi).
  unfold WithdrawalFulfillment_new, op_return_nonce in Htx.
  rewrite length_wm_op_return_data in Htx. cbn in Htx. injection Htx as Htx.
  pose proof (extract_metadata (E := L1VerificationError) m (transaction ff)
    (mkTxOut amount (to_script recipient))
    (create_tx_outs match change with Some c => [(script_pubkey c, value c)] | None => [] end)
    Ho Hdi Hdt ltac:(by rewrite <- Htx)) as Hinfo.
  rewrite Htag in Hinfo. set (info := mkWithdrawalInfo _ _ _ _ _ _) in Hinfo.
  assert (check_fulfillment cs (operator_fee gp) info j = Val (Ok tt)) as Hserve.
  { apply check_fulfillment_Ok; [lia|]. exists entry, d, recipient. split_and!; try done; [|lia].
    cbn. rewrite amount_add_fits by lia. by rewrite Hamt. }
  pass cs. pass ch. pass tt. pass info. pass fh. pass tt. pass tt. pass key.
  apply guard_Ok; split; [done|]. apply try_bind_Ok; exists tt; split; [|done].
  f_equal. apply check_headers_Ok. eauto.
Qed.

(** The proofs of inclusion that are generated verify: the bundle generated for any
    transaction of a block verifies against the block's header and carries that transaction,
    where a transaction with a witness needs the coinbase of the block to commit, as BIP 141
    asks, to the tree of the wtxids. *)
Theorem bundle_verifies `{EncodingLaws, InclusionLaws} txs header idx tx :
  txs !! idx = Some tx → merkle_root header = txid_root txs →
  (Exists (λ i, witness i ≠ []) (input tx) →
    ∃ coinbase inp reserved, txs !! 0 = Some coinbase ∧ is_coinbase coinbase = true ∧
      input coinbase = [inp] ∧ witness inp = [reserved] ∧ length reserved = 32 ∧
      witness_commitment_from_coinbase coinbase
        = Some (sha256d (to_be_bytes 32 (wtxid_root txs) ++ reserved))) →
  ∃ b, bundle_generate txs idx = Val b ∧ bundle_verify b header = Val true ∧ transaction b = tx ∧
    (is_Some (witness_tx b) ↔ Exists (λ i, witness i ≠ []) (input tx)).
Proof.
  intros Htx Hroot Hcb. unfold bundle_generate. rewrite Htx. cbn [expect mbind comp_bind].
  destruct (forallb _ (input tx)) eqn:Hw.
  - eexists. split; [done|]. unfold bundle_verify, L1TxWithIdProof_verify. cbn.
    rewrite Hroot, txid_proof by done. split_and!; [done..|].
    split; [by intros [? [=]]|]. intros (i & Hi & Hne)%Exists_exists.
    rewrite forallb_forall in Hw. destruct Hne.
    by eapply bool_decide_eq_true, Hw, list_elem_of_In.
  - destruct (decide (Exists (λ i, witness i ≠ []) (input tx))) as [Hex|Hno].
    + destruct (Hcb Hex) as (cb & inp & rs & Hcb0 & His & Hin & Hwit & Hlen & Hcommit).
      rewrite Hcb0. cbn [expect mbind comp_bind]. eexists. split; [done|].
      unfold bundle_verify, L1TxWithIdProof_verify. cbn [base_tx witness_tx id_tx proof].
      rewrite Hroot, txid_proof by done. cbn [negb]. rewrite His. cbn [negb].
      rewrite Hin. cbn [lookup list_lookup expect mbind comp_bind]. rewrite Hwit.
      rewrite decide_True by done. rewrite Hcommit, (wtxid_proof txs idx tx) by done.
      rewrite bool_decide_eq_true_2 by done. split_and!; [done..|]. split; [done|eauto].
    + exfalso. apply not_Exists_Forall in Hno; [|apply _]. apply not_true_iff_false in Hw. apply Hw.
      apply forallb_forall. intros i Hi%list_elem_of_In.
      rewrite Forall_forall in Hno. apply bool_decide_eq_true, dec_stable, Hno, Hi.
Qed.

(** Borsh reads back the transaction it has written, and leaves the rest of the input. *)
Theorem BitcoinTx_round_trip `{EncodingLaws} tx rest :
  (N.of_nat (length (serialize_tx tx)) <= U32_MAX)%N →
  BitcoinTx_deserialize (BitcoinTx_serialize tx ++ rest) = Some (tx, rest).
Proof.
  intros Hl. unfold BitcoinTx_deserialize, BitcoinTx_serialize, read_exact.
  set (len := to_le_bytes 4 _). rewrite <- !app_assoc.
  assert (length len = 4) as Hlen by (unfold len, to_le_bytes; by rewrite length_rev, length_to_be_bytes).
  assert (from_le_bytes len = N.of_nat (length (serialize_tx tx))) as Hle.
  { unfold len, to_le_bytes, from_le_bytes.
    rewrite rev_involutive, N.mod_small, from_to_be_bytes_u32; unfold U32_MAX in *; lia. }
  clearbody len. rewrite decide_True by (rewrite !length_app; lia).
  rewrite <- Hlen, take_app_length, drop_app_length. cbn [mbind option_bind].
  rewrite Hle, Nat2N.id, decide_True by (rewrite length_app; lia).
  rewrite take_app_length, drop_app_length. cbn. by rewrite tx_round_trip.
Qed.

(** The guest program run on the input the host prepares proves exactly what the statement
    accepts of that input: the headers survive their encoding as one buffer of 80-byte chunks, and
    the host obtains an output just when the statement returns it, an error or a panic giving
    none. *)
Theorem program_proves_statement `{ChainstateLib, !EncodingLaws, InclusionLib, DescriptorLib, BuildProfile}
    (i : BridgeProofInput) out :
  execute i = Some out ↔
  process_bridge_proof (BridgeProofInputBorsh_from i) (bi_headers i) (bi_rollup_params i)
    (bi_pegout_graph_params i) = Val (Ok out).
Proof. apply execute_iff. Qed.

(** ** An example *)

(** Small libraries.  A Merkle proof is the list of the block's transactions; every block of the
    chain has the same transactions, and so the same header. *)
Module ProofExample.

#[local] Instance script : ScriptLib := {|
  minimal_non_dust _ := 330%N;
  op_return_push data := OP_RETURN :: N.of_nat (length data) :: data;
|}.

#[local] Instance inclusion : InclusionLib := {|
  L1TxProof := list Transaction * nat;
  L1WtxProof := list Transaction;
  L1TxProof_generate txs i := (txs, i);
  L1TxProof_verify p tx root :=
    bool_decide (p.1 !! p.2 = Some tx) && bool_decide (Npos (encode p.1) = root);
  L1WtxProof_generate txs _ := tail txs;
  L1WtxProof_compute_root p _ := Npos (encode p);
  sha256d bytes := from_be_bytes bytes;
  witness_commitment_from_coinbase tx := value <$> head (output tx);
|}.

Definition fulfillment : Transaction :=
  create_tx (create_tx_ins [mkOutPoint 77 1]) (create_tx_outs [([0; 55]%N, 990000000%N);
    (op_return_push (wm_op_return_data example_metadata), 0%N)]).
Definition checkpoint : Transaction := create_tx [mkTxIn (mkOutPoint 78 0) [] 0 [[1%N]]] [].
Definition coinbase : Transaction :=
  create_tx [mkTxIn (mkOutPoint 0 U32_MAX) [] 0 [replicate 32 0%N]]
    [mkTxOut (from_be_bytes (to_be_bytes 32 (Npos (encode [checkpoint; fulfillment]))
      ++ replicate 32 0%N)) []].
Definition block : list Transaction := [coinbase; checkpoint; fulfillment].
Definition block_root : Buf32 := Npos (encode block).

#[local] Instance encoding : EncodingLib := {|
  Header := unit;
  merkle_root _ := block_root;
  serialize_header _ := replicate 80 0%N;
  deserialize_header _ := Some tt;
  serialize_tx tx := [Npos (encode tx)];
  deserialize_tx bytes := match bytes with [Npos p] => decode p | _ => None end;
  is_coinbase tx := bool_decide (length (input tx) = 1);
|}.

#[local] Instance checkpoints : CheckpointLib := {|
  TxFilterConfig := unit;
  SignedCheckpoint := list N;
  derive_from _ := Some tt;
  taproot_leaf_script w := match w with [[n]] => Some [n] | _ => None end;
  parse_envelope_payloads scr _ := Some [scr];
  signed_checkpoint_from_slice := Some;
  verify_signed_checkpoint_sig _ _ := true;
  into_checkpoint := mkCheckpoint 100;
  Chainstate := N;
  chainstate_from_slice := head;
  chainstate_deposits _ := [];
|}.

(** The deposit 7, dispatched to operator 3 until block 101; the last verified block is 100. *)
Definition entry : DepositEntry :=
  mkDepositEntry 7 (Dispatched (mkDispatchedState 3 [55%N] 101)) None (mkOutPoint 99 0) (10 * BTC).

#[local] Instance chain_state : ChainstateLib := {|
  HeaderVerificationState := N;
  L1VerificationError := unit;
  header_vs _ := 100%N;
  last_verified_height vs := vs;
  check_and_update_continuity _ vs _ := Ok (vs + 1)%N;
  get_deposit _ i := if decide (i = 7%N) then Some entry else None;
  get_operator_wallet_pk _ i := if decide (i = 3%N) then Some 5%N else None;
  compute_state_root cs := cs;
  post_state_root c := from_be_bytes c;
  verify_receipt _ _ := true;
  verify_schnorr_sig sig _ key := bool_decide (sig = [key]);
  blockspace_compute_txid tx := lock_time tx;
  buf32_from_txid txid := txid;
  bitcoin_amount_add a b := Val (a + b)%N;
|}.

#[local] Instance encoding_laws : EncodingLaws.
Proof.
  split.
  - intros h. apply length_replicate.
  - by intros [].
  - intros tx. cbn -[encode decode]. apply decode_encode.
  - intros tx. apply bool_decide_eq_true.
Qed.
#[local] Instance chain_state_laws : ChainstateLaws.
Proof. split; [by intros ???? [= <-]|done]. Qed.
#[local] Instance op_return_laws : OpReturnBytes.
Proof. by intros data _. Qed.
Definition txids_root (txs : list Transaction) : Buf32 := Npos (encode txs).
Definition wtxids_root (txs : list Transaction) : Buf32 := Npos (encode (tail txs)).
#[local] Instance inclusion_laws : InclusionLaws txids_root wtxids_root.
Proof.
  split; [|done]. intros txs i tx Htx. cbn -[encode]. by rewrite !bool_decide_eq_true_2.
Qed.

#[local] Instance profile : BuildProfile := false.
#[local] Existing Instance example_descriptor.

Definition bundle (i : nat) : L1TxWithProofBundle :=
  match bundle_generate block i with
  | Val b => b
  | Panic => mkL1TxWithProofBundle (mkL1TxWithIdProof coinbase ([], 0)) None
  end.
(** The checkpoint in block 101, the fulfillment in block [101 + j]. *)
Definition proof_input (j : nat) : BridgeProofInputBorsh :=
  mkBridgeProofInputBorsh (bundle 1, 0) (bundle 2, j) [5%N].
Definition block_header : Header := tt.
Definition headers : list Header := replicate 12 block_header.
Definition rollup : RollupParams := mkRollupParams 20.

Lemma bundle_verify_example i : i < 3 → bundle_verify (bundle i) tt = Val true.
Proof. intros Hi. destruct i as [|[|[|]]]; [..|lia]; vm_compute; reflexivity. Qed.
Lemma checkpoint_included : included (bundle 1) headers 0 true.
Proof. exists tt. split_and!; [done|by apply bundle_verify_example; lia|]. intros _. by eexists. Qed.
Lemma fulfillment_included j : j < 12 → included (bundle 2) headers j false.
Proof.
  intros Hj. exists tt. split_and!; [|by apply bundle_verify_example; lia|done].
  by apply lookup_replicate_2.
Qed.

(** The fulfillment in block 102, one above the deadline, is accepted. *)
Lemma bridge_proof_accepts_witness :
  process_bridge_proof (proof_input 1) headers rollup PegOutGraphParams_default
    = Val (Ok (mkBridgeProofPublicOutput 99 0)) ∧
  block_height_at rollup (header_vs (1%N : Chainstate)) headers 1 102 ∧
  deposit_state entry = Dispatched (mkDispatchedState 3 [55%N] 101).
Proof.
  split; [|by split; [eexists; split; [reflexivity|reflexivity]|]].
  apply (bridge_proof_accepts (proof_input 1) headers rollup PegOutGraphParams_default
    (mkBridgeProofPublicOutput 99 0)).
  - intros cs _. vm_compute. discriminate.
  - exists 1%N, (mkWithdrawalInfo BRIDGE_TAG 3 7 99 [0; 55]%N 990000000), 102%N, 5%N.
    cbn [strata_checkpoint_tx withdrawal_fulfillment_tx proof_input op_signature].
    split; [vm_compute; reflexivity|]. split; [apply checkpoint_included|].
    split; [vm_compute; reflexivity|]. split; [apply fulfillment_included; lia|].
    split; [by exists 102%N; split|]. split.
    { exists entry, (mkDispatchedState 3 [55%N] 101), 55%N. split_and!; try done. }
    split_and!; [done..|lia| |by vm_compute; lia|by vm_compute].
    exists 112%N. by vm_compute.
Defined.

Lemma honest_fulfillment_proves_witness :
  process_bridge_proof (proof_input 0) headers rollup PegOutGraphParams_default
    = Val (Ok (mkBridgeProofPublicOutput 99 0)).
Proof.
  refine (honest_fulfillment_proves (proof_input 0) headers rollup PegOutGraphParams_default 1%N
    example_metadata [mkOutPoint 77 1] 990000000 None 55%N entry
    (mkDispatchedState 3 [55%N] 101) 5%N 112%N _ _ _ _ _ _ _ _ _ _ _ _ _ _ _ _ _ _ _ _ _).
  all: try (vm_compute; first [reflexivity|discriminate]).
  - apply checkpoint_included.
  - apply fulfillment_included. lia.
  - split; vm_compute; discriminate.
  - vm_compute. lia.
Defined.

Lemma bundle_verifies_witness :
  ∃ b, bundle_generate block 1 = Val b ∧ bundle_verify b block_header = Val true ∧
    transaction b = checkpoint.
Proof.
  destruct (bundle_verifies (txid_root := txids_root) (wtxid_root := wtxids_root) block
    block_header 1 checkpoint) as (b & Hg & Hv & Ht & _).
  - reflexivity.
  - reflexivity.
  - intros _. exists coinbase, (mkTxIn (mkOutPoint 0 U32_MAX) [] 0 [replicate 32 0%N]), (replicate 32 0%N).
    split_and!; [reflexivity..|vm_compute; reflexivity].
  - exists b. split_and!; assumption.
Defined.

Lemma program_proves_statement_witness :
  execute (mkBridgeProofInput rollup PegOutGraphParams_default headers 7 (bundle 1, 0) (bundle 2, 0) [5%N])
    = Some (mkBridgeProofPublicOutput 99 0).
Proof.
  apply (program_proves_statement
    (mkBridgeProofInput rollup PegOutGraphParams_default headers 7 (bundle 1, 0) (bundle 2, 0) [5%N])
    (mkBridgeProofPublicOutput 99 0)).
  vm_compute. reflexivity.
Defined.

End ProofExample.
