(* ===== verification/OperatorWallet.v ===== *)
(** * The wallet of an operator ([operator-wallet/src/lib.rs], [sync.rs])

    An operator has a general wallet, from which it fronts withdrawals and refills, and a wallet
    with the outputs that fund its stake transactions.  An output handed out for a stake is leased
    until a transaction that spends it has been seen.

    The wallets themselves are those of [bdk_wallet], a parameter: the unspent outputs they list,
    and the transaction a builder finishes.  Synchronisation is driven by the updates that the
    Bitcoin node sends.

    The theorems: no output is handed out twice unless a transaction has spent it in between; and
    which outputs each transaction may spend, which for a fronted withdrawal includes the anchors. *)

From S2P Require Import Prelude Bitcoin Algebra TxTypes.

(** ** [algebra/src/predicate.rs] *)

Module Predicate.

Definition never {A} : A → bool := λ _, false.
Definition always {A} : A → bool := λ _, true.
Definition not {A} (p : A → bool) : A → bool := λ a, negb (p a).
Definition and {A} (p q : A → bool) : A → bool := λ a, p a && q a.
Definition or {A} (p q : A → bool) : A → bool := λ a, p a || q a.
Definition nor {A} (p q : A → bool) : A → bool := λ a, negb (p a || q a).
Definition contramap {A B} (f : A → B) (p : B → bool) : A → bool := λ a, p (f a).
Definition eq {A} `{EqDecision A} (a : A) : A → bool := λ b, bool_decide (b = a).

(** [guard_mut], with a predicate that changes a state. *)
Definition guard_mut {S A} (p : A → S → bool * S) (a : A) (s : S) : option A * S :=
  let '(b, s) := p a s in (if (b : bool) then Some a else None, s).

End Predicate.

(** ** [bdk_wallet] *)

Record LocalOutput := mkLocalOutput {
  lo_outpoint : OutPoint;
  lo_txout : TxOut;
  lo_is_confirmed : bool;
}.

Inductive TxOrdering := Shuffle | Untouched.

Record TxBuilder := mkTxBuilder {
  tb_version : N;
  tb_unspendable : gset OutPoint;
  tb_fee_rate : option N;
  tb_recipients : list (ScriptBuf * Amount);
  tb_ordering : TxOrdering;
}.

Inductive CreateTxError := CreateTxFailed.
Inductive SyncError := SyncFailed.

(** What a synchronisation task sends: a block, or the transactions of the mempool. *)
Inductive WalletUpdate := NewBlock (b : Block) | MempoolTxs (txs : list Transaction).

Class BdkLib := {
  Wallet : Type;
  list_unspent : Wallet → list LocalOutput;
  get_utxo : Wallet → OutPoint → option LocalOutput;
  finish : Wallet → TxBuilder → Wallet * result CreateTxError Psbt;
  (** [None] when the block does not connect to the wallet's chain, which leaves the wallet as it is. *)
  apply_block_connected_to : Wallet → Block → option Wallet;
  apply_unconfirmed_txs : Wallet → list Transaction → Wallet;
}.

(** A finished transaction spends unspent outputs of the wallet that the builder does not exclude,
    and pays the recipients in the order they were added, unless the order is left to the builder. *)
Class BdkLaws `{BdkLib} : Prop := {
  finish_spends : ∀ w tb w' p i, finish w tb = (w', Ok p) → i ∈ input (unsigned_tx p) →
    previous_output i ∈ (lo_outpoint <$> list_unspent w) ∧ previous_output i ∉ tb_unspendable tb;
  finish_pays : ∀ w tb w' p, finish w tb = (w', Ok p) → tb_ordering tb = Untouched →
    create_tx_outs (tb_recipients tb) `prefix_of` output (unsigned_tx p);
}.

Definition build_tx : TxBuilder := mkTxBuilder 2 ∅ None [] Shuffle.
Definition tb_set_version (v : N) (tb : TxBuilder) : TxBuilder :=
  mkTxBuilder v (tb_unspendable tb) (tb_fee_rate tb) (tb_recipients tb) (tb_ordering tb).
(** [unspendable] replaces the list of outputs that are not to be spent. *)
Definition unspendable (l : list OutPoint) (tb : TxBuilder) : TxBuilder :=
  mkTxBuilder (tb_version tb) (list_to_set l) (tb_fee_rate tb) (tb_recipients tb) (tb_ordering tb).
Definition fee_rate (r : N) (tb : TxBuilder) : TxBuilder :=
  mkTxBuilder (tb_version tb) (tb_unspendable tb) (Some r) (tb_recipients tb) (tb_ordering tb).
Definition add_recipient (script : ScriptBuf) (amount : Amount) (tb : TxBuilder) : TxBuilder :=
  mkTxBuilder (tb_version tb) (tb_unspendable tb) (tb_fee_rate tb)
    (tb_recipients tb ++ [(script, amount)]) (tb_ordering tb).
Definition add_data `{ScriptLib} (data : list N) (tb : TxBuilder) : TxBuilder :=
  add_recipient (op_return_push data) 0 tb.
Definition ordering (o : TxOrdering) (tb : TxBuilder) : TxBuilder :=
  mkTxBuilder (tb_version tb) (tb_unspendable tb) (tb_fee_rate tb) (tb_recipients tb) o.

(** ** The wallet *)

Definition SYNC_RETRIES : nat := 5.

Record OperatorWalletConfig := mkOperatorWalletConfig {
  stake_funding_utxo_value : Amount;
  cpfp_value : Amount;
  s_value : Amount;
  ow_network : Network;
}.

Definition OperatorWalletConfig_new (stake_funding_utxo_value cpfp_value s_value : Amount)
    (network : Network) : comp OperatorWalletConfig :=
  if decide (cpfp_value = s_value) then Panic
  else Val (mkOperatorWalletConfig stake_funding_utxo_value cpfp_value s_value network).

(** [usize] subtraction: panics below zero in a debug build, wraps around in a release build. *)
Definition usize_sub `{BuildProfile} (a b : N) : comp N :=
  if (b <=? a)%N then Val (a - b)%N
  else if debug_assertions then Panic else Val (a + (U64_MAX + 1) - b)%N.

Section wallet.
Context `{BdkLib, ScriptLib, BuildProfile}.

Record OperatorWallet := mkOperatorWallet {
  general_wallet : Wallet;
  stakechain_wallet : Wallet;
  ow_config : OperatorWalletConfig;
  stakechain_addr_script_buf : ScriptBuf;
  general_addr_script_buf : ScriptBuf;
  leased_outpoints : gset OutPoint;
  fronting_outpoints : gset OutPoint;
}.

Definition with_leased (l : gset OutPoint) (w : OperatorWallet) : OperatorWallet :=
  mkOperatorWallet (general_wallet w) (stakechain_wallet w) (ow_config w) (stakechain_addr_script_buf w)
    (general_addr_script_buf w) l (fronting_outpoints w).
Definition with_fronting (l : gset OutPoint) (w : OperatorWallet) : OperatorWallet :=
  mkOperatorWallet (general_wallet w) (stakechain_wallet w) (ow_config w) (stakechain_addr_script_buf w)
    (general_addr_script_buf w) (leased_outpoints w) l.
Definition with_general (g : Wallet) (w : OperatorWallet) : OperatorWallet :=
  mkOperatorWallet g (stakechain_wallet w) (ow_config w) (stakechain_addr_script_buf w)
    (general_addr_script_buf w) (leased_outpoints w) (fronting_outpoints w).
Definition with_stakechain (s : Wallet) (w : OperatorWallet) : OperatorWallet :=
  mkOperatorWallet (general_wallet w) s (ow_config w) (stakechain_addr_script_buf w)
    (general_addr_script_buf w) (leased_outpoints w) (fronting_outpoints w).

Definition is_anchor (w : OperatorWallet) (o : LocalOutput) : bool :=
  bool_decide (value (lo_txout o) = cpfp_value (ow_config w)) && negb (lo_is_confirmed o).
Definition is_claim_funding_output (w : OperatorWallet) (o : LocalOutput) : bool :=
  bool_decide (value (lo_txout o) = stake_funding_utxo_value (ow_config w)).

Definition anchor_outputs (w : OperatorWallet) : list LocalOutput :=
  List.filter (is_anchor w) (list_unspent (general_wallet w)).
Definition claim_funding_outputs (w : OperatorWallet) : list LocalOutput :=
  List.filter (is_claim_funding_output w) (list_unspent (stakechain_wallet w)).
Definition general_utxos (w : OperatorWallet) : list LocalOutput :=
  List.filter (Predicate.not (is_anchor w)) (list_unspent (general_wallet w)).

(** [BTreeSet::insert] tells whether the element is new. *)
Definition lease (o : OutPoint) (w : OperatorWallet) : bool * OperatorWallet :=
  (bool_decide (o ∉ leased_outpoints w), with_leased ({[o]} ∪ leased_outpoints w) w).
Definition is_leased_pred (w : OperatorWallet) (o : OutPoint) : bool :=
  bool_decide (o ∈ leased_outpoints w).

Definition front_withdrawal (rate : N) (user_script_pubkey : ScriptBuf) (amount : Amount)
    (op_return_data : list N) (w : OperatorWallet)
    : comp (OperatorWallet * result CreateTxError Psbt) :=
  if (U32_MAX <? N.of_nat (length op_return_data))%N then Panic
  else
    let anchor_outpoints := lo_outpoint <$> anchor_outputs w in
    let tb := ordering Untouched $ add_data op_return_data $ add_recipient user_script_pubkey amount $
      fee_rate rate $ unspendable (elements (fronting_outpoints w)) $ unspendable anchor_outpoints $
      tb_set_version 3 build_tx in
    let '(general, r) := finish (general_wallet w) tb in
    let w := with_general general w in
    match r with
    | Err e => Val (w, Err e)
    | Ok psbt =>
        let used := previous_output <$> input (unsigned_tx psbt) in
        Val (with_fronting (list_to_set used ∪ fronting_outpoints w) w, Ok psbt)
    end.

(** [n] recipients, added one by one. *)
Definition add_recipients (n : N) (script : ScriptBuf) (amount : Amount) (tb : TxBuilder) : TxBuilder :=
  N.iter n (add_recipient script amount) tb.

Definition refill_claim_funding_utxos (rate : N) (target_size : N) (w : OperatorWallet)
    : comp (OperatorWallet * result CreateTxError Psbt) :=
  let current_claim_funding_outpoints :=
    List.filter (Predicate.not (is_leased_pred w)) (lo_outpoint <$> claim_funding_outputs w) in
  let anchor_outpoints := lo_outpoint <$> anchor_outputs w in
  let excluded := current_claim_funding_outpoints ++ anchor_outpoints
    ++ elements (leased_outpoints w) in
  let tb := unspendable excluded $ tb_set_version 3 build_tx in
  let current_size := N.of_nat (length current_claim_funding_outpoints) in
  batch_size ← usize_sub target_size current_size;
  let tb := fee_rate rate $ add_recipients batch_size (stakechain_addr_script_buf w)
    (stake_funding_utxo_value (ow_config w)) tb in
  let '(general, r) := finish (general_wallet w) tb in
  Val (with_general general w, r).

Definition claim_funding_utxo (ignore : OutPoint → bool) (w : OperatorWallet)
    : (option OutPoint * N) * OperatorWallet :=
  let consider := Predicate.contramap lo_outpoint (Predicate.nor ignore (is_leased_pred w)) in
  match List.filter consider (claim_funding_outputs w) with
  | [] => ((None, 0%N), w)
  | utxo :: rest =>
      let remaining := N.of_nat (length rest) in
      let '(leased, w) := Predicate.guard_mut lease (lo_outpoint utxo) w in
      ((leased, remaining), w)
  end.

Definition s_utxo (w : OperatorWallet) : option LocalOutput :=
  List.find (λ o, bool_decide (value (lo_txout o) = s_value (ow_config w)))
    (list_unspent (stakechain_wallet w)).

Definition create_prestake_tx (rate : N) (w : OperatorWallet)
    : OperatorWallet * result CreateTxError Psbt :=
  let anchor_outpoints := lo_outpoint <$> anchor_outputs w in
  let tb := ordering Untouched $ add_recipient (stakechain_addr_script_buf w) (s_value (ow_config w)) $
    fee_rate rate $ unspendable anchor_outpoints $ tb_set_version 3 build_tx in
  let '(general, r) := finish (general_wallet w) tb in
  (with_general general w, r).

(** *** Synchronisation *)

Definition spent_outpoints (u : WalletUpdate) : list OutPoint :=
  let txs := match u with NewBlock b => txdata b | MempoolTxs txs => txs end in
  txs ≫= λ tx, previous_output <$> input tx.

(** What a task sends in one run, and how it ends: an error of the emitter is unwrapped, so that the
    task panics, and joining it then panics too. *)
Record SyncRun := mkSyncRun { updates : list WalletUpdate; outcome : comp (result SyncError unit) }.

Definition apply_update (wallet : Wallet) (u : WalletUpdate) : option Wallet :=
  match u with
  | NewBlock b => apply_block_connected_to wallet b
  | MempoolTxs txs => Some (apply_unconfirmed_txs wallet txs)
  end.

(** The loop over the updates; [false] when a block cannot be added, which is a panic.  The wallet and
    the leases are changed in place, so that they stay as the panic leaves them. *)
Fixpoint apply_updates (us : list WalletUpdate) (wallet : Wallet) (leases : gset OutPoint)
    : (Wallet * gset OutPoint) * bool :=
  match us with
  | [] => ((wallet, leases), true)
  | u :: us =>
      match apply_update wallet u with
      | None => ((wallet, leases), false)
      | Some wallet => apply_updates us wallet (leases ∖ list_to_set (spent_outpoints u))
      end
  end.

(** [Backend::sync_wallet]. *)
Definition sync_wallet (run : SyncRun) (wallet : Wallet) (leases : gset OutPoint)
    : (Wallet * gset OutPoint) * comp (result SyncError unit) :=
  let '(changed, added) := apply_updates (updates run) wallet leases in
  (changed, if added then outcome run else Panic).

Definition sync_both (general stakechain : SyncRun) (w : OperatorWallet) : OperatorWallet * comp (option SyncError) :=
  let '((g, leases), r1) := sync_wallet general (general_wallet w) (leased_outpoints w) in
  let w := with_leased leases $ with_general g w in
  match r1 with
  | Panic => (w, Panic)
  | Val r1 =>
      let '((s, leases), r2) := sync_wallet stakechain (stakechain_wallet w) leases in
      (with_leased leases $ with_stakechain s w,
       r2 ← r2; Val match r2, r1 with Err e, _ => Some e | Ok _, Err e => Some e | Ok _, Ok _ => None end)
  end.

(** The loop, with the runs of each attempt and the number of attempts left. *)
Fixpoint sync_loop (runs : nat → SyncRun * SyncRun) (retries attempt : nat) (w : OperatorWallet)
    : OperatorWallet * comp (result SyncError unit) :=
  let '(general, stakechain) := runs attempt in
  let '(w, err) := sync_both general stakechain w in
  match err, retries with
  | Panic, _ => (w, Panic)
  | Val None, _ => (w, Val (Ok tt))
  | Val (Some e), 0 => (w, Val (Err e))
  | Val (Some _), S retries => sync_loop runs retries (S attempt) w
  end.
Definition sync (runs : nat → SyncRun * SyncRun) (w : OperatorWallet)
    : OperatorWallet * comp (result SyncError unit) := sync_loop runs SYNC_RETRIES 0 w.

(** ** Histories *)

Inductive WalletOp :=
| Claim (ignore : OutPoint → bool)
| Front (rate : N) (script : ScriptBuf) (amount : Amount) (data : list N)
| Refill (rate target_size : N)
| Prestake (rate : N)
| Sync (runs : nat → SyncRun * SyncRun).

(** The wallet is shared: a task that panics in a synchronisation leaves it to the others as it is. *)
Definition wallet_step (op : WalletOp) (w : OperatorWallet) : comp OperatorWallet :=
  match op with
  | Claim ignore => Val (claim_funding_utxo ignore w).2
  | Front rate script amount data => fst <$> front_withdrawal rate script amount data w
  | Refill rate size => fst <$> refill_claim_funding_utxos rate size w
  | Prestake rate => Val (create_prestake_tx rate w).1
  | Sync runs => Val (sync runs w).1
  end.
Definition wallet_run (ops : list WalletOp) (w : OperatorWallet) : comp OperatorWallet :=
  foldlM (λ w op, wallet_step op w) w ops.

(** A synchronisation in which a transaction that spends [o] is seen. *)
Definition sees_spent (o : OutPoint) (op : WalletOp) : Prop :=
  match op with
  | Sync runs => ∃ attempt u, attempt ≤ SYNC_RETRIES ∧
      u ∈ updates (runs attempt).1 ++ updates (runs attempt).2 ∧ o ∈ spent_outpoints u
  | _ => False
  end.

(** ** Lemmas *)

Lemma sync_wallet_leases run wallet leases o :
  o ∈ leases → o ∉ (sync_wallet run wallet leases).1.2 →
  ∃ u, u ∈ updates run ∧ o ∈ spent_outpoints u.
Proof.
  unfold sync_wallet. destruct (apply_updates _ _ _) as [changed added] eqn:E. cbn [fst].
  apply (f_equal fst) in E. cbn [fst] in E. subst changed. revert wallet leases.
  induction (updates run) as [|u us IH]; intros wallet leases Ho Hno; cbn in Hno; [done|].
  destruct (apply_update wallet u) as [wallet'|]; [|done].
  destruct (decide (o ∈ spent_outpoints u)) as [Hu|Hu]; [exists u; split; [by left|done]|].
  destruct (IH wallet' (leases ∖ list_to_set (spent_outpoints u))) as (u' & ? & ?);
    [set_solver|done|]. exists u'. split; [by right|done].
Qed.

Lemma sync_both_leases g s w o :
  o ∈ leased_outpoints w → o ∉ leased_outpoints (sync_both g s w).1 →
  ∃ u, u ∈ updates g ++ updates s ∧ o ∈ spent_outpoints u.
Proof.
  unfold sync_both. intros Ho Hno.
  pose proof (sync_wallet_leases g (general_wallet w) (leased_outpoints w) o Ho) as Hg.
  destruct (sync_wallet g _ _) as [[gw leases] r1]. cbn [fst snd] in Hg.
  assert (o ∉ leases → ∃ u, u ∈ updates g ++ updates s ∧ o ∈ spent_outpoints u) as Hleft.
  { intros (u & ? & ?)%Hg. exists u. split; [apply elem_of_app; by left|done]. }
  destruct r1 as [r1|]; [|by apply Hleft].
  cbn [stakechain_wallet with_leased with_general] in Hno.
  pose proof (sync_wallet_leases s (stakechain_wallet w) leases o) as Hs.
  destruct (sync_wallet s _ _) as [[sw leases'] r2]. cbn in Hs, Hno.
  destruct (decide (o ∈ leases)) as [Hin|Hin]; [|by apply Hleft].
  destruct (Hs Hin Hno) as (u & ? & ?). exists u. split; [apply elem_of_app; by right|done].
Qed.

Lemma sync_loop_leases runs retries attempt w o :
  attempt + retries ≤ SYNC_RETRIES →
  o ∈ leased_outpoints w → o ∉ leased_outpoints (sync_loop runs retries attempt w).1 →
  sees_spent o (Sync runs).
Proof.
  revert attempt w. induction retries as [|retries IH]; intros attempt w Hle Ho Hno; cbn [sync_loop] in Hno.
  all: pose proof (sync_both_leases (runs attempt).1 (runs attempt).2 w o Ho) as Hb.
  all: destruct (runs attempt) as [g s] eqn:E; cbn [fst snd] in Hb.
  all: destruct (sync_both g s w) as [w' err]; cbn [fst] in Hb.
  all: destruct (decide (o ∈ leased_outpoints w')) as [Hin|Hin];
    [|destruct (Hb Hin) as (u & ? & ?); exists attempt, u; rewrite E; split_and!; [lia|done..]].
  - exfalso. by destruct err as [[]|].
  - destruct err as [[e|]|]; [|done..]. apply (IH (S attempt) w'); [lia|done..].
Qed.

(** A lease ends only when the output is seen spent. *)
Lemma step_keeps_leases op w w' o :
  wallet_step op w = Val w' → o ∈ leased_outpoints w → o ∉ leased_outpoints w' → sees_spent o op.
Proof.
  destruct op as [ignore|rate script amount data|rate size|rate|runs]; cbn [wallet_step].
  - intros [= <-] Ho Hno. exfalso. apply Hno. unfold claim_funding_utxo.
    destruct (List.filter _ _); [done|]. cbn. set_solver.
  - intros (p & Hp & <-)%comp_fmap_Val Ho Hno. exfalso. apply Hno. unfold front_withdrawal in Hp.
    case_match; [done|]. destruct (finish _ _) as [g [psbt|]]; by injection Hp as <-.
  - intros (p & Hp & <-)%comp_fmap_Val Ho Hno. exfalso. apply Hno. unfold refill_claim_funding_utxos in Hp.
    apply comp_bind_Val in Hp as (n & _ & Hp). destruct (finish _ _) as [g r]; by injection Hp as <-.
  - intros [= <-] Ho Hno. exfalso. apply Hno. unfold create_prestake_tx.
    by destruct (finish _ _) as [g r].
  - intros [= <-] Ho Hno. by apply (sync_loop_leases runs SYNC_RETRIES 0 w).
Qed.

Lemma run_keeps_leases ops w w' o :
  wallet_run ops w = Val w' → o ∈ leased_outpoints w → o ∉ leased_outpoints w' →
  Exists (sees_spent o) ops.
Proof.
  unfold wallet_run. revert w. induction ops as [|op ops IH]; intros w; cbn; [by intros [= <-]|].
  intros (w1 & Hs1 & Hr)%comp_bind_Val Ho Hno.
  destruct (decide (o ∈ leased_outpoints w1)) as [Hin|Hin].
  - right. by apply (IH w1).
  - left. by apply (step_keeps_leases op w w1).
Qed.

(** What is fronted stays excluded. *)
Lemma step_keeps_fronting op w w' :
  wallet_step op w = Val w' → fronting_outpoints w ⊆ fronting_outpoints w'.
Proof.
  destruct op as [ignore|rate script amount data|rate size|rate|runs]; cbn [wallet_step].
  - intros [= <-]. unfold claim_funding_utxo. by destruct (List.filter _ _).
  - intros (p & Hp & <-)%comp_fmap_Val. unfold front_withdrawal in Hp. case_match; [done|].
    destruct (finish _ _) as [g [psbt|]]; injection Hp as <-; cbn; set_solver.
  - intros (p & Hp & <-)%comp_fmap_Val. unfold refill_claim_funding_utxos in Hp.
    apply comp_bind_Val in Hp as (n & _ & Hp). destruct (finish _ _) as [g r]; by injection Hp as <-.
  - intros [= <-]. unfold create_prestake_tx. by destruct (finish _ _) as [g r].
  - intros [= <-]. unfold sync. generalize 0. generalize w. induction SYNC_RETRIES as [|n IH].
    all: intros w0 a; cbn [sync_loop]; destruct (runs a) as [g s]; unfold sync_both.
    all: destruct (sync_wallet g _ _) as [[? ?] [r1|]]; [|done]; destruct (sync_wallet s _ _) as [[? ?] [[]|]], r1; cbn; try done.
    all: etrans; [|apply IH]; done.
Qed.

Lemma run_keeps_fronting ops w w' :
  wallet_run ops w = Val w' → fronting_outpoints w ⊆ fronting_outpoints w'.
Proof.
  apply (foldlM_ind _ (λ w', fronting_outpoints w ⊆ fronting_outpoints w')); [reflexivity|].
  intros s a s' _ Hs Hst. etrans; [exact Hs|]. by eapply step_keeps_fronting.
Qed.

End wallet.

(** ** Properties *)

(** C27: The wallet hands out an output for at most one stake: it hands out unspent outputs of the
    right value only, and when the same output is handed out again, whatever the wallet has been
    used for in between, a synchronisation in between has seen a transaction that spends it. *)
Theorem leases_exclusive `{BdkLib, ScriptLib, BuildProfile} ignore1 ignore2 w w1 ops w2 w3 o r1 r2 :
  claim_funding_utxo ignore1 w = ((Some o, r1), w1) → wallet_run ops w1 = Val w2 →
  claim_funding_utxo ignore2 w2 = ((Some o, r2), w3) →
  (∃ utxo, utxo ∈ list_unspent (stakechain_wallet w) ∧ lo_outpoint utxo = o ∧
    value (lo_txout utxo) = stake_funding_utxo_value (ow_config w)) ∧
  Exists (sees_spent o) ops.
Proof.
  unfold claim_funding_utxo at 1. destruct (List.filter _ (claim_funding_outputs w)) as [|u rest] eqn:E; [done|].
  cbn. case_bool_decide; [|done]. intros [= <- <- <-] Hr Hc.
  assert (In u (claim_funding_outputs w)) as Hu.
  { eapply proj1, filter_In. rewrite E. by left. }
  apply filter_In in Hu as [Hu Hv]. split.
  - exists u. split_and!; [by apply list_elem_of_In|done|]. by eapply bool_decide_eq_true_1.
  - apply (run_keeps_leases ops _ w2 _ Hr); [cbn; set_solver|].
    unfold claim_funding_utxo in Hc. destruct (List.filter _ (claim_funding_outputs w2)); [done|].
    cbn in Hc. case_bool_decide as Hl; [|done]. by injection Hc as <- <- <-.
Qed.

(** Two fronted withdrawals never spend the same output, whatever the wallet has been used for in
    between. *)
Theorem fronted_inputs_disjoint `{BdkLaws, ScriptLib, BuildProfile}
    rate1 script1 amount1 data1 rate2 script2 amount2 data2 w w1 ops w2 w3 p1 p2 i1 i2 :
  front_withdrawal rate1 script1 amount1 data1 w = Val (w1, Ok p1) → wallet_run ops w1 = Val w2 →
  front_withdrawal rate2 script2 amount2 data2 w2 = Val (w3, Ok p2) →
  i1 ∈ input (unsigned_tx p1) → i2 ∈ input (unsigned_tx p2) → previous_output i1 ≠ previous_output i2.
Proof.
  intros Hf1 Hr Hf2 Hi1 Hi2 Heq. unfold front_withdrawal in Hf1, Hf2.
  destruct (U32_MAX <? N.of_nat (length data1))%N, (U32_MAX <? N.of_nat (length data2))%N; try done.
  destruct (finish (general_wallet w) _) as [g1 [q1|]] eqn:F1; [|done]. injection Hf1 as <- ->.
  destruct (finish (general_wallet w2) _) as [g2 [q2|]] eqn:F2; [|done]. injection Hf2 as <- ->.
  destruct (finish_spends _ _ _ _ _ F2 Hi2) as [_ Hno]. apply Hno. cbn.
  apply elem_of_list_to_set, elem_of_elements, (run_keeps_fronting ops _ _ Hr). cbn.
  apply elem_of_union_l, elem_of_list_to_set, list_elem_of_fmap. eauto.
Qed.

(** An equation between closed terms, compared by the virtual machine. *)
Ltac vm_refl := match goal with |- _ = ?b => vm_cast_no_check (eq_refl b) end.

(** ** Example wallets

    A wallet that spends all the unspent outputs that the builder does not exclude. *)

Definition example_finish (w : list LocalOutput) (tb : TxBuilder)
    : list LocalOutput * result CreateTxError Psbt :=
  let spent := List.filter (λ o, bool_decide (lo_outpoint o ∉ tb_unspendable tb)) w in
  (w, Ok (from_unsigned_tx (mkTransaction (tb_version tb) 0 (create_tx_ins (lo_outpoint <$> spent))
    (create_tx_outs (tb_recipients tb))))).

Definition example_apply (w : list LocalOutput) (u : WalletUpdate) : list LocalOutput :=
  List.filter (λ o, bool_decide (lo_outpoint o ∉ spent_outpoints u)) w
    ++ (match u with NewBlock b => txdata b | MempoolTxs txs => txs end ≫= λ tx,
      (λ out, mkLocalOutput (mkOutPoint (lock_time tx) 0) out true) <$> output tx).

#[local] Instance example_bdk : BdkLib := {|
  Wallet := list LocalOutput;
  list_unspent w := w;
  get_utxo w o := List.find (λ lo, bool_decide (lo_outpoint lo = o)) w;
  finish := example_finish;
  apply_block_connected_to w b := Some (example_apply w (NewBlock b));
  apply_unconfirmed_txs w txs := example_apply w (MempoolTxs txs);
|}.

#[local] Instance example_bdk_laws : BdkLaws.
Proof.
  split.
  - intros w tb w' p i [= <- <-]. cbn. intros (o & -> & Ho)%list_elem_of_fmap.
    apply list_elem_of_fmap in Ho as (l & -> & Hl). cbn.
    apply list_elem_of_In, filter_In in Hl as [Hl Hb].
    split; [apply list_elem_of_fmap; exists l; split; [done|by apply list_elem_of_In]|].
    by apply bool_decide_eq_true_1 in Hb.
  - by intros w tb w' p [= <- <-] _.
Qed.

Definition example_wallet_script : ScriptLib := {|
  minimal_non_dust _ := 330%N;
  op_return_push data := (0x6a :: data)%N;
|}.
#[local] Existing Instance example_wallet_script.
#[local] Instance example_wallet_profile : BuildProfile := true.

Definition example_utxo (txid value : N) (confirmed : bool) : LocalOutput :=
  mkLocalOutput (mkOutPoint txid 0) (mkTxOut value []) confirmed.
(** The general wallet has an unconfirmed anchor and some funds, the other wallet two outputs that
    fund stakes. *)
Definition example_wallet : OperatorWallet :=
  mkOperatorWallet [example_utxo 1 330 false; example_utxo 2 1000 true] [example_utxo 3 70 true; example_utxo 4 70 true]
    (mkOperatorWalletConfig 70 330 500 1) [] [] ∅ ∅.
Definition quiet_run : SyncRun := mkSyncRun [] (Val (Ok tt)).
Definition spending_run : SyncRun :=
  mkSyncRun [MempoolTxs [mkTransaction 2 0 (create_tx_ins [mkOutPoint 3 0]) []]] (Val (Ok tt)).
(** A payment to the general wallet. *)
Definition paying_run : SyncRun := mkSyncRun [MempoolTxs [mkTransaction 2 5 [] [mkTxOut 900 []]]] (Val (Ok tt)).

Definition after_claim : OperatorWallet := (claim_funding_utxo Predicate.never example_wallet).2.

Lemma leases_exclusive_witness :
  Exists (sees_spent (mkOutPoint 3 0)) [Sync (λ _, (spending_run, quiet_run))].
Proof.
  refine (proj2 (leases_exclusive Predicate.never Predicate.never example_wallet after_claim
    [Sync (λ _, (spending_run, quiet_run))] (sync (λ _, (spending_run, quiet_run)) after_claim).1
    (claim_funding_utxo Predicate.never (sync (λ _, (spending_run, quiet_run)) after_claim).1).2
    (mkOutPoint 3 0) 1 1 _ _ _)).
  all: vm_refl.
Defined.

Definition example_front (w : OperatorWallet) : OperatorWallet * Psbt :=
  match front_withdrawal 1 [] 500 [] w with
  | Val (w, Ok p) => (w, p)
  | _ => (w, from_unsigned_tx (mkTransaction 2 0 [] []))
  end.
Definition example_refill (w : OperatorWallet) : OperatorWallet * Psbt :=
  match refill_claim_funding_utxos 1 4 w with
  | Val (w, Ok p) => (w, p)
  | _ => (w, from_unsigned_tx (mkTransaction 2 0 [] []))
  end.
Definition after_front : OperatorWallet := (example_front example_wallet).1.
Definition after_payment : OperatorWallet := (sync (λ _, (paying_run, quiet_run)) after_front).1.

Lemma fronted_inputs_disjoint_witness : mkOutPoint 1 0 ≠ mkOutPoint 5 0.
Proof.
  apply (fronted_inputs_disjoint 1 [] 500 [] 1 [] 500 [] example_wallet after_front
    [Sync (λ _, (paying_run, quiet_run))] after_payment (example_front after_payment).1
    (example_front example_wallet).2 (example_front after_payment).2
    (mkTxIn (mkOutPoint 1 0) [] ENABLE_RBF_NO_LOCKTIME []) (mkTxIn (mkOutPoint 5 0) [] ENABLE_RBF_NO_LOCKTIME [])).
  1-3: vm_refl.
  all: apply list_elem_of_In; vm_compute; tauto.
Defined.

(** The anchors and the outputs of a withdrawal that has been fronted are not safe from other
    transactions of the wallet: [unspendable] replaces the outputs excluded before, so a fronted
    withdrawal can spend an anchor, and a refill can spend what was just fronted. *)
Theorem wallet_exclusions_lost :
  ∃ w1 p1 w2 p2,
    front_withdrawal 1 [] 500 [] example_wallet = Val (w1, Ok p1) ∧
    refill_claim_funding_utxos 1 4 w1 = Val (w2, Ok p2) ∧
    (∃ anchor, anchor ∈ anchor_outputs example_wallet ∧
      lo_outpoint anchor ∈ (previous_output <$> input (unsigned_tx p1))) ∧
    (∃ o, o ∈ (previous_output <$> input (unsigned_tx p1)) ∧
      o ∈ (previous_output <$> input (unsigned_tx p2))).
Proof.
  exists after_front, (example_front example_wallet).2, (example_refill after_front).1, (example_refill after_front).2.
  split; [vm_refl|]. split; [vm_refl|]. split.
  - exists (example_utxo 1 330 false). split; apply list_elem_of_In; vm_compute; tauto.
  - exists (mkOutPoint 2 0). split; apply list_elem_of_In; vm_compute; tauto.
Qed.
