(* ===== verification/Retry.v ===== *)
(** * Retrying ([algebra/src/retry.rs])

    A strategy decides, from the error and the number of the attempt, whether an action is tried
    again, up to a maximum number of retries.  The action is a handler: it may change a state also
    when it fails.  Delays have no effect on the result and are not modelled further; the backoff
    with floating-point numbers is left out.

    The theorem: an action with a maximum of retries ends after at most one attempt more than
    that, and its outcome is that of the last attempt made. *)

From S2P Require Import Prelude.

Module Retry.

Inductive RetryAction := Again (delay : N) | Stop.

Record Strategy (E : Type) := mkStrategy {
  error_handler : E → nat → RetryAction;
  max_retries : option nat;
}.
Arguments mkStrategy {_} _ _.
Arguments error_handler {_} _.
Arguments max_retries {_} _.

Section strategies.
Context {E : Type}.

Definition new (error_handler : E → nat → RetryAction) : Strategy E := mkStrategy error_handler None.
Definition with_max_retries (s : Strategy E) (n : nat) : Strategy E := mkStrategy (error_handler s) (Some n).
Definition fixed_delay (delay : N) : Strategy E := new (λ _ _, Again delay).
Definition no_retry : Strategy E := new (λ _ _, Stop).
Definition or (s : Strategy E) (other_handler : E → nat → RetryAction) : Strategy E :=
  mkStrategy (λ error attempt,
    match error_handler s error attempt with
    | Stop => other_handler error attempt
    | retry_action => retry_action
    end) (max_retries s).

Section retry.
Context {S A : Type} (strategy : Strategy E) (generator : handler S E A).

(** Whether a failed attempt is followed by another one. *)
Definition retries (error : E) (attempt : nat) : bool :=
  match max_retries strategy with
  | Some max => if max <=? attempt then false
      else match error_handler strategy error attempt with Again _ => true | Stop => false end
  | None => match error_handler strategy error attempt with Again _ => true | Stop => false end
  end.

(** The loop of [retry] and [retry_with]; [None] when the fuel runs out. *)
Fixpoint retry_loop (fuel attempt : nat) (s : S) : option (comp (S * result E A)) :=
  match fuel with
  | 0 => None
  | Datatypes.S fuel =>
      match generator s with
      | Panic => Some Panic
      | Val (s, Ok a) => Some (Val (s, Ok a))
      | Val (s, Err error) =>
          if retries error attempt then retry_loop fuel (Datatypes.S attempt) s
          else Some (Val (s, Err error))
      end
  end.

(** With a maximum number of retries, that many attempts and one more are enough; without one the
    loop may not end, and takes the fuel given. *)
Definition retry_with (fuel : nat) (s : S) : option (comp (S * result E A)) :=
  retry_loop (match max_retries strategy with Some max => Datatypes.S max | None => fuel end) 0 s.

(** [k] attempts from [s] fail, each to be tried again, and lead to [s']. *)
Inductive failed_attempts : nat → nat → S → S → Prop :=
| no_attempt attempt s : failed_attempts attempt 0 s s
| one_attempt attempt k s s1 s2 error :
    generator s = Val (s1, Err error) → retries error attempt = true →
    failed_attempts (Datatypes.S attempt) k s1 s2 → failed_attempts attempt (Datatypes.S k) s s2.

Lemma retry_loop_spec max fuel attempt s :
  max_retries strategy = Some max → attempt ≤ max → max < attempt + fuel →
  ∃ k s', attempt + k ≤ max ∧ failed_attempts attempt k s s' ∧
    retry_loop fuel attempt s = Some (generator s') ∧
    (∀ s'' error, generator s' = Val (s'', Err error) → retries error (attempt + k) = false).
Proof.
  intros Hmax. revert attempt s. induction fuel as [|fuel IH]; intros attempt s Hle Hlt; [lia|].
  cbn [retry_loop]. destruct (generator s) as [[s1 [a|error]]|] eqn:Eg.
  - exists 0, s. rewrite Eg. split_and!; [lia|constructor|done|done].
  - destruct (retries error attempt) eqn:Er.
    + assert (attempt < max) as Hlt'.
      { unfold retries in Er. rewrite Hmax in Er. destruct (Nat.leb_spec max attempt); [done|lia]. }
      destruct (IH (Datatypes.S attempt) s1) as (k & s' & Hk & Hf & Hr & Hs); [lia..|].
      exists (Datatypes.S k), s'. split_and!; [lia|by econstructor|done|].
      intros s'' e He. replace (attempt + Datatypes.S k) with (Datatypes.S attempt + k) by lia. eauto.
    + exists 0, s. rewrite Eg. split_and!; [lia|constructor|done|].
      intros s'' e [= <- <-]. by rewrite Nat.add_0_r.
  - exists 0, s. rewrite Eg. split_and!; [lia|constructor|done|done].
Qed.

End retry.
End strategies.

(** A retried action with a maximum number of retries always ends, after at most one attempt
    more than that.  All attempts but the last failed with an error that was to be tried again,
    each starting from the state the one before left; the outcome is that of the last attempt,
    which succeeded, panicked, or failed for good. *)
Theorem retry_ends {E S A} (strategy : Strategy E) (generator : handler S E A) max fuel s :
  max_retries strategy = Some max →
  ∃ k s', k ≤ max ∧ failed_attempts strategy generator 0 k s s' ∧
    retry_with strategy generator fuel s = Some (generator s') ∧
    (∀ s'' error, generator s' = Val (s'', Err error) → retries strategy error k = false).
Proof.
  intros Hmax. unfold retry_with. rewrite Hmax.
  apply (retry_loop_spec strategy generator max (Datatypes.S max) 0 s Hmax); lia.
Qed.

(** Two failures out of three attempts. *)
Definition example_action : handler nat unit nat := λ s, Val (S s, if s <? 2 then Err tt else Ok s).

Lemma retry_ends_witness :
  ∃ k s', k ≤ 3 ∧ failed_attempts (with_max_retries (fixed_delay 1) 3) example_action 0 k 0 s' ∧
    retry_with (with_max_retries (fixed_delay 1) 3) example_action 0 0 = Some (example_action s').
Proof.
  destruct (retry_ends (with_max_retries (fixed_delay 1) 3) example_action 3 0 0 eq_refl)
    as (k & s' & Hk & Hf & Hr & _).
  exists k, s'. split_and!; assumption.
Defined.

End Retry.
