(* ===== verification/ProofHandler.v ===== *)
(** * Preparation of the bridge proof ([duty-tracker/src/executors/proof_handler.rs])

    To prove that it served a withdrawal, an operator reads the blocks from a given height on until
    it has seen the fulfillment and enough blocks on top of it.  On the way it takes the first
    checkpoint and the fulfillment, each with a proof of its inclusion and the number of its block.

    The chain is a function from heights to blocks: the loop asks the node again and again for a
    block that is not there yet.  As the loop may look for the fulfillment forever, it is given
    fuel; the theorem says how much is enough, and that the input prepared is one that the guest
    program of [BridgeProof] proves. *)

From S2P Require Import Prelude Bitcoin Winternitz TxTypes Deposit Predicates ContractTypes Checkpoint ContractManager BridgeProof.
Import Inclusion TxInfo Statement.

(** [block.header], as the encodings of the [bitcoin] crate have it. *)
Class BlockHeaderLib `{EncodingLib} := header_of : Block → Header.

(** [u32] subtraction. *)
Definition u32_sub `{BuildProfile} (a b : N) : comp N :=
  if (b <=? a)%N then Val (a - b)%N
  else if debug_assertions then Panic else Val (a + (U32_MAX + 1) - b)%N.

Section handler.
Context `{ChainstateLib} `{!BlockHeaderLib} `{InclusionLib, DescriptorLib, BitcoinLib, BuildProfile}.

Record ProofHeaderChain := mkProofHeaderChain {
  hc_headers : list Header;
  hc_fulfillment_tx : L1TxWithProofBundle * nat;
  hc_checkpoint_tx : L1TxWithProofBundle * nat;
}.

(** The variables of the loop. *)
Record Scan := mkScan {
  scan_blocks : list Block;
  scan_checkpoint : option (L1TxWithProofBundle * nat);
  scan_fulfillment : option (L1TxWithProofBundle * nat);
  num_blocks_after_fulfillment : nat;
}.

Section scan.
Variable rollup_params : RollupParams.
Variable withdrawal_fulfillment_txid : Txid.
Variable block_at : N → Block.
Variable start_height : N.

(** A transaction of a block with its proof, and the number of the block. *)
Definition bundle_at (block : Block) (idx : nat) : comp (L1TxWithProofBundle * nat) :=
  height ← expect (bip34_block_height block);
  bundle ← bundle_generate (txdata block) idx;
  number ← u32_sub (as_u32 height) start_height;
  Val (bundle, N.to_nat number).

(** The first transaction of a block that is a checkpoint. *)
Fixpoint find_checkpoint (idx : nat) (txs : list Transaction) : comp (option nat) :=
  match txs with
  | [] => Val None
  | tx :: txs =>
      checkpoint ← parse_strata_checkpoint tx rollup_params;
      match checkpoint with Some _ => Val (Some idx) | None => find_checkpoint (S idx) txs end
  end.

Fixpoint find_fulfillment (idx : nat) (txs : list Transaction) : option nat :=
  match txs with
  | [] => None
  | tx :: txs =>
      if bool_decide (compute_txid tx = withdrawal_fulfillment_txid) then Some idx
      else find_fulfillment (S idx) txs
  end.

(** [found.or_else(|| ..)]. *)
Definition or_search (found : option (L1TxWithProofBundle * nat)) (block : Block)
    (search : comp (option nat)) : comp (option (L1TxWithProofBundle * nat)) :=
  match found with
  | Some b => Val (Some b)
  | None =>
      idx ← search;
      match idx with Some idx => b ← bundle_at block idx; Val (Some b) | None => Val None end
  end.

Definition scan_block (block : Block) (s : Scan) : comp Scan :=
  checkpoint ← or_search (scan_checkpoint s) block (find_checkpoint 0 (txdata block));
  fulfillment ← or_search (scan_fulfillment s) block (Val (find_fulfillment 0 (txdata block)));
  Val (mkScan (scan_blocks s ++ [block]) checkpoint fulfillment
    (match fulfillment with
     | Some _ => S (num_blocks_after_fulfillment s)
     | None => num_blocks_after_fulfillment s
     end)).

(** [None] when the fuel runs out. *)
Fixpoint header_loop (fuel : nat) (height : N) (s : Scan) : option (comp Scan) :=
  match fuel with
  | 0 => None
  | S fuel =>
      match scan_block (block_at height) s, u32_add height 1 with
      | Val s, Val height =>
          if REQUIRED_NUM_OF_HEADERS_AFTER_WITHDRAWAL_FULFILLMENT_TX <? num_blocks_after_fulfillment s
          then Some (Val s) else header_loop fuel height s
      | _, _ => Some Panic
      end
  end.

Definition header_chain (s : Scan) : result ContractManagerErr ProofHeaderChain :=
  match scan_fulfillment s, scan_checkpoint s with
  | Some fulfillment, Some checkpoint =>
      Ok (mkProofHeaderChain (header_of <$> scan_blocks s) fulfillment checkpoint)
  | _, _ => Err FatalErr
  end.

End scan.

Definition prepare_header_chain (fuel : nat) (rollup_params : RollupParams) (withdrawal_fulfillment_txid : Txid)
    (block_at : N → Block) (start_height : N) : option (comp (result ContractManagerErr ProofHeaderChain)) :=
  let start_height := as_u32 start_height in
  match header_loop rollup_params withdrawal_fulfillment_txid block_at start_height fuel start_height
    (mkScan [] None None 0) with
  | None => None
  | Some s => Some (s ← s; Val (header_chain s))
  end.

(** What [prepare_proof_input] makes of the chain and the operator's signature. *)
Definition proof_input_of (ec : ExecutionConfig) (deposit_idx : N) (chain : ProofHeaderChain) (op_signature : list N)
    : BridgeProofInput :=
  mkBridgeProofInput (ec_sidesystem_params ec) (ec_pegout_graph_params ec) (hc_headers chain) deposit_idx
    (hc_checkpoint_tx chain) (hc_fulfillment_tx chain) op_signature.

(** ** Lemmas *)

Section chain.
Variable rp : RollupParams.
Variable txid : Txid.
Variable block_at : N → Block.
Variable start : N.
(** Block number [n] of the scan. *)
Definition nth_block (n : nat) : Block := block_at (start + N.of_nat n).
Definition chain_blocks (n : nat) : list Block := nth_block <$> seq 0 n.

(** The checkpoint is number [ci] of block [i] and no transaction before it is one; the
    fulfillment is number [fi] of block [j], and there is none before it. *)
Record scan_facts (i ci j fi : nat) : Prop := {
  heights : ∀ n, n ≤ j + 10 → bip34_block_height (nth_block n) = Some (start + N.of_nat n)%N;
  heights_fit : (start + N.of_nat (j + 11) <= U32_MAX)%N;
  no_checkpoint_before : ∀ n, n < i → find_checkpoint rp 0 (txdata (nth_block n)) = Val None;
  checkpoint_there : find_checkpoint rp 0 (txdata (nth_block i)) = Val (Some ci);
  no_fulfillment_before : ∀ n, n < j → find_fulfillment txid 0 (txdata (nth_block n)) = None;
  fulfillment_there : find_fulfillment txid 0 (txdata (nth_block j)) = Some fi;
}.

Section facts.
Variables (i ci j fi : nat) (cb fb : L1TxWithProofBundle).
Hypothesis facts : scan_facts i ci j fi.
Hypothesis checkpoint_bundle : bundle_generate (txdata (nth_block i)) ci = Val cb.
Hypothesis fulfillment_bundle : bundle_generate (txdata (nth_block j)) fi = Val fb.

(** The variables of the loop after [n] blocks. *)
Definition scan_at (n : nat) : Scan :=
  mkScan (chain_blocks n) (if i <? n then Some (cb, i) else None) (if j <? n then Some (fb, j) else None) (n - j).

Lemma bundle_at_nth n idx b :
  n ≤ j + 10 → bundle_generate (txdata (nth_block n)) idx = Val b →
  bundle_at start (nth_block n) idx = Val (b, n).
Proof.
  intros Hn Hb. pose proof (heights_fit _ _ _ _ facts) as Hfit. unfold bundle_at.
  rewrite (heights _ _ _ _ facts n Hn). cbn. rewrite Hb. cbn. unfold u32_sub, as_u32.
  rewrite N.mod_small by (unfold U32_MAX in Hfit; lia).
  rewrite (proj2 (N.leb_le _ _)) by lia. cbn. do 2 f_equal. lia.
Qed.

Lemma or_search_nth n k idx b search :
  n ≤ j + 10 → (n < k → search = Val None) →
  (n = k → search = Val (Some idx) ∧ bundle_generate (txdata (nth_block k)) idx = Val b) →
  or_search start (if k <? n then Some (b, k) else None) (nth_block n) search
  = Val (if k <? S n then Some (b, k) else None).
Proof.
  intros Hn Hlt Heq. unfold or_search.
  destruct (Nat.ltb_spec k n), (Nat.ltb_spec k (S n)); try lia; [done| |].
  - assert (n = k) as -> by lia. destruct (Heq eq_refl) as [-> Hb]. cbn. by rewrite (bundle_at_nth k idx b).
  - by rewrite Hlt by lia.
Qed.

Lemma scan_step n : n ≤ j + 10 → scan_block rp txid start (nth_block n) (scan_at n) = Val (scan_at (S n)).
Proof.
  intros Hn. unfold scan_block, scan_at at 1 2 3 4. cbn [scan_checkpoint scan_fulfillment scan_blocks num_blocks_after_fulfillment].
  rewrite (or_search_nth n i ci cb); [|done| |].
  2: { intros. by apply (no_checkpoint_before _ _ _ _ facts). }
  2: { intros ->. split; [apply facts|done]. }
  cbn [mbind comp_bind]. rewrite (or_search_nth n j fi fb); [|done| |].
  2: { intros. by rewrite (no_fulfillment_before _ _ _ _ facts). }
  2: { intros ->. split; [by rewrite (fulfillment_there _ _ _ _ facts)|done]. }
  cbn [mbind comp_bind]. unfold scan_at, chain_blocks. rewrite seq_S, fmap_app. cbn [fmap list_fmap Nat.add].
  do 2 f_equal. destruct (Nat.ltb_spec j (S n)); lia.
Qed.

Lemma header_loop_from fuel n :
  n ≤ j + 10 → j + 11 ≤ n + fuel →
  header_loop rp txid block_at start fuel (start + N.of_nat n) (scan_at n) = Some (Val (scan_at (j + 11))).
Proof.
  pose proof (heights_fit _ _ _ _ facts) as Hfit.
  revert n. induction fuel as [|fuel IH]; intros n Hn Hf; [lia|]. cbn [header_loop].
  fold (nth_block n). rewrite scan_step by done. unfold u32_add. rewrite (proj2 (N.leb_le _ _)) by lia.
  cbn [scan_at num_blocks_after_fulfillment]. fold (scan_at (S n)).
  destruct (Nat.ltb_spec REQUIRED_NUM_OF_HEADERS_AFTER_WITHDRAWAL_FULFILLMENT_TX (S n - j)) as [Hr|Hr];
    unfold REQUIRED_NUM_OF_HEADERS_AFTER_WITHDRAWAL_FULFILLMENT_TX in Hr.
  - by replace (S n) with (j + 11) by lia.
  - replace (start + N.of_nat n + 1)%N with (start + N.of_nat (S n))%N by lia. apply IH; lia.
Qed.

Lemma header_chain_ready fuel :
  i ≤ j + 10 → j + 11 ≤ fuel → start = as_u32 start →
  prepare_header_chain fuel rp txid block_at start =
  Some (Val (Ok (mkProofHeaderChain (header_of <$> chain_blocks (j + 11)) (fb, j) (cb, i)))).
Proof.
  intros Hi Hf Hs. unfold prepare_header_chain. rewrite <- Hs.
  pose proof (header_loop_from fuel 0 ltac:(lia) ltac:(lia)) as Hl. rewrite N.add_0_r in Hl.
  change (mkScan [] None None 0) with (scan_at 0). rewrite Hl. cbn [mbind comp_bind].
  unfold header_chain, scan_at. cbn [scan_fulfillment scan_checkpoint scan_blocks].
  rewrite (proj2 (Nat.ltb_lt j _)), (proj2 (Nat.ltb_lt i _)) by lia. done.
Qed.

End facts.
End chain.
End handler.

Lemma find_checkpoint_at `{CheckpointLib} rp txs n ci :
  find_checkpoint rp n txs = Val (Some ci) →
  ∃ tx c, n ≤ ci ∧ txs !! (ci - n) = Some tx ∧ parse_strata_checkpoint tx rp = Val (Some c).
Proof.
  revert n. induction txs as [|tx txs IH]; intros n; cbn [find_checkpoint]; [done|].
  intros (c & Hc & Hf)%comp_bind_Val. destruct c as [c|].
  - injection Hf as <-. exists tx, c. by rewrite Nat.sub_diag.
  - destruct (IH _ Hf) as (tx' & c & Hn & Ht & Hp). exists tx', c. split_and!; [lia| |done].
    by replace (ci - n) with (S (ci - S n)) by lia.
Qed.

Lemma find_fulfillment_at `{BitcoinLib} txid txs n fi :
  find_fulfillment txid n txs = Some fi → ∃ tx, n ≤ fi ∧ txs !! (fi - n) = Some tx ∧ compute_txid tx = txid.
Proof.
  revert n. induction txs as [|tx txs IH]; intros n; cbn [find_fulfillment]; [done|].
  case_bool_decide.
  - intros [= <-]. exists tx. by rewrite Nat.sub_diag.
  - intros (tx' & Hn & Ht & Hp)%IH. exists tx'. split_and!; [lia| |done].
    by replace (fi - n) with (S (fi - S n)) by lia.
Qed.

(** A checkpoint is in the witness of its transaction. *)
Lemma checkpoint_has_witness `{CheckpointLib} tx rp c :
  taproot_leaf_script [] = None →
  parse_strata_checkpoint tx rp = Val (Some c) → Exists (λ i, witness i ≠ []) (input tx).
Proof.
  intros Hnil. unfold parse_strata_checkpoint. destruct (derive_from rp); [|done].
  cbn [expect mbind comp_bind]. destruct (input tx) as [|i rest]; [done|]. cbn [lookup list_lookup expect mbind comp_bind].
  intros Hp. apply Exists_cons_hd. intros Hw. by rewrite Hw, Hnil in Hp.
Qed.

(** The header of a block commits to its transactions, and, if it has transactions with a
    witness, its coinbase commits to them as BIP 141 asks. *)
Definition block_committed `{EncodingLib, InclusionLib} (txid_root wtxid_root : list Transaction → Buf32)
    (header : Header) (txs : list Transaction) : Prop :=
  merkle_root header = txid_root txs ∧
  ∀ tx, tx ∈ txs → Exists (λ i, witness i ≠ []) (input tx) →
    ∃ coinbase inp reserved, txs !! 0 = Some coinbase ∧ is_coinbase coinbase = true ∧
      input coinbase = [inp] ∧ witness inp = [reserved] ∧ length reserved = 32 ∧
      witness_commitment_from_coinbase coinbase = Some (sha256d (to_be_bytes 32 (wtxid_root txs) ++ reserved)).

Lemma chain_blocks_lookup block_at start n k :
  k < n → chain_blocks block_at start n !! k = Some (nth_block block_at start k).
Proof. intros Hk. unfold chain_blocks. rewrite list_lookup_fmap, lookup_seq_lt by done. done. Qed.

(** ** Properties *)

(** C13: The handler of the proof ends and prepares an input that is proved.  If the first
    checkpoint at or after the start is in block [i] and the fulfillment in block [j], the loop
    ends once it has read ten blocks after that of the fulfillment, so [j + 11] units of fuel are
    enough.  If moreover the checkpoint carries a valid chain state, the headers continue the chain
    it has verified, the fulfillment serves the withdrawal it has dispatched, at or after the
    checkpoint, and the operator has signed it, then the guest program proves the input that was
    prepared, and commits to the two txids. *)
Theorem prepared_proof_accepted
    `{ChainstateLaws} `{!EncodingLaws} `{!BlockHeaderLib} `{InclusionLaws, DescriptorLib, BitcoinLib, BuildProfile}
    ec deposit_idx txid block_at start i ci j fi fuel cp_tx ff_tx cs info key vs sig :
  let rp := ec_sidesystem_params ec in
  let gp := ec_pegout_graph_params ec in
  let block := nth_block block_at start in
  let headers := header_of <$> chain_blocks block_at start (j + 11) in
  taproot_leaf_script [] = None → start = as_u32 start →
  scan_facts rp txid block_at start i ci j fi → i ≤ j → j + 11 ≤ fuel →
  txdata (block i) !! ci = Some cp_tx → txdata (block j) !! fi = Some ff_tx →
  block_committed txid_root wtxid_root (header_of (block i)) (txdata (block i)) →
  block_committed txid_root wtxid_root (header_of (block j)) (txdata (block j)) →
  extract_valid_chainstate_from_checkpoint cp_tx rp = Val (Ok cs) →
  verify_headers rp (header_vs cs) headers = Ok vs →
  (last_verified_height (header_vs cs) + N.of_nat (j + 11) <= U64_MAX)%N →
  extract_withdrawal_info (E := L1VerificationError) ff_tx (tag gp) = Val (Ok info) →
  serves cs gp info (last_verified_height (header_vs cs) + N.of_nat j + 1) →
  get_operator_wallet_pk cs (wi_operator_idx info) = Some key →
  verify_schnorr_sig sig (blockspace_compute_txid ff_tx) key = true →
  compute_txid ff_tx = txid ∧
  ∃ chain, prepare_header_chain fuel rp txid block_at start = Some (Val (Ok chain)) ∧
    execute (proof_input_of ec deposit_idx chain sig)
    = Some (mkBridgeProofPublicOutput (buf32_from_txid (wi_deposit_txid info)) (blockspace_compute_txid ff_tx)).
Proof.
  intros rp gp block headers Hnil Hstart Hfacts Hij Hfuel Hcp Hff [Hri Hwi] [Hrj Hwj] Hcs Hvs Hfit Hinfo
    Hserve Hkey Hsig.
  destruct (find_fulfillment_at _ _ _ _ (fulfillment_there _ _ _ _ _ _ _ _ Hfacts)) as (ff & _ & Hff' & Htxid).
  rewrite Nat.sub_0_r in Hff'. fold block in Hff'. rewrite Hff in Hff'. injection Hff' as <-. split; [done|].
  destruct (find_checkpoint_at _ _ _ _ (checkpoint_there _ _ _ _ _ _ _ _ Hfacts)) as (cp & c & _ & Hcp' & Hc).
  rewrite Nat.sub_0_r in Hcp'. fold block in Hcp'. rewrite Hcp in Hcp'. injection Hcp' as <-.
  apply checkpoint_has_witness in Hc; [|done].
  destruct (bundle_verifies _ _ _ _ Hcp Hri) as (cb & Hcb & Hcv & Hct & Hcw).
  { intros Hex. apply (Hwi cp_tx); [by eapply list_elem_of_lookup_2|done]. }
  destruct (bundle_verifies _ _ _ _ Hff Hrj) as (fb & Hfb & Hfv & Hft & _).
  { intros Hex. apply (Hwj ff_tx); [by eapply list_elem_of_lookup_2|done]. }
  eexists. split; [eapply header_chain_ready; eauto; lia|]. fold rp gp headers.
  assert (length headers = j + 11) as Hlen by (unfold headers, chain_blocks; by rewrite !length_fmap, length_seq).
  assert (∀ k, k < j + 11 → headers !! k = Some (header_of (block k))) as Hk.
  { intros k Hk. unfold headers. by rewrite list_lookup_fmap, chain_blocks_lookup by done. }
  apply execute_iff. cbn [proof_input_of bi_headers bi_rollup_params bi_pegout_graph_params hc_headers].
  fold rp gp headers. apply process_bridge_proof_iff.
  { cbn. rewrite Hct. intros cs' Hcs'. rewrite Hcs in Hcs'. injection Hcs' as <-. rewrite Hlen. lia. }
  exists cs, info, (last_verified_height (header_vs cs) + N.of_nat j + 1)%N, key. cbn.
  rewrite Hct, Hft. split_and!; eauto; try lia.
  - exists (header_of (block i)). split_and!; [apply Hk; lia|done|]. intros _. by apply Hcw.
  - exists (header_of (block j)). split_and!; [apply Hk; lia|done|done].
  - eapply block_height_at_eq; [done|lia].
Qed.

(** ** An example *)

Module HandlerExample.
Import ProofExample.
#[local] Existing Instances script inclusion encoding checkpoints chain_state encoding_laws chain_state_laws
  inclusion_laws profile example_descriptor.

#[local] Instance txids : BitcoinLib := {|
  compute_txid tx := match input tx with [] => 0%N | i :: _ => op_txid (previous_output i) end;
  block_hash b := header_rest b;
  bip34_block_height b := Some (header_rest b);
|}.
#[local] Instance block_headers : BlockHeaderLib := λ _, tt.

(** Every block has the coinbase, the checkpoint and the fulfillment of the example. *)
Definition chain_at (height : N) : Block := mkBlock 0 height ProofExample.block.
Definition config : ExecutionConfig :=
  mkExecutionConfig 1 ConnectorParams_default PegOutGraphParams_default StakeChainParams_default rollup
    (OperatorTable.mkOperatorTable 0 ∅ ∅ ∅) (mkStakeTxRetryConfig 1 1) [] [] false 1 1.

Lemma block_commits : block_committed txids_root wtxids_root (header_of (chain_at 101)) ProofExample.block.
Proof.
  split; [reflexivity|]. intros tx _ _. exists coinbase, (mkTxIn (mkOutPoint 0 U32_MAX) [] 0 [replicate 32 0%N]), (replicate 32 0%N).
  split_and!; [reflexivity..|vm_compute; reflexivity].
Qed.

Lemma prepared_proof_accepted_witness :
  compute_txid fulfillment = 77%N ∧
  ∃ chain, prepare_header_chain 11 rollup 77 chain_at 101 = Some (Val (Ok chain)) ∧
    execute (proof_input_of config 7 chain [5%N]) = Some (mkBridgeProofPublicOutput 99 0).
Proof.
  refine (prepared_proof_accepted (txid_root := txids_root) (wtxid_root := wtxids_root) config 7 77 chain_at 101
    0 1 0 2 11 checkpoint fulfillment 1%N (mkWithdrawalInfo BRIDGE_TAG 3 7 99 [0; 55]%N 990000000) 5%N 111%N [5%N]
    _ _ _ _ _ _ _ _ _ _ _ _ _ _ _ _).
  all: try first [reflexivity|lia|exact block_commits|vm_compute; reflexivity|vm_compute; discriminate].
  - split; [done|vm_compute; discriminate|lia|vm_compute; reflexivity|lia|vm_compute; reflexivity].
  - exists entry, (mkDispatchedState 3 [55%N] 101), 55%N. split_and!; try reflexivity. vm_compute; discriminate.
Defined.

End HandlerExample.
