(* ===== verification/Executors.v ===== *)
(** * The executors of the duties ([duty-tracker/src/executors], [execute_duty])

    What the manager does with a duty: the executor asks the secret service for keys, nonces and
    signatures, rebuilds and finalizes the transaction of the duty, and hands it to the transaction
    driver, or sends a message to the other operators.

    The executors are handlers over the parts they share: the wallet, the database, the messages
    sent, the transactions handed to the driver and the tasks spawned.  What the secret service,
    the driver, the wallet's backend and the Bitcoin node do when they are called is a parameter
    indexed by the number of calls made so far, so that the theorems hold for every behaviour. *)

From S2P Require Import Prelude Bitcoin OperatorTable PogMusig BtcNotify TxDriver Winternitz Wots TxTypes Taproot Deposit Connectors.
From S2P Require Import Script StakeChain ConnectorsAssert TxGraph PegOutGraph ContractTypes Checkpoint Database StakeChainSM.
From S2P Require Import ContractManager BridgeProof ProofHandler OperatorWallet SecretService Retry.
Import Inclusion TxInfo Statement.

(** ** What is called *)

(** [sha256::Hash::hash]. *)
Class Sha256Lib := sha256_hash : list N → Sha256Hash.

(** [Wots256PublicKey::from_flattened_bytes] and its counterpart for 128 bits. *)
Class P2PKeysLib := {
  wots256_from_flattened_bytes : list N → Wots256PublicKey;
  wots128_from_flattened_bytes : list N → WotsHashPublicKey;
}.

(** The prover and [bitvm]'s [generate_assertions]; [None] is an error. *)
Class ProverLib `{ChainstateLib, InclusionLib} := {
  Groth16Proof : Type;
  Scalars : Type;
  sp1_prove : BridgeProofInput → option (Groth16Proof * Scalars * BridgeProofPublicOutput);
  generate_assertions : Groth16Proof → Scalars
    → option (vec (list N) NUM_PUBS * vec (list N) NUM_U256 * vec (list N) NUM_HASH);
}.

(** What happens at each call to the outside. *)
Class ExecEnv `{BdkLib} := {
  s2_answers : nat → bool;
  drive_answer : nat → result DriveErr unit;
  sync_answer : nat → nat → SyncRun * SyncRun;
  blockchain_height : nat → option N;
  estimate_smart_fee : nat → option N;
  get_block_at : N → Block;
  gen_range : nat → fin NUM_HASH;
}.

(** [FeeRate] in satoshi per 1000 weight units. *)
Definition BROADCAST_MIN : N := 250.
Definition FEE_DUST : N := 750.
Definition from_sat_per_vb (rate : N) : option N :=
  if (rate * 250 <=? U64_MAX)%N then Some (rate * 250)%N else None.

(** [executors/constants.rs]. *)
Definition DEPOSIT_VOUT : N := 0.
Definition WITHDRAWAL_FULFILLMENT_PK_IDX : N := 0.

Inductive Task :=
| PublishDepositTask (deposit_tx : DepositTx) (partial_sigs : list PartialSignature) (aggnonce : AggNonce)
| FulfillerTask (duty : FulfillerDuty)
| RefillTask (pool_size : N).

Section executors.
Context `{BuildProfile, BitcoinLib, SighashLib, KeyAggLib, !Musig2Lib, TaprootLib, ConnectorLib, ScriptLib,
  DescriptorLib, AssertLib, NmulLib, ExtractLib, BdkLib, SecretService, Sha256Lib, P2PKeysLib, !ExecEnv}.
Context `{ChainstateLib} `{InclusionLib} `{!BlockHeaderLib, !ProverLib}.
Context {D : Type} `{StakesDb D}.
(** Enough for the scan of the blocks to end ([prepared_proof_accepted]). *)
Variable proof_fuel : nat.

Record OutputHandles := mkOutputHandles {
  oh_calls : nat;
  oh_wallet : OperatorWallet;
  oh_db : D;
  oh_sent : list UnsignedGossipsubMsg;
  oh_driven : list (Transaction * (TxStatus → bool));
  oh_spawned : list Task;
}.

Abbreviation X A := (handler OutputHandles ContractManagerErr A) (only parsing).

(** ** Calls *)

Definition called (w : OutputHandles) : OutputHandles :=
  mkOutputHandles (S (oh_calls w)) (oh_wallet w) (oh_db w) (oh_sent w) (oh_driven w) (oh_spawned w).
Definition with_wallet (wallet : OperatorWallet) (w : OutputHandles) : OutputHandles :=
  mkOutputHandles (oh_calls w) wallet (oh_db w) (oh_sent w) (oh_driven w) (oh_spawned w).
Definition with_db (db : D) (w : OutputHandles) : OutputHandles :=
  mkOutputHandles (oh_calls w) (oh_wallet w) db (oh_sent w) (oh_driven w) (oh_spawned w).

(** A request to the secret service, which may also fail because the service does. *)
Definition s2 {A} (answer : comp A) : X A := λ w,
  Val (called w, match answer with
    | Val a => if s2_answers (oh_calls w) then Ok a else Err SecretServiceErr
    | Panic => Err SecretServiceErr
    end).

(** [.expect(..)] of the answer. *)
Definition expect_answer {E A} (r : result E A) : X A := h_comp (expect_ok r).

Definition dispatch (msg : UnsignedGossipsubMsg) : X unit :=
  h_modify (λ w, mkOutputHandles (oh_calls w) (oh_wallet w) (oh_db w) (oh_sent w ++ [msg]) (oh_driven w) (oh_spawned w)).

Definition drive (tx : Transaction) (condition : TxStatus → bool) : X unit := λ w,
  Val (mkOutputHandles (S (oh_calls w)) (oh_wallet w) (oh_db w) (oh_sent w) (oh_driven w ++ [(tx, condition)])
         (oh_spawned w),
       match drive_answer (oh_calls w) with Ok _ => Ok tt | Err e => Err (TxDriverErr e) end).

Definition spawn (task : Task) : X unit :=
  h_modify (λ w, mkOutputHandles (oh_calls w) (oh_wallet w) (oh_db w) (oh_sent w) (oh_driven w) (oh_spawned w ++ [task])).

(** The result of a call as a value. *)
Definition attempt {A} (m : X A) : X (result ContractManagerErr A) := λ w,
  p ← m w; Val (p.1, Ok p.2).
Definition map_err {A} (f : ContractManagerErr → ContractManagerErr) (m : X A) : X A :=
  let! r := attempt m in h_result f r.

Definition db_call {A} (op : db_op D A) : X A := λ w,
  let '(db, r) := op (oh_db w) in
  Val (with_db db w, match r with Ok a => Ok a | Err e => Err (DbErr e) end).

Definition wallet_call {A} (f : OperatorWallet → comp (OperatorWallet * A)) : X A := λ w,
  p ← f (oh_wallet w); Val (with_wallet p.1 w, Ok p.2).

Definition wallet_sync : X (result SyncError unit) := λ w,
  let '(wallet, r) := sync (sync_answer (oh_calls w)) (oh_wallet w) in
  r ← r; Val (called (with_wallet wallet w), Ok r).

(** [join_all] and the collection of the results. *)
Fixpoint join_all {A} (ms : list (X A)) : X (list (result ContractManagerErr A)) :=
  match ms with
  | [] => h_ret []
  | m :: ms => let! r := attempt m in let! rs := join_all ms in h_ret (r :: rs)
  end.
Fixpoint collect {A} (rs : list (result ContractManagerErr A)) : X (list A) :=
  match rs with
  | [] => h_ret []
  | r :: rs => let! a := h_result id r in let! l := collect rs in h_ret (a :: l)
  end.

(** [witness.push(..)] on the witness of an input. *)
Definition push_witness (i : nat) (elem : list N) (tx : Transaction) : comp Transaction :=
  txin ← expect (input tx !! i);
  Val (mkTransaction (version tx) (lock_time tx)
    (<[i := mkTxIn (previous_output txin) (script_sig txin) (sequence txin) (witness txin ++ [elem])]> (input tx))
    (output tx)).

(** ** Messages ([p2p-service/src/message_handler.rs]) *)

Definition send_deposit_setup (index : N) (scope : Scope) (hash : Sha256Hash) (funding_outpoint : OutPoint)
    (operator_pk : XOnlyPublicKey) (wots_pks : P2PWotsPublicKeys) : X unit :=
  dispatch (DepositSetup scope index hash (op_txid funding_outpoint) (op_vout funding_outpoint) operator_pk wots_pks).
Definition send_stake_chain_exchange (stake_chain_id : StakeChainId) (operator_pk : XOnlyPublicKey)
    (pre_stake_txid : Txid) (pre_stake_vout : N) : X unit :=
  dispatch (StakeChainExchange stake_chain_id operator_pk pre_stake_txid pre_stake_vout).
Definition send_musig2_nonces (session_id : SessionId) (pub_nonces : list PubNonce) : X unit :=
  dispatch (Musig2NoncesExchange session_id pub_nonces).
Definition send_musig2_signatures (session_id : SessionId) (partial_sigs : list PartialSignature) : X unit :=
  dispatch (Musig2SignaturesExchange session_id partial_sigs).

(** ** One-time keys and signatures ([wots_handler.rs]) *)

Definition get_256_pk (deposit_txid : Txid) (index : N) : X Wots256PublicKey :=
  let! bytes := s2 (get_256_public_key deposit_txid DEPOSIT_VOUT index) in
  h_ret (wots256_from_flattened_bytes bytes).
Definition get_128_pk (deposit_txid : Txid) (index : N) : X WotsHashPublicKey :=
  let! bytes := s2 (get_128_public_key deposit_txid DEPOSIT_VOUT index) in
  h_ret (wots128_from_flattened_bytes bytes).

Definition get_withdrawal_fulfillment_wots_pk (deposit_txid : Txid) : X Wots256PublicKey :=
  get_256_pk deposit_txid WITHDRAWAL_FULFILLMENT_PK_IDX.

Definition get_wots_pks (deposit_txid : Txid) : X P2PWotsPublicKeys :=
  let! withdrawal_fulfillment_pk := get_withdrawal_fulfillment_wots_pk deposit_txid in
  let! public_inputs := join_all
    ((λ i, get_256_pk deposit_txid (WITHDRAWAL_FULFILLMENT_PK_IDX + N.of_nat i)) <$> seq 0 NUM_PUBS) in
  let! fqs := join_all
    ((λ i, get_256_pk deposit_txid (WITHDRAWAL_FULFILLMENT_PK_IDX + N.of_nat (NUM_PUBS + i))) <$> seq 0 NUM_U256) in
  let! hashes := join_all ((λ i, get_128_pk deposit_txid (N.of_nat i)) <$> seq 0 NUM_HASH) in
  let! public_inputs := collect public_inputs in
  let! fqs := collect fqs in
  let! hashes := collect hashes in
  h_ret (mkP2PWotsPublicKeys withdrawal_fulfillment_pk (mkP2PGroth16PublicKeys public_inputs fqs hashes)).

(** The length is checked, and the array made of the vector. *)
Definition sized {A} (n : nat) (sigs : list A) : X (vec A n) :=
  if decide (length sigs ≠ n) then h_throw FatalErr else h_comp (array_of n sigs).

Definition sign_assertions (deposit_txid : Txid) (assertions : Assertions) : X Signatures :=
  let! withdrawal_fulfillment_sig := s2 (Val (get_256_signature deposit_txid DEPOSIT_VOUT WITHDRAWAL_FULFILLMENT_PK_IDX
    (assert_withdrawal_fulfillment assertions))) in
  let! public_params_sigs := join_all (imap (λ i public_param,
    s2 (Val (get_256_signature deposit_txid DEPOSIT_VOUT (WITHDRAWAL_FULFILLMENT_PK_IDX + N.of_nat i) public_param)))
    (vec_to_list (assert_public_inputs assertions))) in
  let! field_elems_sigs := join_all (imap (λ i field_elem,
    s2 (Val (get_256_signature deposit_txid DEPOSIT_VOUT
      (WITHDRAWAL_FULFILLMENT_PK_IDX + N.of_nat NUM_PUBS + N.of_nat i) field_elem)))
    (vec_to_list (assert_field_elems assertions))) in
  let! hash_sigs := join_all (imap (λ i hash,
    s2 (Val (get_128_signature deposit_txid DEPOSIT_VOUT (N.of_nat i) hash)))
    (vec_to_list (assert_hashes assertions))) in
  let! public_params_sigs := collect public_params_sigs in
  let! public_params_sigs := sized NUM_PUBS public_params_sigs in
  let! field_elems_sigs := collect field_elems_sigs in
  let! field_elems_sigs := sized NUM_U256 field_elems_sigs in
  let! hash_sigs := collect hash_sigs in
  let! hash_sigs := sized NUM_HASH hash_sigs in
  h_ret (mkSignatures withdrawal_fulfillment_sig (mkGroth16Sigs public_params_sigs field_elems_sigs hash_sigs)).

(** ** Setup and presigning ([deposit.rs]) *)

(** [cfg.operator_table.btc_keys()], x-only. *)
Definition musig_pubkeys (ec : ExecutionConfig) : list XOnlyPublicKey :=
  x_only_public_key <$> btc_keys (ec_operator_table ec).

Definition handle_publish_stake_chain_exchange (ec : ExecutionConfig) : X unit :=
  let! general_key := s2 (Val general_pubkey) in
  let! pre_stake := attempt (db_call (get_pre_stake (pov_idx (ec_operator_table ec)))) in
  let! pre_stake := expect_answer pre_stake in
  match pre_stake with
  | Some pre_stake => send_stake_chain_exchange 0 general_key (op_txid pre_stake) (op_vout pre_stake)
  | None => h_throw (TransitionError PreStakeMissing)
  end.

(** Signs and publishes the transaction that refills the pool of funding outputs. *)
Definition finalize_claim_funding_tx (psbt : Psbt) : X unit :=
  let! wallet := h_get (λ w, general_wallet (oh_wallet w)) in
  let tx := unsigned_tx psbt in
  let! txins_as_outs := h_comp (mapM (λ txin,
    utxo ← expect (get_utxo wallet (previous_output txin)); Val (lo_txout utxo)) (input tx)) in
  let! tx := h_fold (λ tx input_index,
    let! sighash := h_comp (expect
      (taproot_key_spend_signature_hash tx input_index txins_as_outs SighashDefault)) in
    let! signature := s2 (Val (general_sign sighash None)) in
    h_comp (push_witness input_index (serialize_taproot (mkTaprootSignature signature SighashDefault)) tx))
    tx (seq 0 (length txins_as_outs)) in
  map_err (λ _, FatalErr) (drive tx (Predicate.eq Mempool)).

(** [refill_claim_funding_utxos(..)?] and what follows. *)
Definition refill_pool (pool_size : N) : X unit :=
  let! psbt := wallet_call (refill_claim_funding_utxos BROADCAST_MIN pool_size) in
  let! psbt := h_result (λ _, CreateTxErr) psbt in
  finalize_claim_funding_tx psbt.

Definition acquire_funding_utxo (ec : ExecutionConfig) : X (OutPoint * N) :=
  let! _ := wallet_sync in
  let! funding := wallet_call (λ w, let '(r, w) := claim_funding_utxo Predicate.never w in Val (w, r)) in
  match funding.1 with
  | Some outpoint => h_ret (outpoint, funding.2)
  | None =>
      let! _ := refill_pool (stake_funding_pool_size ec) in
      let! synced := wallet_sync in
      let! _ := h_result (λ _, FatalErr) synced in
      let! funding := wallet_call (λ w, let '(r, w) := claim_funding_utxo Predicate.never w in Val (w, r)) in
      let! outpoint := h_comp (expect funding.1) in
      h_ret (outpoint, funding.2)
  end.

Definition handle_publish_deposit_setup (ec : ExecutionConfig) (deposit_txid : Txid) (deposit_idx : N)
    (stake_chain_inputs : StakeChainInputs) : X unit :=
  let pov := pov_idx (ec_operator_table ec) in
  let scope := deposit_txid in
  let! operator_pk := s2 (Val general_pubkey) in
  let! wots_pks := get_wots_pks deposit_txid in
  let! stored := attempt (db_call (get_stake_data pov deposit_idx)) in
  match stored with
  | Ok (Some stake_data) =>
      send_deposit_setup deposit_idx scope (stk_hash stake_data) (operator_funds stake_data) operator_pk wots_pks
  | _ =>
      let pre_stake := pre_stake_outpoint stake_chain_inputs in
      let! stakechain_preimg := s2 (Val (get_preimg (op_txid pre_stake) (op_vout pre_stake) deposit_idx)) in
      let stakechain_preimg_hash := sha256_hash stakechain_preimg in
      let! funding := acquire_funding_utxo ec in
      let '(funding_utxo, remaining) := funding in
      let! _ := (if (remaining <=? stake_funding_pool_size ec / 2)%N
        then spawn (RefillTask (stake_funding_pool_size ec)) else h_ret tt) in
      let stake_data := mkStakeTxData funding_utxo stakechain_preimg_hash
        (p2p_withdrawal_fulfillment wots_pks) operator_pk in
      let! _ := db_call (add_stake_data pov deposit_idx stake_data) in
      send_deposit_setup deposit_idx scope stakechain_preimg_hash funding_utxo operator_pk wots_pks
  end.

(** A request for every input of the graph, awaited together. *)
Definition join_graph {A B} (ask : A → X B) (g : PogMusigF A) : X (PogMusigF B) :=
  let! results := join_all (ask <$> Pog.pack g) in
  let! results := h_comp (expect (Pog.unpack results)) in
  h_result id (Pog.sequence_result results).

Definition handle_publish_graph_nonces (pubkeys : list XOnlyPublicKey) (claim_txid : Txid)
    (pog_outpoints : PogMusigF OutPoint) (pog_witnesses : PogMusigF TaprootWitness)
    (pre_generated_nonces : option (PogMusigF PubNonce)) : X unit :=
  let! nonces := match pre_generated_nonces with
    | Some existing_nonces => h_ret existing_nonces
    | None => join_graph (λ '(outpoint, witness),
        let! r := s2 (get_musig2_pub_nonce (mkMusig2Params pubkeys witness outpoint)) in
        expect_answer r) (Pog.zip pog_outpoints pog_witnesses)
    end in
  send_musig2_nonces claim_txid (Pog.pack nonces).

Record GenPartialsInput := mkGenPartialsInput {
  gp_aggnonce : AggNonce;
  gp_outpoint : OutPoint;
  gp_sighash : Message;
  gp_witness : TaprootWitness;
}.

Definition handle_publish_graph_sigs (pubkeys : list XOnlyPublicKey) (claim_txid : Txid)
    (input_data : PogMusigF GenPartialsInput) (pre_generated_partial_signatures : option (PogMusigF PartialSignature))
    : X unit :=
  let! partial_sigs := match pre_generated_partial_signatures with
    | Some existing_partials => h_ret existing_partials
    | None => join_graph (λ data,
        let! r := s2 (get_our_partial_sig (mkMusig2Params pubkeys (gp_witness data) (gp_outpoint data))
          (gp_aggnonce data) (gp_sighash data)) in
        expect_answer r) input_data
    end in
  send_musig2_signatures claim_txid (Pog.pack partial_sigs).

Definition handle_publish_root_nonce (pubkeys : list XOnlyPublicKey) (prevout : OutPoint) (witness : TaprootWitness)
    (pre_generated_nonce : option PubNonce) : X unit :=
  let! nonce := match pre_generated_nonce with
    | Some existing_nonce => h_ret existing_nonce
    | None =>
        let! r := s2 (get_musig2_pub_nonce (mkMusig2Params pubkeys witness prevout)) in
        expect_answer r
    end in
  send_musig2_nonces (op_txid prevout) [nonce].

Definition handle_publish_root_signature (pubkeys : list XOnlyPublicKey) (aggnonce : AggNonce) (prevout : OutPoint)
    (sighash : Message) (witness : TaprootWitness) (pre_generated_partial_signature : option PartialSignature)
    : X unit :=
  let! partial_sig := match pre_generated_partial_signature with
    | Some existing_sig => h_ret existing_sig
    | None =>
        let! r := s2 (get_our_partial_sig (mkMusig2Params pubkeys witness prevout) aggnonce sighash) in
        expect_answer r
    end in
  send_musig2_signatures (op_txid prevout) [partial_sig].

(** The driver's answer is expected to be good. *)
Definition handle_publish_deposit (pubkeys : list PublicKey) (deposit_tx : DepositTx)
    (partials : list PartialSignature) (aggnonce : AggNonce) : X unit :=
  let witness := Vector.hd (witnesses deposit_tx) in
  let! ctx := h_comp (expect_ok (create_agg_ctx pubkeys witness)) in
  let! hashes := h_comp (sighashes deposit_tx) in
  let! aggregate_sig := h_comp (expect (aggregate_partial_signatures ctx aggnonce partials (Vector.hd hashes))) in
  let! types := h_comp (sighash_types deposit_tx) in
  let taproot_sig := mkTaprootSignature aggregate_sig (Vector.hd types) in
  let! tx := h_comp (push_witness 0 (serialize_taproot taproot_sig) (unsigned_tx (psbt deposit_tx))) in
  let! tx := match witness with
    | Script script_buf control_block =>
        h_comp (tx ← push_witness 0 script_buf tx; push_witness 0 (serialize_control_block control_block) tx)
    | _ => h_ret tx
    end in
  let! r := attempt (drive tx is_buried) in
  expect_answer r.

(** ** The optimistic case ([optimistic_withdrawal.rs]) *)

Definition stake_tx_strategy (retry_config : StakeTxRetryConfig) : Retry.Strategy ContractManagerErr :=
  Retry.with_max_retries
    (Retry.new (λ error _,
      match error with
      | TxDriverErr PublishFailed => Retry.Again (retry_delay retry_config)
      | _ => Retry.Stop
      end))
    (N.to_nat (max_retries retry_config)).

(** With a maximum number of retries the loop needs no fuel. *)
Definition try_publish_stake_tx (retry_config : StakeTxRetryConfig) (signed_stake_tx : Transaction) : X unit := λ w,
  default Panic (Retry.retry_with (stake_tx_strategy retry_config) (drive signed_stake_tx is_buried) 0 w).

Definition handle_publish_first_stake (ec : ExecutionConfig) (stake_tx : StakeTx) : X unit :=
  let! messages := h_comp (Head_sighashes stake_tx (stake_amount (ec_stake_chain_params ec))
    [# funding_address ec; pre_stake_pubkey ec]) in
  let! funds_signature := s2 (Val (stakechain_sign (Vector.hd messages) None)) in
  let! stake_signature := s2 (Val (stakechain_sign (Vector.hd (Vector.tl messages)) None)) in
  let! signed_stake_tx := h_comp (Head_finalize_unchecked stake_tx funds_signature stake_signature) in
  try_publish_stake_tx (stake_tx_retry_config ec) signed_stake_tx.

(** The pre-stake of this operator, from the database. *)
Definition own_pre_stake (ec : ExecutionConfig) : X OutPoint :=
  let! pre_stake := db_call (get_pre_stake (pov_idx (ec_operator_table ec))) in
  let! key := h_comp (pov_p2p_key (ec_operator_table ec)) in
  h_result StakeChainError (ok_or pre_stake (StakeSetupDataNotFound key)).

Definition agg_pubkey (ec : ExecutionConfig) : X XOnlyPublicKey :=
  let! context := h_comp (tx_build_context (ec_operator_table ec) (ec_network ec)) in
  h_ret (tbc_aggregated_pubkey context).

Definition handle_advance_stake_chain (ec : ExecutionConfig) (stake_index : N) (stake_tx : StakeTx) : X unit :=
  let! messages := h_comp (Tail_sighashes stake_tx (funding_address ec)) in
  let! funds_signature := s2 (Val (stakechain_sign (Vector.hd messages) None)) in
  let! stake_signature := s2 (Val (general_sign_no_tweak (Vector.hd (Vector.tl messages)))) in
  let! pre_stake := own_pre_stake ec in
  let! prev_index := h_comp (u32_sub stake_index 1) in
  let! prev_preimage := s2 (Val (get_preimg (op_txid pre_stake) (op_vout pre_stake) prev_index)) in
  let prev_stake_hash := sha256_hash prev_preimage in
  let! n_of_n_agg_pubkey := agg_pubkey ec in
  let! operator_pubkey := s2 (Val general_pubkey) in
  let prev_connector_s := mkConnectorStake n_of_n_agg_pubkey operator_pubkey prev_stake_hash
    (delta (ec_stake_chain_params ec)) (ec_network ec) in
  let! signed_stake_tx := h_comp (Tail_finalize_unchecked stake_tx prev_preimage funds_signature stake_signature
    prev_connector_s) in
  try_publish_stake_tx (stake_tx_retry_config ec) signed_stake_tx.

(** Signs every input of the fulfillment with the key of the general wallet. *)
Definition sign_fulfillment (wft_psbt : Psbt) : X Transaction :=
  let prevouts := omap witness_utxo (psbt_inputs wft_psbt) in
  h_fold (λ signed_wft input_index,
    let! msg := h_comp (expect (create_message_hash (unsigned_tx wft_psbt) prevouts Key SighashDefault input_index)) in
    let! signature := s2 (Val (general_sign msg None)) in
    h_comp (push_witness input_index (serialize_schnorr signature) signed_wft))
    (unsigned_tx wft_psbt) (seq 0 (length (psbt_inputs wft_psbt))).

Definition node_call {A} (f : nat → A) : X A := λ w, Val (called w, Ok (f (oh_calls w))).

Definition fulfill_withdrawal (ec : ExecutionConfig) (withdrawal_metadata : WithdrawalMetadata)
    (user_descriptor : Descriptor) (deadline : BitcoinBlockHeight) : X unit :=
  let! height := node_call blockchain_height in
  let! cur_height := h_result (λ _ : unit, BitcoinCoreRPCErr) (ok_or height tt) in
  if (deadline - min_withdrawal_fulfillment_window ec <=? cur_height)%N then h_ret tt
  else
    let amount := (deposit_amount (ec_pegout_graph_params ec) - operator_fee (ec_pegout_graph_params ec))%N in
    let! rate := node_call estimate_smart_fee in
    let! rate := h_comp (expect rate) in
    let rate := default FEE_DUST (from_sat_per_vb rate) in
    let! _ := wallet_sync in
    let! fronted := wallet_call (front_withdrawal rate (to_script user_descriptor) amount
      (wm_op_return_data withdrawal_metadata)) in
    match fronted with
    | Err _ => h_ret tt
    | Ok wft_psbt =>
        let! signed_wft := sign_fulfillment wft_psbt in
        drive signed_wft is_buried
    end.

Definition handle_withdrawal_fulfillment (ec : ExecutionConfig) (stake_tx : StakeTxKind)
    (withdrawal_metadata : WithdrawalMetadata) (user_descriptor : Descriptor) (deadline : BitcoinBlockHeight) : X unit :=
  let! _ := match stake_tx with
    | StakeHead stake_tx => handle_publish_first_stake ec stake_tx
    | StakeTail stake_tx => handle_advance_stake_chain ec (wm_deposit_idx withdrawal_metadata) stake_tx
    end in
  if bool_decide (wm_operator_idx withdrawal_metadata = pov_idx (ec_operator_table ec))
  then fulfill_withdrawal ec withdrawal_metadata user_descriptor deadline
  else h_ret tt.

Definition handle_publish_claim (ec : ExecutionConfig) (stake_txid deposit_txid withdrawal_fulfillment_txid : Txid) : X unit :=
  let! withdrawal_fulfillment_pk := get_withdrawal_fulfillment_wots_pk deposit_txid in
  let network := ec_network ec in
  let! n_of_n_agg_pubkey := agg_pubkey ec in
  let! cpfp_key := s2 (Val general_pubkey) in
  let! claim_tx := h_comp (ClaimTx_new (mkOutPoint stake_txid WITHDRAWAL_FULFILLMENT_VOUT)
    (mkConnectorK network withdrawal_fulfillment_pk)
    (mkConnectorC0 n_of_n_agg_pubkey network (pre_assert_timelock (ec_connector_params ec)))
    (mkConnectorC1 n_of_n_agg_pubkey network (payout_optimistic_timelock (ec_connector_params ec)))
    (mkConnectorNOfN n_of_n_agg_pubkey network) (mkConnectorCpfp cpfp_key network)) in
  let! wots_signature := s2 (Val (get_256_signature deposit_txid DEPOSIT_VOUT WITHDRAWAL_FULFILLMENT_PK_IDX
    (serialize_txid withdrawal_fulfillment_txid))) in
  let! signed_claim_tx := h_comp (ClaimTx_finalize claim_tx wots_signature) in
  drive signed_claim_tx is_buried.

Definition handle_publish_payout_optimistic (ec : ExecutionConfig) (deposit_txid claim_txid stake_txid : Txid)
    (stake_index : N) (agg_sigs : vec TaprootSignature NUM_PAYOUT_OPTIMISTIC_INPUTS) : X unit :=
  let! operator_key := s2 (Val general_pubkey) in
  let network := ec_network ec in
  let payout_optimistic_data := mkPayoutOptimisticData claim_txid deposit_txid (mkOutPoint stake_txid PAYOUT_VOUT)
    (deposit_amount (ec_pegout_graph_params ec)) operator_key network in
  let! n_of_n_agg_pubkey := agg_pubkey ec in
  let! prestake := own_pre_stake ec in
  let! preimage := s2 (Val (get_preimg (op_txid prestake) (op_vout prestake) stake_index)) in
  let stake_hash := sha256_hash preimage in
  let! payout_optimistic_tx := h_comp (PayoutOptimisticTx_new payout_optimistic_data
    (mkConnectorC0 n_of_n_agg_pubkey network (pre_assert_timelock (ec_connector_params ec)))
    (mkConnectorC1 n_of_n_agg_pubkey network (payout_optimistic_timelock (ec_connector_params ec)))
    (mkConnectorNOfN n_of_n_agg_pubkey network) (mkConnectorP n_of_n_agg_pubkey stake_hash network)
    (mkConnectorCpfp operator_key network)) in
  let! signed_payout_optimistic_tx := h_comp (PayoutOptimisticTx_finalize payout_optimistic_tx
    (vmap signature agg_sigs)) in
  drive signed_payout_optimistic_tx is_buried.

(** ** The contested case ([contested_withdrawal.rs]) *)

(** [aggregated_btc_key().x_only_public_key().0]. *)
Definition agg_btc_key (ec : ExecutionConfig) : X XOnlyPublicKey :=
  let! key := h_comp (aggregated_btc_key (ec_operator_table ec)) in
  h_ret (x_only_public_key key).

(** The keys of the connectors: the public input and the field elements, and the hashes. *)
Definition create_assert_data_connectors (network : Network) (wots_pks : P2PWotsPublicKeys)
    : comp (ConnectorA256Factory * ConnectorAHashFactory) :=
  let keys := p2p_groth16 wots_pks in
  public_keys_256 ← mapM (λ i,
    match i with
    | 0 => expect (p2p_public_inputs keys !! 0)
    | S i => expect (p2p_fqs keys !! i)
    end) (seq 0 NUM_PKS_A256);
  if decide (length (p2p_hashes keys) = NUM_PKS_A_HASH)
  then Val (mkConnectorA256Factory network public_keys_256, mkConnectorAHashFactory network (p2p_hashes keys))
  else Panic.

Definition handle_publish_pre_assert (ec : ExecutionConfig) (deposit_txid claim_txid : Txid)
    (agg_sig : TaprootSignature) : X unit :=
  let! n_of_n_agg_key := agg_btc_key ec in
  let network := ec_network ec in
  let! operator_key := s2 (Val general_pubkey) in
  let! wots_pks := get_wots_pks deposit_txid in
  let! factories := h_comp (create_assert_data_connectors network wots_pks) in
  let! pre_assert_tx := h_comp (PreAssertTx_new claim_txid
    (mkConnectorC0 n_of_n_agg_key network (pre_assert_timelock (ec_connector_params ec)))
    (mkConnectorCpfp operator_key network) factories.1 factories.2) in
  let! signed_pre_assert_tx := h_comp (PreAssertTx_finalize pre_assert_tx (signature agg_sig)) in
  drive signed_pre_assert_tx is_buried.

(** [proof_handler.rs]. *)
Definition prepare_proof_input (ec : ExecutionConfig) (deposit_idx : N) (withdrawal_fulfillment_txid : Txid)
    (start_height : BitcoinBlockHeight) : X BridgeProofInput :=
  let! chain := h_comp (default Panic (prepare_header_chain proof_fuel (ec_sidesystem_params ec)
    withdrawal_fulfillment_txid get_block_at start_height)) in
  let! chain := h_result id chain in
  let! op_signature := s2 (Val (musig2_sign_no_tweak withdrawal_fulfillment_txid)) in
  h_ret (proof_input_of ec deposit_idx chain (serialize_schnorr op_signature)).

(** [gen_range] picks hashes until one is not zero, which is then overwritten. *)
Fixpoint tweak_hashes (attempts : nat) (hashes : vec (list N) NUM_HASH) : X (vec (list N) NUM_HASH) :=
  match attempts with
  | 0 => h_ret hashes
  | S attempts =>
      let! i := node_call gen_range in
      if bool_decide (hashes !!! i = replicate HASH_LEN 0%N) then tweak_hashes attempts hashes
      else h_ret (vinsert i (replicate HASH_LEN 0%N) hashes)
  end.

Definition handle_publish_assert_data (ec : ExecutionConfig) (deposit_idx : N) (deposit_txid : Txid)
    (pre_assert_txid : Txid) (pre_assert_locking_scripts : vec ScriptBuf NUM_ASSERT_DATA_TX)
    (withdrawal_fulfillment_txid : Txid) (start_height : BitcoinBlockHeight) : X unit :=
  let! input := prepare_proof_input ec deposit_idx withdrawal_fulfillment_txid start_height in
  let! proved := h_result (λ _ : unit, TransitionError ProofNotGenerated) (ok_or (sp1_prove input) tt) in
  let '(proof, scalars, public_params) := proved in
  let! groth16_assertions := h_result (λ _ : unit, TransitionError AssertionsNotGenerated)
    (ok_or (generate_assertions proof scalars) tt) in
  let '(public_inputs, field_elems, hashes) := groth16_assertions in
  let! hashes := (if is_faulty ec then tweak_hashes NUM_HASH hashes else h_ret hashes) in
  let assertions := mkAssertions (to_be_bytes 32 (out_withdrawal_fulfillment_txid public_params))
    public_inputs field_elems hashes in
  let! agg_pubkey := agg_btc_key ec in
  let! general_key := s2 (Val general_pubkey) in
  let! assert_data_tx_batch := h_comp (AssertDataTxBatch_new pre_assert_txid (vec_to_list pre_assert_locking_scripts)
    (mkConnectorNOfN agg_pubkey (ec_network ec)) (mkConnectorCpfp general_key (ec_network ec))) in
  let! wots_signatures := sign_assertions deposit_txid assertions in
  let! wots_pks := get_wots_pks deposit_txid in
  let! factories := h_comp (create_assert_data_connectors (ec_network ec) wots_pks) in
  let! signed_assert_data_txs := h_comp (AssertDataTxBatch_finalize assert_data_tx_batch factories.2 factories.1
    wots_signatures) in
  let! results := join_all ((λ tx, drive tx (Predicate.or is_mined is_buried)) <$> signed_assert_data_txs) in
  let! _ := collect results in
  h_ret tt.

(** [wots_pks.try_into().expect(..)]. *)
Definition connector_a3_of (ec : ExecutionConfig) (deposit_txid : Txid) (agg_key : XOnlyPublicKey)
    (wots_pks : P2PWotsPublicKeys) : comp ConnectorA3 :=
  keys ← PublicKeys_try_from wots_pks;
  match keys with
  | inl _ => Panic
  | inr keys => A3_new (ec_network ec) deposit_txid agg_key keys (payout_timelock (ec_connector_params ec))
  end.

Definition handle_publish_post_assert (ec : ExecutionConfig) (deposit_txid : Txid)
    (assert_data_txids : vec Txid NUM_ASSERT_DATA_TX) (agg_sigs : vec TaprootSignature NUM_POST_ASSERT_INPUTS) : X unit :=
  let! agg_key := agg_btc_key ec in
  let! general_key := s2 (Val general_pubkey) in
  let! wots_pks := get_wots_pks deposit_txid in
  let! connector_a3 := h_comp (connector_a3_of ec deposit_txid agg_key wots_pks) in
  let! post_assert_tx := h_comp (PostAssertTx_new (vec_to_list assert_data_txids)
    (mkConnectorNOfN agg_key (ec_network ec)) connector_a3 (mkConnectorCpfp general_key (ec_network ec))) in
  let! signed_post_assert_tx := h_comp (PostAssertTx_finalize post_assert_tx
    (vec_to_list (vmap signature agg_sigs))) in
  drive signed_post_assert_tx is_buried.

Definition handle_publish_payout (ec : ExecutionConfig) (deposit_idx : N)
    (deposit_txid stake_txid claim_txid post_assert_txid : Txid) (agg_sigs : vec TaprootSignature NUM_PAYOUT_INPUTS) : X unit :=
  let! reimbursement_key := s2 (Val general_pubkey) in
  let payout_data := mkPayoutData post_assert_txid deposit_txid (mkOutPoint claim_txid CLAIM_PAYOUT_VOUT)
    (mkOutPoint stake_txid PAYOUT_VOUT) (deposit_amount (ec_pegout_graph_params ec)) reimbursement_key (ec_network ec) in
  let! agg_key := agg_btc_key ec in
  let! wots_pks := get_wots_pks deposit_txid in
  let! connector_a3 := h_comp (connector_a3_of ec deposit_txid agg_key wots_pks) in
  let! stake_data := db_call (get_stake_data (pov_idx (ec_operator_table ec)) deposit_idx) in
  let! key := h_comp (pov_p2p_key (ec_operator_table ec)) in
  let! stake_data := h_result StakeChainError (ok_or stake_data (StakeSetupDataNotFound key)) in
  let! payout_tx := h_comp (PayoutTx_new payout_data connector_a3 (mkConnectorNOfN agg_key (ec_network ec))
    (mkConnectorP agg_key (stk_hash stake_data) (ec_network ec)) (mkConnectorCpfp reimbursement_key (ec_network ec))) in
  let! signed_payout_tx := h_comp (PayoutTx_finalize payout_tx connector_a3 (vmap signature agg_sigs)) in
  drive signed_payout_tx is_buried.

(** ** Duties ([contract_manager.rs]) *)

Definition execute_duty (ec : ExecutionConfig) (duty : OperatorDuty) : X unit :=
  match duty with
  | PublishStakeChainExchange => handle_publish_stake_chain_exchange ec
  | PublishDepositSetup deposit_txid deposit_idx stake_chain_inputs =>
      handle_publish_deposit_setup ec deposit_txid deposit_idx stake_chain_inputs
  | PublishRootNonce deposit_request_txid witness nonce =>
      handle_publish_root_nonce (musig_pubkeys ec) (mkOutPoint deposit_request_txid 0) witness nonce
  | PublishGraphNonces claim_txid pog_inputs pog_witnesses nonces =>
      handle_publish_graph_nonces (musig_pubkeys ec) claim_txid pog_inputs pog_witnesses nonces
  | PublishGraphSignatures claim_txid aggnonces pog_outpoints pog_sighashes witnesses partial_signatures =>
      let input := Pog.map (λ '(((aggnonce, pog_outpoint), pog_sighash), witness),
          mkGenPartialsInput aggnonce pog_outpoint pog_sighash witness)
        (Pog.zip (Pog.zip (Pog.zip aggnonces pog_outpoints) pog_sighashes) witnesses) in
      handle_publish_graph_sigs (musig_pubkeys ec) claim_txid input partial_signatures
  | PublishRootSignature deposit_request_txid aggnonce sighash witness partial_signature =>
      handle_publish_root_signature (musig_pubkeys ec) aggnonce (mkOutPoint deposit_request_txid 0) sighash witness
        partial_signature
  | PublishDeposit deposit_tx partial_sigs aggnonce => spawn (PublishDepositTask deposit_tx partial_sigs aggnonce)
  | DFulfiller InitStakeChain => h_throw (TransitionError LateInitStakeChain)
  | DFulfiller duty => spawn (FulfillerTask duty)
  | Abort | DVerifier _ => h_ret tt
  end.

(** What a spawned task runs. *)
Definition run_task (ec : ExecutionConfig) (task : Task) : X unit :=
  match task with
  | PublishDepositTask deposit_tx partial_sigs aggnonce =>
      handle_publish_deposit (btc_keys (ec_operator_table ec)) deposit_tx partial_sigs aggnonce
  | RefillTask pool_size => let! r := attempt (refill_pool pool_size) in expect_answer r
  | FulfillerTask duty =>
      match duty with
      | InitStakeChain => h_ret tt
      | HandleFulfillment stake_tx withdrawal_metadata user_descriptor deadline =>
          handle_withdrawal_fulfillment ec stake_tx withdrawal_metadata user_descriptor deadline
      | PublishClaim withdrawal_fulfillment_txid stake_txid deposit_txid =>
          handle_publish_claim ec stake_txid deposit_txid withdrawal_fulfillment_txid
      | PublishPayoutOptimistic deposit_txid claim_txid stake_txid stake_index agg_sigs =>
          handle_publish_payout_optimistic ec deposit_txid claim_txid stake_txid stake_index agg_sigs
      | PublishPreAssert _ deposit_txid claim_txid agg_sig => handle_publish_pre_assert ec deposit_txid claim_txid agg_sig
      | PublishAssertData withdrawal_fulfillment_txid start_height deposit_idx deposit_txid pre_assert_txid scripts =>
          handle_publish_assert_data ec deposit_idx deposit_txid pre_assert_txid scripts withdrawal_fulfillment_txid
            start_height
      | PublishPostAssertData deposit_txid assert_data_txids agg_sigs =>
          handle_publish_post_assert ec deposit_txid assert_data_txids agg_sigs
      | PublishPayout deposit_idx deposit_txid post_assert_txid claim_txid stake_txid agg_sigs =>
          handle_publish_payout ec deposit_idx deposit_txid stake_txid claim_txid post_assert_txid agg_sigs
      end
  end.

End executors.
