(* ===== verification/ExecutorProperties.v ===== *)
(** * Properties of the executors

    - The keys and signatures of the secret service: which requests an executor makes, and that
      the same one-time key serves two commitments.
    - What a duty publishes: the executors rebuild the transactions of the peg-out graph from
      what the service and the database answer, and publish them with the signatures in place.
    - The fulfillment an executor fronts, after the stake is buried and in time, is the one that the
      bridge proof reads. *)

From S2P Require Import Prelude Bitcoin OperatorTable PogMusig BtcNotify TxDriver Winternitz Wots TxTypes Taproot Deposit Predicates Connectors.
From S2P Require Import Script StakeChain ConnectorsAssert DisproveScript TxGraph PegOutGraph GraphSpec GraphProperties GraphFinalize.
From S2P Require Import ContractTypes Checkpoint Database StakeChainSM ContractExample ContractManager BridgeProof ProofHandler OperatorWallet.
From S2P Require Import SecretService Retry Executors ManagerProperties.
Import Inclusion TxInfo Statement.

(** ** Reasoning about executors *)

Section logic.
Context `{BuildProfile, BitcoinLib, ScriptLib, BdkLib, !ExecEnv}.
Context {D : Type} `{StakesDb D}.

Abbreviation X A := (handler (OutputHandles (D := D)) ContractManagerErr A) (only parsing).
Abbreviation submission := (Transaction * (TxStatus → bool))%type (only parsing).

(** An invariant of the database that every call keeps, and that everything that is called
    answers. *)
Variables (good : D → Prop) (up : Prop).

(** From every good state [m] runs without a panic, and [Q] holds of what it hands to the driver
    and of its result. *)
Definition runs {A} (m : X A) (Q : list submission → result ContractManagerErr A → Prop) : Prop :=
  ∀ w, good (oh_db w) → ∃ w' txs r, m w = Val (w', r) ∧ good (oh_db w') ∧
    oh_driven w' = oh_driven w ++ txs ∧ Q txs r.

(** A value that satisfies [P], or an error if not everything answers. *)
Definition returns {A} (r : result ContractManagerErr A) (P : A → Prop) : Prop :=
  (∀ a, r = Ok a → P a) ∧ (up → ∃ a, r = Ok a).

(** [m] hands nothing to the driver, and its value satisfies [P]. *)
Definition quiet {A} (m : X A) (P : A → Prop) : Prop := runs m (λ txs r, txs = [] ∧ returns r P).

(** [m] hands one transaction to the driver, which satisfies [T], or fails before it does because
    something does not answer. *)
Definition publishes (m : X unit) (T : Transaction → Prop) : Prop :=
  runs m (λ txs r, (txs = [] ∧ (∃ e, r = Err e) ∧ ¬ up) ∨ ∃ tx, T tx ∧ txs = [(tx, is_buried)]).

Lemma runs_bind {A B} (m : X A) (k : A → X B) (P : A → Prop) Q :
  quiet m P → (∀ a, P a → runs (k a) Q) → (∀ e, ¬ up → Q [] (Err e)) → runs (h_bind m k) Q.
Proof.
  intros Hm Hk He w Hw. destruct (Hm w Hw) as (w1 & txs & r & E & Hg & Hd & -> & HP & Hup).
  unfold h_bind. rewrite E. cbn [mbind comp_bind fst snd]. rewrite app_nil_r in Hd. destruct r as [a|e].
  - destruct (Hk a (HP a eq_refl) w1 Hg) as (w2 & txs & r & E2 & Hg2 & Hd2 & HQ).
    exists w2, txs, r. by rewrite <- Hd.
  - exists w1, [], (Err e). split_and!; auto; [by rewrite app_nil_r|]. apply He. intros Hu. by destruct (Hup Hu).
Qed.

Lemma runs_weaken {A} (m : X A) Q Q' : runs m Q → (∀ txs r, Q txs r → Q' txs r) → runs m Q'.
Proof. intros Hm HQ w Hw. destruct (Hm w Hw) as (w' & txs & r & ? & ? & ? & ?). exists w', txs, r. eauto. Qed.

Lemma quiet_weaken {A} (m : X A) (P P' : A → Prop) : quiet m P → (∀ a, P a → P' a) → quiet m P'.
Proof. intros Hm HP. eapply runs_weaken; [exact Hm|]. intros txs r (-> & Hr & Hup). split_and!; [done|split; auto]. Qed.

Lemma quiet_bind {A B} (m : X A) (k : A → X B) P Q :
  quiet m P → (∀ a, P a → quiet (k a) Q) → quiet (h_bind m k) Q.
Proof. intros Hm Hk. eapply runs_bind; eauto. intros e Hu. split; [done|]. by split. Qed.

Lemma publishes_bind {A} (m : X A) (k : A → X unit) P T :
  quiet m P → (∀ a, P a → publishes (k a) T) → publishes (h_bind m k) T.
Proof. intros Hm Hk. eapply runs_bind; eauto. Qed.

(** A call that hands nothing to the driver. *)
Lemma quiet_call {A} (m : X A) (P : A → Prop) :
  (∀ w, good (oh_db w) → ∃ w' r, m w = Val (w', r) ∧ good (oh_db w') ∧ oh_driven w' = oh_driven w ∧ returns r P) →
  quiet m P.
Proof.
  intros Hm w Hw. destruct (Hm w Hw) as (w' & r & E & Hg & Hd & Hr). exists w', [], r.
  by rewrite Hd, app_nil_r.
Qed.

Lemma returns_Ok {A} (a : A) (P : A → Prop) : P a → returns (Ok a) P.
Proof. intros HP. split; [by intros ? [= <-]|eauto]. Qed.
Lemma returns_Err {A} e (P : A → Prop) : ¬ up → returns (Err e) P.
Proof. by split. Qed.

Lemma quiet_ret {A} (a : A) (P : A → Prop) : P a → quiet (h_ret a) P.
Proof. intros HP. apply quiet_call. intros w Hw. exists w, (Ok a). auto using returns_Ok. Qed.

Lemma quiet_comp {A} (c : comp A) a : c = Val a → quiet (h_comp c) (eq a).
Proof. intros ->. by apply quiet_ret. Qed.

Lemma quiet_result {E A} (f : E → ContractManagerErr) (r : result E A) :
  (up → is_ok r = true) → quiet (h_result f r) (λ a, r = Ok a).
Proof.
  intros Hup. apply quiet_call. intros w Hw. eexists w, _. split; [reflexivity|]. split_and!; auto.
  destruct r; [by apply returns_Ok|]. apply returns_Err. intros Hu. by specialize (Hup Hu).
Qed.

Lemma quiet_db {A} (op : db_op D A) (P : A → Prop) :
  (∀ db, good db → good (op db).1 ∧ (∀ a, (op db).2 = Ok a → P a) ∧ (up → is_ok (op db).2 = true)) →
  quiet (db_call op) P.
Proof.
  intros Hop. apply quiet_call. intros w Hw. destruct (Hop _ Hw) as (Hg & HP & Hup). unfold db_call.
  destruct (op (oh_db w)) as [db r]. cbn in *. eexists _, _. split; [reflexivity|]. split_and!; auto.
  destruct r; [apply returns_Ok; auto|]. apply returns_Err. intros Hu. by specialize (Hup Hu).
Qed.

Lemma quiet_join {A} (ms : list (X A)) (Ps : list (A → Prop)) :
  Forall2 quiet ms Ps → quiet (join_all ms) (λ rs, Forall2 returns rs Ps).
Proof.
  induction 1 as [|m P ms Ps Hm _ IH]; cbn [join_all]; [by apply quiet_ret|].
  apply (quiet_bind _ _ (λ r, returns r P)).
  - intros w Hw. destruct (Hm w Hw) as (w' & txs & r & E & Hg & Hd & -> & HP).
    exists w', [], (Ok r). unfold attempt. rewrite E. split_and!; auto using returns_Ok.
  - intros r Hr. eapply quiet_bind; [exact IH|]. intros rs Hrs. apply quiet_ret. by constructor.
Qed.

Lemma quiet_collect {A} (rs : list (result ContractManagerErr A)) (Ps : list (A → Prop)) :
  Forall2 returns rs Ps → quiet (collect rs) (λ l, Forall2 (λ a (P : A → Prop), P a) l Ps).
Proof.
  induction 1 as [|r P rs Ps [Hr Hup] _ IH]; cbn [collect]; [by apply quiet_ret|].
  eapply quiet_bind; [apply quiet_result; intros Hu; by destruct (Hup Hu) as [a ->]|]. intros a ->.
  eapply quiet_bind; [exact IH|]. intros l Hl. apply quiet_ret. constructor; auto.
Qed.

Section service.
Hypothesis up_answers : up → ∀ n, s2_answers n = true.

Lemma quiet_s2 {A} (answer : comp A) : (up → ∃ a, answer = Val a) → quiet (s2 answer) (λ a, answer = Val a).
Proof.
  intros Hup. apply quiet_call. intros w Hw. eexists (called w), _. split; [reflexivity|]. split_and!; auto.
  destruct answer as [a|].
  - destruct (s2_answers _) eqn:E; [by apply returns_Ok|]. apply returns_Err. intros Hu.
    by rewrite up_answers in E.
  - apply returns_Err. intros Hu. by destruct (Hup Hu).
Qed.
Lemma quiet_ask {A} (a : A) : quiet (s2 (Val a)) (eq a).
Proof. eapply quiet_weaken; [apply quiet_s2; eauto|]. by intros ? [= <-]. Qed.
End service.

Lemma publishes_drive (tx : Transaction) (T : Transaction → Prop) : T tx → publishes (drive tx is_buried) T.
Proof.
  intros HT w Hw. eexists _, _, _. split; [reflexivity|]. split_and!; [done|reflexivity|]. right. eauto.
Qed.

End logic.

(** ** Keys of the secret service *)

Section keys.
Context `{BuildProfile, BitcoinLib, ScriptLib, BdkLib, SecretService, P2PKeysLib, !ExecEnv}.
Context {D : Type}.
Implicit Types good : D → Prop.

(** The keys under which the service signs for a deposit. *)
Definition key_256 (deposit_txid : Txid) (index : N) (key : Wots256PublicKey) : Prop :=
  ∃ bytes, get_256_public_key deposit_txid DEPOSIT_VOUT index = Val bytes ∧ key = wots256_from_flattened_bytes bytes.
Definition key_128 (deposit_txid : Txid) (index : N) (key : WotsHashPublicKey) : Prop :=
  ∃ bytes, get_128_public_key deposit_txid DEPOSIT_VOUT index = Val bytes ∧ key = wots128_from_flattened_bytes bytes.
Record service_keys (deposit_txid : Txid) (pks : P2PWotsPublicKeys) : Prop := {
  fulfillment_key : key_256 deposit_txid 0 (p2p_withdrawal_fulfillment pks);
  public_input_keys : Forall2 (λ key i, key_256 deposit_txid (N.of_nat i) key)
    (p2p_public_inputs (p2p_groth16 pks)) (seq 0 NUM_PUBS);
  field_elem_keys : Forall2 (λ key i, key_256 deposit_txid (N.of_nat (NUM_PUBS + i)) key)
    (p2p_fqs (p2p_groth16 pks)) (seq 0 NUM_U256);
  hash_keys : Forall2 (λ key i, key_128 deposit_txid (N.of_nat i) key)
    (p2p_hashes (p2p_groth16 pks)) (seq 0 NUM_HASH);
}.

Section found.
Variables (good : D → Prop) (up : Prop) (deposit_txid : Txid).
Hypothesis up_answers : up → ∀ n, s2_answers n = true.
Hypothesis up_keys : up → ∃ pks, service_keys deposit_txid pks.

Lemma quiet_256 i : (up → ∃ key, key_256 deposit_txid i key) →
  quiet good up (get_256_pk deposit_txid i) (key_256 deposit_txid i).
Proof.
  intros Hup. eapply quiet_bind; [apply quiet_s2; [done|]|].
  - intros Hu. destruct (Hup Hu) as (? & bytes & ? & _). eauto.
  - intros bytes Hb. apply quiet_ret. by exists bytes.
Qed.
Lemma quiet_128 i : (up → ∃ key, key_128 deposit_txid i key) →
  quiet good up (get_128_pk deposit_txid i) (key_128 deposit_txid i).
Proof.
  intros Hup. eapply quiet_bind; [apply quiet_s2; [done|]|].
  - intros Hu. destruct (Hup Hu) as (? & bytes & ? & _). eauto.
  - intros bytes Hb. apply quiet_ret. by exists bytes.
Qed.

Lemma quiet_join_seq {A} (f : nat → handler (OutputHandles (D := D)) ContractManagerErr A) P ns :
  (∀ i, i ∈ ns → quiet good up (f i) (P i)) →
  quiet good up (join_all (f <$> ns)) (λ rs, Forall2 (returns up) rs (P <$> ns)).
Proof.
  intros Hf. apply quiet_join. rewrite Forall2_fmap. apply Forall_Forall2_diag, Forall_forall. auto.
Qed.

Lemma found_key {A} (l : list A) (P : A → nat → Prop) ns i : Forall2 P l ns → i ∈ ns → ∃ a, P a i.
Proof.
  intros HP (k & Hk)%list_elem_of_lookup. destruct (Forall2_lookup_r _ _ _ _ _ HP Hk) as (a & _ & ?). eauto.
Qed.

(** The keys are found without a panic, and are those of the service whatever it did before. *)
Lemma quiet_wots_pks : quiet good up (get_wots_pks deposit_txid) (service_keys deposit_txid).
Proof.
  unfold get_wots_pks.
  eapply quiet_bind; [apply quiet_256; intros [? []]%up_keys; eauto|]. intros wf Hwf.
  eapply quiet_bind.
  { apply quiet_join_seq. intros i Hi. apply quiet_256. intros [? Hs]%up_keys.
    exact (found_key _ _ _ _ (public_input_keys _ _ Hs) Hi). }
  intros rs1 K1. eapply quiet_bind.
  { apply quiet_join_seq. intros i Hi. apply quiet_256. intros [? Hs]%up_keys.
    exact (found_key _ _ _ _ (field_elem_keys _ _ Hs) Hi). }
  intros rs2 K2. eapply quiet_bind.
  { apply quiet_join_seq. intros i Hi. apply quiet_128. intros [? Hs]%up_keys.
    exact (found_key _ _ _ _ (hash_keys _ _ Hs) Hi). }
  intros rs3 K3. eapply quiet_bind; [apply quiet_collect, K1|]. intros l1 L1.
  eapply quiet_bind; [apply quiet_collect, K2|]. intros l2 L2.
  eapply quiet_bind; [apply quiet_collect, K3|]. intros l3 L3. apply quiet_ret.
  rewrite Forall2_fmap_r in L1, L2, L3. by split.
Qed.
End found.

Lemma wots_pks_service deposit_txid (w w' : OutputHandles (D := D)) pks :
  get_wots_pks deposit_txid w = Val (w', Ok pks) → service_keys deposit_txid pks.
Proof.
  intros E. destruct (quiet_wots_pks (λ _, True) False deposit_txid ltac:(done) ltac:(done) w I)
    as (w1 & txs & r & E1 & _ & _ & _ & HP & _).
  rewrite E in E1. injection E1 as <- <-. by apply HP.
Qed.

Lemma key_256_unique deposit_txid i k1 k2 : key_256 deposit_txid i k1 → key_256 deposit_txid i k2 → k1 = k2.
Proof. intros (b1 & E1 & ->) (b2 & E2 & ->). congruence. Qed.
Lemma key_128_unique deposit_txid i k1 k2 : key_128 deposit_txid i k1 → key_128 deposit_txid i k2 → k1 = k2.
Proof. intros (b1 & E1 & ->) (b2 & E2 & ->). congruence. Qed.

Lemma keys_unique {A} (P : nat → A → Prop) l1 l2 ns :
  (∀ i a b, P i a → P i b → a = b) → Forall2 (λ a i, P i a) l1 ns → Forall2 (λ a i, P i a) l2 ns → l1 = l2.
Proof.
  intros HP K1. revert l2. induction K1 as [|a i l1 ns Ha _ IH]; intros l2 K2; inversion K2; [done|].
  subst. f_equal; eauto.
Qed.

Lemma service_keys_unique deposit_txid p1 p2 : service_keys deposit_txid p1 → service_keys deposit_txid p2 → p1 = p2.
Proof.
  destruct p1 as [f1 [a1 b1 c1]], p2 as [f2 [a2 b2 c2]]. intros [F1 A1 B1 C1] [F2 A2 B2 C2]. cbn in *.
  f_equal; [by eapply key_256_unique|]. f_equal.
  - eapply (keys_unique (λ i, key_256 deposit_txid (N.of_nat i))); eauto using key_256_unique.
  - eapply (keys_unique (λ i, key_256 deposit_txid (N.of_nat (NUM_PUBS + i)))); eauto using key_256_unique.
  - eapply (keys_unique (λ i, key_128 deposit_txid (N.of_nat i))); eauto using key_128_unique.
Qed.

End keys.

Section signatures.
Context `{BuildProfile, BitcoinLib, ScriptLib, BdkLib, SecretService, !ExecEnv}.
Context {D : Type}.
Implicit Types good : D → Prop.

Section signed.
Variables (good : D → Prop) (up : Prop).
Hypothesis up_answers : up → ∀ n, s2_answers n = true.

Lemma quiet_sized {A} n (l : list A) : length l = n → quiet good up (sized n l) (λ v, vec_to_list v = l).
Proof.
  intros Hn. unfold sized. rewrite decide_False by auto. destruct (array_of_Val n l Hn) as (v & -> & Hv).
  eapply quiet_weaken; [by apply quiet_comp|]. by intros ? <-.
Qed.

Lemma quiet_signatures {A B} (f : nat → A → B) (l : list A) :
  quiet good up (join_all (imap (λ i x, s2 (Val (f i x))) l))
    (λ rs, Forall2 (returns up) rs (imap (λ i x b, b = f i x) l)).
Proof.
  apply quiet_join, Forall2_same_length_lookup_2; [by rewrite !length_imap|]. intros k m P Hm HP.
  rewrite list_lookup_imap in Hm. rewrite list_lookup_imap in HP. destruct (l !! k) as [x|]; [|done].
  cbn in Hm, HP. injection Hm as <-. injection HP as <-. eapply quiet_weaken; [by apply quiet_ask|]. auto.
Qed.

Lemma signatures_eq {A B} (f : nat → A → B) (l : list A) l' :
  Forall2 (λ a (P : B → Prop), P a) l' (imap (λ i x b, b = f i x) l) → l' = imap f l.
Proof.
  revert f l'. induction l as [|x l IH]; intros f l'; cbn; inversion 1; subst; [done|]. f_equal. by apply IH.
Qed.

(** Both commitments of the public inputs are signed at the same index. *)
Lemma quiet_sign_assertions deposit_txid a :
  quiet good up (sign_assertions deposit_txid a) (λ sigs,
    sig_withdrawal_fulfillment sigs = get_256_signature deposit_txid 0 0 (assert_withdrawal_fulfillment a) ∧
    vec_to_list (sig_public_inputs (sig_groth16 sigs))
    = imap (λ i, get_256_signature deposit_txid 0 (N.of_nat i)) (vec_to_list (assert_public_inputs a))).
Proof.
  unfold sign_assertions. eapply quiet_bind; [by apply quiet_ask|]. intros wf Hwf.
  eapply quiet_bind; [apply quiet_signatures|]. intros rs1 K1.
  eapply quiet_bind; [apply quiet_signatures|]. intros rs2 K2.
  eapply quiet_bind; [apply quiet_signatures|]. intros rs3 K3.
  eapply quiet_bind; [apply quiet_collect, K1|]. intros l1 ->%signatures_eq.
  eapply quiet_bind; [apply quiet_sized; by rewrite length_imap, length_vec_to_list|]. intros v1 V1.
  eapply quiet_bind; [apply quiet_collect, K2|]. intros l2 ->%signatures_eq.
  eapply quiet_bind; [apply quiet_sized; by rewrite length_imap, length_vec_to_list|]. intros v2 _.
  eapply quiet_bind; [apply quiet_collect, K3|]. intros l3 ->%signatures_eq.
  eapply quiet_bind; [apply quiet_sized; by rewrite length_imap, length_vec_to_list|]. intros v3 _.
  by apply quiet_ret.
Qed.
End signed.

End signatures.

Lemma service_keys_sizes `{SecretService, P2PKeysLib} deposit_txid pks :
  service_keys deposit_txid pks → ∃ keys, PublicKeys_try_from pks = Val (inr keys) ∧ PublicKeys_into keys = pks.
Proof.
  intros [_ Ha Hb Hc]. unfold PublicKeys_try_from.
  destruct (Groth16PublicKeys_try_from_spec (p2p_groth16 pks)) as [(g & -> & Hg)|[Hn _]].
  - eexists. split; [reflexivity|]. unfold PublicKeys_into. cbn [withdrawal_fulfillment groth16]. rewrite Hg.
    by destruct pks.
  - apply Forall2_length in Ha, Hb, Hc. rewrite !length_seq in *. destruct Hn as [Hn|[Hn|Hn]]; by destruct Hn.
Qed.

Lemma hd_imap {A B} (f : nat → A → B) (v : vec A 1) (v' : vec B 1) :
  vec_to_list v' = imap f (vec_to_list v) → Vector.hd v' = f 0 (Vector.hd v).
Proof. inv_vec v. intros a. inv_vec v'. intros b. cbn. by intros [= ->]. Qed.

(** The key of the public inputs is the key of the fulfillment. *)
Lemma service_keys_reused `{SecretService, P2PKeysLib} deposit_txid keys :
  service_keys deposit_txid (PublicKeys_into keys) →
  Vector.hd (g16_public_inputs (groth16 keys)) = withdrawal_fulfillment keys.
Proof.
  intros [Hf Ha _ _]. destruct keys as [wf [pi fqs hs]]. cbn in *. unfold NUM_PUBS in *. revert Ha.
  inv_vec pi. intros k. cbn. intros Ha. inversion Ha as [|? ? ? ? Hk]. subst.
  by eapply key_256_unique.
Qed.

(** C10: The one-time key is used twice, and that loses the operator's stake.  The keys that
    [get_wots_pks] asks for, and that a deposit is set up with, have one key for the fulfillment and
    for the hash of the public inputs; [sign_assertions] signs both messages with it.  So whoever has
    seen the assertion of an operator, however honest, can present the signature of the hash as both
    signatures of the leaf that disproves the public inputs: the script accepts it, unless the hash
    happens to be the hash of the public inputs with itself as the fulfillment. *)
Theorem reused_key_disproves `{BuildProfile, BitcoinLib, ScriptLib, BdkLib, SecretService, P2PKeysLib, !ExecEnv,
    AssertLaws} {D} deposit_txid assertions (w1 w1' w2 w2' : OutputHandles (D := D)) pks sigs :
  get_wots_pks deposit_txid w1 = Val (w1', Ok pks) →
  sign_assertions deposit_txid assertions w2 = Val (w2', Ok sigs) →
  ∃ keys, PublicKeys_try_from pks = Val (inr keys) ∧
    let key := withdrawal_fulfillment keys in
    let sig := Vector.hd (sig_public_inputs (sig_groth16 sigs)) in
    Vector.hd (g16_public_inputs (groth16 keys)) = key ∧
    sig = get_256_signature deposit_txid 0 0 (Vector.hd (assert_public_inputs assertions)) ∧
    sig_withdrawal_fulfillment sigs
      = get_256_signature deposit_txid 0 0 (assert_withdrawal_fulfillment assertions) ∧
    ∀ hash, committed_nibbles key sig = Some hash →
      join_nibbles hash ≠ mask_first fq_top_byte (public_inputs_hash_bytes deposit_txid hash) →
      let leaf := A3DisprovePublicInputsCommitment deposit_txid (Some (mkDisproveWitness sig sig)) in
      ∃ stack, A3Leaf_generate_witness_script leaf = Val stack ∧
        script_succeeds (public_inputs_script key key deposit_txid) stack = true ∧
        ∀ n_of_n timelock, A3Leaf_generate_locking_script leaf n_of_n keys timelock
          = compile (public_inputs_script key key deposit_txid).
Proof.
  intros Ek%wots_pks_service Es. destruct (service_keys_sizes _ _ Ek) as (keys & Hk & <-).
  apply service_keys_reused in Ek. exists keys. split; [done|]. intros key sig. split; [done|].
  destruct (quiet_sign_assertions (λ _, True) False ltac:(done) deposit_txid assertions w2 I)
    as (w3 & txs & r & E3 & _ & _ & _ & HP & _).
  rewrite Es in E3. injection E3 as <- <-. destruct (HP _ eq_refl) as [Hwf Hpi].
  assert (sig = get_256_signature deposit_txid 0 0 (Vector.hd (assert_public_inputs assertions))) as Hsig.
  { by apply (hd_imap (λ i, get_256_signature deposit_txid 0 (N.of_nat i))). }
  split_and!; [done|done|]. intros hash Hc Hne leaf.
  destruct (disproof_outcome key key deposit_txid (mkDisproveWitness sig sig)) as (stack & Hs & E).
  exists stack. split_and!; [done| |].
  - rewrite E. cbn [sig_withdrawal_fulfillment_txid sig_public_inputs_hash]. rewrite Hc.
    by apply bool_decide_eq_true.
  - intros n_of_n timelock. unfold leaf. cbn [A3Leaf_generate_locking_script]. by rewrite Ek.
Qed.

(** ** What a duty publishes *)

(** The duty names the transactions of the graph. *)
Definition duty_of_graph `{BitcoinLib} (g : PegOutGraph) (deposit_txid stake_txid : Txid) (idx : N)
    (d : FulfillerDuty) : Prop :=
  let claim := claim_compute_txid (pog_claim_tx g) in
  let post_assert := covenant_txid (post_assert_tx (chain_post_assert (pog_assert_chain g))) in
  match d with
  | PublishClaim _ s t => s = stake_txid ∧ t = deposit_txid
  | PublishPayoutOptimistic t c s i _ => t = deposit_txid ∧ c = claim ∧ s = stake_txid ∧ i = idx
  | PublishPreAssert _ t c _ => t = deposit_txid ∧ c = claim
  | PublishPostAssertData t ids _ => t = deposit_txid ∧ ids = assert_data_compute_txids (chain_assert_data (pog_assert_chain g))
  | PublishPayout i t p c s _ => i = idx ∧ t = deposit_txid ∧ p = post_assert ∧ c = claim ∧ s = stake_txid
  | _ => False
  end.

(** The transaction of the graph with the signatures of the duty, the claim with the commitment to
    the fulfillment. *)
Definition signed_tx_of_graph `{SecretService, ConnectorLib, TaprootLib} (g : PegOutGraph) (c : PegOutGraphConnectors)
    (d : FulfillerDuty) (tx : Transaction) : Prop :=
  match d with
  | PublishClaim fulfillment _ deposit_txid => ∃ block,
      tx = with_witnesses (unsigned_tx (graph_claim g))
        [wots256_raw_witness (get_256_signature deposit_txid 0 0 (serialize_txid fulfillment))
          ++ [K_create_locking_script (kickoff c); serialize_control_block block]]
  | PublishPayoutOptimistic _ _ _ _ sigs =>
      tx = covenant_signed (payout_optimistic_tx (pog_payout_optimistic g)) (vec_to_list (vmap signature sigs))
  | PublishPreAssert _ _ _ sig =>
      tx = covenant_signed (pre_assert_tx (chain_pre_assert (pog_assert_chain g))) [signature sig]
  | PublishPostAssertData _ _ sigs =>
      tx = covenant_signed (post_assert_tx (chain_post_assert (pog_assert_chain g))) (vec_to_list (vmap signature sigs))
  | PublishPayout _ _ _ _ _ sigs =>
      tx = covenant_signed (payout_tx (pog_payout_tx g)) (vec_to_list (vmap signature sigs))
  | _ => False
  end.

Lemma mapM_nth {A} (f : nat → comp A) (l : list A) k :
  (∀ i x, l !! i = Some x → f (k + i) = Val x) → mapM f (seq k (length l)) = Val l.
Proof.
  revert k. induction l as [|x l IH]; intros k Hf; [done|]. cbn [length seq mapM].
  rewrite <- (Nat.add_0_r k), (Hf 0 x) by done. cbn [mbind comp_bind]. rewrite Nat.add_0_r.
  rewrite IH; [done|]. intros i y Hy. rewrite <- (Hf (S i) y) by done. f_equal. lia.
Qed.

Lemma connectors_of_keys network keys :
  create_assert_data_connectors network (PublicKeys_into keys)
  = Val (mkConnectorA256Factory network
           (Vector.hd (g16_public_inputs (groth16 keys)) :: vec_to_list (g16_fqs (groth16 keys))),
         mkConnectorAHashFactory network (vec_to_list (g16_hashes (groth16 keys)))).
Proof.
  destruct keys as [wf [pi fqs hs]]. unfold create_assert_data_connectors.
  cbn [PublicKeys_into Groth16PublicKeys_into p2p_groth16 p2p_public_inputs p2p_fqs p2p_hashes groth16
    g16_public_inputs g16_fqs g16_hashes].
  change (seq 0 NUM_PKS_A256) with (seq 0 (S NUM_U256)). rewrite <- (length_vec_to_list fqs) at 1.
  change (S (length fqs)) with (length (Vector.hd pi :: vec_to_list fqs)). rewrite mapM_nth.
  - cbn [mbind comp_bind]. by rewrite decide_True by apply length_vec_to_list.
  - intros [|i] x Hx; cbn [Nat.add].
    + injection Hx as <-. unfold NUM_PUBS in pi. by inv_vec pi.
    + change (vec_to_list fqs !! i = Some x) in Hx. by rewrite Hx.
Qed.

Section publication.
Context `{BuildProfile, BitcoinLib, SighashLib, KeyAggLib, TaprootLaws, ConnectorLib, ScriptLib, !DustLaws,
  DescriptorLib, AssertLib, NmulLib, ExtractLaws, BdkLib, SecretService, Sha256Lib, P2PKeysLib, !ExecEnv, !Musig2Lib}.
Context `{ChainstateLib} `{InclusionLib} `{!BlockHeaderLib, !ProverLib}.
Context {D : Type} `{StakesDb D}.
Variables (ec : ExecutionConfig) (deposit_txid stake_txid : Txid) (idx : N) (pre_stake : OutPoint) (keys : PublicKeys)
  (context : TxBuildContext).
Variables (good : D → Prop) (up : Prop).

Let table := ec_operator_table ec.

(** The graph of this operator. *)
Definition own_input : PegOutGraphInput :=
  mkPegOutGraphInput (mkOutPoint stake_txid STAKE_VOUT) (mkOutPoint stake_txid WITHDRAWAL_FULFILLMENT_VOUT)
    (sha256_hash (get_preimg (op_txid pre_stake) (op_vout pre_stake) idx)) keys general_pubkey.

(** The database has the pre-stake and the stake data of this operator, whenever it can be read. *)
Record db_holds : Prop := {
  holds_pre_stake : ∀ db, good db → good (get_pre_stake (pov_idx table) db).1 ∧
    (∀ p, (get_pre_stake (pov_idx table) db).2 = Ok p → p = Some pre_stake) ∧
    (up → is_ok (get_pre_stake (pov_idx table) db).2 = true);
  holds_stake_data : ∀ db, good db → good (get_stake_data (pov_idx table) idx db).1 ∧
    (∀ s, (get_stake_data (pov_idx table) idx db).2 = Ok s →
      ∃ data, s = Some data ∧ stk_hash data = pgi_stake_hash own_input) ∧
    (up → is_ok (get_stake_data (pov_idx table) idx db).2 = true);
}.

Hypothesis up_answers : up → ∀ n, s2_answers n = true.
Hypothesis Hkeys : service_keys deposit_txid (PublicKeys_into keys).
Hypothesis Hcontext : tx_build_context table (ec_network ec) = Val context.
Hypothesis Hpov : ∃ key, pov_p2p_key table = Val key.
Hypothesis Hdb : db_holds.

Lemma context_network : tbc_network context = ec_network ec.
Proof.
  unfold tx_build_context, TxBuildContext_new in Hcontext.
  apply comp_bind_Val in Hcontext as (k & _ & [= <-]). done.
Qed.

Lemma quiet_agg_pubkey : quiet good up (agg_pubkey ec) (eq (tbc_aggregated_pubkey context)).
Proof. eapply quiet_bind; [by apply quiet_comp|]. intros ? <-. by apply quiet_ret. Qed.

Lemma quiet_agg_btc_key : quiet good up (agg_btc_key ec) (eq (tbc_aggregated_pubkey context)).
Proof.
  unfold tx_build_context, TxBuildContext_new, get_aggregated_pubkey in Hcontext.
  unfold public_key_table in Hcontext. rewrite bt_values_fmap in Hcontext. fold (btc_keys table) in Hcontext.
  apply comp_bind_Val in Hcontext as (k & (ctx & Hctx & [= <-])%comp_bind_Val & [= <-]).
  eapply quiet_bind.
  - eapply quiet_comp. unfold aggregated_btc_key. fold table. rewrite Hctx. cbn. reflexivity.
  - intros ? <-. by apply quiet_ret.
Qed.

Lemma quiet_pre_stake : quiet good up (own_pre_stake ec) (eq pre_stake).
Proof.
  eapply quiet_bind; [apply quiet_db, Hdb|]. intros ? ->. destruct Hpov as [key Hk].
  eapply quiet_bind; [by apply quiet_comp|]. intros ? <-.
  eapply quiet_weaken; [by apply quiet_result|]. by intros ? [= <-].
Qed.

Lemma quiet_keys : quiet good up (get_wots_pks deposit_txid) (eq (PublicKeys_into keys)).
Proof.
  eapply quiet_weaken; [apply quiet_wots_pks; eauto|]. intros a Ha. by apply (service_keys_unique deposit_txid).
Qed.

(** How the parts of a graph were made. *)
Lemma generate_inv g c gp cp sp :
  PegOutGraph_generate own_input context deposit_txid gp cp sp [] = Val (g, c) →
  let key := tbc_aggregated_pubkey context in
  let network := tbc_network context in
  let opk := general_pubkey in
  let hash := pgi_stake_hash own_input in
  let k := mkConnectorK network (withdrawal_fulfillment keys) in
  let c0 := mkConnectorC0 key network (pre_assert_timelock cp) in
  let c1 := mkConnectorC1 key network (payout_optimistic_timelock cp) in
  let n := mkConnectorNOfN key network in
  let p := mkConnectorP key hash network in
  let cpfp := mkConnectorCpfp opk network in
  let claim := claim_compute_txid (pog_claim_tx g) in
  let post_assert := chain_post_assert (pog_assert_chain g) in
  kickoff c = k ∧
  A3_new network deposit_txid key keys (payout_timelock cp) = Val (post_assert_out_0 c) ∧
  ClaimTx_new (mkOutPoint stake_txid 0) k c0 c1 n cpfp = Val (pog_claim_tx g) ∧
  PayoutOptimisticTx_new (mkPayoutOptimisticData claim deposit_txid (mkOutPoint stake_txid 1) (deposit_amount gp) opk network)
    c0 c1 n p cpfp = Val (pog_payout_optimistic g) ∧
  PreAssertTx_new claim c0 cpfp
    (mkConnectorA256Factory network (Vector.hd (g16_public_inputs (groth16 keys)) :: vec_to_list (g16_fqs (groth16 keys))))
    (mkConnectorAHashFactory network (vec_to_list (g16_hashes (groth16 keys))))
    = Val (chain_pre_assert (pog_assert_chain g)) ∧
  PostAssertTx_new (vec_to_list (assert_data_compute_txids (chain_assert_data (pog_assert_chain g)))) n
    (post_assert_out_0 c) cpfp = Val post_assert ∧
  PayoutTx_new (mkPayoutData (covenant_txid (post_assert_tx post_assert)) deposit_txid (mkOutPoint claim 2)
    (mkOutPoint stake_txid 1) (deposit_amount gp) opk network) (post_assert_out_0 c) n p cpfp = Val (pog_payout_tx g).
Proof.
  unfold PegOutGraph_generate. intros (cs & Hcs & (cl & Hcl & Hk)%comp_bind_Val)%comp_bind_Val.
  apply comp_bind_Val in Hk as (ch & Hch & (po & Hpo & (ac & Hac & Hk)%comp_bind_Val)%comp_bind_Val).
  apply comp_bind_Val in Hk as (pt & Hpt & (dp & Hdp & (sl & Hsl & [= <- <-])%comp_bind_Val)%comp_bind_Val).
  unfold PegOutGraphConnectors_new in Hcs. apply comp_bind_Val in Hcs as (a3 & Ha3 & [= <-]).
  unfold AssertChain_new in Hac. apply comp_bind_Val in Hac as (pre & Hpre & (scr & Hscr & Hk)%comp_bind_Val).
  apply comp_bind_Val in Hk as (ad & Had & (post & Hpost & [= <-])%comp_bind_Val).
  cbn in *. split_and!; done.
Qed.

Variables (g : PegOutGraph) (c : PegOutGraphConnectors).
Hypothesis Htaps : (N.of_nat (2 + NUM_TAPS) ≤ 2 ^ 128)%N.
Hypothesis Hamount : (deposit_amount (ec_pegout_graph_params ec) + 27060 ≤ U64_MAX)%N.
Hypothesis Hcost : (330 ≤ challenge_cost (ec_pegout_graph_params ec) ≤ U64_MAX)%N.
Hypothesis Hgen : PegOutGraph_generate own_input context deposit_txid (ec_pegout_graph_params ec)
  (ec_connector_params ec) (ec_stake_chain_params ec) [] = Val (g, c).

Lemma connector_a3_own : connector_a3_of ec deposit_txid (tbc_aggregated_pubkey context) (PublicKeys_into keys)
  = Val (post_assert_out_0 c).
Proof.
  unfold connector_a3_of, PublicKeys_try_from. cbn [PublicKeys_into p2p_groth16].
  rewrite Groth16PublicKeys_try_from_into. cbn [mbind comp_bind p2p_withdrawal_fulfillment PublicKeys_into].
  rewrite <- context_network. assert (∀ k, mkPublicKeys (withdrawal_fulfillment k) (groth16 k) = k) as -> by by intros [].
  apply (generate_inv _ _ _ _ _ Hgen).
Qed.

(** The next call of an executor returns a value that is known. *)
Ltac call lem := eapply publishes_bind; [lem|intros ? <-].

Lemma task_publishes fuel d : duty_of_graph g deposit_txid stake_txid idx d →
  publishes good up (run_task fuel ec (FulfillerTask d)) (signed_tx_of_graph g c d).
Proof.
  pose proof (generate_inv _ _ _ _ _ Hgen) as Hinv. rewrite context_network in Hinv. cbv zeta in Hinv.
  destruct Hinv as (Ek & _ & Ecl & Epo & Epre & Epost & Epay).
  destruct (generated_finalizes _ _ _ _ _ _ _ _ _ Htaps Hamount (or_introl eq_refl) Hcost Hgen)
    as (Fcl & _ & Fpo & Fpre & Fpost & Fpay & _).
  destruct d as [| |ff s t|t cl s i sigs|i t cl sig| |t ids sigs|i t pa cl s sigs]; cbn [duty_of_graph run_task]; try done.
  - intros [-> ->]. eapply publishes_bind; [apply quiet_256; eauto; intros _; eexists; apply Hkeys|]. intros k Hk.
    assert (k = withdrawal_fulfillment keys) as -> by (eapply key_256_unique; [exact Hk|apply Hkeys]).
    call ltac:(apply quiet_agg_pubkey). call ltac:(by apply quiet_ask). call ltac:(apply quiet_comp, Ecl).
    eapply publishes_bind; [by apply quiet_ask|]. intros sig Hsig. destruct (Fcl sig) as (block & Ef & _).
    call ltac:(apply quiet_comp, Ef). apply publishes_drive. exists block. by subst sig.
  - intros (-> & -> & -> & ->). call ltac:(by apply quiet_ask). call ltac:(apply quiet_agg_pubkey).
    call ltac:(apply quiet_pre_stake). call ltac:(by apply quiet_ask). call ltac:(apply quiet_comp, Epo).
    call ltac:(apply quiet_comp, Fpo). by apply publishes_drive.
  - intros (-> & ->). call ltac:(apply quiet_agg_btc_key). call ltac:(by apply quiet_ask).
    call ltac:(apply quiet_keys). call ltac:(apply quiet_comp, connectors_of_keys).
    call ltac:(apply quiet_comp, Epre). call ltac:(apply quiet_comp, Fpre). by apply publishes_drive.
  - intros (-> & ->). call ltac:(apply quiet_agg_btc_key). call ltac:(by apply quiet_ask).
    call ltac:(apply quiet_keys). call ltac:(apply quiet_comp, connector_a3_own). call ltac:(apply quiet_comp, Epost).
    call ltac:(apply quiet_comp, Fpost, length_vec_to_list). by apply publishes_drive.
  - intros (-> & -> & -> & -> & ->). call ltac:(by apply quiet_ask). call ltac:(apply quiet_agg_btc_key).
    call ltac:(apply quiet_keys). call ltac:(apply quiet_comp, connector_a3_own).
    eapply publishes_bind; [apply quiet_db, Hdb|]. intros ? (data & -> & Hh). destruct Hpov as [key Hk].
    call ltac:(by apply quiet_comp). eapply publishes_bind; [by apply quiet_result|]. intros ? [= <-].
    rewrite Hh. call ltac:(apply quiet_comp, Epay). call ltac:(apply quiet_comp, Fpay). by apply publishes_drive.
Qed.

End publication.

(** C9: The executors publish the transactions of the graph, signed.  Whenever the graph of this
    operator was generated with the keys that the secret service gave out, the general key and the
    preimage of the stake, and the database has the data of the stake, the task of a duty to claim,
    to assert (before and after the data) or to be paid out, optimistically or not, ends without a
    panic.  It hands at most one transaction to the driver: that of the graph, with the signatures of
    the duty on the inputs they were made for, and the claim with the commitment to the fulfillment.
    It does hand it over, unless the service or the database fails to answer. *)
Theorem duties_publish_graph
    `{BuildProfile, BitcoinLib, SighashLib, KeyAggLib, TaprootLaws, ConnectorLib, ScriptLib, !DustLaws, DescriptorLib,
      AssertLib, NmulLib, ExtractLaws, BdkLib, SecretService, Sha256Lib, P2PKeysLib, !ExecEnv, !Musig2Lib}
    `{ChainstateLib} `{InclusionLib} `{!BlockHeaderLib, !ProverLib} {D : Type} `{StakesDb D}
    ec deposit_txid stake_txid idx pre_stake keys context (good : D → Prop) up w0 w0' g c fuel d w :
  get_wots_pks (D := D) deposit_txid w0 = Val (w0', Ok (PublicKeys_into keys)) →
  tx_build_context (ec_operator_table ec) (ec_network ec) = Val context →
  (∃ key, pov_p2p_key (ec_operator_table ec) = Val key) →
  (up → ∀ n, s2_answers n = true) →
  db_holds ec stake_txid idx pre_stake keys good up → good (oh_db w) →
  (N.of_nat (2 + NUM_TAPS) ≤ 2 ^ 128)%N → (deposit_amount (ec_pegout_graph_params ec) + 27060 ≤ U64_MAX)%N →
  (330 ≤ challenge_cost (ec_pegout_graph_params ec) ≤ U64_MAX)%N →
  PegOutGraph_generate (own_input stake_txid idx pre_stake keys) context deposit_txid (ec_pegout_graph_params ec)
    (ec_connector_params ec) (ec_stake_chain_params ec) [] = Val (g, c) →
  duty_of_graph g deposit_txid stake_txid idx d →
  ∃ w' r, run_task fuel ec (FulfillerTask d) w = Val (w', r) ∧
    ((oh_driven w' = oh_driven w ∧ (∃ e, r = Err e) ∧ ¬ up) ∨
     ∃ tx, signed_tx_of_graph g c d tx ∧ oh_driven w' = oh_driven w ++ [(tx, is_buried)]).
Proof.
  intros Hk%wots_pks_service Hc Hp Hup Hdb Hw Ht Ha Hcost Hg Hd.
  destruct (task_publishes _ _ _ _ _ _ _ _ _ Hup Hk Hc Hp Hdb _ _ Ht Ha Hcost Hg fuel d Hd w Hw)
    as (w' & txs & r & E & _ & Hdr & [(-> & He & Hu)|(tx & Htx & ->)]); exists w', r; split; auto.
  - left. by rewrite app_nil_r in Hdr.
  - right. eauto.
Qed.

(** ** The fulfillment *)

Section fulfillment.
Context `{BuildProfile, BitcoinLib, SighashLib, KeyAggLib, TaprootLib, ConnectorLib, ScriptLib, DescriptorLib, AssertLib,
  NmulLib, ExtractLib, BdkLaws, SecretService, Sha256Lib, P2PKeysLib, !ExecEnv, !Musig2Lib}.
Context `{ChainstateLib} `{InclusionLib} `{!BlockHeaderLib, !ProverLib}.
Context {D : Type} `{StakesDb D}.

(** What is handed to the driver and the wallet are left as they are. *)
Definition same_driven (w w' : OutputHandles (D := D)) : Prop :=
  oh_driven w' = oh_driven w ∧ oh_wallet w' = oh_wallet w.
#[local] Instance same_driven_preorder : PreOrder same_driven.
Proof. split; [done|]. intros x y z [] []. unfold same_driven. split; congruence. Qed.

Abbreviation leaves_driven Q m := (triple (λ _, True) same_driven Q m) (only parsing).

Lemma leaves_s2 {A} (answer : comp A) : leaves_driven (λ _, True) (s2 answer).
Proof. by intros w w' r _ [= <- <-]. Qed.

Lemma push_witness_keeps i elem tx tx' : push_witness i elem tx = Val tx' →
  output tx' = output tx ∧ (previous_output <$> input tx') = (previous_output <$> input tx).
Proof.
  unfold push_witness. destruct (input tx !! i) as [txin|] eqn:E; [|done]. intros [= <-]. cbn. split; [done|].
  rewrite list_fmap_insert. cbn. apply list_insert_id. by rewrite list_lookup_fmap, E.
Qed.

Lemma sign_fulfillment_keeps p :
  leaves_driven (λ tx, output tx = output (unsigned_tx p) ∧
    (previous_output <$> input tx) = (previous_output <$> input (unsigned_tx p))) (sign_fulfillment p).
Proof.
  unfold sign_fulfillment. apply triple_fold; [apply _|done| |done]. intros tx i _ [Ho Hi].
  eapply (triple_bind (λ _ _ _ _, I) (λ _, True)); [by apply triple_comp; [apply _|]|]. intros msg _.
  eapply (triple_bind (λ _ _ _ _, I) (λ _, True)); [apply leaves_s2|]. intros sig _. apply triple_comp; [apply _|].
  by intros tx' [-> ->]%push_witness_keeps.
Qed.

Lemma front_withdrawal_pays rate script amount data w w' p :
  front_withdrawal rate script amount data w = Val (w', Ok p) →
  (∃ rest, output (unsigned_tx p) = mkTxOut amount script :: mkTxOut 0 (op_return_push data) :: rest) ∧
  ∀ o, o ∈ (previous_output <$> input (unsigned_tx p)) →
    (o ∉ fronting_outpoints w) ∧ (o ∈ fronting_outpoints w').
Proof.
  unfold front_withdrawal. destruct (U32_MAX <? _)%N; [done|].
  destruct (finish _ _) as [general [p'|e]] eqn:E; [|done]. intros [= <- <-]. split.
  - destruct (finish_pays _ _ _ _ E eq_refl) as [rest Hr]. exists rest. exact Hr.
  - intros o Ho. split.
    + apply list_elem_of_fmap in Ho as (i & -> & Hi). destruct (finish_spends _ _ _ _ _ E Hi) as [_ Hn].
      cbn in Hn. set_solver.
    + cbn. by apply elem_of_union_l, elem_of_list_to_set.
Qed.

Lemma fulfillment_read {E} `{!OpReturnBytes} ec m user_descriptor deadline w w' r :
  (wm_operator_idx m <= U32_MAX)%N → (wm_deposit_idx m <= U32_MAX)%N → (wm_deposit_txid m < 2 ^ 256)%N →
  fulfill_withdrawal (D := D) ec m user_descriptor deadline w = Val (w', r) →
  oh_driven w' = oh_driven w ∨
  ∃ height tx, blockchain_height (oh_calls w) = Some height ∧
    (height + min_withdrawal_fulfillment_window ec < deadline)%N ∧
    oh_driven w' = oh_driven w ++ [(tx, is_buried)] ∧
    extract_withdrawal_info (E := E) tx (wm_tag m) =
      Val (Ok (mkWithdrawalInfo (wm_tag m) (wm_operator_idx m) (wm_deposit_idx m) (wm_deposit_txid m)
        (to_script user_descriptor)
        (deposit_amount (ec_pegout_graph_params ec) - operator_fee (ec_pegout_graph_params ec)))) ∧
    ∀ o, o ∈ (previous_output <$> input tx) →
      (o ∉ fronting_outpoints (oh_wallet w)) ∧ (o ∈ fronting_outpoints (oh_wallet w')).
Proof.
  intros Ho Hd Ht Hf. unfold fulfill_withdrawal in Hf.
  apply h_bind_Val in Hf as (s1 & r1 & [= <- <-] & Hf). 
  destruct (blockchain_height (oh_calls w)) as [height|] eqn:Eh; [|by left; injection Hf as <- _].
  apply h_bind_Val in Hf as (s2 & r2 & [= <- <-] & Hf).
  destruct (_ <=? _)%N eqn:El; [by left; injection Hf as <- _|]. apply N.leb_gt in El.
  apply h_bind_Val in Hf as (s3 & r3 & [= <- <-] & Hf).
  apply h_bind_Val in Hf as (s4 & r4 & K4 & Hf).
  destruct (estimate_smart_fee _) as [rate|]; [|done]. injection K4 as <- <-.
  apply h_bind_Val in Hf as (s5 & r5 & K5 & Hf).
  unfold wallet_sync in K5. destruct (sync _ _) as [wallet [ra|]] eqn:Es; [|done]. injection K5 as <- <-.
  apply h_bind_Val in Hf as (s6 & r6 & K6 & Hf).
  apply comp_bind_Val in K6 as ([wallet' [p|e]] & Hp & [= <- <-]); [|by left; injection Hf as <- _].
  destruct (front_withdrawal_pays _ _ _ _ _ _ _ Hp) as [[rest Hout] Hin]. cbn [fst snd] in Hf.
  apply h_bind_Val in Hf as (s7 & r7 & K7 & Hf).
  destruct (sign_fulfillment_keeps p _ _ _ I K7) as [[Ed Ew] Htx].
  destruct r7 as [tx|e]; [|by left; destruct Hf as [-> _]].
  destruct (Htx tx eq_refl) as [Ho' Hi']. injection Hf as <- _. right. exists height, tx. split_and!.
  - done.
  - lia.
  - cbn. by rewrite Ed.
  - rewrite Hout in Ho'. by eapply extract_metadata in Ho'.
  - rewrite Hi'. cbn. rewrite Ew. intros o [Hn Hi]%Hin. split; [|done]. contradict Hn.
    apply (f_equal fst) in Es. cbn [fst] in Es. subst wallet.
    clear Hi. revert o Hn. eapply (step_keeps_fronting (Sync _)). done.
Qed.

(** *** The stake *)

Definition stake_psbt (stake_tx : StakeTxKind) : Psbt :=
  match stake_tx with StakeHead t | StakeTail t => st_psbt t end.

(** A transaction with the inputs and the outputs of the stake transaction. *)
Definition signs_stake (stake_tx : StakeTxKind) (signed : Transaction) : Prop :=
  output signed = output (unsigned_tx (stake_psbt stake_tx)) ∧
  (previous_output <$> input signed) `prefix_of` (previous_output <$> input (unsigned_tx (stake_psbt stake_tx))).

Lemma extract_tx_keeps p : output (extract_tx p) = output (unsigned_tx p) ∧
  (previous_output <$> input (extract_tx p)) `prefix_of` (previous_output <$> input (unsigned_tx p)).
Proof.
  split; [done|]. unfold extract_tx. cbn [input]. generalize (psbt_inputs p).
  induction (input (unsigned_tx p)) as [|i l IH]; intros [|pin pins]; cbn; try apply prefix_nil. by apply prefix_cons.
Qed.

Lemma finalize_nth_keeps i witness p p' : finalize_nth i witness p = Val p' → unsigned_tx p' = unsigned_tx p.
Proof. unfold finalize_nth. intros (pin & _ & [= <-])%comp_bind_Val. done. Qed.

Lemma Head_signs t s1 s2 tx : Head_finalize_unchecked t s1 s2 = Val tx → signs_stake (StakeHead t) tx.
Proof.
  intros (p & E1 & E2)%comp_bind_Val. apply comp_bind_Val in E2 as (p' & E2 & [= <-]).
  unfold signs_stake. cbn [stake_psbt]. rewrite <- (finalize_nth_keeps _ _ _ _ E1), <- (finalize_nth_keeps _ _ _ _ E2).
  apply extract_tx_keeps.
Qed.

Lemma Tail_signs t preimage s1 s2 c tx : Tail_finalize_unchecked t preimage s1 s2 c = Val tx → signs_stake (StakeTail t) tx.
Proof.
  intros ([script block] & _ & E)%comp_bind_Val. apply comp_bind_Val in E as (p & E1 & E2).
  apply comp_bind_Val in E2 as (p' & E2 & [= <-]).
  unfold signs_stake. cbn [stake_psbt]. rewrite <- (finalize_nth_keeps _ _ _ _ E1), <- (finalize_nth_keeps _ _ _ _ E2).
  apply extract_tx_keeps.
Qed.

(** The attempts to publish [signed], of which the last one decides. *)
Definition drives_stake (retry_config : StakeTxRetryConfig) (signed : Transaction) (w w' : OutputHandles (D := D))
    (r : result ContractManagerErr unit) : Prop :=
  ∃ k, k ≤ S (N.to_nat (max_retries retry_config)) ∧ k ≠ 0 ∧
    oh_driven w' = oh_driven w ++ replicate k (signed, is_buried) ∧ oh_wallet w' = oh_wallet w ∧
    (is_ok r = true → ∃ n, drive_answer n = Ok tt ∧ oh_calls w' = S n).

Lemma failed_attempts_drive (strategy : Retry.Strategy ContractManagerErr) signed attempt k (w w' : OutputHandles (D := D)) :
  Retry.failed_attempts strategy (drive signed is_buried) attempt k w w' →
  oh_driven w' = oh_driven w ++ replicate k (signed, is_buried) ∧ oh_wallet w' = oh_wallet w.
Proof.
  induction 1 as [attempt w|attempt k w w1 w2 error Eg _ _ [IHd IHw]]; [by rewrite app_nil_r|].
  injection Eg as <- _. cbn in IHd, IHw. by rewrite IHd, IHw, <- app_assoc.
Qed.

Lemma try_publish_drives retry_config signed (w w' : OutputHandles (D := D)) r :
  try_publish_stake_tx retry_config signed w = Val (w', r) → drives_stake retry_config signed w w' r.
Proof.
  unfold try_publish_stake_tx. destruct (Retry.retry_ends (stake_tx_strategy retry_config) (drive signed is_buried) _ 0 w eq_refl)
    as (k & w1 & Hk & Hf & -> & _). cbn [default]. destruct (failed_attempts_drive _ _ _ _ _ _ Hf) as [Hd Hw].
  intros [= <- <-]. exists (S k). cbn [oh_driven oh_wallet oh_calls]. split_and!; [lia|done| |done|].
  - by rewrite Hd, <- app_assoc, <- replicate_S_end.
  - destruct (drive_answer (oh_calls w1)) as [[]|] eqn:E; [|done]. intros _. by exists (oh_calls w1).
Qed.

Lemma leaves_db {A} (op : db_op D A) : leaves_driven (λ _, True) (db_call op).
Proof. intros w w' r _. unfold db_call. destruct (op (oh_db w)). by intros [= <- <-]. Qed.

(** Calls that hand nothing over, followed by the attempts to publish a stake. *)
Definition publishes_stake (retry_config : StakeTxRetryConfig) (stake_tx : StakeTxKind)
    (m : handler (OutputHandles (D := D)) ContractManagerErr unit) : Prop :=
  ∀ w w' r, m w = Val (w', r) →
    (same_driven w w' ∧ is_ok r = false) ∨
    ∃ signed, signs_stake stake_tx signed ∧ drives_stake retry_config signed w w' r.

Lemma publishes_stake_bind {A} Q (m : handler (OutputHandles (D := D)) ContractManagerErr A) k retry_config stake_tx :
  leaves_driven Q m → (∀ a, Q a → publishes_stake retry_config stake_tx (k a)) →
  publishes_stake retry_config stake_tx (h_bind m k).
Proof.
  intros Hm Hk w w' r (w1 & r1 & E1 & E2)%h_bind_Val. destruct (Hm _ _ _ I E1) as [[Hd Hw] HQ].
  destruct r1 as [a|e]; [|by left; destruct E2 as [-> ->]].
  destruct (Hk a (HQ a eq_refl) _ _ _ E2) as [[[] ?]|(signed & Hs & n & Hn & Hn0 & Hdr & Hwa & Hok)].
  - left. unfold same_driven. split; [split; congruence|done].
  - right. exists signed. split; [done|]. exists n. split_and!; [done|done|by rewrite Hdr, Hd|congruence|done].
Qed.

Lemma publishes_stake_try retry_config stake_tx signed :
  signs_stake stake_tx signed → publishes_stake retry_config stake_tx (try_publish_stake_tx retry_config signed).
Proof. intros Hs w w' r E. right. exists signed. split; [done|]. by apply try_publish_drives. Qed.

#[local] Ltac quietly := eapply (publishes_stake_bind (λ _, True)); [first [by apply leaves_s2 | by apply leaves_db
  | by apply triple_comp; [apply _|] | by apply triple_result; [apply _|]]|intros ? _].

Lemma first_stake_publishes ec t :
  publishes_stake (stake_tx_retry_config ec) (StakeHead t) (handle_publish_first_stake ec t).
Proof.
  unfold handle_publish_first_stake. do 3 quietly.
  eapply (publishes_stake_bind (signs_stake (StakeHead t))); [apply triple_comp; [apply _|]; by intros tx ?%Head_signs|].
  intros signed Hs. by apply publishes_stake_try.
Qed.

Lemma advance_stake_publishes ec idx t :
  publishes_stake (stake_tx_retry_config ec) (StakeTail t) (handle_advance_stake_chain ec idx t).
Proof.
  unfold handle_advance_stake_chain. do 3 quietly.
  eapply (publishes_stake_bind (λ _, True)).
  { unfold own_pre_stake. eapply (triple_bind (λ _ _ _ _, I) (λ _, True)); [apply leaves_db|]. intros ? _.
    eapply (triple_bind (λ _ _ _ _, I) (λ _, True)); [by apply triple_comp; [apply _|]|]. intros ? _.
    by apply triple_result; [apply _|]. }
  intros ? _. do 2 quietly. eapply (publishes_stake_bind (λ _, True)).
  { unfold agg_pubkey. eapply (triple_bind (λ _ _ _ _, I) (λ _, True)); [by apply triple_comp; [apply _|]|]. intros ? _.
    by apply triple_ret; [apply _|]. }
  intros ? _. quietly.
  eapply (publishes_stake_bind (signs_stake (StakeTail t))); [apply triple_comp; [apply _|]; by intros tx ?%Tail_signs|].
  intros signed Hs. by apply publishes_stake_try.
Qed.

(** C26: What the operator pays a user with is what the bridge proof reads.  Whatever the node, the
    wallet and the services answer, the task of the duty of a withdrawal hands the driver, first, the
    signed stake transaction of the duty, at most once more often than retries are configured, and then
    at most one other transaction.  It hands that one over only if the withdrawal is assigned to
    this operator, the driver has answered that the stake is buried, and the node, asked right
    after that, is still more than the configured window before the deadline.  The proof reads the tag,
    the operator, the deposit, the script of the user and the amount of the duty back from it, and it
    spends no output that an earlier withdrawal was fronted with. *)
Theorem fronted_withdrawal_read {E} `{!OpReturnBytes} fuel ec stake_tx m user_descriptor deadline w w' r :
  (wm_operator_idx m <= U32_MAX)%N → (wm_deposit_idx m <= U32_MAX)%N → (wm_deposit_txid m < 2 ^ 256)%N →
  run_task fuel ec (FulfillerTask (HandleFulfillment stake_tx m user_descriptor deadline)) w = Val (w', r) →
  ∃ stakes fulfillment, oh_driven w' = oh_driven w ++ stakes ++ fulfillment ∧
    (stakes = [] ∨ ∃ signed k, stakes = replicate k (signed, is_buried) ∧ signs_stake stake_tx signed ∧
      k ≤ S (N.to_nat (max_retries (stake_tx_retry_config ec)))) ∧
    (fulfillment = [] ∨ ∃ n height tx, fulfillment = [(tx, is_buried)] ∧ stakes ≠ [] ∧
      wm_operator_idx m = pov_idx (ec_operator_table ec) ∧
      drive_answer n = Ok tt ∧ blockchain_height (S n) = Some height ∧
      (height + min_withdrawal_fulfillment_window ec < deadline)%N ∧
      extract_withdrawal_info (E := E) tx (wm_tag m) =
        Val (Ok (mkWithdrawalInfo (wm_tag m) (wm_operator_idx m) (wm_deposit_idx m) (wm_deposit_txid m)
          (to_script user_descriptor)
          (deposit_amount (ec_pegout_graph_params ec) - operator_fee (ec_pegout_graph_params ec)))) ∧
      ∀ o, o ∈ (previous_output <$> input tx) →
        (o ∉ fronting_outpoints (oh_wallet w)) ∧ (o ∈ fronting_outpoints (oh_wallet w'))).
Proof.
  intros Ho Hd Ht. cbn [run_task]. unfold handle_withdrawal_fulfillment. intros (w1 & r1 & E1 & E2)%h_bind_Val.
  assert (publishes_stake (stake_tx_retry_config ec) stake_tx (match stake_tx with
    | StakeHead stake_tx => handle_publish_first_stake ec stake_tx
    | StakeTail stake_tx => handle_advance_stake_chain ec (wm_deposit_idx m) stake_tx
    end)) as Hp by (destruct stake_tx; [apply first_stake_publishes|apply advance_stake_publishes]).
  destruct (Hp _ _ _ E1) as [[[Hd1 Hw1] Hr1]|(signed & Hs & k & Hk & Hk0 & Hd1 & Hw1 & Hok)].
  { destruct r1; [done|]. destruct E2 as [-> _]. exists [], []. rewrite !app_nil_r. auto. }
  exists (replicate k (signed, is_buried)). destruct r1 as [[]|e]; cycle 1.
  { destruct E2 as [-> _]. exists []. rewrite app_nil_r. split; [done|]. split; [right; by exists signed, k|by left]. }
  destruct (Hok eq_refl) as (n & Hn & Hc). case_bool_decide as Hmine; cycle 1.
  { injection E2 as <- _. exists []. rewrite app_nil_r. split; [done|]. split; [right; by exists signed, k|by left]. }
  destruct (fulfillment_read (E := E) _ _ _ _ _ _ _ Ho Hd Ht E2) as [Hd2|(height & tx & Hh & Hl & Hd2 & Hx & Hi)].
  - exists []. rewrite app_nil_r, Hd2. split; [done|]. split; [right; by exists signed, k|by left].
  - exists [(tx, is_buried)]. rewrite Hd2, Hd1, <- app_assoc. split; [done|]. split; [right; by exists signed, k|].
    right. exists n, height, tx. rewrite Hc in Hh. rewrite Hw1 in Hi. split_and!; try done. by destruct k.
Qed.

End fulfillment.

(** ** Examples *)

Module ExecutorExample.

#[local] Existing Instances example_taproot example_field_connectors example_dust example_txids example_assert
  example_assert_nmul example_graph_profile example_extract example_assert_context example_functions
  example_sighash example_keyagg example_musig example_descriptor example_bdk.
#[local] Existing Instances ProofExample.inclusion ProofExample.encoding ProofExample.checkpoints ProofExample.chain_state.

(** A service whose signatures and keys show what they were made of. *)
#[local] Instance service : SecretService := {|
  general_sign msg _ := msg;
  general_sign_no_tweak msg := msg;
  general_pubkey := 7%N;
  stakechain_sign msg _ := msg;
  musig2_sign_no_tweak msg := msg;
  get_musig2_pub_nonce _ := Val (Ok 1%N);
  get_our_partial_sig _ _ msg := Val (Ok msg);
  get_128_public_key txid vout index := Val [txid; vout; index; 128%N];
  get_256_public_key txid vout index := Val [txid; vout; index; 256%N];
  get_128_signature _ _ _ data := (λ n, [n]) <$> data;
  get_256_signature _ _ _ data := (λ n, [n]) <$> data;
  get_preimg txid vout index := [txid; vout; index];
|}.
#[local] Instance sha256 : Sha256Lib := λ l, foldr N.add 0%N l.
#[local] Instance p2p_keys : P2PKeysLib := {|
  wots256_from_flattened_bytes l := [l];
  wots128_from_flattened_bytes l := [l];
|}.
#[local] Instance environment : ExecEnv := {|
  s2_answers _ := true;
  drive_answer _ := Ok tt;
  sync_answer _ _ := (quiet_run, quiet_run);
  blockchain_height _ := Some 100%N;
  estimate_smart_fee _ := Some 2%N;
  get_block_at := HandlerExample.chain_at;
  gen_range _ := Fin.F1;
|}.
Definition example_handles : OutputHandles (D := unit) := mkOutputHandles 0 example_wallet tt [] [] [].

Definition succeeds {D A} (c : comp (OutputHandles (D := D) * result ContractManagerErr A)) : bool :=
  match c with Val (_, Ok _) => true | _ => false end.
Lemma succeeds_Ok {D A} (c : comp (OutputHandles (D := D) * result ContractManagerErr A)) :
  succeeds c = true → ∃ w a, c = Val (w, Ok a).
Proof. destruct c as [[w [a|]]|]; cbn; intros; try discriminate. eauto. Qed.

Definition example_assertions : Assertions :=
  mkAssertions (replicate 64 1%N) [# replicate 64 3%N] (vreplicate _ []) (vreplicate _ []).

Lemma reused_key_disproves_witness :
  ∃ keys stack,
    let key := withdrawal_fulfillment keys in
    let sig := (λ n, [n]) <$> replicate 64 3%N in
    Vector.hd (g16_public_inputs (groth16 keys)) = key ∧
    A3Leaf_generate_witness_script
      (A3DisprovePublicInputsCommitment 5 (Some (mkDisproveWitness sig sig))) = Val stack ∧
    script_succeeds (public_inputs_script key key 5) stack = true.
Proof.
  destruct (succeeds_Ok (get_wots_pks 5 example_handles)) as (w1 & pks & E1); [vm_refl|].
  destruct (succeeds_Ok (sign_assertions 5 example_assertions example_handles)) as (w2 & sigs & E2); [vm_refl|].
  destruct (reused_key_disproves 5%N example_assertions _ _ _ _ _ _ E1 E2) as (keys & _ & Hk & Hs & _ & Hd).
  rewrite Hs in Hd. destruct (Hd _ eq_refl) as (stack & Hst & Hok & _); [vm_compute; discriminate|].
  exists keys, stack. split_and!; [exact Hk|exact Hst|exact Hok].
Defined.

(** ** A stake in the database *)

Definition example_stake_hash : Sha256Hash := sha256_hash (get_preimg 3 1 0).
Definition example_stake_data : StakeTxData := mkStakeTxData (mkOutPoint 8 0) example_stake_hash [] 7.
#[local] Instance one_stake : StakesDb unit := {|
  add_all_stake_data _ db := (db, Ok tt);
  get_all_stake_data _ db := (db, Ok {[0%N := example_stake_data]});
  set_pre_stake _ _ db := (db, Ok tt);
  get_pre_stake _ db := (db, Ok (Some (mkOutPoint 3 1)));
  add_stake_data _ _ _ db := (db, Ok tt);
  get_stake_data _ _ db := (db, Ok (Some example_stake_data));
|}.
#[local] Instance block_headers : BlockHeaderLib := λ _, tt.
#[local] Instance prover : ProverLib := {|
  Groth16Proof := unit;
  Scalars := unit;
  sp1_prove _ := None;
  generate_assertions _ _ := None;
|}.

Lemma example_db_holds keys :
  db_holds example_config 9 0 (mkOutPoint 3 1) keys (λ _ : unit, True) True.
Proof.
  split; intros db _; (split; [exact I|]); (split; [|reflexivity]).
  - by intros p [= <-].
  - intros q [= <-]. exists example_stake_data. split; reflexivity.
Qed.

Lemma duties_publish_graph_witness :
  ∃ keys context g c w' r,
    PegOutGraph_generate (own_input 9 0 (mkOutPoint 3 1) keys) context 5 PegOutGraphParams_default
      ConnectorParams_default StakeChainParams_default [] = Val (g, c) ∧
    let sigs := [# mkTaprootSignature 11 SighashDefault; mkTaprootSignature 12 SighashDefault;
      mkTaprootSignature 13 SighashDefault; mkTaprootSignature 14 SighashDefault] in
    run_task 0 example_config (FulfillerTask (PublishPayout 0 5
      (covenant_txid (post_assert_tx (chain_post_assert (pog_assert_chain g))))
      (claim_compute_txid (pog_claim_tx g)) 9 sigs)) example_handles = Val (w', r) ∧
    oh_driven w' = [(covenant_signed (payout_tx (pog_payout_tx g)) [11; 12; 13; 14]%N, is_buried)].
Proof.
  destruct (succeeds_Ok (get_wots_pks 5 example_handles)) as (w1 & pks & E1); [vm_refl|].
  destruct (service_keys_sizes _ _ (wots_pks_service _ _ _ _ E1)) as (keys & _ & <-).
  destruct (tx_build_context (ec_operator_table example_config) (ec_network example_config)) as [context|] eqn:Ec;
    [|by vm_compute in Ec].
  destruct (generate_spec (own_input 9 0 (mkOutPoint 3 1) keys) context 5
    PegOutGraphParams_default ConnectorParams_default StakeChainParams_default [])
    as (a3 & b1 & b0 & b3 & Eg & _); [done|done|by left|].
  set (g := graph_spec _ _ _ _ _ _ _ _ _ _ _) in Eg. set (c := graph_connectors _ _ _ _ _) in Eg.
  exists keys, context, g, c.
  destruct (duties_publish_graph example_config 5 9 0 (mkOutPoint 3 1) keys context (λ _, True) True example_handles w1 g c 0
    (PublishPayout 0 5
      (covenant_txid (post_assert_tx (chain_post_assert (pog_assert_chain g))))
      (claim_compute_txid (pog_claim_tx g)) 9 [# mkTaprootSignature 11 SighashDefault; mkTaprootSignature 12 SighashDefault;
      mkTaprootSignature 13 SighashDefault; mkTaprootSignature 14 SighashDefault]) example_handles) as (w' & r & Er & Hr).
  - exact E1.
  - exact Ec.
  - by eexists.
  - done.
  - apply example_db_holds.
  - exact I.
  - done.
  - done.
  - split; by vm_compute.
  - exact Eg.
  - repeat split.
  - exists w', r. split; [exact Eg|]. split; [exact Er|]. destruct Hr as [(_ & _ & [])|(tx & Htx & Hd)]; [exact I|].
    cbn [signed_tx_of_graph] in Htx. rewrite Htx in Hd. exact Hd.
Defined.

(** A withdrawal of deposit 7, at height 100 with a deadline at 200. *)
#[local] Existing Instances ProofExample.script ProofExample.op_return_laws example_bdk_laws.

Definition example_metadata : WithdrawalMetadata := mkWithdrawalMetadata BRIDGE_TAG 0 7 99.

Definition example_stake : StakeTxKind :=
  StakeHead (mkStakeTx (from_unsigned_tx (mkTransaction 3 0 (create_tx_ins [mkOutPoint 8 0; mkOutPoint 3 1])
    [mkTxOut 330 []])) 7 [# Key; Key]).
Definition example_duty : Task := FulfillerTask (HandleFulfillment example_stake example_metadata 42%N 200%N).

(** The stake is driven once, and then the fulfillment. *)
Lemma fronted_withdrawal_read_witness :
  ∃ w' r stake tx, run_task 0 example_config example_duty example_handles = Val (w', r) ∧
    oh_driven w' = [(stake, is_buried); (tx, is_buried)] ∧ signs_stake example_stake stake ∧
    extract_withdrawal_info (E := unit) tx BRIDGE_TAG =
      Val (Ok (mkWithdrawalInfo BRIDGE_TAG 0 7 99 (to_script 42%N)
        (deposit_amount PegOutGraphParams_default - operator_fee PegOutGraphParams_default))).
Proof.
  destruct (succeeds_Ok (run_task 0 example_config example_duty example_handles)) as (w' & r & E); [vm_refl|].
  assert ((λ e, length (output e.1)) <$> oh_driven w' = [1; 2]) as Hlen.
  { enough (Val ((λ e, length (output e.1)) <$> oh_driven w') = Val [1; 2]) as [= ->] by done.
    change (Val ((λ e, length (output e.1)) <$> oh_driven w')) with
      ((λ p, (λ e, length (output e.1)) <$> oh_driven p.1) <$> Val (w', Ok (E := ContractManagerErr) r)).
    rewrite <- E. vm_refl. }
  destruct (fronted_withdrawal_read (E := unit) 0 example_config example_stake example_metadata 42%N 200%N example_handles w' (Ok r))
    as (stakes & fulfillment & Hd & Hs & Hf); [by vm_compute..|exact E|].
  rewrite Hd in Hlen. cbn [oh_driven example_handles app] in Hd, Hlen.
  destruct Hs as [->|(signed & k & -> & Hs & _)].
  { destruct Hf as [->|(n & height & tx & _ & Hne & _)]; [discriminate|by destruct Hne]. }
  destruct Hf as [->|(n & height & tx & -> & _ & _ & _ & _ & _ & Hr & _)].
  { destruct k as [|[|[|k]]]; try discriminate. injection Hlen as E1 E2. congruence. }
  destruct k as [|[|k]]; [discriminate| |destruct k; discriminate].
  exists w', (Ok r), signed, tx. split_and!; [exact E|exact Hd|exact Hs|exact Hr].
Defined.

End ExecutorExample.
