(* ===== verification/ContractActor.v ===== *)
(** * Contract actors ([duty-tracker/src/contract_actor.rs], [algebra/src/req.rs])

    A contract can run in a task of its own, which takes messages from a channel one after the
    other and shares the database with the tasks of the other contracts.  The tasks and their
    clients are interleaved in any order: [world_step] is one step of one of them.  An event takes a
    task two steps, since it waits for the database between processing the event and answering: the
    contract in memory is then ahead of the one in the database, and an error of the database is only
    logged, so that it stays ahead.

    The theorems: whatever the interleaving, a contract goes through the messages it was sent in
    their order and answers as if it were alone ([actors_serial]); at any moment the database holds
    every contract as it was when it was last stored, and without errors of the database nothing that
    was answered is lost ([actors_durable]); and the two maps of the manager of the actors agree
    ([actor_index_agrees]). *)

From S2P Require Import Prelude Bitcoin OperatorTable PogMusig Wots TxTypes Taproot Deposit Predicates Connectors.
From S2P Require Import StakeChain ContractTypes Database StakeChainSM ContractSM ContractExample Persistence ContractLifecycle.

(** ** Requests ([req.rs]) *)

Abbreviation Channel := nat (only parsing).

(** The input and the sender of the response, a channel for one value. *)
Record Req (In : Type) := mkReq { req_input : In; response_sender : Channel }.
Arguments mkReq {_} _ _.
Arguments req_input {_} _.
Arguments response_sender {_} _.

Section actor.
Context `{SerdeLib, BuildProfile, BitcoinLib, SighashLib, InstructionsLib, TaprootLib, DepositLib,
  DescriptorLib, Musig2Lib, TxGraphOps}.
(** Whether the runtime has several threads. *)
Variable multi_thread_graph_gen : bool.

(** ** Messages *)

Inductive ContractActorMessage :=
| ProcessEvent (req : option (Req ContractEvent)) (duty_response_sender : option Channel) (event : option ContractEvent)
| GetState (req : Req unit)
| GetConfig (req : Req unit)
| TransactionFilter (req : Req Transaction)
| GetClaimTxids (req : Req unit)
| GetDepositTxid (req : Req unit)
| GetDepositRequestTxid (req : Req unit)
| GetWithdrawalRequestTxid (req : Req unit)
| GetWithdrawalFulfillmentTxid (req : Req unit)
| GetPogCache (req : Req unit)
| ClearPogCache
| Terminate.

(** What goes through the channels of the responses. *)
Inductive Response :=
| RDuties (r : result TransitionErr (list OperatorDuty))
| RState (state : MachineState)
| RConfig (c : ContractCfg)
| RFilter (b : bool)
| RTxids (txids : list Txid)
| RTxid (txid : Txid)
| RRequestTxid (txid : option Buf32)
| RFulfillmentTxid (txid : option Txid)
| RPogCache (cache : BTreeMap Txid Graph).

(** A response to a request, or the outcome of an event in the channel of the duties. *)
Inductive Reply :=
| Resolve (to : Channel) (r : Response)
| SendDuties (to : Channel) (deposit_txid : Txid) (r : result TransitionErr (list OperatorDuty)).

(** ** The task of an actor *)

Definition persist_state (csm : ContractSM) (persister : Pool (list ContractRow))
    : Pool (list ContractRow) * result ContractPersistErr unit :=
  let c := cfg csm in
  commit (deposit_txid csm) (deposit_idx c) (deposit_tx c) (operator_table c) (mstate csm) persister.

(** How far a message is dealt with in one step of the task: it is answered, and the loop goes on or
    not; or the contract is to be persisted before the answer is sent. *)
Inductive Progress :=
| Answered (sent : list Reply) (goes_on : bool)
| Persisting (sent : list Reply).

Definition resolve {In} (req : Req In) (r : Response) : list Reply := [Resolve (response_sender req) r].

(** Only an event that succeeded is persisted. *)
Definition actor_event (event : ContractEvent) (csm : ContractSM)
    (answer : result TransitionErr (list OperatorDuty) → list Reply) : comp (ContractSM * Progress) :=
  p ← process_contract_event multi_thread_graph_gen event csm;
  let '(csm, r) := p in
  Val (csm, if is_ok r then Persisting (answer r) else Answered (answer r) true).

(** The loop, up to where it waits. *)
Definition actor_turn (this : Txid) (message : ContractActorMessage) (csm : ContractSM) : comp (ContractSM * Progress) :=
  let answer {In} (req : Req In) r := Val (csm, Answered (resolve req r) true) in
  match message with
  | ProcessEvent (Some req) _ _ => actor_event (req_input req) csm (λ r, resolve req (RDuties r))
  | ProcessEvent None duty_response_sender (Some event) =>
      actor_event event csm (λ r, match duty_response_sender with Some sender => [SendDuties sender this r] | None => [] end)
  | ProcessEvent None _ None => Val (csm, Answered [] true)
  | GetState req => answer req (RState (mstate csm))
  | GetConfig req => answer req (RConfig (cfg csm))
  | GetPogCache req => answer req (RPogCache (pog csm))
  | TransactionFilter req => b ← transaction_filter csm (req_input req); answer req (RFilter b)
  | GetClaimTxids req => answer req (RTxids (claim_txids (state (mstate csm))))
  | GetDepositTxid req => answer req (RTxid (deposit_txid csm))
  | GetDepositRequestTxid req => txid ← cfg_deposit_request_txid (cfg csm); answer req (RTxid txid)
  | GetWithdrawalRequestTxid req => answer req (RRequestTxid (withdrawal_request_txid (state (mstate csm))))
  | GetWithdrawalFulfillmentTxid req => answer req (RFulfillmentTxid (withdrawal_fulfillment_txid (state (mstate csm))))
  | ClearPogCache => Val (clear_pog_cache csm, Answered [] true)
  | Terminate => Val (csm, Answered [] false)
  end.

(** ** Tasks and clients *)

(** The task of an actor, the messages in its channel, whether its handle, which holds the
    sender of the channel, still exists, and, while the task waits for the database, what it will send. *)
Record Actor := mkActor {
  actor_csm : ContractSM;
  inbox : list ContractActorMessage;
  running : bool;
  held : bool;
  persisting : option (list Reply);
}.

Definition spawn (c : ContractCfg) (initial_state : MachineState) : Actor := mkActor (restore c initial_state) [] true true None.

Record World := mkWorld {
  actors : gmap Txid Actor;
  database : Pool (list ContractRow);
  (** What each actor has sent. *)
  replies : list (Txid * Reply);
}.

Definition with_actor (this : Txid) (a : Actor) (w : World) : World :=
  mkWorld (<[this := a]> (actors w)) (database w) (replies w).

(** The methods of the handle: the message goes into the channel of the task, unless the task has
    ended; the response is read from the channel of the request, whose sender may have been
    dropped.  The errors are the messages of a [TransitionErr]. *)
Inductive ActorErr := ActorTerminated | NoResponse.

Definition send (this : Txid) (message : ContractActorMessage) (w : World) : World * result ActorErr unit :=
  match actors w !! this with
  | Some a =>
      if running a && held a then
        (with_actor this (mkActor (actor_csm a) (inbox a ++ [message]) true true (persisting a)) w, Ok tt)
      else (w, Err ActorTerminated)
  | None => (w, Err ActorTerminated)
  end.

Definition receive (channel : Channel) (w : World) : option Response :=
  head (omap (λ e : Txid * Reply,
    match e.2 with Resolve to r => if decide (to = channel) then Some r else None | SendDuties _ _ _ => None end)
    (replies w)).

Definition process_event (this : Txid) (event : ContractEvent) (channel : Channel) :=
  send this (ProcessEvent (Some (mkReq event channel)) None None).
Definition process_event_async (this : Txid) (event : ContractEvent) (duty_response_sender : Channel) :=
  send this (ProcessEvent None (Some duty_response_sender) (Some event)).
Definition get_state (this : Txid) (channel : Channel) := send this (GetState (mkReq tt channel)).
Definition get_config (this : Txid) (channel : Channel) := send this (GetConfig (mkReq tt channel)).
Definition get_pog_cache (this : Txid) (channel : Channel) := send this (GetPogCache (mkReq tt channel)).
Definition actor_transaction_filter (this : Txid) (tx : Transaction) (channel : Channel) :=
  send this (TransactionFilter (mkReq tx channel)).
Definition actor_claim_txids (this : Txid) (channel : Channel) := send this (GetClaimTxids (mkReq tt channel)).
Definition actor_deposit_request_txid (this : Txid) (channel : Channel) :=
  send this (GetDepositRequestTxid (mkReq tt channel)).
Definition actor_withdrawal_request_txid (this : Txid) (channel : Channel) :=
  send this (GetWithdrawalRequestTxid (mkReq tt channel)).
Definition actor_withdrawal_fulfillment_txid (this : Txid) (channel : Channel) :=
  send this (GetWithdrawalFulfillmentTxid (mkReq tt channel)).
Definition actor_clear_pog_cache (this : Txid) := send this ClearPogCache.

(** Terminating takes the handle, whether the message can still be sent or not. *)
Definition terminate (this : Txid) (w : World) : World :=
  let w := (send this Terminate w).1 in
  match actors w !! this with
  | Some a => with_actor this (mkActor (actor_csm a) (inbox a) (running a) false (persisting a)) w
  | None => w
  end.

Inductive Label := Send (this : Txid) (message : ContractActorMessage) | Turn (this : Txid)
| Persist (this : Txid) (stored : bool) | Crash (this : Txid) | DropHandle (this : Txid) | Finish (this : Txid).

(** The world after a step of the loop, and after the database has answered. *)
Definition took (this : Txid) (a : Actor) (rest : list ContractActorMessage) (csm : ContractSM) (progress : Progress)
    (w : World) : World :=
  match progress with
  | Answered sent goes_on => mkWorld
      (<[this := mkActor csm (if goes_on : bool then rest else []) goes_on (held a) None]> (actors w))
      (database w) (replies w ++ (pair this <$> sent))
  | Persisting sent => with_actor this (mkActor csm rest true (held a) (Some sent)) w
  end.
Definition persisted (this : Txid) (a : Actor) (sent : list Reply) (database' : Pool (list ContractRow)) (w : World) : World :=
  mkWorld (<[this := mkActor (actor_csm a) (inbox a) true (held a) None]> (actors w)) database'
    (replies w ++ (pair this <$> sent)).

(** A client sends a message, which fails once the task has ended; a task takes a message, or
    panics over it; the database answers a task, with an error or not; a handle is dropped; and a
    task ends when its channel is closed and empty.  Attempts to store a contract that fail leave the
    tables as they are, so that all attempts together are one step, at the last of them.  The messages
    that a task leaves behind are dropped, with the requests in them. *)
Inductive world_step (w : World) : Label → World → Prop :=
| step_send this a message :
    actors w !! this = Some a → running a = true → held a = true →
    world_step w (Send this message)
      (with_actor this (mkActor (actor_csm a) (inbox a ++ [message]) true true (persisting a)) w)
| step_turn this a message rest csm progress :
    actors w !! this = Some a → running a = true → persisting a = None → inbox a = message :: rest →
    actor_turn this message (actor_csm a) = Val (csm, progress) →
    world_step w (Turn this) (took this a rest csm progress w)
| step_persist this a sent database' r :
    actors w !! this = Some a → running a = true → persisting a = Some sent →
    persist_state (actor_csm a) (database w) = (database', r) →
    world_step w (Persist this (is_ok r)) (persisted this a sent database' w)
| step_crash this a message rest :
    actors w !! this = Some a → running a = true → persisting a = None → inbox a = message :: rest →
    actor_turn this message (actor_csm a) = Panic →
    world_step w (Crash this) (with_actor this (mkActor (actor_csm a) [] false (held a) None) w)
| step_drop this a :
    actors w !! this = Some a →
    world_step w (DropHandle this) (with_actor this (mkActor (actor_csm a) (inbox a) (running a) false (persisting a)) w)
| step_finish this a :
    actors w !! this = Some a → running a = true → persisting a = None → inbox a = [] → held a = false →
    world_step w (Finish this) (with_actor this (mkActor (actor_csm a) [] false false None) w).

Inductive world_steps (w : World) : list Label → World → Prop :=
| steps_nil : world_steps w [] w
| steps_snoc trace w' label w'' :
    world_steps w trace w' → world_step w' label w'' → world_steps w (trace ++ [label]) w''.

(** The methods take steps of this kind. *)
Lemma send_steps this message w w' r :
  send this message w = (w', r) →
  match r with
  | Ok _ => world_step w (Send this message) w'
  | Err _ => w' = w ∧ ∀ a, actors w !! this = Some a → running a = false ∨ held a = false
  end.
Proof.
  unfold send. destruct (actors w !! this) as [a|] eqn:Ha; [|by intros [= <- <-]].
  destruct (running a) eqn:Hr, (held a) eqn:Hh; cbn; intros [= <- <-]; try (split; [done|]; intros ? [= <-]; auto).
  by apply step_send.
Qed.

(** The steps, as a function of the label. *)
Definition exec (w : World) (label : Label) : option World :=
  match label with
  | Send this message => match send this message w with (w', Ok _) => Some w' | (_, Err _) => None end
  | DropHandle this =>
      a ← actors w !! this; Some (with_actor this (mkActor (actor_csm a) (inbox a) (running a) false (persisting a)) w)
  | Turn this =>
      a ← actors w !! this;
      match running a, persisting a, inbox a with
      | true, None, message :: rest =>
          match actor_turn this message (actor_csm a) with
          | Val (csm, progress) => Some (took this a rest csm progress w)
          | Panic => None
          end
      | _, _, _ => None
      end
  | Persist this stored =>
      a ← actors w !! this;
      match running a, persisting a with
      | true, Some sent =>
          let '(database', r) := persist_state (actor_csm a) (database w) in
          if decide (is_ok r = stored) then Some (persisted this a sent database' w) else None
      | _, _ => None
      end
  | Crash this =>
      a ← actors w !! this;
      match running a, persisting a, inbox a with
      | true, None, message :: _ =>
          match actor_turn this message (actor_csm a) with
          | Val _ => None
          | Panic => Some (with_actor this (mkActor (actor_csm a) [] false (held a) None) w)
          end
      | _, _, _ => None
      end
  | Finish this =>
      a ← actors w !! this;
      match running a, persisting a, inbox a, held a with
      | true, None, [], false => Some (with_actor this (mkActor (actor_csm a) [] false false None) w)
      | _, _, _, _ => None
      end
  end.

Lemma exec_step w label w' : exec w label = Some w' → world_step w label w'.
Proof.
  destruct label as [this message|this|this stored|this|this|this]; cbn [exec].
  - destruct (send this message w) as [w1 [u|]] eqn:E; [|done]. intros [= <-]. exact (send_steps _ _ _ _ _ E).
  - intros (a & Ha & He)%bind_Some. destruct (running a) eqn:Hr, (persisting a) eqn:Hp, (inbox a) as [|m rest] eqn:Hi; try done.
    destruct (actor_turn _ _ _) as [[csm progress]|] eqn:Et; [|done]. injection He as <-. by eapply step_turn.
  - intros (a & Ha & He)%bind_Some. destruct (running a) eqn:Hr, (persisting a) eqn:Hp; try done.
    destruct (persist_state _ _) as [db r] eqn:Ep. case_decide as Hs; [|done]. subst stored. injection He as <-.
    by apply step_persist.
  - intros (a & Ha & He)%bind_Some. destruct (running a) eqn:Hr, (persisting a) eqn:Hp, (inbox a) as [|m rest] eqn:Hi; try done.
    destruct (actor_turn _ _ _) eqn:Et; [done|]. injection He as <-. by eapply step_crash.
  - intros (a & Ha & [= <-])%bind_Some. by apply step_drop.
  - intros (a & Ha & He)%bind_Some. destruct (running a) eqn:Hr, (persisting a) eqn:Hp, (inbox a) eqn:Hi, (held a) eqn:Hh; try done.
    injection He as <-. by eapply step_finish.
Qed.

Definition execs (w : World) (trace : list Label) : option World :=
  foldl (λ ow label, w ← ow; exec w label) (Some w) trace.

Lemma execs_steps w trace w' : execs w trace = Some w' → world_steps w trace w'.
Proof.
  revert w'. induction trace as [|label trace IH] using rev_ind; intros w'; [intros [= <-]; constructor|].
  unfold execs. rewrite foldl_app. intros (w1 & Hw & He)%bind_Some.
  apply steps_snoc with w1; [by apply IH|by apply exec_step].
Qed.

(** ** A contract on its own *)

(** What a message is for the machine: an event, or, when it clears the cache, a restart. *)
Definition inputs_of (message : ContractActorMessage) : list Input :=
  match message with
  | ProcessEvent (Some req) _ _ => [Feed multi_thread_graph_gen (req_input req)]
  | ProcessEvent None _ (Some event) => [Feed multi_thread_graph_gen event]
  | ClearPogCache => [Restart]
  | _ => []
  end.

(** What is answered when the machine has returned this and is now [csm]. *)
Definition reply_to (this : Txid) (message : ContractActorMessage) (csm : ContractSM) (outs : outputs)
    : comp (list Reply) :=
  match message, outs with
  | ProcessEvent (Some req) _ _, [r] => Val [Resolve (response_sender req) (RDuties r)]
  | ProcessEvent None (Some sender) (Some _), [r] => Val [SendDuties sender this r]
  | GetState req, _ => Val [Resolve (response_sender req) (RState (mstate csm))]
  | GetConfig req, _ => Val [Resolve (response_sender req) (RConfig (cfg csm))]
  | GetPogCache req, _ => Val [Resolve (response_sender req) (RPogCache (pog csm))]
  | TransactionFilter req, _ =>
      b ← transaction_filter csm (req_input req); Val [Resolve (response_sender req) (RFilter b)]
  | GetClaimTxids req, _ => Val [Resolve (response_sender req) (RTxids (claim_txids (state (mstate csm))))]
  | GetDepositTxid req, _ => Val [Resolve (response_sender req) (RTxid (deposit_txid csm))]
  | GetDepositRequestTxid req, _ =>
      txid ← cfg_deposit_request_txid (cfg csm); Val [Resolve (response_sender req) (RTxid txid)]
  | GetWithdrawalRequestTxid req, _ =>
      Val [Resolve (response_sender req) (RRequestTxid (withdrawal_request_txid (state (mstate csm))))]
  | GetWithdrawalFulfillmentTxid req, _ =>
      Val [Resolve (response_sender req) (RFulfillmentTxid (withdrawal_fulfillment_txid (state (mstate csm))))]
  | _, _ => Val []
  end.

(** The machine after the messages, one after the other and without a database; the machine as it
    was after the last event that succeeded; and what is answered. *)
Record Alone := mkAlone { alone_csm : ContractSM; alone_saved : ContractSM; alone_replies : list Reply }.

Definition alone_step (this : Txid) (s : Alone) (message : ContractActorMessage) : comp Alone :=
  p ← run (inputs_of message) (alone_csm s);
  sent ← reply_to this message p.1 p.2;
  Val (mkAlone p.1 (if existsb is_ok p.2 then p.1 else alone_saved s) (alone_replies s ++ sent)).

Definition alone (this : Txid) (messages : list ContractActorMessage) (csm : ContractSM) : comp Alone :=
  foldlM (alone_step this) (mkAlone csm csm []) messages.

(** The messages sent to an actor, the turns it took and what it sent. *)
Definition sent_to (this : Txid) (label : Label) : option ContractActorMessage :=
  match label with Send d m => if decide (d = this) then Some m else None | _ => None end.
Definition is_turn (this : Txid) (label : Label) : bool :=
  match label with Turn d => bool_decide (d = this) | _ => false end.
Definition turns_of (this : Txid) (trace : list Label) : nat := length (List.filter (is_turn this) trace).
Definition replies_of (this : Txid) (log : list (Txid * Reply)) : list Reply :=
  omap (λ e, if decide (e.1 = this) then Some e.2 else None) log.

(** ** Every interleaving *)

Lemma run_one i csm : run [i] csm = input_step i csm.
Proof. cbn [run]. destruct (input_step i csm) as [[sm outs]|]; [|done]. cbn. by rewrite app_nil_r. Qed.

(** Whether a step is followed by the database, and what is sent then or now. *)
Definition saves (progress : Progress) : bool := match progress with Persisting _ => true | Answered _ _ => false end.
Definition to_send (progress : Progress) : list Reply := match progress with Persisting sent | Answered sent _ => sent end.

(** A turn does what the machine does on its own. *)
Lemma turn_alone this message csm csm' progress saved before :
  actor_turn this message csm = Val (csm', progress) →
  alone_step this (mkAlone csm saved before) message
  = Val (mkAlone csm' (if saves progress then csm' else saved) (before ++ to_send progress)).
Proof.
  unfold alone_step. cbn [alone_csm alone_saved alone_replies].
  destruct message as [[req|] sender [event|]|req|req|req|req|req|req|req|req|req| |]; cbn [actor_turn inputs_of]; intros Ht.
  1-3: unfold actor_event in Ht; apply comp_bind_Val in Ht as ([sm r] & Hp & [= <- <-]);
    rewrite run_one; unfold input_step; rewrite Hp; cbn [mbind comp_bind mret comp_ret fst snd];
    try destruct sender; cbn; rewrite ?orb_false_r; by destruct (is_ok r).
  all: try (apply comp_bind_Val in Ht as (b & Hb & Ht)); injection Ht as <- <-.
  all: try destruct sender; cbn; rewrite ?Hb, ?app_nil_r; done.
Qed.

Lemma foldlM_snoc {A S} (f : S → A → comp S) s l x : foldlM f s (l ++ [x]) = s' ← foldlM f s l; f s' x.
Proof.
  revert s. induction l as [|y l IH]; intros s; cbn.
  - by destruct (f s x).
  - destruct (f s y) as [s'|]; cbn; [apply IH|done].
Qed.

Lemma run_app_Val l1 l2 csm csm1 outs1 :
  run l1 csm = Val (csm1, outs1) → run (l1 ++ l2) csm = q ← run l2 csm1; Val (q.1, outs1 ++ q.2).
Proof.
  revert csm outs1. induction l1 as [|i l1 IH]; intros csm outs1.
  { intros [= <- <-]. cbn. by destruct (run l2 csm) as [[]|]. }
  cbn [run app]. intros ([sm o] & Hi & Hr)%comp_bind_Val. apply comp_bind_Val in Hr as ([sm2 o2] & Hr & [= <- <-]).
  rewrite Hi. cbn [mbind comp_bind fst snd] in *. rewrite (IH _ _ Hr). destruct (run l2 sm2) as [[]|]; cbn; [by rewrite app_assoc|done].
Qed.

(** On its own the contract runs the inputs that the messages are. *)
Lemma alone_runs this messages csm s :
  alone this messages csm = Val s → ∃ outs, run (messages ≫= inputs_of) csm = Val (alone_csm s, outs).
Proof.
  unfold alone. revert s. induction messages as [|m l IH] using rev_ind; intros s.
  { intros [= <-]. by eexists. }
  rewrite foldlM_snoc. intros (s1 & [outs Hl]%IH & Hs)%comp_bind_Val.
  unfold alone_step in Hs. apply comp_bind_Val in Hs as ([sm o] & Hr & Hs).
  apply comp_bind_Val in Hs as (sent & _ & [= <-]). rewrite bind_app, (run_app_Val _ _ _ _ _ Hl).
  rewrite bind_singleton, Hr. cbn. by eexists.
Qed.

(** What an actor has become after a trace: it has taken as many messages as it has taken turns. *)
Record acts_alone (this : Txid) (start : Actor) (trace : list Label) (log log' : list (Txid * Reply)) (a : Actor)
    (s : Alone) : Prop := {
  acts_turns : turns_of this trace ≤ length (omap (sent_to this) trace);
  acts_alone_Val : alone this (take (turns_of this trace) (omap (sent_to this) trace)) (actor_csm start) = Val s;
  acts_csm : actor_csm a = alone_csm s;
  acts_replies : replies_of this log' ++ default [] (persisting a) = replies_of this log ++ alone_replies s;
  acts_inbox : running a = true → inbox a = drop (turns_of this trace) (omap (sent_to this) trace);
}.

Lemma replies_of_app this l1 l2 : replies_of this (l1 ++ l2) = replies_of this l1 ++ replies_of this l2.
Proof. apply omap_app. Qed.
Lemma replies_of_sent this d sent : replies_of this (pair d <$> sent) = if decide (d = this) then sent else [].
Proof.
  unfold replies_of. case_decide as E; (induction sent as [|r l IH]; [done|]); cbn;
    rewrite ?decide_True, ?decide_False by done; [f_equal|]; exact IH.
Qed.

Lemma turns_snoc this trace l : turns_of this (trace ++ [l]) = turns_of this trace + (if is_turn this l then 1 else 0).
Proof. unfold turns_of. rewrite List.filter_app, length_app. cbn. by destruct (is_turn this l). Qed.

Definition label_actor (label : Label) : Txid :=
  match label with Send d _ | Turn d | Persist d _ | Crash d | DropHandle d | Finish d => d end.

(** A step of another actor is not seen. *)
Lemma step_other this w w' label :
  world_step w label w' → label_actor label ≠ this →
  actors w' !! this = actors w !! this ∧ replies_of this (replies w') = replies_of this (replies w) ∧
  sent_to this label = None ∧ is_turn this label = false.
Proof.
  intros [d|d a m rest csm [sent goes_on|sent]|d|d|d|d] Hd;
    cbn [label_actor actors with_actor took persisted replies sent_to is_turn] in Hd |- *;
    rewrite lookup_insert_ne by done; split_and!; try done; try (by rewrite decide_False);
    try (by apply bool_decide_eq_false); by rewrite replies_of_app, replies_of_sent, decide_False, app_nil_r.
Qed.

Lemma messages_snoc this trace l :
  omap (sent_to this) (trace ++ [l]) = omap (sent_to this) trace ++ opt_list (sent_to this l).
Proof. rewrite omap_app. cbn. by destruct (sent_to this l). Qed.

(** A step that takes no message of an actor and leaves its contract. *)
Lemma acts_alone_idle this start trace log log1 log2 label a a' s :
  acts_alone this start trace log log1 a s → is_turn this label = false → actor_csm a' = actor_csm a →
  replies_of this log2 ++ default [] (persisting a') = replies_of this log1 ++ default [] (persisting a) →
  (running a' = true → running a = true ∧ inbox a' = inbox a ++ opt_list (sent_to this label)) →
  acts_alone this start (trace ++ [label]) log log2 a' s.
Proof.
  intros [Hle Hs Hcsm Hlog Hin] Ht Hc Hr Hrun.
  split; rewrite ?messages_snoc, ?turns_snoc, ?Ht, ?Nat.add_0_r.
  - rewrite length_app. lia.
  - by rewrite take_app_le.
  - by rewrite Hc.
  - by rewrite Hr.
  - intros [Ha ->]%Hrun. by rewrite (Hin Ha), drop_app_le.
Qed.

(** What a step of its own changes of an actor: a turn goes on from what was answered, and the database is
    waited for after a turn that saves. *)
Definition own_step (label : Label) (a a' : Actor) (s s' : Alone) : Prop :=
  match label with
  | Turn _ => persisting a = None ∧ alone_saved s' = match persisting a' with Some _ => actor_csm a' | None => alone_saved s end
  | Persist _ _ => s' = s ∧ is_Some (persisting a) ∧ persisting a' = None ∧ actor_csm a' = actor_csm a
  | _ => s' = s ∧ persisting a' = persisting a ∧ actor_csm a' = actor_csm a
  end.

Lemma step_acts_alone this start trace log w w' label a s :
  actors w !! this = Some a → acts_alone this start trace log (replies w) a s → world_step w label w' →
  ∃ a' s', actors w' !! this = Some a' ∧ acts_alone this start (trace ++ [label]) log (replies w') a' s' ∧
    if decide (label_actor label = this) then own_step label a a' s s' else s' = s ∧ a' = a.
Proof.
  intros Ha Hact Hstep. destruct (decide (label_actor label = this)) as [Hl|Hne].
  2: { destruct (step_other _ _ _ _ Hstep Hne) as (E1 & E2 & E3 & E4). exists a, s. split; [by rewrite E1|]. split; [|done].
    eapply acts_alone_idle; [done|done|done|by rewrite E2|]. rewrite E3, app_nil_r. done. }
  destruct Hstep as [d b m Hb Hr _|d b m rest csm progress Hb Hr Hp Hi Ht|d b sent db' r Hb Hr Hp Hdb
    |d b m rest Hb Hr Hp Hi Ht|d b Hb|d b Hb Hr Hp Hi _];
    cbn [label_actor] in Hl; subst this; rewrite Hb in Ha; injection Ha as ->.
  - eexists _, s. split; [apply lookup_insert_eq|]. split; [|done].
    eapply acts_alone_idle; [done|done|done|done|]. cbn. by rewrite decide_True.
  - destruct Hact as [Hle Hs Hcsm Hlog Hin]. specialize (Hin Hr). rewrite Hi in Hin.
    assert (omap (sent_to d) trace !! turns_of d trace = Some m) as Hm.
    { rewrite <- (Nat.add_0_r (turns_of d trace)), <- lookup_drop, <- Hin. done. }
    rewrite Hcsm in Ht. destruct s as [sm saved before]. cbn [alone_csm alone_replies] in *.
    pose proof (turn_alone _ _ _ _ _ saved before Ht) as Hst. rewrite Hp, app_nil_r in Hlog.
    exists (match progress with
      | Answered _ goes_on => mkActor csm (if goes_on : bool then rest else []) goes_on (held a) None
      | Persisting sent => mkActor csm rest true (held a) (Some sent) end),
      (mkAlone csm (if saves progress then csm else saved) (before ++ to_send progress)).
    split; [destruct progress; apply lookup_insert_eq|]. split; [|split; [done|by destruct progress]].
    assert (drop (turns_of d trace + 1) (omap (sent_to d) trace) = rest) as Hrest
      by (by rewrite <- drop_drop, <- Hin).
    split; rewrite ?messages_snoc, ?turns_snoc; cbn [sent_to is_turn opt_list];
      rewrite ?bool_decide_true, ?app_nil_r by done.
    + apply lookup_lt_Some in Hm. lia.
    + rewrite Nat.add_1_r, (take_S_r _ _ _ Hm). unfold alone in *. rewrite foldlM_snoc, Hs. cbn. exact Hst.
    + by destruct progress.
    + cbn [alone_replies]. rewrite app_assoc, <- Hlog. destruct progress; [|done].
      cbn [took replies persisting default to_send]. by rewrite replies_of_app, replies_of_sent, decide_True, app_nil_r.
    + rewrite Hrest. by destruct progress as [? []|].
  - eexists _, s. split; [apply lookup_insert_eq|]. split; [|unfold own_step; rewrite Hp; by eauto].
    eapply acts_alone_idle; [done|done|done| |].
    + cbn [persisted replies persisting default]. by rewrite replies_of_app, replies_of_sent, decide_True, app_nil_r, Hp.
    + cbn. by rewrite app_nil_r.
  - eexists _, s. split; [apply lookup_insert_eq|]. split; [|unfold own_step; rewrite Hp; by eauto].
    by eapply acts_alone_idle; [done|done|done|cbn; by rewrite Hp|].
  - eexists _, s. split; [apply lookup_insert_eq|]. split; [|done].
    eapply acts_alone_idle; [done|done|done|done|]. cbn. by rewrite app_nil_r.
  - eexists _, s. split; [apply lookup_insert_eq|]. split; [|unfold own_step; rewrite Hp; by eauto].
    by eapply acts_alone_idle; [done|done|done|cbn; by rewrite Hp|].
Qed.

Lemma starts_alone this start log :
  inbox start = [] → persisting start = None →
  acts_alone this start [] log log start (mkAlone (actor_csm start) (actor_csm start) []).
Proof. intros Hin Hp. split; cbn; rewrite ?Hp, ?app_nil_r; try done. Qed.

(** C12: Actors do not disturb each other.  Take any interleaving of the tasks of any number of
    contracts and of their clients, with messages sent at any time, handles dropped, tasks that
    panic or are terminated, and a database that answers at any time, with an error or not.  Every actor has
    taken the messages it was sent in their order, one in each of its turns, and has the rest before it as
    long as it runs; its contract is what the machine becomes when it runs these messages alone, and it has
    answered each request with what the machine returns, or with what the machine is then, except that the
    answer to the last event comes when the database has answered. *)
Theorem actors_serial w trace w' this start :
  world_steps w trace w' → actors w !! this = Some start → inbox start = [] → persisting start = None →
  ∃ a done s outs, actors w' !! this = Some a ∧ length done = turns_of this trace ∧
    (if running a then omap (sent_to this) trace = done ++ inbox a
     else done `prefix_of` omap (sent_to this) trace) ∧
    alone this done (actor_csm start) = Val s ∧
    replies_of this (replies w') ++ default [] (persisting a) = replies_of this (replies w) ++ alone_replies s ∧
    run (done ≫= inputs_of) (actor_csm start) = Val (actor_csm a, outs).
Proof.
  intros Hsteps Hstart Hin Hp.
  assert (∃ a s, actors w' !! this = Some a ∧ acts_alone this start trace (replies w) (replies w') a s)
    as (a & s & Ha & [Hle Hs Hcsm Hlog Hinbox]).
  { induction Hsteps as [|trace w1 label w2 _ (a & s & Ha & Hact) Hstep].
    - eexists _, _. split; [done|by apply starts_alone].
    - destruct (step_acts_alone _ _ _ _ _ _ _ _ _ Ha Hact Hstep) as (a' & s' & ? & ? & _). eauto. }
  destruct (alone_runs _ _ _ _ Hs) as [outs Hr]. eexists a, _, s, outs. rewrite Hcsm. split_and!; try done.
  - rewrite length_take. lia.
  - destruct (running a); [rewrite (Hinbox eq_refl); by rewrite take_drop|]. apply prefix_take.
Qed.

(** ** The database *)

(** The contracts with their states in the database, each in a task of its own; [failures] is what happens
    to the attempts to store them from now on. *)
Definition launch (c : DbConfig) (failures : list bool) (contracts : list ContractSM) : World :=
  mkWorld (list_to_map ((λ sm, (deposit_txid sm, spawn (cfg sm) (mstate sm))) <$> contracts))
    (mkPool c (tables (foldl persist_call (mkPool c [] []) ((λ sm, Commit (deposit_txid sm) sm) <$> contracts))) failures) [].

(** How many turns an actor had taken when its contract was last stored. *)
Definition count_turns (this : Txid) (n : nat * nat) (label : Label) : nat * nat :=
  match label with
  | Turn d => if decide (d = this) then (S n.1, n.2) else n
  | Persist d true => if decide (d = this) then (n.1, n.1) else n
  | _ => n
  end.
Definition stored_turns (this : Txid) (trace : list Label) : nat := (foldl (count_turns this) (0, 0) trace).2.

(** How many of its turns it has answered. *)
Definition answered_turns (this : Txid) (trace : list Label) (a : Actor) : nat :=
  turns_of this trace - match persisting a with Some _ => 1 | None => 0 end.

Lemma count_turns_fst this trace : (foldl (count_turns this) (0, 0) trace).1 = turns_of this trace.
Proof.
  induction trace as [|l trace IH] using rev_ind; [done|]. rewrite foldl_app, turns_snoc, <- IH. cbn [foldl].
  destruct l as [| |d []| | |]; cbn [count_turns is_turn]; try lia; destruct (decide _); cbn [fst];
    rewrite ?bool_decide_true, ?bool_decide_false by done; lia.
Qed.
Lemma stored_snoc this trace l :
  stored_turns this (trace ++ [l]) = match l with
    | Persist d true => if decide (d = this) then turns_of this trace else stored_turns this trace
    | _ => stored_turns this trace
    end.
Proof.
  unfold stored_turns. rewrite foldl_app, <- count_turns_fst. cbn [foldl].
  destruct l as [| |d []| | |]; cbn [count_turns]; try done; by destruct (decide _).
Qed.

(** The contract in the database: what it was when it was last stored; and, if its database has never
    failed, what it was after the last event that succeeded and was answered. *)
Record stored_as (this : Txid) (start : Actor) (trace : list Label) (a : Actor) (s : Alone) (x : ContractSM) : Prop := {
  stored_le : stored_turns this trace ≤ turns_of this trace;
  stored_then : ∃ s0, alone this (take (stored_turns this trace) (omap (sent_to this) trace)) (actor_csm start) = Val s0 ∧
    mstate x = mstate (alone_csm s0);
  stored_answered : Persist this false ∉ trace →
    (∃ s1, alone this (take (answered_turns this trace a) (omap (sent_to this) trace)) (actor_csm start) = Val s1 ∧
      mstate x = mstate (alone_saved s1)) ∧
    (is_Some (persisting a) → alone_saved s = actor_csm a);
}.

(** A step that neither takes a message of the actor nor answers it from the database. *)
Lemma stored_as_idle this start trace log log' label a a' s x :
  acts_alone this start trace log log' a s → stored_as this start trace a s x →
  is_turn this label = false → (∀ b, label ≠ Persist this b) →
  persisting a' = persisting a → actor_csm a' = actor_csm a → stored_as this start (trace ++ [label]) a' s x.
Proof.
  intros [Hle _ _ _ _] [Hst Hthen Hans] Ht Hl Hp Hc.
  assert (stored_turns this (trace ++ [label]) = stored_turns this trace) as Es.
  { rewrite stored_snoc. destruct label as [| |d []| | |]; try done. rewrite decide_False; [done|]. intros ->. by eapply Hl. }
  assert (turns_of this (trace ++ [label]) = turns_of this trace) as Et by (rewrite turns_snoc, Ht; lia).
  split; unfold answered_turns in *; rewrite ?Es, ?Et, ?Hp, ?Hc, ?messages_snoc; [done| |].
  - by rewrite take_app_le by lia.
  - intros [Hnf _]%not_elem_of_app. rewrite take_app_le by lia. by apply Hans.
Qed.

Lemma stored_as_step start trace log log' label a a' s s' x :
  let this := label_actor label in
  acts_alone this start trace log log' a s → alone this (take (turns_of this (trace ++ [label]))
    (omap (sent_to this) (trace ++ [label]))) (actor_csm start) = Val s' →
  own_step label a a' s s' → stored_as this start trace a s x →
  stored_as this start (trace ++ [label]) a' s' match label with Persist _ true => actor_csm a | _ => x end.
Proof.
  intros this Hact Hs' Hown Hst. destruct label as [d m|d|d stored|d|d|d]; cbn [own_step label_actor] in *; subst this;
    try (destruct Hown as (-> & Hp & Hc); by eapply stored_as_idle).
  - destruct Hown as [Hp Hsv], Hact as [Hle Hs _ _ _], Hst as [Hst Hthen Hans].
    rewrite turns_snoc, messages_snoc in Hs'. cbn [sent_to is_turn opt_list] in Hs'.
    rewrite bool_decide_true, app_nil_r in Hs' by done.
    split; unfold answered_turns in *; rewrite ?stored_snoc, ?turns_snoc, ?messages_snoc; cbn [sent_to is_turn opt_list];
      rewrite ?app_nil_r, ?bool_decide_true by done; [lia|done|].
    intros [Hnf _]%not_elem_of_app. destruct (Hans Hnf) as [(s1 & Hs1 & Hm) _]. rewrite Hp, Nat.sub_0_r, Hs in Hs1.
    injection Hs1 as <-. destruct (persisting a') as [sent|].
    + rewrite Nat.add_sub. split; [by exists s|done].
    + rewrite Nat.sub_0_r. split; [exists s'; by rewrite Hsv|]. by intros [].
  - destruct Hown as (-> & [sent Hp] & Hp' & Hc), Hact as [Hle Hs Hcsm _ _], Hst as [Hst Hthen Hans].
    assert (turns_of d (trace ++ [Persist d stored]) = turns_of d trace) as Et by (rewrite turns_snoc; cbn; lia).
    split; unfold answered_turns in *; rewrite ?Et, ?stored_snoc, ?messages_snoc; cbn [sent_to opt_list];
      rewrite ?app_nil_r, ?decide_True by done.
    + by destruct stored.
    + destruct stored; [|done]. exists s. by rewrite Hcsm.
    + intros Hnf. destruct stored; [|by destruct Hnf; apply elem_of_app; right; left].
      apply not_elem_of_app in Hnf as [Hnf _]. destruct (Hans Hnf) as [_ Hsv]. rewrite Hp', Nat.sub_0_r.
      split; [exists s; split; [done|by rewrite Hsv]|by intros []].
Qed.

(** *** What is in the tables *)

Lemma executes_tables {T} (f : T → T) (p p' : Pool T) r :
  executes f p = (p', r) → tables p' = if is_ok r then f (tables p) else tables p.
Proof.
  unfold executes, execute_with_retries. generalize (max_retry_count (config p)). intros n. revert p.
  induction n as [|n IH]; intros p; cbn [retry_loop]; unfold transaction at 1;
    destruct (faults p) as [|[] fs]; cbn; try (by intros [= <- <-]). by intros ->%IH.
Qed.

Lemma persist_state_tables csm db db' r :
  persist_state csm db = (db', r) →
  if is_ok r then ∃ row, encode_contract (deposit_txid csm, csm) = Ok row ∧ tables db' = insert_contract (tables db) row
  else tables db' = tables db.
Proof.
  unfold persist_state, commit, encode_contract. cbn [fst snd]. destruct (encode_row _ _ _ _ _) as [row|]; [|by intros [= <- <-]].
  destruct (executes _ _) as [p' r'] eqn:E. intros [= <- <-]. apply executes_tables in E.
  destruct r' as [[]|]; cbn in E |- *; [by exists row|done].
Qed.

Lemma step_tables w label w' :
  world_step w label w' →
  match label with
  | Persist d true => ∃ a row, actors w !! d = Some a ∧
      encode_contract (deposit_txid (actor_csm a), actor_csm a) = Ok row ∧
      tables (database w') = insert_contract (tables (database w)) row
  | _ => tables (database w') = tables (database w)
  end.
Proof.
  intros [d|d a m rest csm [] |d a sent db' r Ha _ _ Hp|d|d|d]; try done.
  apply persist_state_tables in Hp. destruct (is_ok r); [|done]. destruct Hp as (row & ? & ?). by exists a, row.
Qed.

Lemma mapM_Ok_of_Forall2 {A B E} (f : A → result E B) l k : Forall2 (λ a b, f a = Ok b) l k → mapM f l = Ok k.
Proof. induction 1 as [|a b l k Ha _ IH]; [done|]. cbn. rewrite Ha. cbn. fold (mapM f l). by rewrite IH. Qed.

Lemma acts_alone_cfg this start trace log log' a s :
  acts_alone this start trace log log' a s → cfg (actor_csm a) = cfg (actor_csm start).
Proof.
  intros [_ Hs -> _ _]. destruct (alone_runs _ _ _ _ Hs) as [outs Hr]. by destruct (run_timeline _ _ _ _ Hr).
Qed.

Lemma NoDup_fmap_same {A B} (f : A → B) l x y : NoDup (f <$> l) → x ∈ l → y ∈ l → f x = f y → x = y.
Proof.
  intros Hnd [i Hi]%list_elem_of_lookup [j Hj]%list_elem_of_lookup Hf.
  assert (i = j) as ->; [|congruence]. eapply NoDup_lookup; [exact Hnd|..]; rewrite list_lookup_fmap, ?Hi, ?Hj; cbn; [done|by rewrite Hf].
Qed.

Lemma latest_snoc idx commits e :
  latest idx (commits ++ [e]) = if decide (deposit_idx (cfg e.2) = idx) then Some e.2 else latest idx commits.
Proof.
  unfold latest. rewrite filter_app, filter_cons, filter_nil.
  case_decide; [by rewrite last_snoc|by rewrite app_nil_r].
Qed.

Lemma latest_each contracts sm :
  NoDup ((λ sm, deposit_idx (cfg sm)) <$> contracts) → sm ∈ contracts →
  latest (deposit_idx (cfg sm)) ((λ sm, (deposit_txid sm, sm)) <$> contracts) = Some sm.
Proof.
  induction contracts as [|x l IH] using rev_ind; intros Hnd Hsm; [by apply elem_of_nil in Hsm|].
  rewrite fmap_app. cbn [fmap list_fmap]. rewrite latest_snoc. cbn [snd]. case_decide as Hi.
  - f_equal. apply (NoDup_fmap_same _ _ _ _ Hnd); [|done|done]. apply elem_of_app. right. by left.
  - apply elem_of_app in Hsm as [Hsm| ->%list_elem_of_singleton]; [|done]. apply IH; [|done].
    rewrite fmap_app in Hnd. by apply NoDup_app in Hnd as [? _].
Qed.

Section durable.
Variables (c : DbConfig) (failures : list bool) (contracts : list ContractSM).
Hypothesis Htxids : NoDup (deposit_txid <$> contracts).
Hypothesis Hidxs : NoDup ((λ sm, deposit_idx (cfg sm)) <$> contracts).
Hypothesis Hencodes : Forall (λ sm, is_ok (encode_contract (deposit_txid sm, sm)) = true) contracts.

(** The tables are what these commits have made of them, and the last commit of each contract is the one
    that is stored. *)
Record durable (trace : list Label) (w : World) (commits : list (Txid * ContractSM)) (rows : list ContractRow) : Prop := {
  durable_rows : Forall2 (λ e row, encode_contract e = Ok row) commits rows;
  durable_tables : tables (database w) = foldl insert_contract [] rows;
  durable_commits : ∀ e, e ∈ commits → ∃ sm, sm ∈ contracts ∧ e.1 = deposit_txid sm ∧ cfg e.2 = cfg sm;
  durable_actors : ∀ d a, actors w !! d = Some a → ∃ sm, sm ∈ contracts ∧ d = deposit_txid sm;
  durable_latest : ∀ sm, sm ∈ contracts → ∃ a s x, actors w !! deposit_txid sm = Some a ∧
    acts_alone (deposit_txid sm) (spawn (cfg sm) (mstate sm)) trace [] (replies w) a s ∧
    latest (deposit_idx (cfg sm)) commits = Some x ∧ cfg x = cfg sm ∧
    stored_as (deposit_txid sm) (spawn (cfg sm) (mstate sm)) trace a s x;
}.

Lemma commits_committed (commits : list (Txid * ContractSM)) :
  mjoin (committed <$> ((λ e, Commit e.1 e.2) <$> commits)) = commits.
Proof. induction commits as [|[k sm] l IH]; [done|]. cbn. f_equal. exact IH. Qed.

Lemma launch_durable : ∃ rows, durable [] (launch c failures contracts) ((λ sm, (deposit_txid sm, sm)) <$> contracts) rows.
Proof.
  set (commits := (λ sm, (deposit_txid sm, sm)) <$> contracts).
  destruct (mapM_Ok_Forall2 encode_contract commits) as (rows & Hrows & Hall).
  { unfold commits. apply Forall_fmap. exact Hencodes. }
  exists rows. split.
  - exact Hall.
  - unfold launch. cbn [database tables]. rewrite (persist_history c _ [] rows); [done|].
    rewrite <- Hrows. f_equal. rewrite <- (commits_committed commits). unfold commits. do 2 f_equal. by rewrite <- list_fmap_compose.
  - intros e (sm & -> & Hsm)%list_elem_of_fmap. by exists sm.
  - intros d a Ha. apply elem_of_list_to_map_2, list_elem_of_fmap in Ha as (sm & [= -> _] & Hsm). by exists sm.
  - intros sm Hsm. eexists _, _, sm. split_and!.
    + apply elem_of_list_to_map_1; [by rewrite <- list_fmap_compose|]. apply list_elem_of_fmap. by exists sm.
    + by apply starts_alone.
    + by apply latest_each.
    + done.
    + split; [done|by eexists|]. intros _. split; [by eexists|]. by intros [].
Qed.

(** What a step commits, if it does. *)
Lemma step_commits trace w commits rows label w' :
  durable trace w commits rows → world_step w label w' →
  ∃ own a rows', own ∈ contracts ∧ label_actor label = deposit_txid own ∧ actors w !! label_actor label = Some a ∧
    cfg (actor_csm a) = cfg own ∧ let added := match label with Persist d true => [(d, actor_csm a)] | _ => [] end in
    Forall2 (λ e row, encode_contract e = Ok row) (commits ++ added) rows' ∧
    tables (database w') = foldl insert_contract [] rows'.
Proof.
  intros [Hrows Htab _ Hact Hlat] Hstep. pose proof (step_tables _ _ _ Hstep) as Ht.
  assert (∃ a0, actors w !! label_actor label = Some a0) as [a0 Ha0] by (destruct Hstep; cbn; eauto).
  destruct (Hact _ _ Ha0) as (own & Hown & Heq). destruct (Hlat own Hown) as (a & s & x & Ha & Hal & _).
  pose proof (acts_alone_cfg _ _ _ _ _ _ _ Hal) as Hcfg. cbn in Hcfg. rewrite Heq in Ha0. rewrite Ha in Ha0. injection Ha0 as <-.
  exists own, a. destruct label as [d ?|d|d []|d|d|d]; cbn [label_actor] in *; subst d;
    try (exists rows; split_and!; [done..|by rewrite app_nil_r|by rewrite Ht]).
  destruct Ht as (a1 & row & Ha1 & Hr & Ht). rewrite Ha in Ha1. injection Ha1 as <-.
  exists (rows ++ [row]). split_and!; try done; [|by rewrite foldl_app, Ht, Htab].
  apply Forall2_app; [done|]. constructor; [|constructor]. unfold deposit_txid in Hr at 1. by rewrite Hcfg in Hr.
Qed.

Lemma step_durable trace w commits rows label w' :
  durable trace w commits rows → world_step w label w' → ∃ commits' rows', durable (trace ++ [label]) w' commits' rows'.
Proof.
  intros Hdur Hstep. destruct (step_commits _ _ _ _ _ _ Hdur Hstep) as (own & a & rows' & Hown & Heq & Ha & Hcfg & Hrows' & Htab').
  destruct Hdur as [_ _ Hcom Hact Hlat]. eexists _, rows'. split; [exact Hrows'|exact Htab'|..].
  - intros e [He|He]%elem_of_app; [by apply Hcom|]. destruct label as [| |d []| | |]; try by apply elem_of_nil in He.
    apply list_elem_of_singleton in He as ->. by exists own.
  - intros d b Hb. destruct (decide (label_actor label = d)) as [<-|Hne]; [eauto|].
    destruct (step_other _ _ _ _ Hstep Hne) as (E & _). rewrite E in Hb. eauto.
  - intros sm Hsm. destruct (Hlat sm Hsm) as (b & s & x & Hb & Hal & Hx & Hcx & Hst).
    destruct (step_acts_alone _ _ _ _ _ _ _ _ _ Hb Hal Hstep) as (b' & s' & Hb' & Hal' & Hsv).
    exists b', s'. destruct (decide (label_actor label = deposit_txid sm)) as [E|Hne].
    + rewrite <- E in *. rewrite Ha in Hb. injection Hb as <-.
      assert (sm = own) as -> by (eapply (NoDup_fmap_same _ _ _ _ Htxids); congruence).
      exists match label with Persist _ true => actor_csm a | _ => x end. split_and!; [done|done| | |].
      * destruct label as [| |d []| | |]; rewrite ?app_nil_r; try done. rewrite latest_snoc. cbn [snd].
        by rewrite decide_True by (by rewrite Hcfg).
      * by destruct label as [| |d []| | |].
      * by eapply stored_as_step; [exact Hal|apply (acts_alone_Val _ _ _ _ _ _ _ Hal')|..].
    + destruct Hsv as [-> ->], (step_other _ _ _ _ Hstep Hne) as (_ & _ & _ & Ht). exists x. split_and!; try done.
      * destruct label as [| |d []| | |]; rewrite ?app_nil_r; try done. rewrite latest_snoc. cbn [snd].
        rewrite decide_False; [done|]. rewrite Hcfg. intros E.
        apply (NoDup_fmap_same _ _ _ _ Hidxs Hown Hsm) in E as ->. done.
      * eapply stored_as_idle; try done. intros b' ->. done.
Qed.

Lemma steps_durable trace w :
  world_steps (launch c failures contracts) trace w → ∃ commits rows, durable trace w commits rows.
Proof.
  induction 1 as [|trace w1 label w2 _ (commits & rows & Hd) Hstep]; [eexists; apply launch_durable|].
  by eapply step_durable.
Qed.

End durable.

(** C11: What a crash loses.  Whatever the interleaving of the actors and of their clients, whatever the
    database answers, and at whatever moment the node stops, loading from a database that answers gives
    every contract back exactly once, as the machine is after the messages that the contract had taken when
    it was last stored.  If no attempt to store the contract has failed for good, this is also the contract
    after the last event that succeeded among those it has answered: only an event for which the task is
    waiting for the database, and which is not answered yet, may be lost.  No two contracts may have the
    same deposit or the same index, they can be encoded at the start, and all have the parameters that are
    used for loading. *)
Theorem actors_durable `{!SerdeLaws} c failures contracts trace w n cp gp sp scp :
  NoDup (deposit_txid <$> contracts) → NoDup ((λ sm, deposit_idx (cfg sm)) <$> contracts) →
  Forall (λ sm, is_ok (encode_contract (deposit_txid sm, sm)) = true) contracts →
  Forall (λ sm, cfg_params (cfg sm) = (n, cp, gp, sp, scp)) contracts →
  world_steps (launch c failures contracts) trace w →
  ∃ l, (load_all n cp gp sp scp (mkPool c (tables (database w)) [])).2 = Ok l ∧
    NoDup ((λ cs, deposit_idx cs.1) <$> l) ∧
    (∀ cs, cs ∈ l ↔ ∃ sm s, sm ∈ contracts ∧ let this := deposit_txid sm in
      alone this (take (stored_turns this trace) (omap (sent_to this) trace)) (restore (cfg sm) (mstate sm)) = Val s ∧
      cs = (cfg sm, mstate (alone_csm s))) ∧
    ∀ sm a, sm ∈ contracts → let this := deposit_txid sm in
      actors w !! this = Some a → Persist this false ∉ trace →
      ∃ s, alone this (take (answered_turns this trace a) (omap (sent_to this) trace)) (restore (cfg sm) (mstate sm)) = Val s ∧
        (cfg sm, mstate (alone_saved s)) ∈ l.
Proof.
  intros Htx Hix Henc Hparams (commits & rows & [Hrows Htab Hcom _ Hlat])%steps_durable; [|done..].
  pose proof (commits_committed commits) as Hmj.
  destruct (load_all_latest c ((λ e, Commit e.1 e.2) <$> commits) n cp gp sp scp) as (l & Hl & Hnd & Hiff); rewrite ?Hmj.
  - eapply Forall2_Forall_l; [exact Hrows|]. apply Forall_true. by intros row e ->.
  - intros e e' (sm & Hsm & -> & ->)%Hcom (sm' & Hsm' & -> & ->)%Hcom E.
    by apply (NoDup_fmap_same _ _ _ _ Htx Hsm Hsm') in E as ->.
  - apply Forall_forall. intros e (sm & Hsm & _ & ->)%Hcom. by apply (proj1 (Forall_forall _ _) Hparams).
  - rewrite (persist_history c _ [] rows) in Hl by (rewrite Hmj; by apply mapM_Ok_of_Forall2). rewrite <- Htab in Hl.
    assert (∀ cs, cs ∈ l ↔ ∃ sm, sm ∈ contracts ∧ ∃ x, latest (deposit_idx (cfg sm)) commits = Some x ∧ cs = (cfg sm, mstate x)) as Hel.
    { intros cs. rewrite Hiff, Hmj. split; [|intros (sm & Hsm & x & Hx & ->)].
      - intros (x & Hx & ->). cbn [fst] in Hx. pose proof Hx as Hy. apply fmap_Some in Hy as (e & He & ->).
        apply last_Some_elem_of, list_elem_of_filter in He as [_ He]. destruct (Hcom e He) as (sm & Hsm & _ & Hc).
        exists sm. split; [done|]. rewrite <- Hc. by eexists.
      - destruct (Hlat sm Hsm) as (_ & _ & y & _ & _ & Hy & Hc & _). rewrite Hx in Hy. injection Hy as <-.
        exists x. by rewrite Hc. }
    exists l. split_and!; [done|done| |].
    + intros cs. rewrite Hel. split.
      * intros (sm & Hsm & x & Hx & ->). destruct (Hlat sm Hsm) as (a & s & y & _ & _ & Hy & _ & [_ (s0 & Hs0 & Hm) _]).
        rewrite Hx in Hy. injection Hy as <-. exists sm, s0. by rewrite Hm.
      * intros (sm & s & Hsm & Hs & ->). destruct (Hlat sm Hsm) as (a & t & y & _ & _ & Hy & _ & [_ (s0 & Hs0 & Hm) _]).
        exists sm. split; [done|]. exists y. cbn in Hs0. rewrite Hs in Hs0. injection Hs0 as <-. by rewrite Hm.
    + intros sm a Hsm this Ha Hnf. destruct (Hlat sm Hsm) as (b & t & y & Hb & _ & Hy & _ & [_ _ Hans]).
      fold this in Hb. rewrite Ha in Hb. injection Hb as <-. destruct (Hans Hnf) as [(s & Hs & Hm) _].
      exists s. split; [done|]. apply Hel. exists sm. split; [done|]. exists y. by rewrite Hm.
Qed.

End actor.

(** ** The manager of the actors *)

(** The handle of an actor: the deposit and the sender of its channel. *)
Record ContractActor := mkContractActor { ca_deposit_txid : Txid; ca_event_sender : Channel }.

Module Manager.

Record ContractActorManager := mkContractActorManager {
  handles : BTreeMap Txid ContractActor;
  deposit_request_to_deposit : BTreeMap Txid Txid;
}.

Definition new : ContractActorManager := mkContractActorManager ∅ ∅.

Definition add_actor (actor : ContractActor) (deposit_request_txid : Txid) (m : ContractActorManager)
    : ContractActorManager :=
  let deposit_txid := ca_deposit_txid actor in
  mkContractActorManager (<[deposit_txid := actor]> (handles m))
    (<[deposit_request_txid := deposit_txid]> (deposit_request_to_deposit m)).

(** Only the first request that leads to the deposit is removed from the index. *)
Definition remove_actor (deposit_txid : Txid) (m : ContractActorManager) : ContractActorManager * option ContractActor :=
  match handles m !! deposit_txid with
  | Some actor =>
      let index := deposit_request_to_deposit m in
      let index := match List.find (λ e, bool_decide (e.2 = deposit_txid)) (bt_iter index) with
        | Some (deposit_request_txid, _) => delete deposit_request_txid index
        | None => index
        end in
      (mkContractActorManager (delete deposit_txid (handles m)) index, Some actor)
  | None => (m, None)
  end.

Definition get_actor (deposit_txid : Txid) (m : ContractActorManager) : option ContractActor := handles m !! deposit_txid.
Definition get_actor_by_deposit_request_txid (deposit_request_txid : Txid) (m : ContractActorManager)
    : option ContractActor :=
  deposit_txid ← deposit_request_to_deposit m !! deposit_request_txid; handles m !! deposit_txid.
Definition len (m : ContractActorManager) : nat := size (handles m).
Definition is_empty (m : ContractActorManager) : bool := len m =? 0.

Definition is_resolved (s : ContractState) : bool := match s with Resolved _ _ _ _ _ => true | _ => false end.

(** The actors whose answer to [get_state], if they answer, is a resolved contract are removed; they
    are then terminated, and an error of that is only logged. *)
Definition cleanup_completed_contracts (get_state : Txid → option MachineState) (m : ContractActorManager)
    : ContractActorManager :=
  let to_remove := List.filter (λ deposit_txid,
    match get_state deposit_txid with Some s => is_resolved (state s) | None => false end) (bt_keys (handles m)) in
  foldl (λ m deposit_txid, (remove_actor deposit_txid m).1) m to_remove.

(** ** Properties *)

Inductive Op :=
| Add (actor : ContractActor) (deposit_request_txid : Txid)
| Remove (deposit_txid : Txid)
| Cleanup (get_state : Txid → option MachineState).

Definition apply_op (m : ContractActorManager) (op : Op) : ContractActorManager :=
  match op with
  | Add actor r => add_actor actor r m
  | Remove d => (remove_actor d m).1
  | Cleanup get_state => cleanup_completed_contracts get_state m
  end.

Section agrees.
(** The requests and the deposits that belong together. *)
Variable paired : Txid → Txid → Prop.
Hypothesis Hpaired : ∀ r d r' d', paired r d → paired r' d' → r = r' ↔ d = d'.

(** Every entry of the index leads to an actor, and every actor has one. *)
Record index_wf (m : ContractActorManager) : Prop := {
  index_entry : ∀ r d, deposit_request_to_deposit m !! r = Some d → paired r d ∧ is_Some (handles m !! d);
  index_total : ∀ d a, handles m !! d = Some a → ca_deposit_txid a = d ∧ ∃ r, deposit_request_to_deposit m !! r = Some d;
}.

Lemma add_wf actor r m : paired r (ca_deposit_txid actor) → index_wf m → index_wf (add_actor actor r m).
Proof.
  intros Hp [He Ht]. split; cbn.
  - intros r' d [[<- <-]|[Hne Hr]]%lookup_insert_Some; [by rewrite lookup_insert_eq|].
    destruct (He r' d Hr) as [? [a Ha]]. split; [done|]. rewrite lookup_insert_is_Some'. eauto.
  - intros d a [[<- <-]|[Hne Ha]]%lookup_insert_Some; [split; [done|]; exists r; by rewrite lookup_insert_eq|].
    destruct (Ht d a Ha) as [? [r' Hr']]. split; [done|]. exists r'. rewrite lookup_insert_ne; [done|].
    intros <-. destruct (He r d Hr') as [Hp' _]. apply Hne. by apply (Hpaired r _ r _).
Qed.

Lemma remove_spec d m : index_wf m →
  handles (remove_actor d m).1 = delete d (handles m) ∧ index_wf (remove_actor d m).1.
Proof.
  intros [He Ht]. unfold remove_actor. destruct (handles m !! d) as [a|] eqn:Ha.
  2: { cbn. split; [by rewrite delete_id|done]. }
  destruct (Ht d a Ha) as [_ [r Hr]]. cbn [fst handles]. split; [done|].
  destruct (List.find _ _) as [[r' d']|] eqn:Hf.
  - apply List.find_some in Hf as [Hin Hb]. apply list_elem_of_In, elem_of_bt_iter in Hin.
    apply bool_decide_eq_true in Hb. cbn in Hb. subst d'.
    assert (r' = r) as -> by (destruct (He _ _ Hin), (He _ _ Hr); by apply (Hpaired _ d _ d)).
    split; cbn.
    + intros r1 d1 [Hne Hr1]%lookup_delete_Some. destruct (He r1 d1 Hr1) as [Hp1 [a1 Ha1]]. split; [done|].
      rewrite lookup_delete_ne; [eauto|]. intros <-. destruct (He _ _ Hr). apply Hne. by apply (Hpaired _ d _ d).
    + intros d1 a1 [Hne Ha1]%lookup_delete_Some. destruct (Ht d1 a1 Ha1) as [? [r1 Hr1]]. split; [done|].
      exists r1. rewrite lookup_delete_ne; [done|]. intros <-. congruence.
  - exfalso. assert (bool_decide ((r, d).2 = d) = false) as Hb%bool_decide_eq_false; [|done].
    by apply (List.find_none _ _ Hf), list_elem_of_In, elem_of_bt_iter.
Qed.

Lemma remove_all_spec l m : index_wf m →
  (∀ d, handles (foldl (λ m d, (remove_actor d m).1) m l) !! d = if decide (d ∈ l) then None else handles m !! d) ∧
  index_wf (foldl (λ m d, (remove_actor d m).1) m l).
Proof.
  revert m. induction l as [|x l IH]; intros m Hwf; cbn [foldl].
  - split; [|done]. intros d. rewrite decide_False; [done|]. by intros ?%elem_of_nil.
  - destruct (remove_spec x m Hwf) as [Hh Hwf']. destruct (IH _ Hwf') as [Hl Hwf'']. split; [|done].
    intros d. rewrite Hl, Hh. destruct (decide (d ∈ l)) as [Hd|Hd].
    + rewrite decide_True; [done|]. by right.
    + destruct (decide (d = x)) as [->|Hne]; [by rewrite lookup_delete_eq, decide_True by (by left)|].
      rewrite lookup_delete_ne, decide_False by (try done; by intros [?|?]%elem_of_cons). done.
Qed.

Lemma cleanup_spec get_state m : index_wf m →
  (∀ d, get_actor d (cleanup_completed_contracts get_state m)
    = if (match get_state d with Some s => is_resolved (state s) | None => false end) then None else get_actor d m) ∧
  index_wf (cleanup_completed_contracts get_state m).
Proof.
  intros Hwf. unfold cleanup_completed_contracts, get_actor. edestruct remove_all_spec as [Hl Hwf']; [exact Hwf|].
  split; [|exact Hwf']. intros d. rewrite Hl. case_decide as Hd.
  - apply list_elem_of_In, List.filter_In in Hd as [_ ->]. done.
  - destruct (handles m !! d) as [a|] eqn:Ha; [|by case_match].
    destruct (match get_state d with Some _ => _ | None => _ end) eqn:E; [|done]. destruct Hd.
    apply list_elem_of_In, List.filter_In. split; [|done]. apply list_elem_of_In, elem_of_bt_keys. eauto.
Qed.

Lemma ops_wf ops :
  (∀ a r, Add a r ∈ ops → paired r (ca_deposit_txid a)) → index_wf (foldl apply_op new ops).
Proof.
  induction ops as [|op ops IH] using rev_ind; intros Hadd; [by split; cbn; intros ? ? ?%lookup_empty_Some|].
  rewrite foldl_app. cbn. assert (index_wf (foldl apply_op new ops)) as Hwf.
  { apply IH. intros a r Hin. apply Hadd, elem_of_app. by left. }
  destruct op as [a r|d|get_state]; cbn.
  - apply add_wf; [|done]. apply Hadd, elem_of_app. right. by left.
  - by apply remove_spec.
  - by apply cleanup_spec.
Qed.

End agrees.

(** The index of the manager agrees with its actors.  After any history of actors added, removed
    and cleaned up, in which a request and a deposit that were added together are never added with
    another one, the actor found by the request is the one found by the deposit; no entry of the
    index is left behind by an actor that was removed; and cleaning up then removes the actors that
    report a resolved contract, and no other. *)
Theorem actor_index_agrees ops :
  (∀ a r a' r', Add a r ∈ ops → Add a' r' ∈ ops → r = r' ↔ ca_deposit_txid a = ca_deposit_txid a') →
  let m := foldl apply_op new ops in
  (∀ a r, Add a r ∈ ops → get_actor_by_deposit_request_txid r m = get_actor (ca_deposit_txid a) m) ∧
  (∀ r d, deposit_request_to_deposit m !! r = Some d → is_Some (get_actor d m)) ∧
  ∀ get_state d, get_actor d (cleanup_completed_contracts get_state m)
    = if (match get_state d with Some s => is_resolved (state s) | None => false end) then None else get_actor d m.
Proof.
  intros Hone m. set (paired r d := ∃ a, Add a r ∈ ops ∧ ca_deposit_txid a = d).
  assert (∀ r d r' d', paired r d → paired r' d' → r = r' ↔ d = d') as Hpaired.
  { intros r d r' d' (a & Ha & <-) (a' & Ha' & <-). by apply Hone. }
  assert (index_wf paired m) as Hwf by (apply ops_wf; [done|]; intros a r Ha; by exists a).
  split_and!; [| |intros; by apply (cleanup_spec paired)].
  - intros a r Ha. destruct Hwf as [He Ht]. unfold get_actor_by_deposit_request_txid, get_actor.
    destruct (deposit_request_to_deposit m !! r) as [d|] eqn:Hr.
    + destruct (He r d Hr) as [Hp _]. cbn. f_equal. apply (Hpaired r d r _ Hp); [by exists a|done].
    + cbn. destruct (handles m !! ca_deposit_txid a) as [a'|] eqn:Ha'; [|done].
      destruct (Ht _ _ Ha') as [_ [r' Hr']]. destruct (He _ _ Hr') as [Hp' _].
      assert (r' = r) as -> by (apply (Hpaired r' _ r _ Hp' (ex_intro _ a (conj Ha eq_refl))); done). congruence.
  - intros r d Hr. by destruct (index_entry _ _ Hwf r d Hr).
Qed.

End Manager.

(** ** Examples *)

Module ActorExample.

#[local] Existing Instances example_profile example_bitcoin example_sighash example_instructions example_taproot
  example_deposit example_descriptor example_keyagg example_musig example_graph example_serde.

(** A contract that sees a block, which is stored, is asked for its state, sees a block that is not the next,
    and has not stored the next one when the node stops. *)
Definition contract : ContractSM := mkContractSM _ example_cfg (mkMachineState 90 Aborted) ∅.
Definition this : Txid := deposit_txid contract.
Definition example_trace : list Label :=
  [Send this (ProcessEvent None (Some 1) (Some (EvBlock 91))); Send this (GetState (mkReq tt 2)); Turn this;
   Send this (ProcessEvent (Some (mkReq (EvBlock 95) 3)) None None); Persist this true; Turn this; Turn this;
   Send this (ProcessEvent None (Some 4) (Some (EvBlock 92))); Turn this].

Definition example_end : option World := execs false (launch (mkDbConfig 0) [] [contract]) example_trace.

Lemma actors_serial_witness :
  ∃ w a done outs, example_end = Some w ∧ actors w !! this = Some a ∧ length done = 4 ∧
    run (done ≫= inputs_of false) (restore example_cfg (mkMachineState 90 Aborted)) = Val (actor_csm a, outs).
Proof.
  destruct example_end as [w|] eqn:E; [|by vm_compute in E]. exists w.
  destruct (actors_serial false (launch (mkDbConfig 0) [] [contract]) example_trace w this (spawn example_cfg (mkMachineState 90 Aborted)))
    as (a & done & s & outs & Ha & Hlen & _ & _ & _ & Hr).
  - by apply execs_steps.
  - vm_compute; reflexivity.
  - reflexivity.
  - reflexivity.
  - exists a, done, outs. split_and!; [done|exact Ha|exact Hlen|exact Hr].
Defined.

Lemma actors_durable_witness :
  ∃ w l, example_end = Some w ∧
    (load_all 1 ConnectorParams_default PegOutGraphParams_default (mkRollupParams 20) StakeChainParams_default
      (mkPool (mkDbConfig 0) (tables (database w)) [])).2 = Ok l ∧ (example_cfg, mkMachineState 91 Aborted) ∈ l.
Proof.
  destruct example_end as [w|] eqn:E; [|by vm_compute in E].
  destruct (actors_durable false (mkDbConfig 0) [] [contract] example_trace w 1%N ConnectorParams_default
    PegOutGraphParams_default (mkRollupParams 20) StakeChainParams_default) as (l & Hl & _ & Hiff & _).
  - apply NoDup_singleton.
  - apply NoDup_singleton.
  - constructor; [reflexivity|constructor].
  - constructor; [reflexivity|constructor].
  - by apply execs_steps.
  - exists w, l. split_and!; [done|exact Hl|]. apply Hiff. eexists contract, _. split; [by left|]. cbn zeta.
    split; vm_compute; reflexivity.
Defined.

(** A store that fails: the event is answered, and the database keeps the contract as it was. *)
Lemma failed_store_example :
  ∃ w, execs false (launch (mkDbConfig 0) [true] [contract])
      [Send this (ProcessEvent None (Some 1) (Some (EvBlock 91))); Turn this; Persist this false] = Some w ∧
    length (replies w) = 1 ∧ tables (database w) = tables (database (launch (mkDbConfig 0) [] [contract])).
Proof. eexists. by vm_compute. Qed.

Lemma actor_index_agrees_witness :
  let ops := [Manager.Add (mkContractActor 10 1) 5; Manager.Add (mkContractActor 20 2) 6; Manager.Remove 10] in
  Manager.get_actor_by_deposit_request_txid 5 (foldl Manager.apply_op Manager.new ops) = None ∧
  Manager.get_actor_by_deposit_request_txid 6 (foldl Manager.apply_op Manager.new ops) = Some (mkContractActor 20 2).
Proof.
  intros ops. destruct (Manager.actor_index_agrees ops) as [Hget _].
  - intros a r a' r' Ha Ha'. unfold ops in Ha, Ha'.
    apply list_elem_of_In in Ha as [[= <- <-]|[[= <- <-]|[|[]]]], Ha' as [[= <- <-]|[[= <- <-]|[|[]]]]; done.
  - split; [rewrite (Hget (mkContractActor 10 1)) by (by left)|rewrite (Hget (mkContractActor 20 2)) by (by right; left)];
      reflexivity.
Defined.

End ActorExample.
