(* ===== verification/SecretWire.v ===== *)
(** * The secret service over the wire ([secret-service-proto], [-server] and [-client])

    The node reaches the secret service over a connection: each method of the client makes a
    message, which is archived, sent with its length in two bytes in front and read by the server;
    the server calls the method of its service and sends the answer back in the same way.

    [rkyv], which archives the messages, and the encodings of keys, nonces and signatures are
    parameters.  The service of the server is any implementation of the interface; [Seeded] is the
    one of the repository.

    The theorems: a call through client and server is the call of the service itself, as long as
    the messages are shorter than 65536 bytes ([remote_is_direct]); a longer message is cut
    ([long_message_cut]); and the parameters of a signing session survive the conversion to the
    types of the wire ([read_serialize_params]). *)

From S2P Require Import Prelude Bitcoin Winternitz Wots TxTypes ContractTypes SecretService.

(** ** The encodings *)

Class WireCodecs := {
  schnorr_serialize : SchnorrSignature → list N;
  schnorr_from_slice : list N → option SchnorrSignature;
  xonly_serialize : XOnlyPublicKey → list N;
  xonly_from_slice : list N → option XOnlyPublicKey;
  pub_nonce_serialize : PubNonce → list N;
  pub_nonce_from_bytes : list N → option PubNonce;
  agg_nonce_serialize : AggNonce → list N;
  agg_nonce_from_bytes : list N → option AggNonce;
  partial_serialize : PartialSignature → list N;
  partial_from_slice : list N → option PartialSignature;
  control_block_serialize : N → list N;
  control_block_decode : list N → option N;
  secret_key_bytes : N → list N;
  secret_key_from_slice : list N → option N;
}.

(** What was encoded is decoded. *)
Class WireCodecLaws `{WireCodecs} : Prop := {
  schnorr_codec s : schnorr_from_slice (schnorr_serialize s) = Some s;
  xonly_codec k : xonly_from_slice (xonly_serialize k) = Some k;
  pub_nonce_codec n : pub_nonce_from_bytes (pub_nonce_serialize n) = Some n;
  agg_nonce_codec n : agg_nonce_from_bytes (agg_nonce_serialize n) = Some n;
  partial_codec s : partial_from_slice (partial_serialize s) = Some s;
  control_block_codec c : control_block_decode (control_block_serialize c) = Some c;
  secret_key_codec k : secret_key_from_slice (secret_key_bytes k) = Some k;
}.

(** [to_byte_array] and [from_slice] of a hash of 32 bytes. *)
Definition hash_bytes (h : N) : list N := to_be_bytes 32 h.
Definition hash_from_bytes (b : list N) : N := from_be_bytes b.

(** What the interface has beside what the node uses ([traits.rs]). *)
Class ServiceRest `{SecretService} := {
  p2p_secret_key : N;
  stakechain_sign_no_tweak : Message → SchnorrSignature;
  stakechain_pubkey : XOnlyPublicKey;
  musig2_sign : Message → option TapNodeHash → SchnorrSignature;
  musig2_pubkey : XOnlyPublicKey;
  get_128_secret : Txid → N → N → list N;
  get_256_secret : Txid → N → N → list N;
}.

(** ** The messages ([v2/wire.rs]) *)

Inductive SignerTarget := General | Stakechain | Musig2.

Record WotsKeySpecifier := mkWotsKeySpecifier { ks_txid : list N; ks_vout : N; ks_index : N }.

Inductive SerializableTaprootWitness :=
| SKey
| SScript (script_buf control_block : list N)
| STweaked (tweak : list N).

Record SerializableMusig2Params := mkSerializableMusig2Params {
  s_ordered_pubkeys : list (list N);
  s_witness : SerializableTaprootWitness;
  s_input : OutPoint;
}.

Inductive ClientMessage :=
| CP2PSecretKey
| CSchnorrSignerSign (target : SignerTarget) (digest : Message) (tweak : option (list N))
| CSchnorrSignerSignNoTweak (target : SignerTarget) (digest : Message)
| CSchnorrSignerPubkey (target : SignerTarget)
| CMusig2GetPubNonce (params : SerializableMusig2Params)
| CMusig2GetOurPartialSig (params : SerializableMusig2Params) (aggnonce : list N) (message : Message)
| CWotsGet128SecretKey (specifier : WotsKeySpecifier)
| CWotsGet256SecretKey (specifier : WotsKeySpecifier)
| CWotsGet128PublicKey (specifier : WotsKeySpecifier)
| CWotsGet256PublicKey (specifier : WotsKeySpecifier)
| CWotsGet128Signature (specifier : WotsKeySpecifier) (msg : list N)
| CWotsGet256Signature (specifier : WotsKeySpecifier) (msg : list N)
| CStakeChainGetPreimage (prestake_txid : list N) (prestake_vout stake_index : N).

Inductive InvalidMessage := InvalidParams | InvalidAggnonce.

Inductive ServerMessage :=
| InvalidClientMessage (reason : InvalidMessage)
| ProtocolError
| OpaqueServerError
| TryAgain
| SSchnorrSignerSign (sig : list N)
| SSchnorrSignerPubkey (pubkey : list N)
| SP2PSecretKey (key : list N)
| SMusig2GetPubNonce (r : result Musig2Err (list N))
| SMusig2GetOurPartialSig (r : result Musig2Err (list N))
| SWotsGet128SecretKey (key : list N)
| SWotsGet256SecretKey (key : list N)
| SWotsGet128PublicKey (key : list N)
| SWotsGet256PublicKey (key : list N)
| SWotsGet128Signature (sig : WotsHashSig)
| SWotsGet256Signature (sig : Wots256Sig)
| SStakeChainGetPreimage (preimg : list N).

(** [rkyv::to_bytes] and [rkyv::from_bytes] of the versioned messages. *)
Class RkyvLib := {
  client_to_bytes : ClientMessage → option (list N);
  client_from_bytes : list N → option ClientMessage;
  server_to_bytes : ServerMessage → option (list N);
  server_from_bytes : list N → option ServerMessage;
}.

Class RkyvLaws `{RkyvLib} : Prop := {
  client_rkyv m b : client_to_bytes m = Some b → client_from_bytes b = Some m;
  server_rkyv m b : server_to_bytes m = Some b → server_from_bytes b = Some m;
}.

Section conversions.
Context `{WireCodecs}.

Definition serialize_witness (witness : TaprootWitness) : SerializableTaprootWitness :=
  match witness with
  | Key => SKey
  | Script script_buf control_block => SScript script_buf (control_block_serialize control_block)
  | Tweaked tweak => STweaked (hash_bytes tweak)
  end.

Definition read_witness (value : SerializableTaprootWitness) : option TaprootWitness :=
  match value with
  | SKey => Some Key
  | SScript script_buf control_block =>
      control_block ← control_block_decode control_block; Some (Script script_buf control_block)
  | STweaked tweak => Some (Tweaked (hash_from_bytes tweak))
  end.

Definition serialize_params (value : Musig2Params) : SerializableMusig2Params :=
  mkSerializableMusig2Params (xonly_serialize <$> ordered_pubkeys value) (serialize_witness (mp_witness value))
    (mp_input value).

Definition read_params (value : SerializableMusig2Params) : option Musig2Params :=
  ordered_pubkeys ← mapM xonly_from_slice (s_ordered_pubkeys value);
  witness ← read_witness (s_witness value);
  Some (mkMusig2Params ordered_pubkeys witness (s_input value)).

End conversions.

(** ** Frames ([wire.rs]) *)

(** [b.len() as u16] in little endian, and the bytes. *)
Definition frame (b : list N) : list N := rev (to_be_bytes 2 (N.of_nat (length b) mod 65536)) ++ b.

Definition read_exact (n : nat) (stream : list N) : option (list N * list N) :=
  if length stream <? n then None else Some (take n stream, drop n stream).

Definition read_frame (stream : list N) : option (list N) :=
  p ← read_exact 2 stream;
  q ← read_exact (N.to_nat (from_be_bytes (rev p.1))) p.2;
  Some q.1.

(** ** The server ([secret-service-server/src/lib.rs]) *)

Section server.
Context `{WireCodecs, RkyvLib, SecretService, !ServiceRest}.

(** [result.map(|x| x.serialize())]. *)
Definition map_ok {E A B} (f : A → B) (r : result E A) : result E B :=
  match r with Ok a => Ok (f a) | Err e => Err e end.

Definition sign_with (target : SignerTarget) (digest : Message) (tweak : option TapNodeHash) : SchnorrSignature :=
  match target with
  | General => general_sign digest tweak
  | Stakechain => stakechain_sign digest tweak
  | Musig2 => musig2_sign digest tweak
  end.
Definition sign_no_tweak_with (target : SignerTarget) (digest : Message) : SchnorrSignature :=
  match target with
  | General => general_sign_no_tweak digest
  | Stakechain => stakechain_sign_no_tweak digest
  | Musig2 => musig2_sign_no_tweak digest
  end.
Definition pubkey_of (target : SignerTarget) : XOnlyPublicKey :=
  match target with General => general_pubkey | Stakechain => stakechain_pubkey | Musig2 => musig2_pubkey end.

(** The answer to a message; a panic of the service is a panic of the task. *)
Definition answer_message (msg : ClientMessage) : comp ServerMessage :=
  match msg with
  | CP2PSecretKey => Val (SP2PSecretKey (secret_key_bytes p2p_secret_key))
  | CMusig2GetPubNonce params =>
      match read_params params with
      | None => Val (InvalidClientMessage InvalidParams)
      | Some params => r ← get_musig2_pub_nonce params; Val (SMusig2GetPubNonce (map_ok pub_nonce_serialize r))
      end
  | CMusig2GetOurPartialSig params aggnonce message =>
      match read_params params with
      | None => Val (InvalidClientMessage InvalidParams)
      | Some params =>
          match agg_nonce_from_bytes aggnonce with
          | None => Val (InvalidClientMessage InvalidAggnonce)
          | Some aggnonce =>
              r ← get_our_partial_sig params aggnonce message;
              Val (SMusig2GetOurPartialSig (map_ok partial_serialize r))
          end
      end
  | CSchnorrSignerSign target digest tweak =>
      Val (SSchnorrSignerSign (schnorr_serialize (sign_with target digest (hash_from_bytes <$> tweak))))
  | CSchnorrSignerSignNoTweak target digest =>
      Val (SSchnorrSignerSign (schnorr_serialize (sign_no_tweak_with target digest)))
  | CSchnorrSignerPubkey target => Val (SSchnorrSignerPubkey (xonly_serialize (pubkey_of target)))
  | CWotsGet128SecretKey k => Val (SWotsGet128SecretKey (get_128_secret (hash_from_bytes (ks_txid k)) (ks_vout k) (ks_index k)))
  | CWotsGet256SecretKey k => Val (SWotsGet256SecretKey (get_256_secret (hash_from_bytes (ks_txid k)) (ks_vout k) (ks_index k)))
  | CWotsGet128PublicKey k =>
      key ← get_128_public_key (hash_from_bytes (ks_txid k)) (ks_vout k) (ks_index k); Val (SWotsGet128PublicKey key)
  | CWotsGet256PublicKey k =>
      key ← get_256_public_key (hash_from_bytes (ks_txid k)) (ks_vout k) (ks_index k); Val (SWotsGet256PublicKey key)
  | CWotsGet128Signature k msg =>
      Val (SWotsGet128Signature (get_128_signature (hash_from_bytes (ks_txid k)) (ks_vout k) (ks_index k) msg))
  | CWotsGet256Signature k msg =>
      Val (SWotsGet256Signature (get_256_signature (hash_from_bytes (ks_txid k)) (ks_vout k) (ks_index k) msg))
  | CStakeChainGetPreimage txid vout index => Val (SStakeChainGetPreimage (get_preimg (hash_from_bytes txid) vout index))
  end.

(** [None] is a stream that ends too early; a message that cannot be read is unwrapped. *)
Definition request_handler (stream : list N) : comp (option ServerMessage) :=
  match read_frame stream with
  | None => Val None
  | Some buf => msg ← expect (client_from_bytes buf); answer ← answer_message msg; Val (Some answer)
  end.

(** What is written to the stream of the answer; nothing when the handler failed. *)
Definition request_manager (handler : comp (option ServerMessage)) : option (list N) :=
  match handler with
  | Val (Some msg) => b ← server_to_bytes msg; Some (frame b)
  | Val None | Panic => None
  end.

Definition serve (stream : list N) : option (list N) := request_manager (request_handler stream).

End server.

(** ** The client ([secret-service-client]) *)

Inductive ClientError :=
| ConnectionError | WriteError | ReadError | SerializationError | DeserializationError | BadData
| WrongMessage (msg : ServerMessage) | NoMoreRetries | Timeout | WrongVersion.

(** The connection: which attempts fail, and with which error, before an answer has been read; and
    what the server writes for what it reads. *)
Class Connection := {
  attempt_fails : nat → option ClientError;
  server_writes : list N → option (list N);
}.

Section client.
Context `{WireCodecs, RkyvLib, Connection}.

Fixpoint v2_req (retries attempt : nat) (msg : ClientMessage) : result ClientError ServerMessage :=
  match attempt_fails attempt with
  | Some e => Err e
  | None =>
      match client_to_bytes msg with
      | None => Err SerializationError
      | Some msg_bytes =>
          match server_writes (frame msg_bytes) ≫= read_frame with
          | None => Err ReadError
          | Some buf =>
              match server_from_bytes buf with
              | None => Err DeserializationError
              | Some TryAgain =>
                  match retries with 0 => Err NoMoreRetries | S retries => v2_req retries (S attempt) msg end
              | Some srv_msg => Ok srv_msg
              end
          end
      end
  end.

Definition make_v2_req (msg : ClientMessage) : result ClientError ServerMessage := v2_req 10 0 msg.

Definition bad_data {A} (o : option A) : result ClientError A := ok_or o BadData.

(** The methods of the signers; all of them for one of the three keys. *)
Definition client_sign (target : SignerTarget) (digest : Message) (tweak : option TapNodeHash)
    : result ClientError SchnorrSignature :=
  res ← make_v2_req (CSchnorrSignerSign target digest (hash_bytes <$> tweak));
  match res with SSchnorrSignerSign sig => bad_data (schnorr_from_slice sig) | _ => Err (WrongMessage res) end.
Definition client_sign_no_tweak (target : SignerTarget) (digest : Message) : result ClientError SchnorrSignature :=
  res ← make_v2_req (CSchnorrSignerSignNoTweak target digest);
  match res with SSchnorrSignerSign sig => bad_data (schnorr_from_slice sig) | _ => Err (WrongMessage res) end.
(** The MuSig2 client takes a key that is none for a wrong message. *)
Definition client_pubkey (target : SignerTarget) : result ClientError XOnlyPublicKey :=
  res ← make_v2_req (CSchnorrSignerPubkey target);
  match res with
  | SSchnorrSignerPubkey pubkey =>
      ok_or (xonly_from_slice pubkey) match target with Musig2 => WrongMessage res | _ => BadData end
  | _ => Err (WrongMessage res)
  end.

Definition client_secret_key : comp (result ClientError N) :=
  match make_v2_req CP2PSecretKey with
  | Err e => Val (Err e)
  | Ok (SP2PSecretKey key) => key ← expect (secret_key_from_slice key); Val (Ok key)
  | Ok res => Val (Err (WrongMessage res))
  end.

Definition client_get_pub_nonce (params : Musig2Params) : result ClientError (result Musig2Err PubNonce) :=
  res ← make_v2_req (CMusig2GetPubNonce (serialize_params params));
  match res with
  | SMusig2GetPubNonce (Ok bs) => n ← bad_data (pub_nonce_from_bytes bs); Ok (Ok n)
  | SMusig2GetPubNonce (Err e) => Ok (Err e)
  | _ => Err (WrongMessage res)
  end.
Definition client_get_our_partial_sig (params : Musig2Params) (aggnonce : AggNonce) (message : Message)
    : result ClientError (result Musig2Err PartialSignature) :=
  res ← make_v2_req (CMusig2GetOurPartialSig (serialize_params params) (agg_nonce_serialize aggnonce) message);
  match res with
  | SMusig2GetOurPartialSig (Ok bs) => s ← bad_data (partial_from_slice bs); Ok (Ok s)
  | SMusig2GetOurPartialSig (Err e) => Ok (Err e)
  | _ => Err (WrongMessage res)
  end.

Definition specifier (txid : Txid) (vout index : N) : WotsKeySpecifier := mkWotsKeySpecifier (hash_bytes txid) vout index.

Definition client_get_128_secret_key (txid : Txid) (vout index : N) : result ClientError (list N) :=
  res ← make_v2_req (CWotsGet128SecretKey (specifier txid vout index));
  match res with SWotsGet128SecretKey key => Ok key | _ => Err (WrongMessage res) end.
Definition client_get_256_secret_key (txid : Txid) (vout index : N) : result ClientError (list N) :=
  res ← make_v2_req (CWotsGet256SecretKey (specifier txid vout index));
  match res with SWotsGet256SecretKey key => Ok key | _ => Err (WrongMessage res) end.
Definition client_get_128_public_key (txid : Txid) (vout index : N) : result ClientError (list N) :=
  res ← make_v2_req (CWotsGet128PublicKey (specifier txid vout index));
  match res with SWotsGet128PublicKey key => Ok key | _ => Err (WrongMessage res) end.
Definition client_get_256_public_key (txid : Txid) (vout index : N) : result ClientError (list N) :=
  res ← make_v2_req (CWotsGet256PublicKey (specifier txid vout index));
  match res with SWotsGet256PublicKey key => Ok key | _ => Err (WrongMessage res) end.
Definition client_get_128_signature (txid : Txid) (vout index : N) (msg : list N) : result ClientError WotsHashSig :=
  res ← make_v2_req (CWotsGet128Signature (specifier txid vout index) msg);
  match res with SWotsGet128Signature sig => Ok sig | _ => Err (WrongMessage res) end.
Definition client_get_256_signature (txid : Txid) (vout index : N) (msg : list N) : result ClientError Wots256Sig :=
  res ← make_v2_req (CWotsGet256Signature (specifier txid vout index) msg);
  match res with SWotsGet256Signature sig => Ok sig | _ => Err (WrongMessage res) end.
Definition client_get_preimg (prestake_txid : Txid) (prestake_vout stake_index : N) : result ClientError (list N) :=
  res ← make_v2_req (CStakeChainGetPreimage (hash_bytes prestake_txid) prestake_vout stake_index);
  match res with SStakeChainGetPreimage preimg => Ok preimg | _ => Err (WrongMessage res) end.

End client.

(** ** Calls *)

(** The calls of the interface and their answers. *)
Inductive Call :=
| CallSign (target : SignerTarget) (digest : Message) (tweak : option TapNodeHash)
| CallSignNoTweak (target : SignerTarget) (digest : Message)
| CallPubkey (target : SignerTarget)
| CallP2PSecretKey
| CallPubNonce (params : Musig2Params)
| CallPartialSig (params : Musig2Params) (aggnonce : AggNonce) (message : Message)
| Call128SecretKey (txid : Txid) (vout index : N)
| Call256SecretKey (txid : Txid) (vout index : N)
| Call128PublicKey (txid : Txid) (vout index : N)
| Call256PublicKey (txid : Txid) (vout index : N)
| Call128Signature (txid : Txid) (vout index : N) (msg : list N)
| Call256Signature (txid : Txid) (vout index : N) (msg : list N)
| CallPreimg (txid : Txid) (vout index : N).

Inductive Answer :=
| ANumber (n : N)
| ABytes (b : list N)
| AWotsSig (sig : list (list N))
| AMusig2 (r : result Musig2Err N).

Section calls.
Context `{WireCodecs, RkyvLib, SecretService, !ServiceRest, Connection}.

(** The call of the service itself. *)
Definition direct (call : Call) : comp Answer :=
  match call with
  | CallSign target digest tweak => Val (ANumber (sign_with target digest tweak))
  | CallSignNoTweak target digest => Val (ANumber (sign_no_tweak_with target digest))
  | CallPubkey target => Val (ANumber (pubkey_of target))
  | CallP2PSecretKey => Val (ANumber p2p_secret_key)
  | CallPubNonce params => AMusig2 <$> get_musig2_pub_nonce params
  | CallPartialSig params aggnonce message => AMusig2 <$> get_our_partial_sig params aggnonce message
  | Call128SecretKey txid vout index => Val (ABytes (get_128_secret txid vout index))
  | Call256SecretKey txid vout index => Val (ABytes (get_256_secret txid vout index))
  | Call128PublicKey txid vout index => ABytes <$> get_128_public_key txid vout index
  | Call256PublicKey txid vout index => ABytes <$> get_256_public_key txid vout index
  | Call128Signature txid vout index msg => Val (AWotsSig (get_128_signature txid vout index msg))
  | Call256Signature txid vout index msg => Val (AWotsSig (get_256_signature txid vout index msg))
  | CallPreimg txid vout index => Val (ABytes (get_preimg txid vout index))
  end.

(** The method of the client. *)
Definition remote (call : Call) : comp (result ClientError Answer) :=
  match call with
  | CallSign target digest tweak => Val (map_ok ANumber (client_sign target digest tweak))
  | CallSignNoTweak target digest => Val (map_ok ANumber (client_sign_no_tweak target digest))
  | CallPubkey target => Val (map_ok ANumber (client_pubkey target))
  | CallP2PSecretKey => r ← client_secret_key; Val (map_ok ANumber r)
  | CallPubNonce params => Val (map_ok AMusig2 (client_get_pub_nonce params))
  | CallPartialSig params aggnonce message => Val (map_ok AMusig2 (client_get_our_partial_sig params aggnonce message))
  | Call128SecretKey txid vout index => Val (map_ok ABytes (client_get_128_secret_key txid vout index))
  | Call256SecretKey txid vout index => Val (map_ok ABytes (client_get_256_secret_key txid vout index))
  | Call128PublicKey txid vout index => Val (map_ok ABytes (client_get_128_public_key txid vout index))
  | Call256PublicKey txid vout index => Val (map_ok ABytes (client_get_256_public_key txid vout index))
  | Call128Signature txid vout index msg => Val (map_ok AWotsSig (client_get_128_signature txid vout index msg))
  | Call256Signature txid vout index msg => Val (map_ok AWotsSig (client_get_256_signature txid vout index msg))
  | CallPreimg txid vout index => Val (map_ok ABytes (client_get_preimg txid vout index))
  end.

(** The message of the call. *)
Definition message_of (call : Call) : ClientMessage :=
  match call with
  | CallSign target digest tweak => CSchnorrSignerSign target digest (hash_bytes <$> tweak)
  | CallSignNoTweak target digest => CSchnorrSignerSignNoTweak target digest
  | CallPubkey target => CSchnorrSignerPubkey target
  | CallP2PSecretKey => CP2PSecretKey
  | CallPubNonce params => CMusig2GetPubNonce (serialize_params params)
  | CallPartialSig params aggnonce message =>
      CMusig2GetOurPartialSig (serialize_params params) (agg_nonce_serialize aggnonce) message
  | Call128SecretKey txid vout index => CWotsGet128SecretKey (specifier txid vout index)
  | Call256SecretKey txid vout index => CWotsGet256SecretKey (specifier txid vout index)
  | Call128PublicKey txid vout index => CWotsGet128PublicKey (specifier txid vout index)
  | Call256PublicKey txid vout index => CWotsGet256PublicKey (specifier txid vout index)
  | Call128Signature txid vout index msg => CWotsGet128Signature (specifier txid vout index) msg
  | Call256Signature txid vout index msg => CWotsGet256Signature (specifier txid vout index) msg
  | CallPreimg txid vout index => CStakeChainGetPreimage (hash_bytes txid) vout index
  end.

(** Hashes have 32 bytes. *)
Definition hash_wf (h : N) : Prop := (h < 2 ^ 256)%N.
Definition call_wf (call : Call) : Prop :=
  match call with
  | CallSign _ _ (Some tweak) => hash_wf tweak
  | CallPubNonce params | CallPartialSig params _ _ =>
      match mp_witness params with Tweaked tweak => hash_wf tweak | _ => True end
  | Call128SecretKey txid _ _ | Call256SecretKey txid _ _ | Call128PublicKey txid _ _ | Call256PublicKey txid _ _
  | Call128Signature txid _ _ _ | Call256Signature txid _ _ _ | CallPreimg txid _ _ => hash_wf txid
  | _ => True
  end.

(** A message that can be sent: it is archived in fewer than 65536 bytes. *)
Definition client_fits (m : ClientMessage) : Prop := ∃ b, client_to_bytes m = Some b ∧ (N.of_nat (length b) < 65536)%N.
Definition server_fits (m : ServerMessage) : Prop := ∃ b, server_to_bytes m = Some b ∧ (N.of_nat (length b) < 65536)%N.

(** ** Properties *)

Lemma hash_round_trip h : hash_wf h → hash_from_bytes (hash_bytes h) = h.
Proof. intros Hh. apply from_to_be_bytes. exact Hh. Qed.

(** The length is read back modulo 65536. *)
Lemma read_frame_frame b : read_frame (frame b) = Some (take (N.to_nat (N.of_nat (length b) mod 65536)) b).
Proof.
  unfold read_frame, frame, read_exact. set (len := rev (to_be_bytes 2 _)).
  assert (length len = 2) as Hlen by (unfold len; by rewrite length_rev, length_to_be_bytes).
  rewrite length_app, Hlen. change (2 + length b <? 2) with false. cbn [mbind option_bind fst snd].
  rewrite take_app_length', drop_app_length' by done.
  assert (from_be_bytes (rev len) = (N.of_nat (length b) mod 65536)%N) as ->.
  { unfold len. rewrite rev_involutive. apply from_to_be_bytes. change (256 ^ N.of_nat 2)%N with 65536%N.
    by apply N.mod_lt. }
  assert ((length b <? N.to_nat (N.of_nat (length b) mod 65536)) = false) as ->; [|done].
  apply Nat.ltb_ge. pose proof (N.Div0.mod_le (N.of_nat (length b)) 65536). lia.
Qed.

Lemma short_frame b : (N.of_nat (length b) < 65536)%N → read_frame (frame b) = Some b.
Proof. intros Hb. rewrite read_frame_frame, N.mod_small, Nat2N.id, firstn_all by done. done. Qed.

Lemma read_serialize_witness `{!WireCodecLaws} w :
  match w with Tweaked tweak => hash_wf tweak | _ => True end → read_witness (serialize_witness w) = Some w.
Proof.
  destruct w as [|s c|t]; cbn [serialize_witness read_witness]; [done| |].
  - by rewrite control_block_codec.
  - intros Ht. by rewrite hash_round_trip.
Qed.

(** The parameters of a signing session survive the conversion to the types of the wire. *)
Lemma read_serialize_params `{!WireCodecLaws} p :
  match mp_witness p with Tweaked tweak => hash_wf tweak | _ => True end → read_params (serialize_params p) = Some p.
Proof.
  intros Hw. unfold read_params, serialize_params. cbn [s_ordered_pubkeys s_witness s_input].
  assert (mapM xonly_from_slice (xonly_serialize <$> ordered_pubkeys p) = Some (ordered_pubkeys p)) as ->.
  { induction (ordered_pubkeys p) as [|k l IH]; [done|]. cbn. rewrite xonly_codec. cbn. fold (mapM xonly_from_slice).
    unfold mapM in IH |- *. by rewrite IH. }
  cbn [mbind option_bind]. rewrite read_serialize_witness by done. by destruct p.
Qed.

Lemma answer_not_try_again m r : answer_message m = Val r → r ≠ TryAgain.
Proof.
  destruct m; cbn; repeat case_match; intros E; try (apply comp_bind_Val in E as (? & _ & [= <-])); by simplify_eq.
Qed.

(** A message that fits reaches the service, and its answer the client. *)
Lemma req_served `{!RkyvLaws} m :
  server_writes = serve → attempt_fails 0 = None → client_fits m → (∀ r, answer_message m = Val r → server_fits r) →
  make_v2_req m = match answer_message m with Val r => Ok r | Panic => Err ReadError end.
Proof.
  intros Hs Hf (b & Hb & Hlen) Hr. unfold make_v2_req. cbn [v2_req]. rewrite Hf, Hb, Hs.
  unfold serve, request_handler. rewrite short_frame, (client_rkyv _ _ Hb) by done. cbn [mbind comp_bind expect].
  destruct (answer_message m) as [r|] eqn:Ea; [|done]. destruct (Hr r eq_refl) as (b' & Hb' & Hlen').
  unfold request_manager. cbn [mbind comp_bind]. rewrite Hb'. cbn [mbind option_bind].
  rewrite short_frame, (server_rkyv _ _ Hb') by done. pose proof (answer_not_try_again _ _ Ea). by destruct r.
Qed.

End calls.

Ltac unfold_client :=
  unfold client_sign, client_sign_no_tweak, client_pubkey, client_secret_key, client_get_pub_nonce,
    client_get_our_partial_sig, client_get_128_secret_key, client_get_256_secret_key, client_get_128_public_key,
    client_get_256_public_key, client_get_128_signature, client_get_256_signature, client_get_preimg.

(** C33: The secret service behind the connection is the secret service.  For every call of the
    interface, of any implementation, the method of the client returns what the method of the
    service returns, as long as the attempt to reach the server does not fail and both messages are
    archived in fewer than 65536 bytes; a panic of the service is an error when the answer is read.
    If the attempt fails, its error is returned, and no error makes the client panic. *)
Theorem remote_is_direct `{WireCodecLaws, RkyvLaws, SecretService, !ServiceRest, Connection} call :
  server_writes = serve → call_wf call → client_fits (message_of call) →
  (∀ r, answer_message (message_of call) = Val r → server_fits r) →
  remote call = Val match attempt_fails 0 with
    | Some e => Err e
    | None => match direct call with Val a => Ok a | Panic => Err ReadError end
    end.
Proof.
  intros Hs Hwf Hc Hr. destruct (attempt_fails 0) as [e|] eqn:Hf.
  { assert (∀ m, make_v2_req m = Err e) as He by (intros m; unfold make_v2_req; cbn; by rewrite Hf).
    destruct call; cbn [remote]; unfold_client; by rewrite He. }
  pose proof (req_served _ Hs Hf Hc Hr) as E. clear Hc Hr.
  destruct call as [target digest tweak| | | |params|params aggnonce message| | |txid vout index|txid vout index| | |];
    cbn [remote message_of] in *; unfold_client; rewrite E;
    cbn [answer_message direct specifier ks_txid ks_vout ks_index];
    rewrite ?hash_round_trip, ?read_serialize_params, ?agg_nonce_codec by done; cbn;
    rewrite ?schnorr_codec, ?xonly_codec, ?secret_key_codec; try done.
  - destruct tweak as [t|]; [|done]. cbn [fmap option_fmap option_map]. by rewrite hash_round_trip.
  - destruct (get_musig2_pub_nonce params) as [[n|e]|]; cbn; by rewrite ?pub_nonce_codec.
  - destruct (get_our_partial_sig params aggnonce message) as [[n|e]|]; cbn; by rewrite ?partial_codec.
  - by destruct (get_128_public_key txid vout index).
  - by destruct (get_256_public_key txid vout index).
Qed.

(** The length of a longer message is cut to 16 bits: the server reads only so many bytes of it, and
    when these are not a message of their own, the call is answered by no answer. *)
Lemma long_message_cut `{WireCodecs, RkyvLib, SecretService, !ServiceRest, Connection} m b :
  server_writes = serve → attempt_fails 0 = None → client_to_bytes m = Some b →
  client_from_bytes (take (N.to_nat (N.of_nat (length b) mod 65536)) b) = None → make_v2_req m = Err ReadError.
Proof.
  intros Hs Hf Hb Hc. unfold make_v2_req. cbn [v2_req]. rewrite Hf, Hb, Hs.
  unfold serve, request_handler. by rewrite read_frame_frame, Hc.
Qed.

(** ** The seeded service *)

Section seeded.
Context `{KeyAggLib, SecpLib, HkdfLib, Hash160Lib, BitvmSignLib, !SecNonceLib, CacheLib}.

(** The rest of the interface for the service of the repository. *)
Definition SeededRest (secret_key : SecretKey → N) (base : Xpriv) : @ServiceRest (Seeded.SeededService base) :=
  let stakechain := Seeded.wallet_key base Seeded.STAKECHAIN_WALLET_KEY_PATH in
  let ms2 := Seeded.Ms2Signer_new base in
  let wots := Seeded.SeededWotsSigner_new base in
  {|
    p2p_secret_key := secret_key (Seeded.wallet_key base Seeded.P2P_KEY_PATH);
    stakechain_sign_no_tweak := Seeded.sign_no_tweak stakechain;
    stakechain_pubkey := Seeded.pubkey stakechain;
    musig2_sign := Seeded.sign (Seeded.kp ms2);
    musig2_pubkey := Seeded.pubkey (Seeded.kp ms2);
    get_128_secret := Seeded.get_128_secret_key wots;
    get_256_secret := Seeded.get_256_secret_key wots;
  |}.

End seeded.

(** ** An example *)

Module WireExample.

#[local] Existing Instances example_keyagg example_secp example_hkdf example_hash160 example_bitvm_sign
  example_sec_nonce example_cache.

(** Encodings of one number, and an archive of the requests for preimages only. *)
#[local] Instance codecs : WireCodecs := {|
  schnorr_serialize n := [n]; schnorr_from_slice := head; xonly_serialize n := [n]; xonly_from_slice := head;
  pub_nonce_serialize n := [n]; pub_nonce_from_bytes := head; agg_nonce_serialize n := [n]; agg_nonce_from_bytes := head;
  partial_serialize n := [n]; partial_from_slice := head; control_block_serialize n := [n]; control_block_decode := head;
  secret_key_bytes n := [n]; secret_key_from_slice := head;
|}.
#[local] Instance codec_laws : WireCodecLaws.
Proof. by split. Qed.

#[local] Instance archive : RkyvLib := {|
  client_to_bytes m := match m with CStakeChainGetPreimage txid vout index => Some (vout :: index :: txid) | _ => None end;
  client_from_bytes b := match b with vout :: index :: txid => Some (CStakeChainGetPreimage txid vout index) | _ => None end;
  server_to_bytes m := match m with SStakeChainGetPreimage preimg => Some preimg | _ => None end;
  server_from_bytes b := Some (SStakeChainGetPreimage b);
|}.
#[local] Instance archive_laws : RkyvLaws.
Proof. split; intros [] b [= <-]; done. Qed.

#[local] Instance service : SecretService := Seeded.SeededService example_base.
#[local] Instance service_rest : ServiceRest := SeededRest (λ _, 1%N) example_base.
#[local] Instance connection : Connection := {| attempt_fails _ := None; server_writes := serve |}.

Lemma remote_is_direct_witness : remote (CallPreimg 5 1 2) = Val (Ok (ABytes (get_preimg 5 1 2))).
Proof.
  rewrite (remote_is_direct (CallPreimg 5 1 2)).
  - reflexivity.
  - reflexivity.
  - reflexivity.
  - eexists. split; reflexivity.
  - intros r [= <-]. eexists. split; [reflexivity|vm_compute; reflexivity].
Defined.

End WireExample.
