(* ===== verification/DbColumns.v ===== *)
(** * The columns of the database ([db/src/persistent/types.rs] and [models.rs])

    How the values of the program are stored in the columns of SQLite: as text in hexadecimal, as
    bytes, or as integers of 64 bits.  [Column] is the interface of [sqlx::Encode] and
    [sqlx::Decode]; every type of a column is an instance of it.

    [rkyv], the consensus encoding of scripts and the encodings of keys and signatures are
    parameters.  The theorems: every column but that of the witnesses reads back what was written,
    amounts over the whole range of 64 bits ([columns_read_back]); and a stake written as a row is
    read back ([stake_row_reads_back]). *)

From S2P Require Import Prelude Bitcoin Winternitz Wots TxTypes Taproot ContractTypes SecretService SecretWire.

(** ** Values of SQLite *)

Inductive SqlValue := Text (s : string) | Blob (b : list N) | Integer (z : Z).

Inductive ColumnErr := WrongType | DecodeErr | EncodeErr.

Class Column (A : Type) := {
  column_encode : A → result ColumnErr SqlValue;
  column_decode : SqlValue → result ColumnErr A;
}.

Definition text {A} (parse : string → option A) (v : SqlValue) : result ColumnErr A :=
  match v with Text s => ok_or (parse s) DecodeErr | _ => Err WrongType end.
Definition blob {A} (parse : list N → option A) (v : SqlValue) : result ColumnErr A :=
  match v with Blob b => ok_or (parse b) DecodeErr | _ => Err WrongType end.

(** ** Hexadecimal *)

Definition hex_digit (n : N) : Ascii.ascii :=
  Ascii.ascii_of_N (if (n <? 10)%N then 48 + n else 87 + n)%N.
Definition hex_value (c : Ascii.ascii) : option N :=
  let n := Ascii.N_of_ascii c in
  if ((48 <=? n) && (n <=? 57))%N then Some (n - 48)%N
  else if ((97 <=? n) && (n <=? 102))%N then Some (n - 87)%N
  else if ((65 <=? n) && (n <=? 70))%N then Some (n - 55)%N else None.

(** [to_lower_hex_string] and [from_hex]. *)
Fixpoint hex_of_bytes (b : list N) : string :=
  match b with
  | [] => EmptyString
  | x :: b => String (hex_digit (x / 16)) (String (hex_digit (x mod 16)) (hex_of_bytes b))
  end.
Fixpoint bytes_of_hex (s : string) : option (list N) :=
  match s with
  | EmptyString => Some []
  | String c (String d s) =>
      h ← hex_value c; l ← hex_value d; b ← bytes_of_hex s; Some ((16 * h + l)%N :: b)
  | String _ EmptyString => None
  end.

(** ** The libraries *)

(** [rkyv] of the Winternitz keys and signatures. *)
Class RkyvKeys := {
  public_keys_to_bytes : PublicKeys → option (list N);
  public_keys_from_bytes : list N → option PublicKeys;
  wots256_to_bytes : Wots256PublicKey → option (list N);
  wots256_from_bytes : list N → option Wots256PublicKey;
  signatures_to_bytes : Signatures → option (list N);
  signatures_from_bytes : list N → option Signatures;
}.

Definition is_byte (n : N) : Prop := (n < 256)%N.

Class ColumnLibLaws `{RkyvKeys, WireCodecs, HexLib} : Prop := {
  public_keys_rkyv k b : public_keys_to_bytes k = Some b → public_keys_from_bytes b = Some k;
  wots256_rkyv k b : wots256_to_bytes k = Some b → wots256_from_bytes b = Some k ∧ Forall is_byte b;
  signatures_rkyv s b : signatures_to_bytes s = Some b → signatures_from_bytes b = Some s;
  xonly_is_bytes k : Forall is_byte (xonly_serialize k);
  schnorr_is_bytes s : Forall is_byte (schnorr_serialize s);
  pub_nonce_is_bytes n : Forall is_byte (pub_nonce_serialize n);
  agg_nonce_is_bytes n : Forall is_byte (agg_nonce_serialize n);
  partial_is_bytes s : Forall is_byte (partial_serialize s);
  script_hex s : deserialize_hex_script (serialize_hex_script s) = Some s;
}.

(** ** The types of the columns ([types.rs]) *)

Record DbOperatorIdx := mkDbOperatorIdx { db_operator_idx : OperatorIdx }.
Record DbInputIndex := mkDbInputIndex { db_input_index : N }.
Record DbTxid := mkDbTxid { db_txid : Txid }.
Record DbHash := mkDbHash { db_hash : Sha256Hash }.
Record DbXOnlyPublicKey := mkDbXOnlyPublicKey { db_xonly : XOnlyPublicKey }.
Record DbWotsPublicKeys := mkDbWotsPublicKeys { db_wots_public_keys : PublicKeys }.
Record DbWots256PublicKey := mkDbWots256PublicKey { db_wots256 : Wots256PublicKey }.
Record DbWotsSignatures := mkDbWotsSignatures { db_wots_signatures : Signatures }.
Record DbSignature := mkDbSignature { db_signature : SchnorrSignature }.
Record DbPubNonce := mkDbPubNonce { db_pub_nonce : PubNonce }.
Record DbAggNonce := mkDbAggNonce { db_agg_nonce : AggNonce }.
Record DbPartialSig := mkDbPartialSig { db_partial_sig : PartialSignature }.
Record DbScriptBuf := mkDbScriptBuf { db_script_buf : ScriptBuf }.
Record DbAmount := mkDbAmount { db_amount : Amount }.
Record DbTaprootWitness := mkDbTaprootWitness { db_taproot_witness : TaprootWitness }.

(** [value as u32] of an [i64]. *)
Definition as_u32 (z : Z) : N := Z.to_N (z mod 2 ^ 32).
(** [as i64] of a [u64], and [as u64] of an [i64]. *)
Definition as_i64 (n : N) : Z := if (n <? 2 ^ 63)%N then Z.of_N n else (Z.of_N n - 2 ^ 64)%Z.
Definition as_u64 (z : Z) : N := Z.to_N (z mod 2 ^ 64).

(** The indices are stored as they are; reading one that is no [u32] is an error. *)
Definition u32_encode (n : N) : result ColumnErr SqlValue := Ok (Integer (Z.of_N n)).
Definition u32_decode (v : SqlValue) : result ColumnErr N :=
  match v with
  | Integer z => if (bool_decide (0 ≤ z < 2 ^ 32)%Z) then Ok (Z.to_N z) else Err DecodeErr
  | _ => Err WrongType
  end.

(** A hash of 32 bytes in hexadecimal. *)
Definition hash_of_hex (s : string) : option N :=
  b ← bytes_of_hex s; if length b =? 32 then Some (hash_from_bytes b) else None.

(** [from_str] of a type that is shown in hexadecimal. *)
Definition parse_hex {A} (from : list N → option A) (s : string) : option A := bytes_of_hex s ≫= from.

#[global] Instance operator_idx_column : Column DbOperatorIdx := {|
  column_encode i := u32_encode (db_operator_idx i); column_decode v := mkDbOperatorIdx <$> u32_decode v |}.
#[global] Instance input_index_column : Column DbInputIndex := {|
  column_encode i := u32_encode (db_input_index i); column_decode v := mkDbInputIndex <$> u32_decode v |}.
#[global] Instance txid_column : Column DbTxid := {|
  column_encode t := Ok (Text (hex_of_bytes (serialize_txid (db_txid t))));
  column_decode := text (λ s, mkDbTxid <$> hash_of_hex s) |}.
#[global] Instance hash_column : Column DbHash := {|
  column_encode h := Ok (Text (hex_of_bytes (hash_bytes (db_hash h))));
  column_decode := text (λ s, mkDbHash <$> hash_of_hex s) |}.
#[global] Instance amount_column : Column DbAmount := {|
  column_encode a := Ok (Integer (as_i64 (db_amount a)));
  column_decode v := match v with Integer z => Ok (mkDbAmount (as_u64 z)) | _ => Err WrongType end |}.

Section columns.
Context `{RkyvKeys, WireCodecs, HexLib}.

#[global] Instance xonly_column : Column DbXOnlyPublicKey := {|
  column_encode k := Ok (Text (hex_of_bytes (xonly_serialize (db_xonly k))));
  column_decode := text (λ s, mkDbXOnlyPublicKey <$> parse_hex xonly_from_slice s) |}.
#[global] Instance wots_public_keys_column : Column DbWotsPublicKeys := {|
  column_encode k := b ← ok_or (public_keys_to_bytes (db_wots_public_keys k)) EncodeErr; Ok (Blob b);
  column_decode := blob (λ b, mkDbWotsPublicKeys <$> public_keys_from_bytes b) |}.
#[global] Instance wots256_column : Column DbWots256PublicKey := {|
  column_encode k := b ← ok_or (wots256_to_bytes (db_wots256 k)) EncodeErr; Ok (Text (hex_of_bytes b));
  column_decode := text (λ s, mkDbWots256PublicKey <$> parse_hex wots256_from_bytes s) |}.
#[global] Instance wots_signatures_column : Column DbWotsSignatures := {|
  column_encode s := b ← ok_or (signatures_to_bytes (db_wots_signatures s)) EncodeErr; Ok (Blob b);
  column_decode := blob (λ b, mkDbWotsSignatures <$> signatures_from_bytes b) |}.
#[global] Instance signature_column : Column DbSignature := {|
  column_encode s := Ok (Text (hex_of_bytes (schnorr_serialize (db_signature s))));
  column_decode := text (λ s, mkDbSignature <$> parse_hex schnorr_from_slice s) |}.
#[global] Instance pub_nonce_column : Column DbPubNonce := {|
  column_encode n := Ok (Text (hex_of_bytes (pub_nonce_serialize (db_pub_nonce n))));
  column_decode := text (λ s, mkDbPubNonce <$> parse_hex pub_nonce_from_bytes s) |}.
#[global] Instance agg_nonce_column : Column DbAggNonce := {|
  column_encode n := Ok (Text (hex_of_bytes (agg_nonce_serialize (db_agg_nonce n))));
  column_decode := text (λ s, mkDbAggNonce <$> parse_hex agg_nonce_from_bytes s) |}.
#[global] Instance partial_sig_column : Column DbPartialSig := {|
  column_encode s := Ok (Text (hex_of_bytes (partial_serialize (db_partial_sig s))));
  column_decode := text (λ s, mkDbPartialSig <$> parse_hex partial_from_slice s) |}.
#[global] Instance script_buf_column : Column DbScriptBuf := {|
  column_encode s := Ok (Text (serialize_hex_script (db_script_buf s)));
  column_decode := text (λ s, mkDbScriptBuf <$> deserialize_hex_script s) |}.
#[global] Instance taproot_witness_column : Column DbTaprootWitness := {|
  column_encode w := Ok (Text (to_hex (db_taproot_witness w)));
  column_decode := text (λ s, match from_hex s with Ok w => Some (mkDbTaprootWitness w) | Err _ => None end) |}.

End columns.

(** ** Stakes ([models.rs]) *)

Record DbStakeTxData := mkDbStakeTxData {
  db_deposit_idx : N;
  db_funding_txid : DbTxid;
  db_funding_vout : DbInputIndex;
  db_stake_hash : DbHash;
  db_withdrawal_fulfillment_pk : DbWots256PublicKey;
  db_operator_pubkey : DbXOnlyPublicKey;
}.

Definition DbStakeTxData_new (deposit_idx : N) (data : StakeTxData) : DbStakeTxData :=
  mkDbStakeTxData deposit_idx (mkDbTxid (op_txid (operator_funds data))) (mkDbInputIndex (op_vout (operator_funds data)))
    (mkDbHash (stk_hash data)) (mkDbWots256PublicKey (withdrawal_fulfillment_pk data))
    (mkDbXOnlyPublicKey (stk_operator_pubkey data)).

Definition StakeTxData_from (d : DbStakeTxData) : StakeTxData :=
  mkStakeTxData (mkOutPoint (db_txid (db_funding_txid d)) (db_input_index (db_funding_vout d)))
    (db_hash (db_stake_hash d)) (db_wots256 (db_withdrawal_fulfillment_pk d)) (db_xonly (db_operator_pubkey d)).

Section rows.
Context `{RkyvKeys, WireCodecs, HexLib}.

(** The columns of a row, as they are bound and as they are fetched. *)
Definition write_stake_row (d : DbStakeTxData) : result ColumnErr (list SqlValue) :=
  idx ← u32_encode (db_deposit_idx d);
  txid ← column_encode (db_funding_txid d);
  vout ← column_encode (db_funding_vout d);
  hash ← column_encode (db_stake_hash d);
  key ← column_encode (db_operator_pubkey d);
  pk ← column_encode (db_withdrawal_fulfillment_pk d);
  Ok [idx; txid; vout; hash; key; pk].

Definition read_stake_row (row : list SqlValue) : result ColumnErr DbStakeTxData :=
  match row with
  | [idx; txid; vout; hash; key; pk] =>
      idx ← u32_decode idx;
      txid ← column_decode txid;
      vout ← column_decode vout;
      hash ← column_decode hash;
      key ← column_decode key;
      pk ← column_decode pk;
      Ok (mkDbStakeTxData idx txid vout hash pk key)
  | _ => Err WrongType
  end.

(** ** Properties *)

(** A value that can be written is read back. *)
Definition reads_back {A} `{Column A} (x : A) : Prop :=
  ∀ v, column_encode x = Ok v → column_decode v = Ok x.

Lemma written_reads_back {A} `{Column A} (x : A) w :
  column_encode x = Ok w → column_decode w = Ok x → reads_back x.
Proof. intros Hw Hx v Hv. rewrite Hw in Hv. by injection Hv as <-. Qed.

Lemma hex_value_digit n : (n < 16)%N → hex_value (hex_digit n) = Some n.
Proof.
  intros Hn. unfold hex_value, hex_digit. rewrite Ascii.N_ascii_embedding by (case_match; lia).
  destruct (n <? 10)%N eqn:E; [apply N.ltb_lt in E|apply N.ltb_ge in E].
  - assert ((48 <=? 48 + n) && (48 + n <=? 57) = true)%N as -> by (apply andb_true_iff; split; apply N.leb_le; lia).
    f_equal. lia.
  - assert ((48 <=? 87 + n) && (87 + n <=? 57) = false)%N as -> by (apply andb_false_iff; right; apply N.leb_gt; lia).
    assert ((97 <=? 87 + n) && (87 + n <=? 102) = true)%N as -> by (apply andb_true_iff; split; apply N.leb_le; lia).
    f_equal. lia.
Qed.

Lemma bytes_of_hex_of_bytes b : Forall is_byte b → bytes_of_hex (hex_of_bytes b) = Some b.
Proof.
  induction 1 as [|x b Hx _ IH]; [done|]. cbn [hex_of_bytes bytes_of_hex]. unfold is_byte in Hx.
  rewrite !hex_value_digit by (try apply N.mod_lt; try apply N.Div0.div_lt_upper_bound; lia).
  cbn [mbind option_bind]. rewrite IH. cbn. do 2 f_equal. pose proof (N.div_mod x 16). lia.
Qed.

Lemma to_be_bytes_is_bytes w n : Forall is_byte (to_be_bytes w n).
Proof.
  revert n. induction w as [|w IH]; intros n; cbn [to_be_bytes]; [constructor|].
  apply Forall_app. split; [apply IH|]. constructor; [|constructor]. by apply N.mod_lt.
Qed.

Lemma hash_of_hex_bytes h : hash_wf h → hash_of_hex (hex_of_bytes (hash_bytes h)) = Some h.
Proof.
  intros Hh. unfold hash_of_hex. rewrite bytes_of_hex_of_bytes by apply to_be_bytes_is_bytes. cbn [mbind option_bind].
  assert ((length (hash_bytes h) =? 32) = true) as -> by (unfold hash_bytes; by rewrite length_to_be_bytes).
  by rewrite hash_round_trip.
Qed.

Lemma u32_reads_back n : (n < 2 ^ 32)%N → ∀ v, u32_encode n = Ok v → u32_decode v = Ok n.
Proof. intros Hn v [= <-]. cbn. rewrite bool_decide_true by lia. f_equal. lia. Qed.

Lemma as_u64_as_i64 n : (n < 2 ^ 64)%N → as_u64 (as_i64 n) = n.
Proof.
  intros Hn. unfold as_u64, as_i64. destruct (n <? 2 ^ 63)%N eqn:E.
  - rewrite Z.mod_small by lia. lia.
  - rewrite <- (Z.mod_add _ 1) by done. rewrite Z.mod_small by (apply N.ltb_ge in E; lia). lia.
Qed.

Lemma text_reads_back {A B} (wrap : A → B) (from : list N → option A) (b : list N) x :
  Forall is_byte b → from b = Some x → text (λ s, wrap <$> parse_hex from s) (Text (hex_of_bytes b)) = Ok (wrap x).
Proof. intros Hb Hx. unfold text, parse_hex. rewrite bytes_of_hex_of_bytes by done. cbn. by rewrite Hx. Qed.

End rows.

(** What is written to a column is read back.  Indices and hashes in their range, keys, nonces
    and signatures, scripts, and amounts over the whole range of 64 bits, although they are stored
    as signed integers, are decoded from what they are encoded as; a witness is the exception: it
    can never be read back. *)
Theorem columns_read_back `{ColumnLibLaws, !WireCodecLaws, !HexLaws} :
  (∀ n, (n < 2 ^ 32)%N → reads_back (mkDbOperatorIdx n) ∧ reads_back (mkDbInputIndex n)) ∧
  (∀ h, hash_wf h → reads_back (mkDbTxid h) ∧ reads_back (mkDbHash h)) ∧
  (∀ n, (n < 2 ^ 64)%N → reads_back (mkDbAmount n)) ∧
  (∀ n, reads_back (mkDbXOnlyPublicKey n) ∧ reads_back (mkDbSignature n) ∧ reads_back (mkDbPubNonce n) ∧
    reads_back (mkDbAggNonce n) ∧ reads_back (mkDbPartialSig n)) ∧
  (∀ s, reads_back (mkDbScriptBuf s)) ∧
  (∀ keys, reads_back (mkDbWotsPublicKeys keys)) ∧ (∀ key, reads_back (mkDbWots256PublicKey key)) ∧
  (∀ sigs, reads_back (mkDbWotsSignatures sigs)) ∧
  ∀ w v, column_encode (mkDbTaprootWitness w) = Ok v → is_ok (column_decode (A := DbTaprootWitness) v) = false.
Proof.
  split; [|split; [|split; [|split; [|split; [|split; [|split; [|split]]]]]]].
  - intros n Hn. split; intros v Hv; cbn in Hv |- *; by rewrite (u32_reads_back n Hn v Hv).
  - intros h Hh. split; apply (written_reads_back _ (Text (hex_of_bytes (hash_bytes h)))); try reflexivity;
      cbn [column_decode txid_column hash_column text]; by rewrite hash_of_hex_bytes.
  - intros n Hn v [= <-]. cbn [column_decode amount_column]. by rewrite as_u64_as_i64.
  - intros n. split_and!; intros v [= <-]; cbn [column_decode xonly_column signature_column pub_nonce_column
      agg_nonce_column partial_sig_column db_xonly db_signature db_pub_nonce db_agg_nonce db_partial_sig];
      apply text_reads_back; first [apply xonly_is_bytes|apply schnorr_is_bytes|apply pub_nonce_is_bytes|
        apply agg_nonce_is_bytes|apply partial_is_bytes|apply xonly_codec|apply schnorr_codec|apply pub_nonce_codec|
        apply agg_nonce_codec|apply partial_codec].
  - intros s v [= <-]. cbn. by rewrite script_hex.
  - intros k v Hv. cbn in Hv. destruct (public_keys_to_bytes k) as [b|] eqn:E; [|done]. injection Hv as <-.
    cbn. by rewrite (public_keys_rkyv _ _ E).
  - intros k v Hv. cbn in Hv. destruct (wots256_to_bytes k) as [b|] eqn:E; [|done]. injection Hv as <-.
    destruct (wots256_rkyv _ _ E). by apply text_reads_back.
  - intros s v Hv. cbn in Hv. destruct (signatures_to_bytes s) as [b|] eqn:E; [|done]. injection Hv as <-.
    cbn. by rewrite (signatures_rkyv _ _ E).
  - intros w v [= <-]. cbn. pose proof (taproot_witness_hex_never_reads_back w) as Hw. by destruct (from_hex _).
Qed.

(** C34: A stake is read back from its row: whatever the keys are, a stake whose hashes have 32 bytes and
    whose output index is a [u32] is what its row is read as, under its deposit. *)
Theorem stake_row_reads_back `{ColumnLibLaws, !WireCodecLaws, !HexLaws} idx data row :
  (idx < 2 ^ 32)%N → (op_vout (operator_funds data) < 2 ^ 32)%N →
  hash_wf (op_txid (operator_funds data)) → hash_wf (stk_hash data) →
  write_stake_row (DbStakeTxData_new idx data) = Ok row →
  ∃ d, read_stake_row row = Ok d ∧ db_deposit_idx d = idx ∧ StakeTxData_from d = data.
Proof.
  intros Hidx Hvout Htxid Hhash Hrow. destruct columns_read_back as (Hu & Hh & _ & Hk & _ & _ & Hw & _).
  destruct data as [[txid vout] hash pk key]. cbn [operator_funds op_txid op_vout stk_hash] in *.
  unfold write_stake_row in Hrow.
  cbn [DbStakeTxData_new db_deposit_idx db_funding_txid db_funding_vout db_stake_hash db_withdrawal_fulfillment_pk
    db_operator_pubkey operator_funds op_txid op_vout stk_hash withdrawal_fulfillment_pk stk_operator_pubkey] in Hrow.
  destruct (u32_encode idx) as [v1|] eqn:E1; [|done].
  destruct (column_encode (mkDbTxid txid)) as [v2|] eqn:E2; [|done].
  destruct (column_encode (mkDbInputIndex vout)) as [v3|] eqn:E3; [|done].
  destruct (column_encode (mkDbHash hash)) as [v4|] eqn:E4; [|done].
  destruct (column_encode (mkDbXOnlyPublicKey key)) as [v5|] eqn:E5; [|done].
  destruct (column_encode (mkDbWots256PublicKey pk)) as [v6|] eqn:E6; [|done]. injection Hrow as <-.
  destruct (Hh _ Htxid) as [T _], (Hh _ Hhash) as [_ Hs], (Hu _ Hvout) as [_ V], (Hk key) as [K _].
  eexists. split; [|split]; [unfold read_stake_row|..].
  - rewrite (u32_reads_back _ Hidx _ E1), (T _ E2), (V _ E3), (Hs _ E4), (K _ E5), (Hw _ _ E6). reflexivity.
  - done.
  - done.
Qed.

(** ** Example *)

Module ColumnExample.

(** A value as the bits of its code. *)
Fixpoint bits (p : positive) : list N :=
  match p with xH => [] | xO p => 0%N :: bits p | xI p => 1%N :: bits p end.
Fixpoint of_bits (b : list N) : positive :=
  match b with [] => xH | 0%N :: b => xO (of_bits b) | _ :: b => xI (of_bits b) end.
Definition to_bytes `{Countable A} (x : A) : list N := bits (encode x).
Definition from_bytes `{Countable A} (b : list N) : option A := decode (of_bits b).

Lemma from_to_bytes `{Countable A} (x : A) : from_bytes (to_bytes x) = Some x.
Proof.
  unfold from_bytes, to_bytes. rewrite <- (decode_encode x). f_equal.
  generalize (encode x) as p. induction p as [p IH|p IH|]; cbn; by rewrite ?IH.
Qed.

Lemma to_bytes_is_bytes `{Countable A} (x : A) : Forall is_byte (to_bytes x).
Proof. unfold to_bytes. induction (encode x); cbn; constructor; done. Qed.

#[local] Instance archive : RkyvKeys := {|
  public_keys_to_bytes _ := None; public_keys_from_bytes _ := None;
  wots256_to_bytes k := Some (to_bytes k); wots256_from_bytes := from_bytes;
  signatures_to_bytes _ := None; signatures_from_bytes _ := None |}.
#[local] Instance codecs : WireCodecs := {|
  schnorr_serialize := to_bytes; schnorr_from_slice := from_bytes; xonly_serialize := to_bytes;
  xonly_from_slice := from_bytes; pub_nonce_serialize := to_bytes; pub_nonce_from_bytes := from_bytes;
  agg_nonce_serialize := to_bytes; agg_nonce_from_bytes := from_bytes; partial_serialize := to_bytes;
  partial_from_slice := from_bytes; control_block_serialize := to_bytes; control_block_decode := from_bytes;
  secret_key_bytes := to_bytes; secret_key_from_slice := from_bytes |}.
#[local] Instance hex : HexLib := {|
  serialize_hex_script s := hex_of_bytes (to_bytes s); deserialize_hex_script := parse_hex from_bytes;
  serialize_hex_control_block := @serialize_hex_control_block example_hex;
  raw_hash_hex := @raw_hash_hex example_hex; decode_control_block := @decode_control_block example_hex;
  tapnode_from_slice := @tapnode_from_slice example_hex |}.

#[local] Instance codec_laws : WireCodecLaws.
Proof. split; intros; apply from_to_bytes. Qed.
#[local] Instance column_laws : ColumnLibLaws.
Proof.
  split; try done; try (intros; apply to_bytes_is_bytes).
  - intros k b [= <-]. split; [apply from_to_bytes|apply to_bytes_is_bytes].
  - intros s. cbn. unfold parse_hex. rewrite bytes_of_hex_of_bytes by apply to_bytes_is_bytes. apply from_to_bytes.
Qed.
#[local] Instance hex_laws : HexLaws.
Proof.
  split; try apply example_hex_laws. intros s. cbn [serialize_hex_script hex]. unfold to_bytes.
  induction (encode s) as [p IH|p IH|]; cbn [bits hex_of_bytes has_colon]; [rewrite IH; reflexivity..|reflexivity].
Qed.

Definition stake : StakeTxData := mkStakeTxData (mkOutPoint 7 1) 9 [[1%N]] 3.

Lemma stake_row_reads_back_witness :
  let row := [Integer 4; Text (hex_of_bytes (hash_bytes 7)); Integer 1; Text (hex_of_bytes (hash_bytes 9));
    Text (hex_of_bytes (to_bytes 3%N)); Text (hex_of_bytes (to_bytes [[1%N]]))] in
  ∃ d, read_stake_row row = Ok d ∧ db_deposit_idx d = 4%N ∧ StakeTxData_from d = stake.
Proof.
  intros row. apply (stake_row_reads_back 4 stake row); reflexivity.
Defined.

End ColumnExample.
