(* ===== verification/RpcServer.v ===== *)
(** * The RPC server ([alpen-bridge/src/rpc_server.rs], with [rpc/src/types.rs] and [params.rs])

    The server answers from a cache of the contracts in the database, which a task refreshes
    periodically.  A client can monitor deposits, withdrawals and claims, and get what it takes to
    challenge a claim or to disprove an assertion.

    [chrono], [libp2p] and the conversion of an x-only key to one with even parity are parameters;
    JSON-RPC itself is left out.  The theorems: after any history of commits a refreshed cache holds
    every contract once, as last committed ([rpc_cache_latest]); what one method lists another
    describes, as the state of the contract says ([rpc_describes_contracts]); and what the reports of
    the server do not tell apart ([rpc_misreports]). *)

From S2P Require Import Prelude Bitcoin Database OperatorTable PogMusig Wots TxTypes Taproot Deposit Predicates.
From S2P Require Import Connectors StakeChain ConnectorsAssert TxGraph ContractTypes StakeChainSM ContractSM ContractExample Persistence ContractLifecycle.

(** ** Parameters of the node *)

Record Params := mkParams {
  p_network : Network;
  musig2_keys : list XOnlyPublicKey;
  p2p_key_params : list P2POperatorPubKey;
  tx_graph : PegOutGraphParams;
  p_stake_chain : StakeChainParams;
  connectors : ConnectorParams;
  sidesystem : RollupParams;
}.

(** [XOnlyPublicKey::public_key(Parity::Even)], and what the server knows of the network. *)
Class RpcLib := {
  even_public_key : XOnlyPublicKey → PublicKey;
  PeerId : Type;
  peer_id_of : P2POperatorPubKey → PeerId;
  is_connected : PeerId → bool;
}.

(** ** Answers ([types.rs]) *)

Inductive RpcOperatorStatus := Online | Offline.
Inductive RpcDepositStatus :=
| DepositInProgress | DepositFailed (failure_reason : string) | DepositComplete (deposit_txid : Txid).
Inductive ChallengeStep := StepClaim | StepChallenge | StepAssert.
Inductive RpcWithdrawalStatus := WithdrawalInProgress | WithdrawalComplete (fulfillment_txid : Txid).
Inductive RpcReimbursementStatus :=
| NotStarted
| InProgress (challenge_step : ChallengeStep)
| ReimbursementChallenged (challenge_step : ChallengeStep)
| Cancelled
| Complete (payout_txid : Txid).

Record RpcDepositInfo := mkRpcDepositInfo { di_status : RpcDepositStatus; di_deposit_request_txid : Txid }.
Record RpcWithdrawalInfo := mkRpcWithdrawalInfo { wi_status : RpcWithdrawalStatus; wi_withdrawal_request_txid : Buf32 }.
Record RpcClaimInfo := mkRpcClaimInfo { ci_claim_txid : Txid; ci_status : RpcReimbursementStatus }.

Inductive RpcBridgeDutyStatus :=
| DutyDeposit (deposit_request_txid : Txid)
| DutyWithdrawal (withdrawal_request_txid : Buf32) (assigned_operator_idx : OperatorIdx).

Record RpcDisproveData := mkRpcDisproveData {
  dd_post_assert_txid : Txid;
  dd_deposit_txid : Txid;
  dd_stake_outpoint : OutPoint;
  dd_stake_hash : Sha256Hash;
  dd_operator_pubkey : XOnlyPublicKey;
  dd_wots_public_keys : PublicKeys;
  dd_n_of_n_sig : TaprootSignature;
}.

Inductive ErrorCode := InvalidRequest | InternalError.
Inductive ErrorData := DataKey (k : PublicKey) | DataTxid (txid : Txid) | DataSeconds (s : Z).
Record RpcError := rpc_error { err_code : ErrorCode; err_message : string; err_data : ErrorData }.

(** ** The cache *)

Record TypedContractRecord := mkTypedContractRecord {
  tr_deposit_txid : Txid;
  tr_deposit_idx : N;
  tr_deposit_tx : DepositTx;
  tr_operator_table : OperatorTable;
  tr_state : MachineState;
}.

Abbreviation Cache := (list (TypedContractRecord * ContractCfg)).

Section cache.
Context `{SerdeLib}.

(** [ContractRecord::into_typed], of a row of the table.  The row holds the id of the deposit and the
    index as values: the text of the one is that of a [Txid], and the other was a [u32] when it was
    written, so that parsing and the cast give them back. *)
Definition into_typed (r : ContractRow) : result ContractPersistErr TypedContractRecord :=
  deposit_tx ← deserialize_deposit_tx (row_deposit_tx r);
  operator_table ← deserialize_table (row_operator_table r);
  state ← deserialize_state (row_state r);
  Ok (mkTypedContractRecord (row_deposit_txid r) (row_deposit_idx r) deposit_tx operator_table state).

Definition config_of (params : Params) (record : TypedContractRecord) : ContractCfg :=
  mkContractCfg (p_network params) (tr_operator_table record) (connectors params) (tx_graph params) (sidesystem params)
    (p_stake_chain params) (tr_deposit_idx record) (tr_deposit_tx record).

(** [record.into_typed().ok()]. *)
Definition typed_ok (r : ContractRow) : option TypedContractRecord :=
  match into_typed r with Ok record => Some record | Err _ => None end.

(** One round of the task: an error of the database is an empty table. *)
Definition refresh (params : Params) (p : Pool (list ContractRow)) : Pool (list ContractRow) * Cache :=
  let '(p, r) := queries (λ rows, rows) p in
  let contracts := match r with Ok rows => rows | Err _ => [] end in
  (p, (λ record, (record, config_of params record)) <$> omap typed_ok contracts).

End cache.

(** ** Control and monitoring *)

Definition get_uptime (now start_time : Z) : result RpcError N :=
  if (now <=? start_time)%Z
  then Err (rpc_error InternalError "system time may be inaccurate" (DataSeconds (now - start_time)))
  else Ok (Z.abs_N (now - start_time)).

Definition rpc_state (entry : TypedContractRecord * ContractCfg) : ContractState := state (tr_state entry.1).

Definition contract_state_to_reimbursement_status (s : ContractState) : RpcReimbursementStatus :=
  match s with
  | Requested _ | Deposited _ | Assigned _ _ _ _ _ | Fulfilled _ _ _ _ _ | Aborted => NotStarted
  | Claimed _ _ _ _ _ _ => InProgress StepClaim
  | Challenged _ _ _ _ _ _ => ReimbursementChallenged StepChallenge
  | PreAssertConfirmed _ _ _ _ _ _ _ | AssertDataConfirmed _ _ _ _ _ | Asserted _ _ _ _ _ _ =>
      ReimbursementChallenged StepAssert
  | Resolved _ _ _ payout_txid _ => Complete payout_txid
  | Disproved => Cancelled
  end.

(** [get_bridge_duties_by_operator_pk], for one contract: a key that is not in the table is skipped. *)
Definition duty_of_operator (operator_pk : PublicKey) (entry : TypedContractRecord * ContractCfg)
    : option RpcBridgeDutyStatus :=
  operator_p2p_pk ← btc_key_to_p2p_key (tr_operator_table entry.1) operator_pk;
  match rpc_state entry with
  | Assigned g w _ _ _ =>
      if bool_decide (is_Some (g_claim_txids g !! operator_p2p_pk))
      then Some (DutyWithdrawal (w_withdrawal_request_txid w) (fulfiller w)) else None
  | _ => None
  end.
Definition get_bridge_duties_by_operator_pk (cache : Cache) (operator_pk : PublicKey) : list RpcBridgeDutyStatus :=
  omap (duty_of_operator operator_pk) cache.

Definition current_withdrawal (s : ContractState) : option Buf32 :=
  match s with
  | Assigned _ w _ _ _ | Fulfilled _ w _ _ _ | Claimed _ w _ _ _ _ | Challenged _ w _ _ _ _
  | PreAssertConfirmed _ w _ _ _ _ _ | AssertDataConfirmed _ w _ _ _ | Asserted _ w _ _ _ _ =>
      Some (w_withdrawal_request_txid w)
  | Requested _ | Deposited _ | Resolved _ _ _ _ _ | Disproved | Aborted => None
  end.
Definition get_withdrawals (cache : Cache) : list Buf32 := omap (λ entry, current_withdrawal (rpc_state entry)) cache.

(** The withdrawal of a contract with its status. *)
Definition withdrawal_status (s : ContractState) : option (Buf32 * RpcWithdrawalStatus) :=
  match s with
  | Requested _ | Deposited _ | Disproved | Aborted => None
  | Assigned _ w _ _ _ => Some (w_withdrawal_request_txid w, WithdrawalInProgress)
  | Fulfilled _ w txid _ _ | Claimed _ w _ txid _ _ | Challenged _ w _ txid _ _
  | PreAssertConfirmed _ w _ txid _ _ _ | AssertDataConfirmed _ w txid _ _ | Asserted _ w _ txid _ _ =>
      Some (w_withdrawal_request_txid w, WithdrawalComplete txid)
  | Resolved _ withdrawal_request_txid txid _ _ => Some (withdrawal_request_txid, WithdrawalComplete txid)
  end.
Definition get_withdrawal_info (cache : Cache) (withdrawal_request_txid : Buf32) : option RpcWithdrawalInfo :=
  find_map (λ entry,
    '(request, status) ← withdrawal_status (rpc_state entry);
    if bool_decide (withdrawal_request_txid = request)
    then Some (mkRpcWithdrawalInfo status withdrawal_request_txid) else None) cache.

Definition claim_of (s : ContractState) : option Txid :=
  match s with
  | Claimed _ w _ _ _ _ | Challenged _ w _ _ _ _ | PreAssertConfirmed _ w _ _ _ _ _ | AssertDataConfirmed _ w _ _ _
  | Asserted _ w _ _ _ _ | Fulfilled _ w _ _ _ => Some (claim_txid (active_graph w).2)
  | Requested _ | Deposited _ | Assigned _ _ _ _ _ => None
  | Disproved | Aborted => None
  | Resolved claim_txid _ _ _ _ => Some claim_txid
  end.
Definition get_claims (cache : Cache) : list Txid := omap (λ entry, claim_of (rpc_state entry)) cache.

Definition has_claim (claim_txid : Txid) (entry : TypedContractRecord * ContractCfg) : bool :=
  bool_decide (claim_txid ∈ claim_txid_set (rpc_state entry)).
Definition get_claim_info (cache : Cache) (claim_txid : Txid) : option RpcClaimInfo :=
  (λ entry, mkRpcClaimInfo claim_txid (contract_state_to_reimbursement_status (rpc_state entry)))
    <$> List.find (has_claim claim_txid) cache.

Section monitoring.
Context `{RpcLib, KeyAggLib}.

(** The table of the operators, as the node makes it when it starts ([mode/operator.rs]). *)
Definition node_operator_table (params : Params) (my_btc_pk : XOnlyPublicKey) : option OperatorTable :=
  let zipped := zip (p2p_key_params params) (even_public_key <$> musig2_keys params) in
  OperatorTable_new (imap (λ i '(op, btc), (N.of_nat i, op, btc)) zipped) (select_btc_x_only my_btc_pk).

Definition get_bridge_operators (params : Params) : list PublicKey := even_public_key <$> musig2_keys params.

(** [params.keys.p2p[index]] panics when there are fewer keys. *)
Definition convert_operator_pk_to_peer_id (params : Params) (operator_pk : PublicKey) : comp (option PeerId) :=
  match list_find (λ pk, pk = x_only_public_key operator_pk) (musig2_keys params) with
  | Some (index, _) => pk ← expect (p2p_key_params params !! index); Val (Some (peer_id_of pk))
  | None => Val None
  end.

Definition get_operator_status (params : Params) (operator_pk : PublicKey) : comp (result RpcError RpcOperatorStatus) :=
  conversion ← convert_operator_pk_to_peer_id params operator_pk;
  Val match conversion with
    | None => Err (rpc_error InvalidRequest "Invalid operator public key" (DataKey operator_pk))
    | Some peer_id => Ok (if is_connected peer_id then Online else Offline)
    end.

End monitoring.

Definition get_deposit_requests (cache : Cache) : comp (list Txid) :=
  mapM (λ entry, cfg_deposit_request_txid entry.2) cache.

Fixpoint get_deposit_request_info (cache : Cache) (request : Txid) : comp (result RpcError RpcDepositInfo) :=
  match cache with
  | [] => Val (Err (rpc_error InvalidRequest "Deposit request transaction ID not found" (DataTxid request)))
  | entry :: cache =>
      entry_deposit_request_txid ← cfg_deposit_request_txid entry.2;
      if bool_decide (request = entry_deposit_request_txid) then
        Val (Ok (mkRpcDepositInfo match rpc_state entry with
          | Requested _ => DepositInProgress
          | _ => DepositComplete (tr_deposit_txid entry.1)
          end request))
      else get_deposit_request_info cache request
  end.

Definition bridge_duty (entry : TypedContractRecord * ContractCfg) : comp (option RpcBridgeDutyStatus) :=
  match rpc_state entry with
  | Requested _ => request ← cfg_deposit_request_txid entry.2; Val (Some (DutyDeposit request))
  | Assigned _ w _ _ _ => Val (Some (DutyWithdrawal (w_withdrawal_request_txid w) (fulfiller w)))
  | _ => Val None
  end.
Definition get_bridge_duties (cache : Cache) : comp (list RpcBridgeDutyStatus) :=
  omap id <$> mapM bridge_duty cache.

(** ** What a challenger needs *)

Definition get_challenge_signature (cache : Cache) (claim_txid : Txid) : option TaprootSignature :=
  find_map (λ entry, challenge <$> graph_sigs (rpc_state entry) !! claim_txid) cache.

Definition get_disprove_data (cache : Cache) (claim_txid : Txid) : option RpcDisproveData :=
  contract ← List.find (has_claim claim_txid) cache;
  let s := rpc_state contract in
  graph_input ← graph_input s claim_txid;
  graph_summary ← graph_summary s claim_txid;
  sigs ← graph_sigs s !! claim_txid;
  Some (mkRpcDisproveData (post_assert_txid graph_summary) (tr_deposit_txid contract.1)
    (mkOutPoint (stake_txid graph_summary) STAKE_VOUT) (pgi_stake_hash graph_input) (pgi_operator_pubkey graph_input)
    (wots_public_keys graph_input) (disprove sigs)).

Section challenge.
Context `{RpcLib, KeyAggLib, TaprootLib, ConnectorLib, ScriptLib, BitcoinLib, AssertLib, NmulLib, ExtractLib, BuildProfile}.

(** [KeyAggContext::new(..).aggregated_pubkey()] of the keys of the parameters. *)
Definition params_agg_pubkey (keys : list XOnlyPublicKey) : comp XOnlyPublicKey :=
  key_agg_ctx ← expect (KeyAggContext_new (even_public_key <$> keys));
  Val (x_only_public_key (aggregated_pubkey key_agg_ctx)).

Definition challenge_parts (claim_txid : Txid) (entry : TypedContractRecord * ContractCfg)
    : option (TaprootSignature * XOnlyPublicKey) :=
  match challenge <$> graph_sigs (rpc_state entry) !! claim_txid,
    pgi_operator_pubkey <$> graph_input (rpc_state entry) claim_txid with
  | Some challenge_sig, Some reimbursement_key => Some (challenge_sig, reimbursement_key)
  | _, _ => None
  end.

Definition get_challenge_tx (params : Params) (cache : Cache) (claim_txid : Txid) : comp (option Transaction) :=
  match find_map (challenge_parts claim_txid) cache with
  | None => Val None
  | Some (challenge_sig, reimbursement_key) =>
      agg_pubkey ← params_agg_pubkey (musig2_keys params);
      let challenge_connector := mkConnectorC1 agg_pubkey (p_network params)
        (payout_optimistic_timelock (connectors params)) in
      challenge_tx ← ChallengeTx_new (mkOutPoint claim_txid CHALLENGE_VOUT) (challenge_cost (tx_graph params))
        reimbursement_key (p_network params) challenge_connector;
      tx ← ChallengeTx_finalize_presigned challenge_tx (C1Challenge challenge_sig);
      Val (Some tx)
  end.

End challenge.

(** ** Properties *)

Lemma find_map_is_Some {A B} (f : A → option B) l a : a ∈ l → is_Some (f a) → is_Some (find_map f l).
Proof.
  induction 1 as [a l|a a' l Hin IH]; cbn; [by intros [b ->]|]. intros Ha. destruct (f a'); [done|by apply IH].
Qed.

Lemma no_faults_query {A B} (f : A → B) c t : queries f (mkPool c t []) = (mkPool c t [], Ok (f t)).
Proof. unfold queries. by erewrite execute_no_faults. Qed.

(** The keys of the table are those of the parameters, in their order. *)
Lemma node_table_keys `{RpcLib, KeyAggLib} params my_btc_pk t :
  node_operator_table params my_btc_pk = Some t → length (musig2_keys params) ≤ length (p2p_key_params params) →
  btc_keys t = even_public_key <$> musig2_keys params.
Proof.
  intros Ht Hlen. unfold node_operator_table in Ht. set (zipped := zip _ _) in Ht. set (entries := imap _ _) in Ht.
  pose proof (operator_table_new_spec entries (select_btc_x_only my_btc_pk)) as Hnew. rewrite Ht in Hnew.
  destruct Hnew as (_ & _ & Hidx & _). unfold btc_keys, bt_values.
  rewrite (bt_iter_unique _ (imap (λ i x, (N.of_nat i, x)) zipped)).
  - rewrite !fmap_imap. rewrite (imap_ext _ (const snd)) by (by intros i []). unfold zipped.
    rewrite imap_const. apply snd_zip. by rewrite length_fmap.
  - apply NoDup_Permutation.
    + apply (NoDup_fmap_1 fst). rewrite fmap_imap. apply NoDup_alt. intros i j x.
      rewrite !list_lookup_imap, !fmap_Some. intros (? & _ & ->) (? & _ & E). cbn in E. lia.
    + apply NoDup_map_to_list.
    + intros [idx [op btc]]. rewrite elem_of_map_to_list, Hidx. unfold entries. rewrite !elem_of_lookup_imap.
      split; intros (i & y & E & Hy); [exists i, y; by destruct y as [? ?]; simplify_eq/=|].
      destruct y as [op' btc']. exists i, (op', btc'). by simplify_eq/=.
  - generalize zipped. intros l. clear. assert (∀ k, StronglySorted bt_le (imap (λ i x, (N.of_nat (k + i), x)) l)) as Hs.
    { induction l as [|x l IH]; intros k; [constructor|]. cbn. constructor.
      - rewrite (imap_ext _ (λ i x, (N.of_nat (S k + i), x))) by (intros i y _; cbn; do 2 f_equal; lia). apply IH.
      - apply Forall_forall. intros [n y] (i & z & E & _)%elem_of_lookup_imap. unfold compose in E. cbn in *.
        unfold bt_le. cbn. injection E as -> ->. lia. }
    apply (Hs 0).
Qed.

Section cache_properties.
Context `{SerdeLaws, BitcoinLib, TxGraphOps}.

(** The parameters with which the contracts were made are those of the server. *)
Definition params_tuple (params : Params) :=
  (p_network params, connectors params, tx_graph params, sidesystem params, p_stake_chain params).

(** What the server knows of a contract that was committed under a key. *)
Definition record_of (e : Txid * ContractSM) : TypedContractRecord :=
  mkTypedContractRecord e.1 (deposit_idx (cfg e.2)) (deposit_tx (cfg e.2)) (operator_table (cfg e.2)) (mstate e.2).

Lemma typed_encoded e r : encode_contract e = Ok r → typed_ok r = Some (record_of e).
Proof.
  unfold encode_contract, encode_row. destruct (serialize_deposit_tx _) as [b1|] eqn:E1; [|done].
  destruct (serialize_table _) as [b2|] eqn:E2; [|done]. destruct (serialize_state _) as [b3|] eqn:E3; [|done].
  intros [= <-]. unfold typed_ok, into_typed. cbn [row_deposit_tx row_operator_table row_state row_deposit_txid row_deposit_idx].
  by rewrite (deposit_tx_serde _ _ E1), (table_serde _ _ E2), (state_serde _ _ E3).
Qed.

Lemma config_of_record params e :
  cfg_params (cfg e.2) = params_tuple params → config_of params (record_of e) = cfg e.2.
Proof. destruct e as [key [c ? ?]], c. unfold cfg_params, params_tuple, config_of. cbn. by intros [= -> -> -> -> ->]. Qed.

(** The refreshed cache is what was committed last.  After any history of commits of contracts
    made with the parameters of the server, in which no key is used for two indices, a refresh fills
    the cache with each deposit index that occurs, exactly once, with the key, the configuration and
    the state of its last commit. *)
Theorem rpc_cache_latest params c calls :
  let history := mjoin (committed <$> calls) in
  Forall (λ e, is_ok (encode_contract e) = true) history →
  (∀ e e', e ∈ history → e' ∈ history → e.1 = e'.1 → deposit_idx (cfg e.2) = deposit_idx (cfg e'.2)) →
  Forall (λ e, cfg_params (cfg e.2) = params_tuple params) history →
  let cache := (refresh params (foldl persist_call (mkPool c [] []) calls)).2 in
  NoDup ((λ entry, deposit_idx entry.2) <$> cache) ∧
  ∀ entry, entry ∈ cache ↔ ∃ e, entry = (record_of e, cfg e.2) ∧
    last (filter (λ e' : Txid * ContractSM, deposit_idx (cfg e'.2) = deposit_idx (cfg e.2)) history) = Some e.
Proof.
  intros history Henc Hkeys Hparams. destruct (history_rows c calls Henc Hkeys) as (rows & -> & Hnd & Hin).
  fold history in Hin. unfold refresh. rewrite no_faults_query. cbn [snd].
  assert (∀ r, r ∈ rows → ∃ e, e ∈ history ∧ encode_contract e = Ok r ∧ row_deposit_idx r = deposit_idx (cfg e.2) ∧
    last (filter (λ e' : Txid * ContractSM, deposit_idx (cfg e'.2) = deposit_idx (cfg e.2)) history) = Some e) as Hfrom.
  { intros r (e & Hl & He & E)%Hin. exists e. destruct (encode_contract_spec _ _ E) as (_ & Hi & _). by rewrite Hi in Hl. }
  assert (∀ e, e ∈ history → config_of params (record_of e) = cfg e.2) as Hcfg.
  { intros e He. apply config_of_record. by apply (proj1 (Forall_forall _ _) Hparams). }
  split.
  - replace (_ <$> _) with (row_deposit_idx <$> rows); [done|]. clear Hin Hnd. rewrite <- list_fmap_compose.
    induction rows as [|r rows IH]; [done|]. cbn [omap list_omap fmap list_fmap].
    destruct (Hfrom r) as (e & He & E & Hi & _); [by left|]. rewrite (typed_encoded _ _ E). cbn [fmap list_fmap]. f_equal.
    + by rewrite Hi.
    + apply IH. intros r' Hr'. apply Hfrom. by right.
  - intros entry. rewrite list_elem_of_fmap. setoid_rewrite list_elem_of_omap. split.
    + intros (record & -> & r & (e & He & E & _ & Hl)%Hfrom & Ht). rewrite (typed_encoded _ _ E) in Ht.
      injection Ht as <-. exists e. by rewrite Hcfg.
    + intros (e & -> & Hl). assert (e ∈ history) as He by (by apply last_Some_elem_of, list_elem_of_filter in Hl as [_ Hl]).
      assert (is_ok (encode_contract e) = true) as Hok by (by apply (proj1 (Forall_forall _ _) Henc)).
      destruct (encode_contract e) as [r|] eqn:E; [|done]. exists (record_of e). rewrite Hcfg by done. split; [done|].
      exists r. split; [|by apply typed_encoded]. apply Hin. exists e.
      destruct (encode_contract_spec _ _ E) as (_ & -> & _). by rewrite E.
Qed.

End cache_properties.

(** ** What is reported has happened *)

Section reports.
Context `{BuildProfile, BitcoinLib, SighashLib, InstructionsLib, TaprootLib, DepositLib,
  DescriptorLib, Musig2Lib, TxGraphOps, SerdeLaws}.

(** The machine is what a request became after the inputs. *)
Definition reached (inputs : list Input) (sm : ContractSM) : Prop :=
  ∃ h deadline sm0 outs, ContractSM_new (cfg sm) h deadline = Val sm0 ∧ run inputs sm0 = Val (sm, outs).

Lemma reached_evidence inputs sm : reached inputs sm →
  ∃ s0 l, l `sublist_of` events inputs ∧ evidence (cfg sm) s0 l (state (mstate sm)).
Proof.
  intros (h & d & sm0 & outs & (Hc & _ & _ & txid & _ & Hs)%new_state & (_ & l & Hl & Htl)%run_timeline).
  rewrite Hc, Hs in Htl. eexists _, l. split; [exact Hl|by apply timeline_evidence].
Qed.

Lemma then_confirmed_before (P : list ContractEvent → Prop) txid ms l :
  then_confirmed P txid ms → ms `sublist_of` l → ∃ ms0, ms0 `sublist_of` l ∧ P ms0.
Proof.
  intros (ms0 & tx & h & -> & HP & _) Hms. exists ms0. split; [|done]. etrans; [|exact Hms]. by apply sublist_inserts_r.
Qed.

(** A withdrawal that counts as complete was fulfilled. *)
Lemma evidence_fulfilled c s0 l s request ftxid :
  evidence c s0 l s → withdrawal_status s = Some (request, WithdrawalComplete ftxid) →
  ∃ ms w, ms `sublist_of` l ∧ fulfilled_by c ms w ftxid ∧ w_withdrawal_request_txid w = request.
Proof.
  intros [_ He] Hs.
  assert (∀ ms w f, ms `sublist_of` l → claimed_by c ms w f → ∃ ms0, ms0 `sublist_of` l ∧ fulfilled_by c ms0 w f) as Hcl.
  { intros ms w f Hms Hc. by eapply then_confirmed_before. }
  assert (∀ ms w f, ms `sublist_of` l → pre_asserted_by c ms w f → ∃ ms0, ms0 `sublist_of` l ∧ fulfilled_by c ms0 w f) as Hpre.
  { intros ms w f Hms Hc. destruct (then_confirmed_before _ _ _ _ Hc Hms) as (ms0 & Hms0 & Hp). by apply (Hcl ms0). }
  assert (∀ ms w f, ms `sublist_of` l → asserted_by c ms w f → ∃ ms0, ms0 `sublist_of` l ∧ fulfilled_by c ms0 w f) as Has.
  { intros ms w f Hms Hc. destruct (then_confirmed_before _ _ _ _ Hc Hms) as (ms0 & Hms0 & Hp). by apply (Hpre ms0). }
  destruct s as [| | |g w f ? ?|g w ? f ? ?|g w ? f ? ?|g w ? f ? ? sd|g w f ? sd|g w ? f ? ?| |cl rq f p path|];
    try done; injection Hs as <- <-; cbn in He.
  - destruct He as (ms & Hms & Hf). by exists ms, w.
  - destruct He as (ms & Hms & (ms0 & ? & ?)%(Hcl ms)); [by exists ms0, w|done].
  - destruct He as (ms & Hms & (ms0 & ? & ?)%(Hcl ms)); [by exists ms0, w|done].
  - destruct He as [(ms & Hms & (ms0 & ? & ?)%(Hpre ms)) _]; [by exists ms0, w|done].
  - destruct He as [(ms & Hms & (ms0 & ? & ?)%(Hpre ms)) _]; [by exists ms0, w|done].
  - destruct He as [(ms & Hms & (ms0 & ? & ?)%(Has ms)) _]; [by exists ms0, w|done].
  - destruct path; destruct He as (ms & w & Hms & _ & Ht & _ & _ & Hw);
      destruct (then_confirmed_before _ _ _ _ Ht Hms) as (ms0 & Hms0 & Hp); [|destruct Hw as [Hw _]].
    + destruct (Hcl ms0 w f) as (ms1 & ? & ?); [done..|]. by exists ms1, w.
    + destruct (Has ms0 w f) as (ms1 & ? & ?); [done..|]. by exists ms1, w.
Qed.

(** A claim that counts as reimbursed was paid out. *)
Lemma evidence_paid c s0 l s claim payout :
  evidence c s0 l s → claim ∈ claim_txid_set s → contract_state_to_reimbursement_status s = Complete payout →
  ∃ ms w f, ms `sublist_of` l ∧ claim = claim_txid (active_graph w).2 ∧
    (then_confirmed (λ ms, claimed_by c ms w f) payout ms ∨ then_confirmed (λ ms, asserted_by c ms w f) payout ms).
Proof.
  intros [_ He] Hc Hs. destruct s as [| | | | | | | | | |cl rq f p path|]; try done. injection Hs as ->.
  apply elem_of_list_to_set, list_elem_of_singleton in Hc as ->.
  destruct path; destruct He as (ms & w & Hms & _ & Ht & Hcl & _); exists ms, w, f; eauto.
Qed.

(** C16: What the server reports has happened on the chain.  When the server refreshes its cache after
    any history of commits of machines that were fed anything, a withdrawal that it reports as
    complete was served: the deliveries to the machine of its deposit contain the deposit, an
    assignment with this request and then the reported transaction, which fulfills it.  A claim that
    it reports as reimbursed was confirmed, and then the payout that it reports.  And every
    withdrawal that it lists has a report. *)
Theorem rpc_reports_happened params c calls :
  let history := mjoin (committed <$> calls) in
  Forall (λ e, is_ok (encode_contract e) = true) history →
  (∀ e e', e ∈ history → e' ∈ history → e.1 = e'.1 → deposit_idx (cfg e.2) = deposit_idx (cfg e'.2)) →
  Forall (λ e, cfg_params (cfg e.2) = params_tuple params) history →
  Forall (λ e, ∃ inputs, reached inputs e.2) history →
  let cache := (refresh params (foldl persist_call (mkPool c [] []) calls)).2 in
  (∀ request ftxid, get_withdrawal_info cache request = Some (mkRpcWithdrawalInfo (WithdrawalComplete ftxid) request) →
    ∃ sm inputs ms w, latest (deposit_idx (cfg sm)) history = Some sm ∧ reached inputs sm ∧
      ms `sublist_of` events inputs ∧ fulfilled_by (cfg sm) ms w ftxid ∧ w_withdrawal_request_txid w = request) ∧
  (∀ claim payout, get_claim_info cache claim = Some (mkRpcClaimInfo claim (Complete payout)) →
    ∃ sm inputs ms w ftxid, latest (deposit_idx (cfg sm)) history = Some sm ∧ reached inputs sm ∧
      ms `sublist_of` events inputs ∧ claim = claim_txid (active_graph w).2 ∧
      (then_confirmed (λ ms, claimed_by (cfg sm) ms w ftxid) payout ms ∨
       then_confirmed (λ ms, asserted_by (cfg sm) ms w ftxid) payout ms)) ∧
  ∀ request, request ∈ get_withdrawals cache → is_Some (get_withdrawal_info cache request).
Proof.
  intros history Henc Hkeys Hparams Hreach cache.
  destruct (rpc_cache_latest params c calls Henc Hkeys Hparams) as [_ Hin]. fold history cache in Hin.
  assert (∀ entry, entry ∈ cache → ∃ sm inputs s0 l, rpc_state entry = state (mstate sm) ∧
    latest (deposit_idx (cfg sm)) history = Some sm ∧ reached inputs sm ∧ l `sublist_of` events inputs ∧
    evidence (cfg sm) s0 l (state (mstate sm))) as Hev.
  { intros entry ([key sm] & -> & Hl)%Hin.
    assert ((key, sm) ∈ history) as He by (by apply last_Some_elem_of, list_elem_of_filter in Hl as [_ Hl]).
    destruct (proj1 (Forall_forall _ _) Hreach _ He) as [inputs Hr].
    destruct (reached_evidence inputs sm Hr) as (s0 & l & Hs & He'). exists sm, inputs, s0, l.
    split_and!; try done. unfold latest. cbn [snd] in Hl. by rewrite Hl. }
  split_and!.
  - intros request ftxid ([record conf] & (sm & inputs & s0 & l & Es & Hl & Hr & Hs & He)%Hev & Hst)%find_map_Some.
    rewrite Es in Hst. destruct (withdrawal_status (state (mstate sm))) as [[request' status]|] eqn:Ew; [|done].
    cbn in Hst. case_bool_decide as Hq; [|done]. injection Hst as ->. subst request'.
    destruct (evidence_fulfilled _ _ _ _ _ _ He Ew) as (ms & w & Hms & Hf & Hw). exists sm, inputs, ms, w.
    split_and!; try done. by etrans.
  - intros claim payout. unfold get_claim_info. destruct (List.find _ _) as [entry|] eqn:Ef; [|done].
    apply List.find_some in Ef as [Hentry%list_elem_of_In Hc]. cbn. intros [= Hst].
    destruct (Hev entry Hentry) as (sm & inputs & s0 & l & Es & Hl & Hr & Hs & He).
    unfold has_claim in Hc. apply bool_decide_eq_true in Hc. rewrite Es in Hc, Hst.
    destruct (evidence_paid _ _ _ _ _ _ He Hc Hst) as (ms & w & f & Hms & Hcl & Hp). exists sm, inputs, ms, w, f.
    split_and!; try done. by etrans.
  - intros request (entry & Hentry & Hc)%list_elem_of_omap. eapply find_map_is_Some; [exact Hentry|].
    destruct (rpc_state entry); try done; injection Hc as <-; cbn; rewrite bool_decide_true by done; by eexists.
Qed.

End reports.

(** ** What the reports do not tell *)

Lemma retry_exhausted {T A} (op : T → T * result DbError A) n c t fs :
  retry_loop n (transaction op) (mkPool c t (replicate (S n) true ++ fs)) = (mkPool c t fs, Err (StorageErr Driver)).
Proof. induction n as [|n IH]; [done|]. apply IH. Qed.

(** C38: Where the reports of the server mislead.  A claim that was disproved is never reported as
    cancelled, since a disproved contract has no claims; a request whose deposit was aborted is
    reported as a complete deposit; the duties of an operator include the withdrawals that are
    assigned to any other operator of the contract; and when the database fails as often as it is
    tried, the refreshed cache is empty, and with it all lists, whatever contracts there are. *)
Theorem rpc_misreports :
  (∀ cache claim info, get_claim_info cache claim = Some info → ci_status info ≠ Cancelled) ∧
  (∀ entry cache request, cfg_deposit_request_txid entry.2 = Val request → rpc_state entry = Aborted →
    get_deposit_request_info (entry :: cache) request
    = Val (Ok (mkRpcDepositInfo (DepositComplete (tr_deposit_txid entry.1)) request))) ∧
  (∀ cache entry g w recipient deadline h pk op, entry ∈ cache → rpc_state entry = Assigned g w recipient deadline h →
    btc_key_to_p2p_key (tr_operator_table entry.1) pk = Some op → is_Some (g_claim_txids g !! op) →
    DutyWithdrawal (w_withdrawal_request_txid w) (fulfiller w) ∈ get_bridge_duties_by_operator_pk cache pk) ∧
  ∀ `{SerdeLib} params c rows fs,
    refresh params (mkPool c rows (replicate (S (max_retry_count c)) true ++ fs)) = (mkPool c rows fs, []).
Proof.
  split_and!.
  - intros cache claim info. unfold get_claim_info. destruct (List.find _ _) as [entry|] eqn:Ef; [|done].
    apply List.find_some in Ef as [_ Hc]. apply bool_decide_eq_true in Hc. intros [= <-]. cbn [ci_status].
    by destruct (rpc_state entry).
  - intros entry cache request Hr Hs. cbn. rewrite Hr. cbn. by rewrite bool_decide_true, Hs.
  - intros cache entry g w recipient deadline h pk op Hin Hs Hpk Hop. apply list_elem_of_omap. exists entry.
    split; [done|]. unfold duty_of_operator. rewrite Hpk. cbn. by rewrite Hs, bool_decide_true.
  - intros Hserde params c rows fs. unfold refresh, queries, execute_with_retries. cbn [config].
    by rewrite retry_exhausted.
Qed.

(** ** Example *)

Module RpcExample.

#[local] Existing Instances example_profile example_bitcoin example_sighash example_instructions example_taproot
  example_deposit example_descriptor example_keyagg example_musig example_graph example_serde.

Definition params : Params :=
  mkParams 1 [100; 200]%N [10; 20]%N PegOutGraphParams_default StakeChainParams_default ConnectorParams_default
    (mkRollupParams 20).

(** A contract whose withdrawal was served, committed while it was assigned and at the end. *)
Definition inputs : list Input :=
  (Feed false <$> example_asserted 1) ++ [Restart; Feed true (confirm 170 (tx_with 5205 []))]%N.
Definition contract : ContractSM := (example_after inputs).1.
#[local] Opaque contract.
Definition calls : list PersistCall := [Commit 5201 contract; CommitAll [(5101%N, contract)]].

Lemma rpc_reports_happened_witness :
  let cache := (refresh params (foldl persist_call (mkPool (mkDbConfig 0) [] []) calls)).2 in
  get_withdrawal_info cache 66 = Some (mkRpcWithdrawalInfo (WithdrawalComplete 700) 66) ∧
  ∃ sm inputs ms w, latest (deposit_idx (cfg sm)) [(5201%N, contract); (5101%N, contract)] = Some sm ∧ reached inputs sm ∧
    ms `sublist_of` events inputs ∧ fulfilled_by (cfg sm) ms w 700 ∧ w_withdrawal_request_txid w = 66%N.
Proof.
  intros cache. assert (get_withdrawal_info cache 66 = Some (mkRpcWithdrawalInfo (WithdrawalComplete 700) 66)) as E
    by (vm_compute; reflexivity).
  split; [exact E|]. assert (reached inputs contract) as Hr.
  { exists 90%N, 600%N, example_start, (example_after inputs).2. split; vm_compute; reflexivity. }
  destruct (rpc_reports_happened params (mkDbConfig 0) calls) as (Hw & _).
  - repeat (constructor; [vm_compute; reflexivity|]). constructor.
  - intros e e' He He' _. change (mjoin _) with [(5201%N, contract); (5101%N, contract)] in He, He'.
    assert (∀ x, x ∈ [(5201%N, contract); (5101%N, contract)] → x.2 = contract) as Hx
      by (intros x [->|[->|[]%elem_of_nil]%elem_of_cons]%elem_of_cons; reflexivity).
    rewrite (Hx e He), (Hx e' He'). reflexivity.
  - repeat (constructor; [vm_compute; reflexivity|]). constructor.
  - constructor; [exists inputs; exact Hr|]. constructor; [exists inputs; exact Hr|]. constructor.
  - change (mjoin (committed <$> calls)) with [(5201%N, contract); (5101%N, contract)] in Hw. exact (Hw _ _ E).
Defined.

End RpcExample.
