(* ===== verification/Challenger.v ===== *)
(** * The challenger ([dev-cli/src/handlers/challenge.rs] and [disprove.rs])

    Anyone can challenge a claim and disprove an assertion with what the RPC server of a node gives
    out.  The two commands are modelled with the calls they make to a bitcoin node and to its
    wallet, which are parameters, as are [bitvm]'s check of the assertions and the hash of [sp1].

    The theorems compose the commands with the server, the graphs and the contracts: the challenge
    that is broadcast is the one of the graph with the signature that the operators made, and moves
    the contract ([challenge_command]); and when the hash of the public inputs that an operator
    committed to is not the right one, the transaction that is broadcast spends the stake and the
    post-assert output by the leaf of the public inputs, which opens but for one value
    ([disprove_command]). *)

From S2P Require Import Prelude Bitcoin Database OperatorTable PogMusig Winternitz Wots TxTypes Taproot Deposit Predicates.
From S2P Require Import Connectors Script StakeChain SpendConditions ConnectorsAssert DisproveScript TxGraph PegOutGraph.
From S2P Require Import GraphInstance GraphSpec GraphProperties GraphFinalize ParseWitness ContractTypes StakeChainSM ContractSM.
From S2P Require Import ContractExample Persistence ContractLifecycle RpcServer.

(** ** What the commands call *)

Inductive CliErr :=
| BridgeError | ChallengeTxNotFound | FundingError | SigningError | BroadcastError
| PostAssertNotFound | AssertDataNotFound | WrongNumberOfInputs | PreAssertNotFound | ClaimNotFound'
| DisproveDataNotFound | AddressError.

(** The bitcoin node and its wallet. *)
Class WalletLib := {
  get_raw_transaction : Txid → option Transaction;
  (** [get_new_address] with the network of the node. *)
  get_new_address : option ScriptBuf;
  send_to_address : Amount → option Txid;
  get_transaction : Txid → option Transaction;
  sign_raw_transaction_with_wallet : Transaction → option Transaction;
  (** The node accepts the transaction. *)
  send_raw_transaction : Transaction → bool;
}.

(** What a wallet leaves alone: the transaction but the witnesses of inputs that have none. *)
Class WalletLaws `{WalletLib} : Prop := {
  sign_keeps : ∀ tx tx', sign_raw_transaction_with_wallet tx = Some tx' →
    output tx' = output tx ∧
    Forall2 (λ i i', previous_output i' = previous_output i ∧ (witness i ≠ [] → i' = i)) (input tx) (input tx');
}.

(** [bitvm] and [sp1_verifier]. *)
Class VerifierLib := {
  (** [<Wots32 as Wots>::signature_to_message]. *)
  signature_to_message : Wots256Sig → list N;
  (** [hash_public_inputs_with_fn(_, blake3_hash)]. *)
  hash_public_inputs : list N → list N;
  (** [validate_assertions] under the verification key. *)
  validate_assertions : Groth16Sigs → Groth16PublicKeys → list ScriptBuf → option (nat * list (list N));
}.

(** ** Challenge *)

Section challenge.
Context `{WalletLib}.

Definition create_funding_utxo (amt : Amount) : option OutPoint :=
  txid ← send_to_address amt;
  tx ← get_transaction txid;
  '(vout, _) ← list_find (λ o, value o = amt) (output tx);
  Some (mkOutPoint txid (N.of_nat vout)).

(** The server is asked for the transaction; [output[0]] panics when there is none. *)
Definition handle_challenge (rpc_challenge_tx : result CliErr (option Transaction)) : comp (result CliErr Transaction) :=
  match rpc_challenge_tx with
  | Err e => Val (Err e)
  | Ok None => Val (Err ChallengeTxNotFound)
  | Ok (Some challenge_tx) =>
      out ← expect (head (output challenge_tx));
      Val (funding_outpoint ← ok_or (create_funding_utxo (value out)) FundingError;
        let challenge_tx := mkTransaction (version challenge_tx) (lock_time challenge_tx)
          (input challenge_tx ++ [mkTxIn funding_outpoint [] ENABLE_RBF_NO_LOCKTIME []]) (output challenge_tx) in
        signed_challenge_tx ← ok_or (sign_raw_transaction_with_wallet challenge_tx) SigningError;
        if send_raw_transaction signed_challenge_tx then Ok signed_challenge_tx else Err BroadcastError)
  end.

End challenge.

(** ** Disprove *)

(** The parameters of the commands ([params.rs]), but for the address of the contract that takes
    withdrawals. *)
Record CliParams := mkCliParams {
  cli_network : Network;
  cli_deposit_amount : Amount;
  cli_burn_amount : Amount;
  cli_stake_amount : Amount;
  cli_stake_chain_delta : N;
  cli_payout_timelock : N;
  cli_refund_delay : N;
  cli_tag : Tag;
  cli_musig2_keys : list XOnlyPublicKey;
}.

(** [((b & 0xf0) >> 4) | ((b & 0x0f) << 4)]. *)
Definition flip_nibbles (b : N) : N :=
  N.lor (N.shiftr (N.land b 240) 4) (N.shiftl (N.land b 15) 4).

Section disprove.
Context `{WalletLib, VerifierLib, RpcLib, KeyAggLib}.
Context `{TaprootLib, ConnectorLib, ScriptLib, BitcoinLib, AssertLib, NmulLib, ExtractLib, ParseLib, BuildProfile}.

(** [borsh::to_vec] of the two ids is their bytes. *)
Definition get_disprove_leaf (sigs : Signatures) (deposit_txid : Txid) (pks : PublicKeys) : comp (option ConnectorA3Leaf) :=
  let withdrawal_txid := signature_to_message (sig_withdrawal_fulfillment sigs) in
  let public_inputs_hash := hash_public_inputs (serialize_txid deposit_txid ++ withdrawal_txid) in
  let sig_public_inputs_hash := Vector.hd (sig_public_inputs (sig_groth16 sigs)) in
  let committed_public_inputs_hash := flip_nibbles <$> signature_to_message sig_public_inputs_hash in
  if bool_decide (public_inputs_hash ≠ committed_public_inputs_hash) then
    Val (Some (A3DisprovePublicInputsCommitment deposit_txid
      (Some (mkDisproveWitness (sig_withdrawal_fulfillment sigs) sig_public_inputs_hash))))
  else
    let complete_disprove_scripts := vec_to_list (api_generate_full_tapscripts (groth16 pks)) in
    match validate_assertions (sig_groth16 sigs) (groth16 pks) complete_disprove_scripts with
    | Some (tapleaf_index, witness_script) =>
        disprove_script ← expect (complete_disprove_scripts !! tapleaf_index);
        Val (Some (A3DisproveProof disprove_script (Some witness_script)))
    | None => Val None
    end.

(** [try_into] an array. *)
Definition try_into_array {A} (n : nat) (l : list A) : option (vec A n) :=
  if decide (length l = n) then first_n n l else None.

(** The transactions that lead from the post-assert transaction to the claim. *)
Definition fetch_assertion (post_assert_txid : Txid)
    : comp (result CliErr (Txid * Transaction * vec Transaction NUM_ASSERT_DATA_TX)) :=
  match get_raw_transaction post_assert_txid with
  | None => Val (Err PostAssertNotFound)
  | Some post_assert_tx =>
      match mapM (λ txin, get_raw_transaction (op_txid (previous_output txin))) (input post_assert_tx) with
      | None => Val (Err AssertDataNotFound)
      | Some txs =>
          match try_into_array NUM_ASSERT_DATA_TX txs with
          | None => Val (Err WrongNumberOfInputs)
          | Some assert_data_txs =>
              assert_data_in ← expect (head (input (Vector.hd assert_data_txs)));
              match get_raw_transaction (op_txid (previous_output assert_data_in)) with
              | None => Val (Err PreAssertNotFound)
              | Some pre_assert_tx =>
                  pre_assert_in ← expect (head (input pre_assert_tx));
                  let claim_txid := op_txid (previous_output pre_assert_in) in
                  match get_raw_transaction claim_txid with
                  | None => Val (Err ClaimNotFound')
                  | Some claim_tx => Val (Ok (claim_txid, claim_tx, assert_data_txs))
                  end
              end
          end
      end
  end.

(** From the data of the server and a leaf to the transaction; the subtraction of the amounts
    panics below zero. *)
Definition build_disprove (params : CliParams) (data : RpcDisproveData) (leaf : ConnectorA3Leaf)
    : comp (result CliErr Transaction) :=
  agg_pubkey ← params_agg_pubkey (cli_musig2_keys params);
  connector_a3 ← A3_new (cli_network params) (dd_deposit_txid data) agg_pubkey (dd_wots_public_keys data)
    (cli_payout_timelock params);
  let connector_stake := mkConnectorStake agg_pubkey (dd_operator_pubkey data) (dd_stake_hash data)
    (cli_stake_chain_delta params) (cli_network params) in
  disprove_tx ← DisproveTx_new (dd_post_assert_txid data) (dd_stake_outpoint data) (cli_network params)
    (cli_stake_amount params) (cli_burn_amount params) connector_a3 connector_stake;
  match get_new_address with
  | None => Val (Err AddressError)
  | Some address =>
      reward ← amount_sub (cli_stake_amount params) (cli_burn_amount params);
      tx ← DisproveTx_finalize disprove_tx (mkTxOut reward address) (SpDisprove (dd_n_of_n_sig data)) leaf connector_a3;
      Val (if send_raw_transaction tx then Ok tx else Err BroadcastError)
  end.

(** [None] when there is nothing to disprove. *)
Definition handle_disprove (params : CliParams) (rpc_disprove_data : Txid → result CliErr (option RpcDisproveData))
    (post_assert_txid : Txid) : comp (result CliErr (option Transaction)) :=
  assertion ← fetch_assertion post_assert_txid;
  match assertion with
  | Err e => Val (Err e)
  | Ok (claim_txid, claim_tx, assert_data_txs) =>
      match rpc_disprove_data claim_txid with
      | Err e => Val (Err e)
      | Ok None => Val (Err DisproveDataNotFound)
      | Ok (Some data) =>
          withdrawal_fulfillment_sig ← ClaimTx_parse_witness claim_tx ≫= expect;
          groth16_sigs ← AssertDataTxBatch_parse_witnesses assert_data_txs ≫= expect;
          leaf ← get_disprove_leaf (mkSignatures withdrawal_fulfillment_sig groth16_sigs) (dd_deposit_txid data)
            (dd_wots_public_keys data);
          match leaf with
          | None => Val (Ok None)
          | Some leaf =>
              r ← build_disprove params data leaf;
              Val match r with Ok tx => Ok (Some tx) | Err e => Err e end
          end
      end
  end.

End disprove.

(** ** Properties *)

Section properties.
Context `{TaprootLaws, ConnectorLib, ScriptLib, !DustLaws, BitcoinLib, AssertLib, NmulLib, BuildProfile}.
Context `{ExtractLaws, RpcLib, KeyAggLib}.

(** The server has a contract with a generated graph for this claim, whose signatures are complete.
    The contract was made by the node with its parameters and is known under its deposit, and no
    other contract has the claim. *)
Record serves_graph (params : Params) (cache : Cache) (entry : TypedContractRecord * ContractCfg)
    (claim : Txid) (context : TxBuildContext) (i : PegOutGraphInput) (sigs : PogMusigF TaprootSignature)
    (g : PegOutGraph) (c : PegOutGraphConnectors) : Prop := {
  sg_entry : entry ∈ cache;
  sg_only : ∀ e, e ∈ cache → is_Some (graph_sigs (rpc_state e) !! claim) ∨ has_claim claim e = true → e = entry;
  sg_claims : has_claim claim entry = true;
  sg_table : ∃ my_btc_pk, node_operator_table params my_btc_pk = Some (tr_operator_table entry.1);
  sg_keys : length (musig2_keys params) ≤ length (p2p_key_params params);
  sg_context : tx_build_context (tr_operator_table entry.1) (p_network params) = Val context;
  sg_deposit : tr_deposit_txid entry.1 = covenant_txid (tr_deposit_tx entry.1);
  sg_graph : PegOutGraph_generate i context (tr_deposit_txid entry.1) (tx_graph params) (connectors params)
    (p_stake_chain params) [] = Val (g, c);
  sg_claim : claim = claim_compute_txid (pog_claim_tx g);
  sg_input : graph_input (rpc_state entry) claim = Some i;
  sg_stake : stake_outpoint i = mkOutPoint (op_txid (withdrawal_fulfillment_outpoint i)) STAKE_VOUT;
  sg_summary : ∃ summary, PegOutGraph_summarize g = Val summary ∧ graph_summary (rpc_state entry) claim = Some summary;
  sg_sigs : graph_sigs (rpc_state entry) !! claim = Some sigs;
}.

(** The amounts for which the builders do not panic. *)
Definition params_fit (params : Params) : Prop :=
  (N.of_nat (2 + NUM_TAPS) ≤ 2 ^ 128)%N ∧ (deposit_amount (tx_graph params) + 27060 ≤ U64_MAX)%N ∧
  (330 ≤ challenge_cost (tx_graph params) ≤ U64_MAX)%N.

Lemma find_map_only {A B} (f : A → option B) l a b :
  a ∈ l → f a = Some b → (∀ a', a' ∈ l → is_Some (f a') → a' = a) → find_map f l = Some b.
Proof.
  intros Hin Ha Honly. destruct (find_map_is_Some f l a Hin) as [b' Hb]; [by eexists|].
  destruct (find_map_Some _ _ _ Hb) as (a' & Hin' & Ha'). rewrite (Honly a' Hin') in Ha'; [congruence|by eexists].
Qed.

Lemma find_only {A} (f : A → bool) l a : a ∈ l → f a = true → (∀ a', a' ∈ l → f a' = true → a' = a) → List.find f l = Some a.
Proof.
  intros Hin Ha Honly. destruct (List.find f l) as [a'|] eqn:E.
  - apply List.find_some in E as [Hin'%list_elem_of_In Ha']. by rewrite (Honly a' Hin' Ha').
  - apply list_elem_of_In in Hin. by rewrite (List.find_none _ _ E a Hin) in Ha.
Qed.

(** The server and the node aggregate the same keys. *)
Lemma served_agg_pubkey params cache entry claim context i sigs g c :
  serves_graph params cache entry claim context i sigs g c →
  params_agg_pubkey (musig2_keys params) = Val (tbc_aggregated_pubkey context) ∧ tbc_network context = p_network params.
Proof.
  intros Hs. destruct (sg_table _ _ _ _ _ _ _ _ _ Hs) as [pk Ht].
  pose proof (node_table_keys _ _ _ Ht (sg_keys _ _ _ _ _ _ _ _ _ Hs)) as Hk.
  pose proof (sg_context _ _ _ _ _ _ _ _ _ Hs) as Hc. unfold tx_build_context, TxBuildContext_new, public_key_table in Hc.
  rewrite bt_values_fmap in Hc. fold (btc_keys (tr_operator_table entry.1)) in Hc. rewrite Hk in Hc.
  unfold get_aggregated_pubkey in Hc. unfold params_agg_pubkey.
  destruct (KeyAggContext_new _); [|done]. cbn in Hc |- *. by injection Hc as <-.
Qed.

(** The challenge that the server hands out is that of the graph. *)
Lemma served_challenge params cache entry claim context i sigs g c :
  serves_graph params cache entry claim context i sigs g c → params_fit params →
  get_challenge_tx params cache claim
  = Val (Some (with_witnesses (unsigned_tx (graph_challenge g)) [[serialize_taproot (challenge sigs)]])) ∧
  unsigned_tx (graph_challenge g) = mkTransaction VERSION_TWO LOCKTIME_ZERO [rbf (mkOutPoint claim CHALLENGE_VOUT)]
    [mkTxOut (challenge_cost (tx_graph params)) (p2tr_tweaked (pgi_operator_pubkey i) (p_network params))].
Proof.
  intros Hs (Htaps & Hamt & Hcost). destruct (served_agg_pubkey _ _ _ _ _ _ _ _ _ Hs) as [Ha Hn].
  unfold get_challenge_tx.
  rewrite (find_map_only _ cache entry (challenge sigs, pgi_operator_pubkey i)); [|by destruct Hs| |].
  - rewrite Ha. cbn [mbind comp_bind]. rewrite ChallengeTx_new_spec. cbn [mbind comp_bind].
    rewrite challenge_finalize by done. cbn [mbind comp_bind].
    destruct (generate_spec i context (tr_deposit_txid entry.1) (tx_graph params) (connectors params)
      (p_stake_chain params) []) as (a3 & b1 & b0 & b3 & E & _); [done|done|by left|].
    rewrite (sg_graph _ _ _ _ _ _ _ _ _ Hs) in E. injection E as -> _. rewrite (sg_claim _ _ _ _ _ _ _ _ _ Hs).
    unfold graph_challenge. cbn -[with_witnesses]. rewrite Hn. done.
  - unfold challenge_parts. by rewrite (sg_sigs _ _ _ _ _ _ _ _ _ Hs), (sg_input _ _ _ _ _ _ _ _ _ Hs).
  - intros e He [p Hp]. apply (sg_only _ _ _ _ _ _ _ _ _ Hs e He). left. unfold challenge_parts in Hp.
    by destruct (graph_sigs (rpc_state e) !! claim).
Qed.

(** The challenge with a second input, which pays for it. *)
Definition funded_challenge (params : Params) (claim : Txid) (i : PegOutGraphInput) (sig : TaprootSignature) (funding : OutPoint)
    : Transaction :=
  mkTransaction VERSION_TWO LOCKTIME_ZERO
    [mkTxIn (mkOutPoint claim CHALLENGE_VOUT) [] ENABLE_RBF_NO_LOCKTIME [serialize_taproot sig];
     mkTxIn funding [] ENABLE_RBF_NO_LOCKTIME []]
    [mkTxOut (challenge_cost (tx_graph params)) (p2tr_tweaked (pgi_operator_pubkey i) (p_network params))].

(** C15: Anyone can challenge a claim.  If the server has the contract of a claim, with its graph and
    the signatures of the operators, and the wallet can pay the cost of a challenge, signs and the node accepts,
    the command broadcasts a transaction that spends the output of the claim with the signature that
    the operators made for it in advance, that pays the cost of the challenge to the operator, and
    that moves every contract whose active graph has this claim from [Claimed] to [Challenged]. *)
Theorem challenge_command `{WalletLaws} params cache entry claim context i sigs g c funding tx :
  serves_graph params cache entry claim context i sigs g c → params_fit params →
  create_funding_utxo (challenge_cost (tx_graph params)) = Some funding →
  sign_raw_transaction_with_wallet (funded_challenge params claim i (challenge sigs) funding) = Some tx →
  send_raw_transaction tx = true →
  (r ← get_challenge_tx params cache claim; handle_challenge (Ok r)) = Val (Ok tx) ∧
  head (input tx) = Some (mkTxIn (mkOutPoint claim CHALLENGE_VOUT) [] ENABLE_RBF_NO_LOCKTIME [serialize_taproot (challenge sigs)]) ∧
  output tx = [mkTxOut (challenge_cost (tx_graph params)) (p2tr_tweaked (pgi_operator_pubkey i) (p_network params))] ∧
  ∀ (ops : TxGraphOps) (sm : ContractSM) gs w h ftxid commitment l1,
    state (mstate sm) = Claimed gs w h ftxid commitment l1 → claim_txid (active_graph w).2 = claim →
    process_challenge_confirmation tx sm = accept (with_state sm (Challenged gs w h ftxid commitment l1)) None.
Proof.
  intros Hs Hp Hf Hsign Hsend. destruct (served_challenge _ _ _ _ _ _ _ _ _ Hs Hp) as [E Etx].
  destruct (sign_keeps _ _ Hsign) as [Hout Hin]. cbn in Hout, Hin.
  apply Forall2_cons_inv_l in Hin as (i0 & rest & [_ Hfirst] & Hrest & Ein).
  specialize (Hfirst ltac:(done)). subst i0.
  assert (is_challenge claim tx = true) as Hch.
  { unfold is_challenge. rewrite Ein, Hout. cbn. by rewrite bool_decide_true. }
  split_and!.
  - rewrite E, Etx. unfold handle_challenge, with_witnesses, rbf.
    cbn [mbind comp_bind version lock_time input output zip_with previous_output script_sig sequence head expect app value].
    rewrite Hf. cbn [ok_or mbind result_bind]. unfold funded_challenge in Hsign. rewrite Hsign. cbn. by rewrite Hsend.
  - by rewrite Ein.
  - done.
  - intros Hops sm gs w h ftxid commitment l1 Hst Hcl. unfold process_challenge_confirmation.
    by rewrite Hst, Hcl, Hch.
Qed.

(** ** Fetching the assertion *)

Lemma try_into_vec {A} n (v : vec A n) : try_into_array n (vec_to_list v) = Some v.
Proof.
  unfold try_into_array. rewrite decide_True by apply length_vec_to_list. induction v as [|x n v IH]; [done|]. cbn. by rewrite IH.
Qed.

(** A node answers with the transaction that was asked for. *)
Definition node_answers `{WalletLib} : Prop := ∀ txid tx, get_raw_transaction txid = Some tx → compute_txid tx = txid.

(** The same outputs are spent by transactions with the same id. *)
Lemma same_prevouts `{!TxidLaws} tx tx' :
  compute_txid tx = compute_txid tx' → previous_output <$> input tx = previous_output <$> input tx'.
Proof.
  intros E%compute_txid_inj. apply (f_equal input) in E. cbn in E. apply (f_equal (fmap previous_output)) in E.
  by rewrite <- !list_fmap_compose in E.
Qed.

Lemma fetched_prevouts `{WalletLib, !TxidLaws} tx tx' :
  node_answers → get_raw_transaction (compute_txid tx) = Some tx' →
  previous_output <$> input tx' = previous_output <$> input tx.
Proof. intros Hn E%Hn. by apply same_prevouts. Qed.

Lemma head_prevout (l : list TxIn) op rest : previous_output <$> l = op :: rest → ∃ txin, head l = Some txin ∧ previous_output txin = op.
Proof. destruct l as [|txin l]; [done|]. cbn. intros [= <- _]. by exists txin. Qed.

Lemma mapM_of_fmap {A B C} (f : B → option C) (h : A → B) l : mapM f (h <$> l) = mapM (λ x, f (h x)) l.
Proof. induction l as [|x l IH]; [done|]. cbn. fold (mapM (M := option) f (h <$> l)). by rewrite IH. Qed.

(** The transactions of an assertion are found from its last one. *)
Lemma fetch_generated `{WalletLib, !TxidLaws} i context deposit_txid gp cp sp prev a3 b1 b0 b3 claim_tx
    (txs : vec Transaction NUM_ASSERT_DATA_TX) :
  let g := graph_spec i context deposit_txid gp cp sp prev a3 b1 b0 b3 in
  let claim := claim_compute_txid (pog_claim_tx g) in
  node_answers → is_Some (get_raw_transaction (compute_txid (unsigned_tx (graph_post_assert g)))) →
  is_Some (get_raw_transaction (compute_txid (unsigned_tx (graph_pre_assert g)))) →
  mapM get_raw_transaction (vec_to_list (assert_data_compute_txids (chain_assert_data (pog_assert_chain g))))
    = Some (vec_to_list txs) →
  get_raw_transaction claim = Some claim_tx →
  fetch_assertion (compute_txid (unsigned_tx (graph_post_assert g))) = Val (Ok (claim, claim_tx, txs)).
Proof.
  intros g claim Hn [post Epost] [pre Epre] Edata Eclaim. unfold fetch_assertion. rewrite Epost.
  pose proof (fetched_prevouts _ _ Hn Epost) as Ppost. pose proof (fetched_prevouts _ _ Hn Epre) as Ppre.
  assert (mapM (λ txin, get_raw_transaction (op_txid (previous_output txin))) (input post) = Some (vec_to_list txs)) as ->.
  { rewrite <- Edata, <- (mapM_of_fmap (λ op, get_raw_transaction (op_txid op)) previous_output), Ppost.
    unfold graph_post_assert, g.
    cbn [pog_assert_chain graph_spec chain_post_assert chain_assert_data assert_chain_spec post_assert_spec post_assert_tx
      psbt unsigned_tx input].
    by rewrite !mapM_of_fmap. }
  rewrite try_into_vec.
  assert (∃ txin, head (input (Vector.hd txs)) = Some txin ∧
    op_txid (previous_output txin) = compute_txid (unsigned_tx (graph_pre_assert g))) as (txin & -> & Ein).
  { apply mapM_Some in Edata. assert (vec_to_list txs !! 0 = Some (Vector.hd txs)) as E0 by (by inv_vec txs).
    destruct (Forall2_lookup_r _ _ _ _ _ Edata E0) as (txid & Et & Er). unfold g in Et.
    cbn [pog_assert_chain graph_spec chain_assert_data assert_chain_spec] in Et.
    unfold assert_data_compute_txids in Et. rewrite vec_to_list_map, array_from_fn_list in Et.
    change (seq 0 NUM_ASSERT_DATA_TX) with (0 :: seq 1 (NUM_ASSERT_DATA_TX - 1)) in Et. rewrite !fmap_cons in Et.
    injection Et as <-. apply fetched_prevouts in Er; [|done].
    apply head_prevout in Er as (txin & E & Ep). exists txin. split; [exact E|]. by rewrite Ep. }
  cbn [mbind comp_bind expect]. rewrite Ein, Epre.
  assert (∃ txin, head (input pre) = Some txin ∧ op_txid (previous_output txin) = claim) as (txin' & -> & Ein').
  { unfold graph_pre_assert, g in Ppre.
    cbn [pog_assert_chain graph_spec chain_pre_assert assert_chain_spec pre_assert_spec pre_assert_tx psbt unsigned_tx input] in Ppre.
    apply head_prevout in Ppre as (txin' & E & Ep). exists txin'. split; [exact E|]. by rewrite Ep. }
  cbn [mbind comp_bind expect]. by rewrite Ein', Eclaim.
Qed.

(** ** Building the disproof *)

Lemma generated_a3 i context deposit_txid gp cp sp prev g c :
  PegOutGraph_generate i context deposit_txid gp cp sp prev = Val (g, c) →
  A3_new (tbc_network context) deposit_txid (tbc_aggregated_pubkey context) (wots_public_keys i) (payout_timelock cp)
  = Val (post_assert_out_0 c).
Proof.
  unfold PegOutGraph_generate, PegOutGraphConnectors_new. destruct (A3_new _ _ _ _ _) as [a3|]; [|done].
  cbn [mbind comp_bind]. intros E. repeat (apply comp_bind_Val in E as (? & _ & E)). by injection E as _ <-.
Qed.

(** What the server tells is what the graph was made of. *)
Lemma served_disprove_data params cache entry claim context i sigs g c :
  serves_graph params cache entry claim context i sigs g c → params_fit params →
  get_disprove_data cache claim
  = Some (mkRpcDisproveData (compute_txid (unsigned_tx (graph_post_assert g))) (tr_deposit_txid entry.1) (stake_outpoint i)
      (pgi_stake_hash i) (pgi_operator_pubkey i) (wots_public_keys i) (disprove sigs)).
Proof.
  intros Hs (Htaps & Hamt & _). unfold get_disprove_data.
  rewrite (find_only _ cache entry); [|apply Hs|apply Hs|intros e He Hc; apply (sg_only _ _ _ _ _ _ _ _ _ Hs); auto].
  destruct (sg_summary _ _ _ _ _ _ _ _ _ Hs) as (summary & Esum & Hsum). cbn [mbind option_bind].
  rewrite (sg_input _ _ _ _ _ _ _ _ _ Hs), Hsum, (sg_sigs _ _ _ _ _ _ _ _ _ Hs). cbn [mbind option_bind].
  destruct (generate_spec i context (tr_deposit_txid entry.1) (tx_graph params) (connectors params)
    (p_stake_chain params) []) as (a3 & b1 & b0 & b3 & E & _); [done|done|by left|].
  rewrite (sg_graph _ _ _ _ _ _ _ _ _ Hs) in E. injection E as -> _. injection Esum as <-.
  by rewrite (sg_stake _ _ _ _ _ _ _ _ _ Hs).
Qed.

(** The disproof of a graph with its witnesses. *)
Definition disproved (g : PegOutGraph) (sig : TaprootSignature) (stack : list (list N)) : Psbt :=
  mkPsbt (unsigned_tx (graph_disprove g))
    (zip_with finalize_input (psbt_inputs (graph_disprove g)) [[serialize_taproot sig]; stack]).

Definition with_output (tx : Transaction) (o : TxOut) : Transaction :=
  mkTransaction (version tx) (lock_time tx) (input tx) (output tx ++ [o]).

Lemma disprove_finalize post_assert_txid stake_outpoint network stake_amount burn_amount a3 a3' s reward sig leaf script block stack :
  A3_generate_spend_info a3' leaf = Val (script, block) → A3Leaf_generate_witness_script leaf = Val stack →
  let tx := disprove_spec post_assert_txid stake_outpoint network stake_amount burn_amount a3 s in
  let witness := stack ++ [script; serialize_control_block block] in
  DisproveTx_finalize tx reward (SpDisprove sig) leaf a3'
  = (tx ← extract_or_panic (mkPsbt (unsigned_tx (psbt (disprove_tx tx)))
       (zip_with finalize_input (psbt_inputs (psbt (disprove_tx tx))) [[serialize_taproot sig]; witness]));
     Val (with_output tx reward)).
Proof.
  intros Ei Es tx witness. unfold DisproveTx_finalize, A3_finalize_input. rewrite Ei, Es. done.
Qed.

(** What the command needs to know is what the node was started with. *)
Definition cli_agrees (cli : CliParams) (params : Params) : Prop :=
  cli = mkCliParams (p_network params) (deposit_amount (tx_graph params)) (burn_amount (p_stake_chain params))
    (stake_amount (p_stake_chain params)) (delta (p_stake_chain params)) (payout_timelock (connectors params))
    (refund_delay (tx_graph params)) (tag (tx_graph params)) (musig2_keys params) ∧
  (burn_amount (p_stake_chain params) ≤ stake_amount (p_stake_chain params))%N.

Lemma build_served `{WalletLib} params cli cache entry claim context i sigs g c data leaf stack address :
  serves_graph params cache entry claim context i sigs g c → params_fit params → cli_agrees cli params →
  get_disprove_data cache claim = Some data → A3_leaf (tr_deposit_txid entry.1) (wots_public_keys i) leaf →
  A3Leaf_generate_witness_script leaf = Val stack → get_new_address = Some address →
  let script := A3Leaf_generate_locking_script leaf (tbc_aggregated_pubkey context) (wots_public_keys i)
    (payout_timelock (connectors params)) in
  ∃ block,
    (∀ key, spends key (p_network params) (Script script block) (a3_output_address (post_assert_out_0 c))) ∧
    build_disprove cli data leaf
    = (tx ← extract_or_panic (disproved g (disprove sigs) (stack ++ [script; serialize_control_block block]));
       let tx := with_output tx
         (mkTxOut (stake_amount (p_stake_chain params) - burn_amount (p_stake_chain params)) address) in
       Val (if send_raw_transaction tx then Ok tx else Err BroadcastError)).
Proof.
  intros Hs Hp [-> Hburn] Hdata Hleaf Hstack Haddr script.
  destruct (served_agg_pubkey _ _ _ _ _ _ _ _ _ Hs) as [Ha Hn].
  rewrite (served_disprove_data _ _ _ _ _ _ _ _ _ Hs Hp) in Hdata. injection Hdata as <-. destruct Hp as (Htaps & Hamt & _).
  pose proof (generated_a3 _ _ _ _ _ _ _ _ _ (sg_graph _ _ _ _ _ _ _ _ _ Hs)) as Ea3. rewrite Hn in Ea3.
  destruct (A3_new_spec (p_network params) (tr_deposit_txid entry.1) (tbc_aggregated_pubkey context) (wots_public_keys i)
    (payout_timelock (connectors params)) Htaps) as (a3 & E & _ & Hblocks).
  rewrite Ea3 in E. injection E as <-. destruct (Hblocks leaf Hleaf) as (block & Eblock & Hspends).
  exists block. split; [exact Hspends|]. unfold build_disprove.
  cbn [cli_musig2_keys cli_network cli_payout_timelock cli_stake_chain_delta cli_stake_amount cli_burn_amount
    dd_deposit_txid dd_wots_public_keys dd_operator_pubkey dd_stake_hash dd_post_assert_txid dd_stake_outpoint dd_n_of_n_sig].
  rewrite Ha. cbn [mbind comp_bind]. rewrite Ea3. cbn [mbind comp_bind]. rewrite DisproveTx_new_spec.
  cbn [mbind comp_bind]. rewrite Haddr, amount_sub_le by done. cbn [mbind comp_bind].
  rewrite (disprove_finalize _ _ _ _ _ _ _ _ _ _ leaf _ _ _ Eblock Hstack).
  destruct (generate_spec i context (tr_deposit_txid entry.1) (tx_graph params) (connectors params)
    (p_stake_chain params) []) as (a3 & b1 & b0 & b3 & E & _); [done|done|by left|].
  rewrite (sg_graph _ _ _ _ _ _ _ _ _ Hs) in E. injection E as -> ->.
  rewrite <- Hn. set (p := disproved _ _ _).
  match goal with |- context [extract_or_panic ?q] => change q with p end. by destruct (extract_or_panic p).
Qed.

(** ** The whole disproof *)

(** The message of a signature is what its check in a script leaves, with the nibbles of every byte
    swapped, and the hash of [sp1] is BLAKE3 with the three top bits cleared. *)
Class VerifierLaws `{VerifierLib, AssertFunctions} : Prop := {
  message_of_commitment : ∀ key sig nibbles, committed_nibbles key sig = Some nibbles →
    flip_nibbles <$> signature_to_message sig = join_nibbles nibbles;
  hash_of_commitment : ∀ key sig nibbles txid, committed_nibbles key sig = Some nibbles →
    hash_public_inputs (serialize_txid txid ++ signature_to_message sig)
    = mask_first (λ b, b mod 32)%N (public_inputs_hash_bytes txid nibbles);
}.

Lemma wrong_hash_leaf `{VerifierLaws} key key' wf_sig groth16_sigs deposit_txid pks fulfillment hash :
  let pi_sig := Vector.hd (sig_public_inputs groth16_sigs) in
  committed_nibbles key wf_sig = Some fulfillment → committed_nibbles key' pi_sig = Some hash →
  join_nibbles hash ≠ mask_first (λ b, b mod 32)%N (public_inputs_hash_bytes deposit_txid fulfillment) →
  get_disprove_leaf (mkSignatures wf_sig groth16_sigs) deposit_txid pks
  = Val (Some (A3DisprovePublicInputsCommitment deposit_txid (Some (mkDisproveWitness wf_sig pi_sig)))).
Proof.
  intros pi_sig Hw Hp Hne. unfold get_disprove_leaf. cbn [sig_withdrawal_fulfillment sig_groth16].
  rewrite (hash_of_commitment _ _ _ _ Hw), (message_of_commitment _ _ _ Hp). by rewrite bool_decide_true by done.
Qed.

(** C14: Anyone can disprove a wrong assertion.  Let the server have the contract of a claim, with its
    graph and signatures, and let the claim, the assert-data transactions and the post-assert
    transaction of the graph be on the chain.  If the hash of the public inputs that the operator
    committed to is not that of the deposit and the committed fulfillment, and the disproof is so large
    that its fee, before the reward is added, is not refused as absurd, the command finds all of
    them from the id of the post-assert transaction, and broadcasts a transaction that spends the
    stake, with the signature that the operators made in advance, and the output of the post-assert
    transaction by the leaf of the public inputs, which belongs to that output.  The script of the
    leaf accepts the witness unless the operator committed to the value that the script computes
    instead of the right hash.  The transaction burns the burn amount, pays the rest of the stake to
    the wallet, and moves every contract whose active graph this is from [Asserted] to [Disproved]. *)
Theorem disprove_command `{WalletLib, ParseLib, VerifierLaws, !TxidLaws, !ScriptContext, !AssertLaws}
    params cli cache entry claim context i sigs g c claim_tx txs wf_sig groth16_sigs fulfillment hash address :
  serves_graph params cache entry claim context i sigs g c → params_fit params → cli_agrees cli params →
  let post_assert_txid := compute_txid (unsigned_tx (graph_post_assert g)) in
  let pks := wots_public_keys i in
  let pi_key := Vector.hd (g16_public_inputs (groth16 pks)) in
  let deposit := tr_deposit_txid entry.1 in
  let script := public_inputs_script (withdrawal_fulfillment pks) pi_key deposit in
  let expected := public_inputs_hash_bytes deposit fulfillment in
  node_answers → is_Some (get_raw_transaction post_assert_txid) →
  is_Some (get_raw_transaction (compute_txid (unsigned_tx (graph_pre_assert g)))) →
  mapM get_raw_transaction (vec_to_list (assert_data_compute_txids (chain_assert_data (pog_assert_chain g))))
    = Some (vec_to_list txs) →
  get_raw_transaction claim = Some claim_tx → ClaimTx_parse_witness claim_tx = Val (Some wf_sig) →
  AssertDataTxBatch_parse_witnesses txs = Val (Some groth16_sigs) →
  committed_nibbles (withdrawal_fulfillment pks) wf_sig = Some fulfillment →
  committed_nibbles pi_key (Vector.hd (sig_public_inputs groth16_sigs)) = Some hash →
  join_nibbles hash ≠ mask_first (λ b, b mod 32)%N expected →
  (∀ stack block,
    A3Leaf_generate_witness_script (A3DisprovePublicInputsCommitment deposit
      (Some (mkDisproveWitness wf_sig (Vector.hd (sig_public_inputs groth16_sigs))))) = Val stack →
    let p := disproved g (disprove sigs) (stack ++ [compile script; serialize_control_block block]) in
    psbt_extract_tx p = Ok (extract_tx p)) →
  get_new_address = Some address →
  ∃ stack block tx,
    handle_disprove cli (λ txid, Ok (get_disprove_data cache txid)) post_assert_txid
    = Val (if send_raw_transaction tx then Ok (Some tx) else Err BroadcastError) ∧
    input tx = [mkTxIn (stake_outpoint i) [] ENABLE_RBF_NO_LOCKTIME [serialize_taproot (disprove sigs)];
      mkTxIn (mkOutPoint post_assert_txid 0) [] ENABLE_RBF_NO_LOCKTIME
        (stack ++ [compile script; serialize_control_block block])] ∧
    (∀ key, spends key (p_network params) (Script (compile script) block) (a3_output_address (post_assert_out_0 c))) ∧
    script_succeeds script stack = bool_decide (join_nibbles hash ≠ mask_first fq_top_byte expected) ∧
    value <$> output tx = [burn_amount (p_stake_chain params);
      (stake_amount (p_stake_chain params) - burn_amount (p_stake_chain params))%N] ∧
    ∀ (ops : TxGraphOps) (sm : ContractSM) gs w h ftxid commitment proof,
      state (mstate sm) = Asserted gs w h ftxid commitment proof → TxTypes.post_assert_txid (active_graph w).2 = post_assert_txid →
      process_disprove_confirmation tx sm = accept (with_state sm Disproved) None.
Proof.
  intros Hs Hp Hcli post_assert_txid pks pi_key deposit script expected Hn Hpost Hpre Hdata Hclaim Hcp Hap Hw Hh Hne Hfee Haddr.
  pose proof (served_disprove_data _ _ _ _ _ _ _ _ _ Hs Hp) as Ed.
  set (leaf := A3DisprovePublicInputsCommitment deposit
    (Some (mkDisproveWitness wf_sig (Vector.hd (sig_public_inputs groth16_sigs))))).
  destruct (disproof_outcome (withdrawal_fulfillment pks) pi_key deposit
    (mkDisproveWitness wf_sig (Vector.hd (sig_public_inputs groth16_sigs)))) as (stack & Estack & Hscript).
  destruct (build_served _ _ _ _ _ _ _ _ _ _ _ leaf stack address Hs Hp Hcli Ed eq_refl Estack Haddr)
    as (block & Hspends & Ebuild).
  destruct (generate_spec i context deposit (tx_graph params) (connectors params)
    (p_stake_chain params) []) as (a3 & b1 & b0 & b3 & E & _); [apply Hp|apply Hp|by left|].
  pose proof (sg_graph _ _ _ _ _ _ _ _ _ Hs) as Eg. fold deposit in Eg. rewrite E in Eg. injection Eg as <- <-.
  pose proof (sg_claim _ _ _ _ _ _ _ _ _ Hs) as ->.
  match type of Ebuild with _ = (_ ← extract_or_panic ?p; _) => exists stack, block, (with_output (extract_tx p)
    (mkTxOut (stake_amount (p_stake_chain params) - burn_amount (p_stake_chain params)) address)) end.
  split_and!.
  - unfold handle_disprove, post_assert_txid. rewrite (fetch_generated _ _ _ _ _ _ _ _ _ _ _ claim_tx txs Hn Hpost Hpre Hdata Hclaim).
    cbn [mbind comp_bind]. rewrite Ed, Hcp. cbn [mbind comp_bind expect]. rewrite Hap. cbn [mbind comp_bind expect].
    cbn [dd_deposit_txid dd_wots_public_keys].
    rewrite (wrong_hash_leaf _ _ _ _ _ _ _ _ Hw Hh Hne). cbn [mbind comp_bind]. unfold leaf, deposit in Ebuild. unfold deposit. rewrite Ebuild. unfold extract_or_panic.
    match goal with |- context [psbt_extract_tx ?p] => replace (psbt_extract_tx p) with (Ok (E := ExtractTxError) (extract_tx p))
      by (symmetry; exact (Hfee stack block Estack)) end.
    unfold Connectors.expect_ok, leaf, deposit. cbn [mbind comp_bind]. by destruct (send_raw_transaction _).
  - reflexivity.
  - exact Hspends.
  - unfold script. rewrite Hscript. cbn [sig_withdrawal_fulfillment_txid sig_public_inputs_hash]. by rewrite Hw, Hh.
  - reflexivity.
  - intros Hops sm gs w h ftxid commitment proof Hst Hid. unfold process_disprove_confirmation. rewrite Hst, Hid.
    unfold is_disprove. cbn. by rewrite bool_decide_true.
Qed.

End properties.

(** ** Example *)

Module ChallengerExample.

#[local] Existing Instances example_taproot example_field_connectors example_dust example_hashes example_assert
  example_assert_nmul example_graph_profile example_extract example_assert_context example_functions example_parse
  example_keyagg.
#[local] Opaque example_hashes.

Definition example_rpc : RpcLib := {|
  even_public_key := id; PeerId := N; peer_id_of := id; is_connected _ := true;
|}.
#[local] Existing Instance example_rpc.

(** The library of the verifier that goes with [example_functions]. *)
Definition example_verifier : VerifierLib := {|
  signature_to_message sig := flip_nibbles <$> join_nibbles (example_message 64 sig);
  hash_public_inputs l :=
    let nibbles := nibbles_of_bytes (take 32 l) ++ nibbles_of_bytes (flip_nibbles <$> drop 32 l) in
    let words := reverse_words 16 nibbles in
    let limbs := limbs29_of_nibbles (take 64 words) ++ limbs29_of_nibbles (drop 64 words) in
    mask_first (λ b, b mod 32)%N (rev (bytes_of_nibbles (blake3_of_limbs limbs)));
  validate_assertions _ _ _ := None;
|}.
#[local] Existing Instance example_verifier.

Lemma flip_flip l : Forall (λ b, b < 256)%N l → flip_nibbles <$> (flip_nibbles <$> l) = l.
Proof.
  assert (Forall (λ b, flip_nibbles (flip_nibbles b) = b) (N.of_nat <$> seq 0 256)) as Hall
    by (vm_compute; repeat constructor).
  rewrite Forall_fmap, Forall_seq in Hall.
  induction 1 as [|b l Hb _ IH]; [done|]. specialize (Hall (N.to_nat b) ltac:(lia)). cbn [compose] in Hall.
  rewrite N2Nat.id in Hall. by rewrite !fmap_cons, IH, Hall.
Qed.

Lemma nibbles_join n l : limbs (2 * n) 16 l → (join_nibbles l ≫= λ b, [b / 16; b mod 16]%N) = l.
Proof.
  intros [Hlen Hall]. revert l Hlen Hall. induction n as [|n IH]; intros l Hlen Hall; [by apply nil_length_inv in Hlen as ->|].
  destruct l as [|hi [|lo l]]; [cbn in Hlen; lia..|]. rewrite !Forall_cons in Hall. destruct Hall as (Hhi & Hlo & Hall).
  cbn [join_nibbles]. rewrite bind_cons, IH by (done || (cbn in Hlen; lia)). cbn [app].
  rewrite N.div_add_l, N.div_small, N.add_0_r by done. rewrite N.add_comm, N.Div0.mod_add, N.mod_small by done. done.
Qed.

#[local] Instance example_verifier_laws : VerifierLaws.
Proof.
  split; intros key sig nibbles; [|intros txid]; intros [= <-]; pose proof (example_message_limbs 64 sig) as Hm;
    pose proof (join_nibbles_limbs 32 _ Hm) as [Hlen Hb].
  - by apply flip_flip.
  - unfold hash_public_inputs, example_verifier. destruct (txid_limbs txid) as [Ht _].
    rewrite take_app_length', drop_app_length' by done. cbn [signature_to_message].
    change (signature_to_message sig) with (flip_nibbles <$> join_nibbles (example_message 64 sig)).
    rewrite flip_flip by done. cbn [nibbles_of_bytes example_functions]. by rewrite (nibbles_join 32) by done.
Qed.

(** A node of two operators, and the graph of the first. *)
Definition params : Params :=
  mkParams 1 [100; 200]%N [10; 20]%N PegOutGraphParams_default StakeChainParams_default ConnectorParams_default
    (mkRollupParams 20).
Definition table : OperatorTable := default (mkOperatorTable 0 ∅ ∅ ∅) (node_operator_table params 100).
Definition context : TxBuildContext :=
  match tx_build_context table 1 with Val context => context | Panic => example_context end.
Definition graph_of : PegOutGraphInput :=
  mkPegOutGraphInput (mkOutPoint 5 STAKE_VOUT) (mkOutPoint 5 WITHDRAWAL_FULFILLMENT_VOUT) 7 (example_pks 1) 100.
Definition sig (n : N) : TaprootSignature := mkTaprootSignature n SighashDefault.
Definition sigs : PogMusigF TaprootSignature :=
  mkPog (sig 1) (sig 2) (vreplicate _ (sig 3)) (vreplicate _ (sig 4)) (vreplicate _ (sig 5)) (sig 6) [].

Section served.
Context (txids : BitcoinLib) (deposit : DepositTx).

Definition record_of (claim : Txid) (summary : PegOutGraphSummary) : TypedContractRecord :=
  mkTypedContractRecord (covenant_txid deposit) 0 deposit table
    (mkMachineState 100 (Deposited (mkGraphs {[claim := (graph_of, summary)]} {[10%N := claim]} {[claim := sigs]}))).
Definition cfg_of : ContractCfg :=
  mkContractCfg 1 table ConnectorParams_default PegOutGraphParams_default (mkRollupParams 20) StakeChainParams_default 0 deposit.

Lemma example_served :
  ∃ cache entry g c, tr_deposit_txid entry.1 = covenant_txid deposit ∧
    serves_graph params cache entry (claim_compute_txid (pog_claim_tx g)) context graph_of sigs g c ∧
    length (input (unsigned_tx (claim_psbt (pog_claim_tx g)))) = 1 ∧
    Forall (λ p, length (input (unsigned_tx p)) = 1) (vec_to_list (chain_assert_data (pog_assert_chain g))) ∧
    ∀ sig stack, psbt_extract_tx (disproved g sig stack) = Ok (extract_tx (disproved g sig stack)).
Proof.
  destruct (generate_spec graph_of context (covenant_txid deposit)
    PegOutGraphParams_default ConnectorParams_default StakeChainParams_default [])
    as (a3 & b1 & b0 & b3 & E & _); [done|done|by left|].
  set (g := graph_spec _ _ _ _ _ _ _ _ _ _ _) in E. set (c := graph_connectors _ _ _ _ _) in E.
  destruct (PegOutGraph_summarize g) as [summary|] eqn:Es; [|done].
  assert (length (input (unsigned_tx (claim_psbt (pog_claim_tx g)))) = 1) as Hclaim by reflexivity.
  assert (Forall (λ p, length (input (unsigned_tx p)) = 1) (vec_to_list (chain_assert_data (pog_assert_chain g)))) as Hdata.
  { unfold g. cbn [pog_assert_chain graph_spec chain_assert_data assert_chain_spec].
    rewrite array_from_fn_list. by apply Forall_fmap, Forall_true. }
  assert (∀ sig stack, psbt_extract_tx (disproved g sig stack) = Ok (extract_tx (disproved g sig stack))) as Hfee by reflexivity.
  set (claim := claim_compute_txid (pog_claim_tx g)). clearbody g c.
  exists [(record_of claim summary, cfg_of)], (record_of claim summary, cfg_of), g, c.
  split; [reflexivity|]. split; [|by split_and!]. split; try reflexivity.
  - by apply list_elem_of_singleton.
  - intros e He%list_elem_of_singleton _. exact He.
  - unfold has_claim, claim_txid_set. fold claim. apply bool_decide_eq_true, elem_of_list_to_set.
    change (claim ∈ bt_values ({[10%N := claim]} : BTreeMap P2POperatorPubKey Txid)).
    clearbody claim. vm_compute. by left.
  - by exists 100%N.
  - exact E.
  - change (fst <$> ({[claim := (graph_of, summary)]} : BTreeMap _ _) !! claim = Some graph_of).
    by rewrite lookup_singleton_eq.
  - exists summary. split; [done|].
    change (snd <$> ({[claim := (graph_of, summary)]} : BTreeMap _ _) !! claim = Some summary).
    by rewrite lookup_singleton_eq.
  - exact (lookup_singleton_eq claim sigs).
Qed.

End served.

(** A wallet that pays from one transaction, and a node that has these transactions, with the same
    witness for every input. *)
Definition signed (w : list (list N)) (tx : Transaction) : Transaction :=
  mkTransaction (version tx) (lock_time tx)
    ((λ i, mkTxIn (previous_output i) (script_sig i) (sequence i) w) <$> input tx) (output tx).
Definition example_wallet (w : list (list N)) (txs : list Transaction) : WalletLib := {|
  get_raw_transaction txid := signed w <$> List.find (λ tx, bool_decide (compute_txid tx = txid)) txs;
  get_new_address := Some [8%N];
  send_to_address amt := Some 77%N;
  get_transaction _ := Some (mkTransaction 2 0 [] [mkTxOut 500 [3%N]; mkTxOut (1 * BTC) [4%N] ]);
  sign_raw_transaction_with_wallet := Some;
  send_raw_transaction _ := true;
|}.

#[local] Instance example_wallet_laws w txs : @WalletLaws (example_wallet w txs).
Proof. split. intros tx tx' [= ->]. split; [done|]. apply Forall_Forall2_diag, Forall_true. by intros. Qed.

Lemma challenge_command_witness :
  ∃ cache claim tx, (r ← get_challenge_tx params cache claim; @handle_challenge (example_wallet [] []) (Ok r)) = Val (Ok tx) ∧
    previous_output <$> head (input tx) = Some (mkOutPoint claim CHALLENGE_VOUT).
Proof.
  destruct (example_served example_hashes example_deposit_built) as (cache & entry & g & c & _ & Hs & _).
  set (claim := claim_compute_txid (pog_claim_tx g)) in Hs.
  set (tx := funded_challenge params claim graph_of (challenge sigs) (mkOutPoint 77 1)).
  exists cache, claim, tx.
  destruct (challenge_command (H12 := example_wallet [] []) params cache entry claim context graph_of sigs g c (mkOutPoint 77 1) tx Hs)
    as (E & _); [split_and!; done|done|done|done|]. split; [exact E|done].
Defined.

(** Digits that repeat with a period of 16. *)
Definition example_digits (n : nat) : list (list N) := (λ j, example_digit (N.of_nat j mod 16)) <$> seq 0 n.
Definition example_stack : list (list N) := (example_digits 500 ≫= digit_witness) ++ [[]; [] ].
Definition example_script : list ScriptElem := repush <$> take (length example_stack - 2) example_stack.
Definition example_groth16 : Groth16Sigs :=
  match parse_assertion_witnesses (replicate 3 example_script) [] (replicate 33 example_script)
    (replicate 3 example_script) with
  | Val (Some sigs) => sigs
  | _ => sig_groth16 example_commitments
  end.

Lemma signed_txid w tx : compute_txid (signed w tx) = compute_txid tx.
Proof.
  Transparent example_hashes. unfold compute_txid, example_hashes, signed. cbn [input output version lock_time].
  rewrite <- list_fmap_compose. reflexivity.
  Opaque example_hashes.
Qed.

(** The node finds a transaction by its id. *)
Lemma example_found w txs tx :
  tx ∈ txs → @get_raw_transaction (example_wallet w txs) (compute_txid tx) = Some (signed w tx).
Proof.
  intros Hin. cbn. destruct (List.find _ txs) as [tx'|] eqn:Ef.
  - apply List.find_some in Ef as [_ Ef%bool_decide_eq_true]. cbn. f_equal.
    apply compute_txid_inj in Ef. destruct tx as [v l i o], tx' as [v' l' i' o']. unfold without_witnesses in Ef.
    injection Ef as -> -> Ei ->. unfold signed. cbn [input output version lock_time]. f_equal.
    apply (f_equal (fmap (λ i, mkTxIn (previous_output i) (script_sig i) (sequence i) w))) in Ei.
    by rewrite <- !list_fmap_compose in Ei.
  - apply list_elem_of_In in Hin. pose proof (List.find_none _ _ Ef tx Hin) as Hn. by apply bool_decide_eq_false in Hn.
Qed.

Lemma example_answers w txs : @node_answers example_hashes (example_wallet w txs).
Proof.
  intros txid tx E. cbn in E. destruct (List.find _ txs) as [tx'|] eqn:Ef; [|done]. injection E as <-.
  apply List.find_some in Ef as [_ Ef%bool_decide_eq_true]. by rewrite signed_txid.
Qed.

Lemma example_claim_parses tx :
  length (input tx) = 1 → ClaimTx_parse_witness (signed example_stack tx) = Val (Some (example_digits 68)).
Proof.
  destruct tx as [v l i o]. cbn [input]. destruct i as [|[] [|]]; [intros [=]|intros _; vm_compute; reflexivity|intros [=] ].
Qed.

Lemma example_scripts l :
  Forall (λ p, length (input (unsigned_tx p)) = 1) l →
  mapM witness_script (((λ p, signed example_stack (unsigned_tx p)) <$> l) ≫= input) = Val (replicate (length l) example_script).
Proof.
  intros Hl. apply mapM_comp_Val. induction Hl as [|p l Hp _ IH]; [constructor|]. rewrite fmap_cons, bind_cons.
  destruct p as [[v t i o] inputs]. cbn [unsigned_tx input] in Hp. destruct i as [|txin [|]]; [done| |done].
  cbn [unsigned_tx signed input fmap list_fmap app length replicate]. constructor; [vm_compute; reflexivity|exact IH].
Qed.

Lemma example_assertion_parses (v : vec Psbt NUM_ASSERT_DATA_TX) :
  Forall (λ p, length (input (unsigned_tx p)) = 1) (vec_to_list v) →
  AssertDataTxBatch_parse_witnesses (vmap (λ p, signed example_stack (unsigned_tx p)) v) = Val (Some example_groth16).
Proof.
  intros Hv. unfold AssertDataTxBatch_parse_witnesses. rewrite vec_to_list_map, example_scripts by done.
  rewrite length_vec_to_list. vm_compute. reflexivity.
Qed.

Definition example_nibbles : list N := example_message 64 (example_digits 68).

Lemma example_hash_wrong txid :
  join_nibbles example_nibbles ≠ mask_first (λ b, b mod 32)%N (public_inputs_hash_bytes txid example_nibbles).
Proof. intros E. apply (f_equal (lookup 31)) in E. vm_compute in E. discriminate E. Qed.

(** The transactions of a graph that the command looks for. *)
Definition example_chain `{BitcoinLib} (g : PegOutGraph) : list Transaction :=
  unsigned_tx (claim_psbt (pog_claim_tx g)) :: unsigned_tx (graph_pre_assert g) :: unsigned_tx (graph_post_assert g)
    :: (unsigned_tx <$> vec_to_list (chain_assert_data (pog_assert_chain g))).

Definition cli : CliParams :=
  mkCliParams 1 (10 * BTC) (1 * BTC) (3 * BTC) 6 1008 (144 * 7) BRIDGE_TAG [100; 200]%N.

Lemma disprove_command_witness :
  ∃ cache post_assert_txid chain tx,
    handle_disprove (H := example_wallet example_stack chain) cli (λ txid, Ok (get_disprove_data cache txid)) post_assert_txid
    = Val (Ok (Some tx)) ∧
    value <$> output tx = [1 * BTC; 2 * BTC]%N.
Proof.
  destruct (example_served example_hashes example_deposit_built) as (cache & entry & g & c & Hd & Hs & Hclaim & Hdata & Hfee).
  set (chain := example_chain g). exists cache, (compute_txid (unsigned_tx (graph_post_assert g))), chain.
  destruct (disprove_command (H12 := example_wallet example_stack chain) params cli
    cache entry _ context graph_of sigs g c (signed example_stack (unsigned_tx (claim_psbt (pog_claim_tx g))))
    (vmap (λ p, signed example_stack (unsigned_tx p)) (chain_assert_data (pog_assert_chain g)))
    (example_digits 68) example_groth16 example_nibbles example_nibbles [8%N] Hs) as (stack & block & tx & E & _ & _ & _ & Hv & _).
  - by split_and!.
  - by split.
  - apply example_answers.
  - unfold chain. rewrite example_found by (unfold example_chain; set_solver). done.
  - unfold chain. rewrite example_found by (unfold example_chain; set_solver). done.
  - unfold assert_data_compute_txids. rewrite !vec_to_list_map, mapM_of_fmap. apply mapM_Some, Forall2_fmap_r.
    apply Forall_Forall2_diag, Forall_forall. intros p Hp. apply example_found. unfold chain, example_chain.
    do 3 apply list_elem_of_further. by apply list_elem_of_fmap_2.
  - apply example_found. apply list_elem_of_here.
  - by apply example_claim_parses.
  - by apply example_assertion_parses.
  - reflexivity.
  - vm_compute. reflexivity.
  - apply example_hash_wrong.
  - intros stack block _. apply Hfee.
  - reflexivity.
  - exists tx. split; [exact E|exact Hv].
Defined.

End ChallengerExample.
