(* ===== verification/StateMachine.v ===== *)
(** * State machines and bijections ([crates/algebra])

    Two general structures: a state machine that is fed one event at a time or attached to a stream
    ([state_machine.rs]), and a lookup in both directions ([bijection.rs]).

    The theorems: polling a machine that is attached to a stream is feeding it the events of the
    stream, which ends ([stream_feeds_machine]); and a bijection is one, and so are its inverse and
    compositions ([bijection_two_way]). *)

From S2P Require Import Prelude.

(** ** State machines *)

Module Machine.

(** [Poll]. *)
Inductive Poll (A : Type) := Ready (a : A) | Pending.
Arguments Ready {_} _.
Arguments Pending {_}.

Section machine.
Context {Input Config State Output Error : Type}.

(** The transition function leaves a state also when it fails.  What its closure captures and
    changes is a part of [State]. *)
Context (stf : Config → State → Input → State * result Error Output).
(** The hook makes a future, which is pending so many times. *)
Context (state_hook : State → nat).

(** The input stream is what its polls return, [None] for a poll that is pending; after its end
    every poll returns the end.  [hooked] are the states that the hook was called with. *)
Record StateMachine := mkStateMachine {
  input_stream : list (option Input);
  config : Config;
  state : State;
  pending_state_hook : option (nat * Output);
  hooked : list State;
}.

Definition restore (cfg : Config) (state : State) : StateMachine := mkStateMachine [] cfg state None [].
Definition attach (stream : list (option Input)) (m : StateMachine) : StateMachine :=
  mkStateMachine stream (config m) (state m) (pending_state_hook m) (hooked m).

(** [feed] awaits the future of the hook. *)
Definition feed (input : Input) (m : StateMachine) : StateMachine * result Error Output :=
  let '(state, res) := stf (config m) (state m) input in
  (mkStateMachine (input_stream m) (config m) state (pending_state_hook m)
     (if is_ok res then hooked m ++ [state] else hooked m), res).

Definition poll_next (m : StateMachine) : StateMachine * Poll (option (result Error Output)) :=
  let with_pending p := mkStateMachine (input_stream m) (config m) (state m) p (hooked m) in
  match pending_state_hook m with
  | Some (0, out) => (with_pending None, Ready (Some (Ok out)))
  | Some (S fut, out) => (with_pending (Some (fut, out)), Pending)
  | None =>
      match input_stream m with
      | [] => (m, Ready None)
      | None :: stream => (mkStateMachine stream (config m) (state m) None (hooked m), Pending)
      | Some input :: stream =>
          let '(state, res) := stf (config m) (state m) input in
          match res with
          | Ok output =>
              let m p := mkStateMachine stream (config m) state p (hooked m ++ [state]) in
              match state_hook state with
              | 0 => (m None, Ready (Some (Ok output)))
              | S fut => (m (Some (fut, output)), Pending)
              end
          | Err err => (mkStateMachine stream (config m) state None (hooked m), Ready (Some (Err err)))
          end
      end
  end.

(** Polled so many times, the machine and the items that it returned. *)
Fixpoint polls (n : nat) (m : StateMachine) : StateMachine * list (result Error Output) :=
  match n with
  | 0 => (m, [])
  | S n =>
      let '(m, p) := poll_next m in
      let '(m', items) := polls n m in
      (m', match p with Ready (Some item) => item :: items | _ => items end)
  end.

(** Fed all of these, the state, the states of the hook, and the results. *)
Fixpoint feeds (cfg : Config) (s : State) (inputs : list Input) : State * list State * list (result Error Output) :=
  match inputs with
  | [] => (s, [], [])
  | input :: inputs =>
      let '(s, res) := stf cfg s input in
      let '(s', hooks, items) := feeds cfg s inputs in
      (s', if is_ok res then s :: hooks else hooks, res :: items)
  end.

(** The events that are left in a stream. *)
Definition events (stream : list (option Input)) : list Input := omap id stream.

(** What a machine will return, without its pending item and with it. *)
Definition to_come (m : StateMachine) : list (result Error Output) :=
  match pending_state_hook m with Some (_, out) => [Ok out] | None => [] end
  ++ (feeds (config m) (state m) (events (input_stream m))).2.

(** How many polls it takes at most until the end of the stream. *)
Fixpoint cost (cfg : Config) (s : State) (stream : list (option Input)) : nat :=
  match stream with
  | [] => 0
  | None :: stream => S (cost cfg s stream)
  | Some input :: stream =>
      let '(s, res) := stf cfg s input in
      S ((if is_ok res then state_hook s else 0) + cost cfg s stream)
  end.
Definition measure (m : StateMachine) : nat :=
  match pending_state_hook m with Some (fut, _) => S fut | None => 0 end + cost (config m) (state m) (input_stream m).

(** The state and the calls of the hook, when all events are fed. *)
Definition outcome (m : StateMachine) : State * list State :=
  let '(s, hooks, _) := feeds (config m) (state m) (events (input_stream m)) in (s, hooked m ++ hooks).

Lemma poll_next_step m :
  let '(m', p) := poll_next m in
  outcome m' = outcome m ∧
  match p with
  | Ready (Some item) => to_come m = item :: to_come m'
  | Ready None => m' = m ∧ to_come m = [] ∧ measure m = 0
  | Pending => to_come m' = to_come m
  end ∧ measure m' ≤ measure m - 1.
Proof.
  destruct m as [stream cfg s [[[|fut] out]|] hooks]; cbn; [split_and!; try done; lia..|].
  destruct stream as [|[input|] stream]; cbn; [done| |split_and!; try done; lia].
  unfold outcome, to_come, measure. cbn. destruct (stf cfg s input) as [s' [out|err]] eqn:E; cbn.
  - destruct (feeds cfg s' (events stream)) as [[s'' hooks'] items] eqn:Ef. destruct (state_hook s') as [|fut] eqn:Eh; cbn;
      unfold events in *; rewrite Ef; cbn; rewrite <- app_assoc; split_and!; try done; lia.
  - destruct (feeds cfg s' (events stream)) as [[s'' hooks'] items] eqn:Ef. unfold events in *. rewrite Ef. cbn.
    split_and!; try done; lia.
Qed.

Lemma polls_invariant n m :
  let '(m', items) := polls n m in
  outcome m' = outcome m ∧ to_come m = items ++ to_come m' ∧ measure m' ≤ measure m - n.
Proof.
  revert m. induction n as [|n IH]; intros m; cbn [polls]; [split_and!; try done; lia|].
  pose proof (poll_next_step m) as Hstep. destruct (poll_next m) as [m1 p]. destruct Hstep as (Ho & Hp & Hm).
  specialize (IH m1). destruct (polls n m1) as [m2 items]. destruct IH as (Ho' & Hc & Hm').
  split_and!; [congruence| |lia].
  destruct p as [[item|]|]; [by rewrite Hp, Hc|destruct Hp as (-> & _ & _); exact Hc|congruence].
Qed.

(** Nothing is left of a machine without a measure. *)
Lemma measure_zero m : measure m = 0 → input_stream m = [] ∧ pending_state_hook m = None.
Proof.
  unfold measure. destruct m as [stream cfg s [[fut out]|] hooks]; cbn; [lia|]. intros Hz. split; [|done].
  destruct stream as [|[input|] stream]; [done| |done]. cbn in Hz. by destruct (stf cfg s input).
Qed.

(** A machine that is attached to a stream returns what it returns when it is fed the events of the
    stream one after the other: after enough polls, in spite of streams and hooks that are pending, the
    results are the same in the same order, with errors in their place, the hook was called
    once with every state that was accepted, the state is the same, and the machine is at its end.  At
    any time before, the results so far are the first ones. *)
Theorem stream_feeds_machine cfg s stream n :
  let m := attach stream (restore cfg s) in
  let '(s', hooks, results) := feeds cfg s (events stream) in
  let '(m', items) := polls n m in
  items `prefix_of` results ∧
  (cost cfg s stream ≤ n →
   items = results ∧ state m' = s' ∧ hooked m' = hooks ∧ poll_next m' = (m', Ready None)).
Proof.
  intros m. pose proof (polls_invariant n m) as Hinv. destruct (polls n m) as [m' items].
  destruct Hinv as (Ho & Hc & Hm). 
  change (to_come m) with (feeds cfg s (events stream)).2 in Hc.
  change (outcome m) with (let '(s, hooks, _) := feeds cfg s (events stream) in (s, hooks)) in Ho. destruct (feeds cfg s (events stream)) as [[s' hooks] results]. cbn [snd] in Hc.
  split; [by exists (to_come m')|]. intros Hn. destruct (measure_zero m') as [Hs Hp].
  { change (measure m) with (cost cfg s stream) in Hm. lia. }
  unfold to_come in Hc. unfold outcome in Ho. rewrite Hs, Hp in Hc. cbn in Hc. rewrite app_nil_r in Hc. rewrite Hs in Ho. cbn in Ho.
  rewrite app_nil_r in Ho. injection Ho as Es Eh. split_and!; [done|done|done|]. unfold poll_next. by rewrite Hp, Hs.
Qed.

End machine.

End Machine.

(** ** Bijections *)

Module Bij.

Record Bijection (A B : Type) := mkBijection { forward : A → option B; reverse : B → option A }.
Arguments mkBijection {_ _} _ _.
Arguments forward {_ _} _ _.
Arguments reverse {_ _} _ _.

Definition lookup {A B} (x : Bijection A B) (a : A) : option B := forward x a.
Definition invert {A B} (x : Bijection A B) : Bijection B A := mkBijection (reverse x) (forward x).
Definition comp {A B C} (x : Bijection A B) (y : Bijection B C) : Bijection A C :=
  mkBijection (λ a, forward x a ≫= forward y) (λ c, reverse y c ≫= reverse x).

Section try_from.
Context `{Countable A, Countable B}.

(** The loop over the entries of a map, in the order in which it iterates. *)
Fixpoint reverse_loop (entries : list (A * B)) (reverse_map : gmap B A) : result B (gmap B A) :=
  match entries with
  | [] => Ok reverse_map
  | (a, b) :: entries =>
      if reverse_map !! b is Some _ then Err b else reverse_loop entries (<[b := a]> reverse_map)
  end.

Definition try_from (entries : list (A * B)) : result B (Bijection A B) :=
  reverse_map ← reverse_loop entries ∅;
  let forward_map : gmap A B := list_to_map ((λ '(b, a), (a, b)) <$> map_to_list reverse_map) in
  Ok (mkBijection (λ a, forward_map !! a) (λ b, reverse_map !! b)).

(** The map that the loop leaves has the entries, or a value occurs twice. *)
Lemma reverse_loop_spec entries m :
  match reverse_loop entries m with
  | Ok m' => NoDup (entries.*2) ∧ (∀ b, b ∈ entries.*2 → m !! b = None) ∧
      ∀ a b, m' !! b = Some a ↔ (a, b) ∈ entries ∨ m !! b = Some a
  | Err b => b ∈ entries.*2 ∧ (is_Some (m !! b) ∨ ¬ NoDup (entries.*2))
  end.
Proof.
  revert m. induction entries as [|[a b] entries IH]; intros m; cbn [reverse_loop].
  - split_and!; [constructor|by intros b []%elem_of_nil|]. intros a b. rewrite elem_of_nil. naive_solver.
  - destruct (m !! b) as [a'|] eqn:Eb; [split; [left|left; by eexists]|]. specialize (IH (<[b := a]> m)).
    destruct (reverse_loop _ _) as [m'|b'].
    + destruct IH as (Hnd & Hnew & Hin). assert (b ∉ entries.*2) as Hb
        by (intros Hb; specialize (Hnew b Hb); by rewrite lookup_insert_eq in Hnew).
      split_and!; [by constructor| |].
      * intros b' [->|Hb']%elem_of_cons; [done|]. specialize (Hnew b' Hb').
        destruct (decide (b = b')) as [->|]; [by rewrite lookup_insert_eq in Hnew|by rewrite lookup_insert_ne in Hnew].
      * intros a1 b1. rewrite Hin, elem_of_cons. destruct (decide (b = b1)) as [->|Hne].
        -- rewrite lookup_insert_eq. assert (∀ x, (x, b1) ∉ entries) as Hx
             by (intros x Hx; apply Hb; by apply (list_elem_of_fmap_2 snd _ _ Hx)). naive_solver.
        -- rewrite lookup_insert_ne by done. naive_solver.
    + destruct IH as [Hin Hdup]. split; [by right|]. destruct Hdup as [Hs|Hnd]; [|right; by intros [_ ?]%NoDup_cons].
      destruct (decide (b = b')) as [->|]; [|left; by rewrite lookup_insert_ne in Hs].
      right. by intros [? _]%NoDup_cons.
Qed.

(** Both directions agree. *)
Definition two_way {A B} (x : Bijection A B) : Prop := ∀ a b, lookup x a = Some b ↔ lookup (invert x) b = Some a.

Lemma two_way_comp {C} (x : Bijection A B) (y : Bijection B C) : two_way x → two_way y → two_way (comp x y).
Proof.
  intros Hx Hy a c. unfold two_way, lookup, comp, invert in *. cbn in *. rewrite !bind_Some. split.
  - intros (b & Hb%Hx & Hc%Hy). by exists b.
  - intros (b & Hb%Hy & Hc%Hx). by exists b.
Qed.

(** A map with distinct keys is turned into a bijection exactly if its values are distinct; then it
    finds the value of every key and, inverted, the key of every value, and nothing else; otherwise
    the error is a value of the map.  Composed with another one in two directions, it is in two
    directions. *)
Theorem bijection_two_way (entries : list (A * B)) :
  NoDup (entries.*1) →
  match try_from entries with
  | Ok x =>
      NoDup (entries.*2) ∧ two_way x ∧ (∀ a b, lookup x a = Some b ↔ (a, b) ∈ entries) ∧
      ∀ C (y : Bijection B C), two_way y → two_way (comp x y)
  | Err b => ¬ NoDup (entries.*2) ∧ b ∈ entries.*2
  end.
Proof.
  intros Hkeys. unfold try_from. pose proof (reverse_loop_spec entries ∅) as Hr.
  destruct (reverse_loop entries ∅) as [m|b]; cbn [mbind result_bind].
  2: { destruct Hr as [Hin [[a Ha]|Hnd]]; [by rewrite lookup_empty in Ha|done]. }
  destruct Hr as (Hnd & _ & Hin).
  assert (∀ a b, m !! b = Some a ↔ (a, b) ∈ entries) as Hrev by (intros; rewrite Hin, lookup_empty; naive_solver).
  set (l := (λ '(b, a), (a, b)) <$> map_to_list m).
  assert (∀ a b, (a, b) ∈ l ↔ (a, b) ∈ entries) as Hl.
  { intros a b. rewrite <- Hrev, <- elem_of_map_to_list. unfold l. rewrite list_elem_of_fmap. split.
    - intros ([b' a'] & [= -> ->] & Hb). exact Hb.
    - intros Hb. by exists (b, a). }
  assert (NoDup (l.*1)) as Hndl.
  { unfold l. rewrite <- list_fmap_compose. apply NoDup_fmap_2_strong; [|apply NoDup_map_to_list].
    intros [b a] [b' a'] Hb Hb'. cbn. intros ->. apply elem_of_map_to_list, Hrev in Hb, Hb'.
    apply (elem_of_list_to_map_1 (M := gmap A)) in Hb, Hb'; [|done..]. congruence. }
  assert (∀ a b, (list_to_map l : gmap A B) !! a = Some b ↔ (a, b) ∈ entries) as Hfwd.
  { intros a b. rewrite <- Hl. symmetry. by apply elem_of_list_to_map. }
  assert (two_way (mkBijection (λ a, (list_to_map l : gmap A B) !! a) (λ b, m !! b))) as Htw.
  { intros a b. unfold lookup, invert. cbn. by rewrite Hfwd, Hrev. }
  split_and!; [done|exact Htw|exact Hfwd|]. intros C y Hy. by apply two_way_comp.
Qed.

End try_from.

End Bij.
