(* ===== verification/AssertSplitter.v ===== *)
(** * The splitter of assertions ([bin/assert-splitter])

    A tool that measures what it takes to commit to a field element or to a hash, and lays the
    elements of an assertion out over outputs and transactions.  The layouts of the connectors
    ([ConnectorsAssert]) were chosen with it.

    The theorems: a layout exists exactly if one element fits an output and a transaction, and is
    then the largest one ([layout_is_largest]); the estimate of a size is the weight of the
    transaction ([total_size_is_weight]); and what is signed for the measurement is the field element
    itself, in the order of nibbles of the signatures ([sampled_bytes]). *)

From S2P Require Import Prelude Bitcoin PogMusig Wots TxTypes Taproot Connectors ConnectorsAssert.

(** ** Arithmetic *)

(** [checked_mul] and [checked_div] of weights, of 64 bits. *)
Definition checked_mul (a b : N) : option N := if (a * b <=? U64_MAX)%N then Some (a * b)%N else None.
Definition checked_add (a b : N) : option N := if (a + b <=? U64_MAX)%N then Some (a + b)%N else None.
Definition checked_div (a b : N) : option N := if (b =? 0)%N then None else Some (a / b)%N.

(** Multiplication panics on overflow in a debug build, wraps around in a release build. *)
Definition u64_mul `{BuildProfile} (a b : N) : comp N :=
  if (a * b <=? U64_MAX)%N then Val (a * b)%N
  else if debug_assertions then Panic else Val ((a * b) mod (U64_MAX + 1))%N.
Definition u64_sum `{BuildProfile} (l : list N) : comp N := foldlM u64_add 0%N l.

(** ** Layouts *)

Definition MAX_STACK_ELEMS : N := 1000.
Definition MAX_TX_V3_SIZE : N := 40000.

Record SizeData := mkSizeData { max_stack_size : N; tx_size_per_utxo : N }.
Record LayoutData := mkLayoutData {
  max_elements_per_utxo : N;
  max_utxos_per_tx : N;
  num_txs : N;
  remainder : option N;
}.

Section layout.
Context `{BuildProfile}.

(** The [while] loop: [elements_per_utxo] goes down to zero, which panics. *)
Fixpoint layout_loop (size_data : SizeData) (num_elements : N) (elements_per_utxo : nat) : comp LayoutData :=
  match elements_per_utxo with
  | 0 => Panic
  | S n =>
      let elements := N.of_nat elements_per_utxo in
      weight ← expect (checked_mul (tx_size_per_utxo size_data) elements);
      utxos ← expect (checked_div MAX_TX_V3_SIZE weight);
      if (0 <? utxos)%N then
        per_tx ← u64_mul elements utxos;
        let remainder := (num_elements mod per_tx)%N in
        Val (mkLayoutData elements utxos (num_elements / per_tx) (if (remainder =? 0)%N then None else Some remainder))
      else layout_loop size_data num_elements n
  end.

(** Dividing by zero panics. *)
Definition LayoutData_from (size_data : SizeData) (num_elements : N) : comp LayoutData :=
  max_elements ← expect (checked_div MAX_STACK_ELEMS (max_stack_size size_data));
  if (max_elements =? 0)%N then Panic else layout_loop size_data num_elements (N.to_nat max_elements).

(** The samples are what the calls of [f] return. *)
Definition average_size (samples : list SizeData) : comp SizeData :=
  '(weight, stack) ← foldlM (λ '(weight, stack) info,
    weight ← expect (checked_add weight (tx_size_per_utxo info));
    stack ← u64_add stack (max_stack_size info);
    Val (weight, stack)) (0, 0)%N samples;
  let count := N.of_nat (length samples) in
  max_stack_size ← expect (checked_div stack count);
  tx_size_per_utxo ← expect (checked_div weight count);
  Val (mkSizeData max_stack_size tx_size_per_utxo).

(** ** The size of a transaction *)

(** [VarInt::size]. *)
Definition var_int_size (n : N) : N :=
  if (n <=? 0xFC)%N then 1 else if (n <=? 0xFFFF)%N then 3 else if (n <=? 0xFFFFFFFF)%N then 5 else 9.

Definition TAPROOT_CONTROL_BASE_SIZE : N := 33.

Definition get_total_size (witnesses : list (list N)) (num_inputs num_outputs : N) : comp N :=
  inputs ← u64_mul num_inputs (32 + 4 + 1 + 4);
  outputs ← u64_mul num_outputs (8 + 1 + 34);
  base_size ← u64_sum [4; 1; inputs; 1; outputs; 4]%N;
  let num_witness_elements := var_int_size (N.of_nat (length witnesses) + 1) in
  contributions ← mapM (λ w : list N, u64_add (N.of_nat (length w)) (var_int_size (N.of_nat (length w)))) witnesses;
  witness_contributions ← u64_sum contributions;
  per_input ← u64_sum [num_witness_elements; witness_contributions; var_int_size TAPROOT_CONTROL_BASE_SIZE;
    TAPROOT_CONTROL_BASE_SIZE];
  base ← u64_mul 4 base_size;
  in_witnesses ← u64_mul num_inputs per_input;
  u64_sum [base; 1; 1; in_witnesses]%N.

End layout.

(** ** Nibbles ([chunker_primitives.rs]) *)

(** [slice.chunks(n)]; the last chunk may be shorter, and [n = 0] panics. *)
Fixpoint chunks_loop {A} (fuel n : nat) (l : list A) : list (list A) :=
  match fuel, l with
  | S fuel, _ :: _ => take n l :: chunks_loop fuel n (drop n l)
  | _, _ => []
  end.
Definition chunks {A} (n : nat) (l : list A) : comp (list (list A)) :=
  if decide (n = 0) then Panic else Val (chunks_loop (length l) n l).

(** [BitIteratorBE] of a number of 256 bits. *)
Definition bits_be (fq : N) : list bool := (λ i, N.testbit fq (N.of_nat (255 - i))) <$> seq 0 256.

(** [char::to_digit(16)], on code points. *)
Definition to_digit (c : N) : option N :=
  if ((48 <=? c) && (c <=? 57))%N then Some (c - 48)%N
  else if ((97 <=? c) && (c <=? 102))%N then Some (c - 87)%N
  else if ((65 <=? c) && (c <=? 70))%N then Some (c - 55)%N
  else None.
Definition ZERO_CHAR : N := 48.

(** What is measured and how: [bitvm]'s signatures and the execution of a script, and the
    hexadecimal digits that a hash of [blake3] prints. *)
Class SplitterLib := {
  blake3_string : list N → list N;
  wots256_generate_public_key : list N → Wots256PublicKey;
  wots256_sign : list N → list N → Wots256Sig;
  MSG_BYTE_LEN : nat;
  wots_hash_generate_public_key : list N → WotsHashPublicKey;
  wots_hash_sign : list N → list N → WotsHashSig;
  HASH_LEN : nat;
  max_nb_stack_items : list ScriptElem → N;
  final_stack : list ScriptElem → list (list N);
}.

Section nibbles.
Context `{BuildProfile, SplitterLib}.

Definition u32_wrap (n : N) : comp N :=
  if (n <=? U32_MAX)%N then Val n else if debug_assertions then Panic else Val (n mod (U32_MAX + 1))%N.

(** The fold over a chunk from its last bit, with the mutable [factor]. *)
Definition chunk_value (chunk : list bool) : comp N :=
  '(acc, _) ← foldlM (λ '(acc, factor) (x : bool),
    r ← u32_wrap (acc + if x then factor else 0);
    factor ← u32_wrap (factor * 2);
    Val (r, factor)) (0, 1)%N (rev chunk);
  Val acc.

Definition fq_to_chunked_bits (fq : N) (limb_size : nat) : comp (list N) :=
  l ← chunks limb_size (bits_be fq); mapM chunk_value l.

(** [try_into().unwrap()] of 64 digits, each of 8 bits. *)
Definition nibble_array (l : list N) : comp (list N) :=
  if decide (length l = 64) then Val ((λ x, x mod 256)%N <$> l) else Panic.
Definition extern_fq_to_nibbles (msg : N) : comp (list N) := v ← fq_to_chunked_bits msg 4; nibble_array v.

(** [(nibble_pair[1] << 4) | (nibble_pair[0] & 0b1111)] on 8 bits; a lone nibble panics. *)
Definition nib_pair (pair : list N) : comp N :=
  match pair with
  | lo :: hi :: _ => Val (N.lor (N.shiftl hi 4 mod 256) (N.land lo 15))
  | _ => Panic
  end.
Definition nib_to_byte_array (digits : list N) : comp (list N) := l ← chunks 2 digits; mapM nib_pair l.

Definition replace_first_n_with_zero (s : list N) (n : nat) : list N :=
  if decide (length s ≤ n) then replicate (length s) ZERO_CHAR
  else replicate n ZERO_CHAR ++ take (length s - n) s.
Definition hex_string_to_nibble_array (s : list N) : comp (list N) := mapM (λ c, expect (to_digit c)) s.

(** What the four functions share: hash the bytes of these nibbles. *)
Definition hash_nibbles (nibbles : list N) : comp (list N) :=
  p_bytes ← nib_to_byte_array nibbles;
  res ← hex_string_to_nibble_array (replace_first_n_with_zero (blake3_string p_bytes) ((32 - 20) * 2));
  if decide (length res = 64) then Val res else Panic.

Definition extern_hash_fp_var (fqs : list (list N)) : comp (list N) := hash_nibbles (mjoin fqs).

(** [fqs[a..b]]. *)
Definition slice_of (a b : nat) (fqs : list (list N)) : comp (list (list N)) :=
  if decide (a ≤ b ≤ length fqs) then Val (take (b - a) (drop a fqs)) else Panic.

(** The second part is put in front of the first. *)
Definition hash_halves (f g : list (list N) → comp (list N)) (mid fin : nat) (fqs : list (list N)) : comp (list N) :=
  first ← slice_of 0 mid fqs ≫= f;
  second ← slice_of mid fin fqs ≫= g;
  hash_nibbles (second ++ first).
Definition extern_hash_fp6 := hash_halves extern_hash_fp_var extern_hash_fp_var 2 6.
Definition extern_hash_fp12 := hash_halves extern_hash_fp6 extern_hash_fp6 6 12.
Definition extern_hash_fp12_v2 := hash_halves extern_hash_fp_var extern_hash_fp_var 6 12.

Definition extern_hash_nibbles (msgs : list (list N)) (mode : bool) : comp (list N) :=
  match length msgs with
  | 4 | 2 => extern_hash_fp_var msgs
  | 12 => if mode then extern_hash_fp12 msgs else extern_hash_fp12_v2 msgs
  | 6 => extern_hash_fp6 msgs
  | _ => Panic
  end.

Definition extern_hash_fps (fqs : list N) (mode : bool) : comp (list N) :=
  msgs ← mapM extern_fq_to_nibbles fqs;
  extern_hash_nibbles msgs mode.

(** ** Measuring *)

(** [{ sig_with_digit[..WOTS_MSG_INDEX] } { sig_with_digit[WOTS_MSG_INDEX] }] for every digit, an
    array of 21 bytes. *)
Definition push_signature (sig : list (list N)) : list ScriptElem :=
  sig ≫= λ d, [PushSlice (take 20 d); PushInt (nth 20 d 0%N)].
Definition drop_nibbles (bytes : nat) : list ScriptElem := replicate (bytes * 8 / 4) (PushOpcode OP_DROP).

Context `{ConnectorLib, AssertLib}.

(** The end that both measurements share. *)
Definition witness_size (lock_script witness_script : list ScriptElem) (num_inputs num_elements : N) : comp SizeData :=
  let max_stack_size := max_nb_stack_items (witness_script ++ lock_script) in
  let witness_elements := final_stack witness_script ++ [compile lock_script] in
  tx_size ← get_total_size (mjoin (replicate (N.to_nat num_elements) witness_elements)) num_inputs 2;
  stack ← u64_mul max_stack_size num_elements;
  Val (mkSizeData stack tx_size).

(** The secret and the field element are random. *)
Definition field_elements_witness_size (secret : list N) (fq : N) (num_inputs num_elements : N) : comp SizeData :=
  let pubkey := wots256_generate_public_key secret in
  fq_nibs ← extern_fq_to_nibbles fq;
  fq_bytes ← nib_to_byte_array fq_nibs;
  if negb (bool_decide (length fq_bytes = 32)) then Panic else
  let fq_sig := wots256_sign secret fq_bytes in
  witness_size (Fragment (wots256_checksig_verify pubkey) :: drop_nibbles MSG_BYTE_LEN) (push_signature fq_sig)
    num_inputs num_elements.

(** [(32 - HASH_LEN)..32] panics if a hash is longer than 32 bytes. *)
Definition hash_witness_size (secret : list N) (fq : N) (num_inputs num_elements : N) : comp SizeData :=
  let pubkey := wots_hash_generate_public_key secret in
  fq_nibs ← extern_hash_fps [fq; fq] true;
  fq_bytes ← nib_to_byte_array fq_nibs;
  if negb (bool_decide (length fq_bytes = 32)) then Panic else
  if decide (32 < HASH_LEN) then Panic else
  let fq_sig := wots_hash_sign secret (drop (32 - HASH_LEN) fq_bytes) in
  witness_size (Fragment (wots_hash_checksig_verify pubkey) :: drop_nibbles HASH_LEN) (push_signature fq_sig)
    num_inputs num_elements.

End nibbles.

(** ** Layouts: properties *)

Section properties.
Context `{BuildProfile}.

Lemma u64_mul_small a b : (a * b ≤ U64_MAX)%N → u64_mul a b = Val (a * b)%N.
Proof. intros Hle. unfold u64_mul. by rewrite (proj2 (N.leb_le _ _) Hle). Qed.

Lemma checked_mul_small a b : (a * b ≤ U64_MAX)%N → checked_mul a b = Some (a * b)%N.
Proof. intros Hle. unfold checked_mul. by rewrite (proj2 (N.leb_le _ _) Hle). Qed.

(** A layout fits if the elements of an output fit the stack and the outputs of a transaction fit
    its size. *)
Definition fits (size_data : SizeData) (elements utxos : N) : Prop :=
  (1 ≤ elements ∧ 1 ≤ utxos ∧ elements * max_stack_size size_data ≤ MAX_STACK_ELEMS ∧
   utxos * (tx_size_per_utxo size_data * elements) ≤ MAX_TX_V3_SIZE)%N.

(** The largest layout, of all elements. *)
Record largest (size_data : SizeData) (num_elements : N) (l : LayoutData) : Prop := {
  largest_fits : fits size_data (max_elements_per_utxo l) (max_utxos_per_tx l);
  largest_elements : ∀ e u, fits size_data e u → (e ≤ max_elements_per_utxo l)%N;
  largest_utxos : ∀ u, fits size_data (max_elements_per_utxo l) u → (u ≤ max_utxos_per_tx l)%N;
  largest_all : num_elements =
    (num_txs l * (max_elements_per_utxo l * max_utxos_per_tx l) + default 0 (remainder l))%N;
  largest_remainder : ∀ r, remainder l = Some r → (0 < r < max_elements_per_utxo l * max_utxos_per_tx l)%N;
}.

(** One step of the loop. *)
Lemma layout_step size_data n k :
  (0 < tx_size_per_utxo size_data ≤ MAX_TX_V3_SIZE)%N → k < 1000 →
  let e := N.of_nat (S k) in
  let u := (MAX_TX_V3_SIZE / (tx_size_per_utxo size_data * e))%N in
  layout_loop size_data n (S k)
  = if (0 <? u)%N then Val (mkLayoutData e u (n / (e * u)) (if (n mod (e * u) =? 0)%N then None else Some (n mod (e * u))%N))
    else layout_loop size_data n k.
Proof.
  intros Hw Hk e u. cbn [layout_loop]. fold e. unfold MAX_TX_V3_SIZE in Hw.
  assert (tx_size_per_utxo size_data * e ≤ 40000 * 1000)%N as Hprod by (apply N.mul_le_mono; lia).
  rewrite checked_mul_small by (etrans; [exact Hprod|done]). cbn [expect mbind comp_bind]. unfold checked_div.
  rewrite (proj2 (N.eqb_neq _ _)) by lia. cbn [expect mbind comp_bind]. fold u.
  destruct (0 <? u)%N; [|done]. rewrite u64_mul_small; [done|].
  assert (u ≤ 40000)%N as Hu by (apply N.Div0.div_le_upper_bound; unfold MAX_TX_V3_SIZE; nia).
  assert (e * u ≤ 1000 * 40000)%N as Heu by (apply N.mul_le_mono; lia). etrans; [exact Heu|done].
Qed.

Lemma layout_loop_spec size_data n k :
  (0 < tx_size_per_utxo size_data ≤ MAX_TX_V3_SIZE)%N → 0 < k ≤ 1000 →
  ∃ e u, layout_loop size_data n k
    = Val (mkLayoutData e u (n / (e * u)) (if (n mod (e * u) =? 0)%N then None else Some (n mod (e * u))%N)) ∧
    (0 < e ≤ N.of_nat k)%N ∧ (0 < u)%N ∧ u = (MAX_TX_V3_SIZE / (tx_size_per_utxo size_data * e))%N ∧
    ∀ e', (e < e' ≤ N.of_nat k → MAX_TX_V3_SIZE / (tx_size_per_utxo size_data * e') = 0)%N.
Proof.
  intros Hw. induction k as [|k IH]; intros Hk; [lia|]. rewrite layout_step by (done || lia).
  set (e := N.of_nat (S k)). set (u := (_ / (_ * e))%N). destruct (N.ltb_spec 0 u) as [Hu|Hu].
  - exists e, u. split_and!; try done; lia.
  - destruct (decide (k = 0)) as [->|Hk0].
    { unfold u, e in Hu. rewrite N.mul_1_r in Hu. apply N.le_0_r, N.div_small_iff in Hu; lia. }
    destruct IH as (e1 & u1 & -> & He & Hu1 & Eu & Hmax); [lia|]. exists e1, u1. split_and!; [done|lia|lia|done|done|].
    intros e' He'. destruct (decide (e' = e)) as [->|]; [lia|]. apply Hmax. lia.
Qed.

Lemma layout_loop_panics size_data n k :
  (tx_size_per_utxo size_data = 0 ∨ MAX_TX_V3_SIZE < tx_size_per_utxo size_data)%N → layout_loop size_data n k = Panic.
Proof.
  intros Hw. induction k as [|k IH]; [done|]. cbn [layout_loop]. destruct (checked_mul _ _) as [w|] eqn:Em; [|done].
  cbn [expect mbind comp_bind]. unfold checked_mul in Em. destruct (_ <=? _)%N; [|done]. injection Em as <-.
  unfold checked_div. case_match eqn:E0; [done|]. cbn [expect mbind comp_bind]. apply N.eqb_neq in E0.
  rewrite N.div_small; [exact IH|]. destruct Hw as [Hw|Hw]; [rewrite Hw in E0; lia|]. nia.
Qed.

(** The output of a transaction that fits one fits as many as the division says. *)
Lemma fits_iff size_data e u :
  (0 < max_stack_size size_data)%N → (0 < tx_size_per_utxo size_data)%N →
  fits size_data e u ↔ (0 < e ≤ MAX_STACK_ELEMS / max_stack_size size_data ∧
    0 < u ≤ MAX_TX_V3_SIZE / (tx_size_per_utxo size_data * e))%N.
Proof.
  intros Hs Hw. unfold fits. split.
  - intros (He & Hu & Hes & Huw). split; (split; [lia|]); apply N.div_le_lower_bound; lia.
  - intros [[He Hes] [Hu Huw]]. split_and!; [lia|lia| |].
    + etrans; [|apply (N.Div0.mul_div_le _ (max_stack_size size_data))]. rewrite N.mul_comm. by apply N.mul_le_mono_l.
    + etrans; [|apply (N.Div0.mul_div_le _ (tx_size_per_utxo size_data * e))]. rewrite N.mul_comm. by apply N.mul_le_mono_l.
Qed.

(** Every layout that is found is the largest one, and one is found whenever a single element
    fits. *)
Lemma layout_is_largest size_data num_elements :
  (0 < max_stack_size size_data)%N → (0 < tx_size_per_utxo size_data)%N →
  match LayoutData_from size_data num_elements with
  | Val l => largest size_data num_elements l
  | Panic => ∀ e u, ¬ fits size_data e u
  end.
Proof.
  intros Hs Hw. unfold LayoutData_from, checked_div. rewrite (proj2 (N.eqb_neq _ _)) by lia. cbn [expect mbind comp_bind].
  set (m := (MAX_STACK_ELEMS / max_stack_size size_data)%N). assert (m ≤ 1000)%N as Hm
    by (apply N.Div0.div_le_upper_bound; unfold MAX_STACK_ELEMS; nia).
  destruct (N.eqb_spec m 0) as [E0|E0].
  { intros e u [He _]%fits_iff; [|done..]. fold m in He. lia. }
  destruct (decide (tx_size_per_utxo size_data ≤ MAX_TX_V3_SIZE)%N) as [Hfit|Hfit].
  - destruct (layout_loop_spec size_data num_elements (N.to_nat m)) as (e & u & -> & He & Hu & Eu & Hmax); [lia..|].
    rewrite N2Nat.id in He, Hmax. assert (e * u ≠ 0)%N as Hne by lia. split; cbn [max_elements_per_utxo max_utxos_per_tx num_txs remainder].
    + apply fits_iff; [done..|]. fold m. rewrite <- Eu. lia.
    + intros e' u' [He' Hu']%fits_iff; [|done..]. fold m in He'. destruct (N.le_gt_cases e' e) as [|Hgt]; [done|].
      rewrite (Hmax e') in Hu'; lia.
    + intros u' [_ Hu']%fits_iff; [|done..]. lia.
    + rewrite (N.Div0.div_mod num_elements (e * u)) at 1. destruct (N.eqb_spec (num_elements mod (e * u)) 0) as [->|]; cbn; lia.
    + intros r. destruct (N.eqb_spec (num_elements mod (e * u)) 0) as [|Hr]; [done|]. intros [= <-].
      split; [by apply N.neq_0_lt_0|by apply N.mod_lt].
  - rewrite layout_loop_panics by lia. intros e u (He & Hu & _ & Hle). apply Hfit. etrans; [|exact Hle].
    rewrite (N.mul_comm (tx_size_per_utxo _)), N.mul_assoc, <- (N.mul_1_l (tx_size_per_utxo size_data)) at 1.
    apply N.mul_le_mono_r. clear -He Hu. nia.
Qed.

(** ** The estimate is the weight *)

Definition total (l : list N) : N := foldr N.add 0%N l.

Lemma total_app l k : total (l ++ k) = (total l + total k)%N.
Proof. induction l as [|x l IH]; [done|]. cbn. fold (total (l ++ k)) (total l). lia. Qed.

Lemma total_const {A} (f : A → N) x l : Forall (λ y, f y = x) l → total (f <$> l) = (N.of_nat (length l) * x)%N.
Proof.
  induction 1 as [|y l <- _ IH]; [done|]. rewrite fmap_cons. cbn [total foldr length]. fold (total (f <$> l)). rewrite IH. lia.
Qed.

Lemma u64_sum_small l : (total l ≤ U64_MAX)%N → u64_sum l = Val (total l).
Proof.
  unfold u64_sum. enough (∀ a, (a + total l ≤ U64_MAX)%N → foldlM u64_add a l = Val (a + total l)%N) as Hs by exact (Hs 0%N).
  induction l as [|x l IH]; intros a Hl; cbn [foldlM total foldr] in *; [by rewrite N.add_0_r|].
  fold (total l) in *. rewrite u64_add_small by lia. cbn [mbind comp_bind]. rewrite IH by lia. f_equal. lia.
Qed.

(** The bytes of a string with its length in front, of the parts of a transaction, and the weight,
    which counts a byte of the witnesses once and any other four times. *)
Definition prefixed (l : list N) : N := (N.of_nat (length l) + var_int_size (N.of_nat (length l)))%N.
Definition base_bytes (tx : Transaction) : N :=
  (4 + var_int_size (N.of_nat (length (input tx))) + total ((λ i, 32 + 4 + prefixed (script_sig i) + 4) <$> input tx)
   + var_int_size (N.of_nat (length (output tx))) + total ((λ o, 8 + prefixed (script_pubkey o)) <$> output tx) + 4)%N.
Definition witness_bytes (i : TxIn) : N :=
  (var_int_size (N.of_nat (length (witness i))) + total (prefixed <$> witness i))%N.
Definition weight (tx : Transaction) : N :=
  (4 * base_bytes tx
   + if forallb (λ i, bool_decide (witness i = [])) (input tx) then 0 else 2 + total (witness_bytes <$> input tx))%N.

Definition estimate (witnesses : list (list N)) (n m : N) : N :=
  (4 * (10 + 41 * n + 43 * m) + 2
   + n * (var_int_size (N.of_nat (length witnesses) + 1) + total (prefixed <$> witnesses) + 34))%N.

Lemma get_total_size_spec witnesses n m :
  (0 < n)%N → (estimate witnesses n m ≤ U64_MAX)%N → get_total_size witnesses n m = Val (estimate witnesses n m).
Proof.
  intros Hn Hle. unfold get_total_size. unfold estimate in *.
  set (v := var_int_size (N.of_nat (length witnesses) + 1)) in *. set (t := total (prefixed <$> witnesses)) in *.
  assert (v + t + 34 ≤ n * (v + t + 34))%N as Hmono by (rewrite <- (N.mul_1_l (v + t + 34)) at 1; apply N.mul_le_mono_r; lia).
  rewrite !u64_mul_small by lia. cbn [mbind comp_bind]. rewrite u64_sum_small by (cbn; lia). cbn [mbind comp_bind].
  assert (mapM (λ w : list N, u64_add (N.of_nat (length w)) (var_int_size (N.of_nat (length w)))) witnesses
    = Val (prefixed <$> witnesses)) as ->.
  { apply mapM_comp_Val, Forall2_fmap_r, Forall_Forall2_diag. assert (t ≤ U64_MAX)%N as Ht by lia. unfold t in Ht.
    clear -Ht. induction witnesses as [|w l IH]; [constructor|]. rewrite fmap_cons in Ht. cbn [total foldr] in Ht.
    fold (total (prefixed <$> l)) in Ht. constructor; [apply u64_add_small; unfold prefixed in Ht; lia|apply IH; lia]. }
  cbn [mbind comp_bind]. rewrite u64_sum_small by (fold t; lia). cbn [mbind comp_bind]. fold t.
  change (var_int_size TAPROOT_CONTROL_BASE_SIZE) with 1%N. unfold TAPROOT_CONTROL_BASE_SIZE.
  rewrite u64_sum_small by (cbn [total foldr]; lia). cbn [mbind comp_bind total foldr].
  replace (v + (t + (1 + (33 + 0))))%N with (v + t + 34)%N by lia.
  rewrite !u64_mul_small by lia. cbn [mbind comp_bind]. rewrite u64_sum_small by (cbn [total foldr]; lia).
  cbn [total foldr]. f_equal. lia.
Qed.

(** The transactions that are estimated: the inputs have the same witness and a control block of a
    tree of one leaf, and the outputs are taproot. *)
Definition estimated (witnesses : list (list N)) (tx : Transaction) : Prop :=
  Forall (λ i, script_sig i = [] ∧ ∃ block, length block = 33 ∧ witness i = witnesses ++ [block]) (input tx) ∧
  Forall (λ o, length (script_pubkey o) = 34) (output tx).

Lemma estimate_is_weight witnesses tx :
  estimated witnesses tx → 0 < length (input tx) < 253 → length (output tx) < 253 →
  estimate witnesses (N.of_nat (length (input tx))) (N.of_nat (length (output tx))) = weight tx.
Proof.
  intros [Hin Hout] Hn Hm. unfold weight, base_bytes.
  assert (∀ k, k < 253 → var_int_size (N.of_nat k) = 1%N) as Hsmall.
  { intros k Hk. unfold var_int_size. by rewrite (proj2 (N.leb_le _ _)) by lia. }
  rewrite !Hsmall by lia.
  rewrite (total_const _ 41 (input tx)) by (eapply Forall_impl; [exact Hin|]; intros i [-> _]; done).
  rewrite (total_const _ 43 (output tx)).
  2: { eapply Forall_impl; [exact Hout|]. intros o Ho. cbn in Ho. unfold prefixed. by rewrite Ho. }
  rewrite (total_const witness_bytes
    (var_int_size (N.of_nat (length witnesses) + 1) + total (prefixed <$> witnesses) + 34) (input tx)).
  2: { eapply Forall_impl; [exact Hin|]. intros i (_ & block & Hb & Hw). unfold witness_bytes.
    rewrite Hw, length_app, fmap_app, total_app. cbn [length fmap list_fmap total foldr]. unfold prefixed at 2. rewrite Hb.
    rewrite Nat2N.inj_add. change (N.of_nat 1) with 1%N. change (var_int_size (N.of_nat 33)) with 1%N. lia. }
  destruct (forallb _ _) eqn:Ef; [|unfold estimate; lia].
  destruct (input tx) as [|i l]; [cbn in Hn; lia|]. cbn in Ef. apply andb_true_iff in Ef as [Ei _].
  apply bool_decide_eq_true in Ei. apply Forall_cons in Hin as [(_ & block & _ & Hw) _].
  rewrite Hw in Ei. by destruct witnesses.
Qed.

Lemma var_int_size_bounds n : (1 ≤ var_int_size n ≤ 9)%N.
Proof. unfold var_int_size. repeat case_match; lia. Qed.

Lemma total_repeat e witnesses :
  total (prefixed <$> mjoin (replicate e witnesses)) = (N.of_nat e * total (prefixed <$> witnesses))%N.
Proof.
  induction e as [|e IH]; [done|]. change (mjoin (replicate (S e) witnesses)) with (witnesses ++ mjoin (replicate e witnesses)).
  rewrite fmap_app, total_app, IH. lia.
Qed.

(** The estimate of several elements and outputs is no more than that of one, so many times. *)
Lemma estimate_grows witnesses (e : nat) u :
  0 < e → (0 < u)%N →
  (estimate (mjoin (replicate e witnesses)) u 2 ≤ u * (estimate witnesses 1 2 * N.of_nat e))%N.
Proof.
  intros He Hu. unfold estimate. rewrite total_repeat. set (t := total (prefixed <$> witnesses)).
  set (v := var_int_size (N.of_nat (length witnesses) + 1)). set (v' := var_int_size _).
  assert (v' + 34 ≤ (v + 34) * N.of_nat e)%N as Hv.
  { destruct (decide (e = 1)) as [->|].
    - unfold v', v. cbn [replicate mjoin list_join]. rewrite app_nil_r. lia.
    - pose proof (var_int_size_bounds (N.of_nat (length (mjoin (replicate e witnesses))) + 1)) as Hb. fold v' in Hb.
      pose proof (var_int_size_bounds (N.of_nat (length witnesses) + 1)) as Hb'. fold v in Hb'. nia. }
  clearbody v v' t. set (n := N.of_nat e) in *. assert (0 < n)%N as Hn by lia. clearbody n.
  assert (386 ≤ u * (386 * n))%N by nia. assert (164 * u ≤ u * (164 * n))%N by nia.
  assert (u * (v' + 34) ≤ u * ((v + 34) * n))%N by (apply N.mul_le_mono_l; lia). nia.
Qed.

(** C35: What the splitter lays out fits.  Let an element be committed to by these elements of a
    witness, with the size that is measured for one input.  A layout is found unless a single element
    does not fit a stack or a transaction.  It accounts for all elements, and no other layout that
    fits has more elements to an output, or as many and more outputs to a transaction.  Every
    transaction of the layout, with so many inputs, each of which has the witness of so many elements,
    has at most the weight that the network relays, and the estimate of its size is that weight. *)
Theorem layout_fits stack witnesses num_elements :
  (0 < stack)%N → (estimate witnesses 1 2 ≤ U64_MAX)%N →
  ∃ size, get_total_size witnesses 1 2 = Val size ∧
  match LayoutData_from (mkSizeData stack size) num_elements with
  | Panic => (MAX_STACK_ELEMS < stack ∨ MAX_TX_V3_SIZE < size)%N
  | Val l =>
      largest (mkSizeData stack size) num_elements l ∧
      let all := mjoin (replicate (N.to_nat (max_elements_per_utxo l)) witnesses) in
      ∀ tx, estimated all tx → N.of_nat (length (input tx)) = max_utxos_per_tx l → length (output tx) = 2 →
        get_total_size all (max_utxos_per_tx l) 2 = Val (weight tx) ∧ (weight tx ≤ MAX_TX_V3_SIZE)%N
  end.
Proof.
  intros Hs Hle. exists (estimate witnesses 1 2). split; [by apply get_total_size_spec|].
  assert (585 ≤ estimate witnesses 1 2)%N as Hmin.
  { unfold estimate. pose proof (var_int_size_bounds (N.of_nat (length witnesses) + 1)). lia. }
  pose proof (layout_is_largest (mkSizeData stack (estimate witnesses 1 2)) num_elements Hs ltac:(cbn; lia)) as Hl.
  destruct (LayoutData_from _ _) as [l|].
  - split; [exact Hl|]. intros all tx Ht Hn Hm. destruct (largest_fits _ _ _ Hl) as (He & Hu & _ & Hfit).
    cbn [tx_size_per_utxo] in Hfit. unfold MAX_TX_V3_SIZE in *.
    pose proof (estimate_grows witnesses (N.to_nat (max_elements_per_utxo l)) (max_utxos_per_tx l) ltac:(lia) ltac:(lia)) as Hg.
    rewrite N2Nat.id in Hg. fold all in Hg.
    assert (max_utxos_per_tx l < 253)%N as Hsmall.
    { assert (max_utxos_per_tx l * 585 ≤ 40000)%N; [|lia]. etrans; [|exact Hfit]. apply N.mul_le_mono_l.
      rewrite <- (N.mul_1_r 585). apply N.mul_le_mono; lia. }
    pose proof (estimate_is_weight all tx Ht ltac:(lia) ltac:(lia)) as Ew. rewrite Hn, Hm in Ew. change (N.of_nat 2) with 2%N in Ew.
    rewrite <- Ew. split; [|lia]. apply get_total_size_spec; [lia|]. etrans; [exact Hg|]. etrans; [exact Hfit|done].
  - destruct (decide (MAX_STACK_ELEMS < stack)%N) as [|Hst]; [by left|]. right. apply N.nle_gt. intros Hsz.
    apply (Hl 1%N 1%N). unfold fits. cbn [max_stack_size tx_size_per_utxo]. lia.
Qed.

End properties.

(** ** What is measured *)

Section measured.
Context `{BuildProfile}.

(** The nibbles of a number of 256 bits, the most significant first. *)
Definition nibble (fq : N) (i : nat) : N := (fq / 2 ^ (4 * (63 - N.of_nat i)) mod 16)%N.

Lemma chunks_4_of_256 {A} (f : nat → A) :
  chunks 4 (f <$> seq 0 256) = Val ((λ i, f <$> [4 * i; 4 * i + 1; 4 * i + 2; 4 * i + 3]) <$> seq 0 64).
Proof. vm_compute. reflexivity. Qed.
Lemma chunks_2_of_64 {A} (f : nat → A) :
  chunks 2 (f <$> seq 0 64) = Val ((λ i, f <$> [2 * i; 2 * i + 1]) <$> seq 0 32).
Proof. vm_compute. reflexivity. Qed.

Lemma chunk_value_4 a b c d :
  chunk_value [a; b; c; d] = Val (8 * N.b2n a + 4 * N.b2n b + 2 * N.b2n c + N.b2n d)%N.
Proof. by destruct a, b, c, d. Qed.

Lemma nibble_bits x :
  (8 * N.b2n (N.testbit x 3) + 4 * N.b2n (N.testbit x 2) + 2 * N.b2n (N.testbit x 1) + N.b2n (N.testbit x 0) = x mod 16)%N.
Proof.
  rewrite !N.testbit_spec'. change (2 ^ 3)%N with 8%N. change (2 ^ 2)%N with 4%N. change (2 ^ 1)%N with 2%N.
  change (2 ^ 0)%N with 1%N. rewrite N.div_1_r. zify. Z.to_euclidean_division_equations. lia.
Qed.

Lemma chunked_bits fq : fq_to_chunked_bits fq 4 = Val (nibble fq <$> seq 0 64).
Proof.
  unfold fq_to_chunked_bits, bits_be. rewrite chunks_4_of_256. cbn [mbind comp_bind].
  apply mapM_comp_Val, Forall2_fmap, Forall_Forall2_diag, Forall_seq. intros i Hi. cbn [fmap list_fmap].
  rewrite chunk_value_4. f_equal. unfold nibble. rewrite <- N.shiftr_div_pow2, <- nibble_bits, !N.shiftr_spec'.
  repeat f_equal; lia.
Qed.

Lemma nibble_small fq i : (nibble fq i < 16)%N.
Proof. by apply N.mod_lt. Qed.

Lemma fq_nibbles fq : extern_fq_to_nibbles fq = Val (nibble fq <$> seq 0 64).
Proof.
  unfold extern_fq_to_nibbles. rewrite chunked_bits. cbn [mbind comp_bind]. unfold nibble_array.
  rewrite decide_True by done. f_equal. rewrite <- list_fmap_compose. apply list_fmap_ext. intros i x Hi. cbn.
  apply N.mod_small. pose proof (nibble_small fq x). lia.
Qed.

Definition swap_nibbles (b : N) : N := (b mod 16 * 16 + b / 16)%N.

Lemma to_be_bytes_seq w n : to_be_bytes w n = (λ i, n / 256 ^ (N.of_nat (w - 1 - i)) mod 256)%N <$> seq 0 w.
Proof.
  revert n. induction w as [|w IH]; intros n; [done|]. rewrite seq_S, fmap_app. cbn [to_be_bytes]. rewrite IH. f_equal.
  - apply list_fmap_ext. intros i x Hx%lookup_seq. rewrite N.Div0.div_div, <- N.pow_succ_r'. do 3 f_equal. lia.
  - cbn. replace (w - 0 - w) with 0 by lia. by rewrite N.pow_0_r, N.div_1_r.
Qed.

Lemma nib_pair_spec lo hi l : (lo < 16)%N → (hi < 16)%N → nib_pair (lo :: hi :: l) = Val (hi * 16 + lo)%N.
Proof.
  intros Hlo Hhi. cbn. f_equal.
  assert (Forall (λ hi, Forall (λ lo, N.lor (N.shiftl hi 4 mod 256) (N.land lo 15) = hi * 16 + lo)%N (N.of_nat <$> seq 0 16))
    (N.of_nat <$> seq 0 16)) as Hall by (vm_compute; repeat constructor).
  rewrite Forall_fmap, Forall_seq in Hall. specialize (Hall (N.to_nat hi) ltac:(lia)).
  cbn [compose] in Hall. rewrite N2Nat.id, Forall_fmap, Forall_seq in Hall. specialize (Hall (N.to_nat lo) ltac:(lia)).
  cbn [compose] in Hall. by rewrite N2Nat.id in Hall.
Qed.

(** What is signed is the field element, with the nibbles of every byte in the order of the
    signatures. *)
Lemma sampled_bytes fq :
  (fq_nibs ← extern_fq_to_nibbles fq; nib_to_byte_array fq_nibs) = Val (swap_nibbles <$> to_be_bytes 32 fq).
Proof.
  rewrite fq_nibbles. cbn [mbind comp_bind]. unfold nib_to_byte_array. rewrite chunks_2_of_64. cbn [mbind comp_bind].
  rewrite to_be_bytes_seq, <- list_fmap_compose. apply mapM_comp_Val, Forall2_fmap, Forall_Forall2_diag, Forall_seq.
  intros i Hi. cbn [fmap list_fmap compose]. rewrite nib_pair_spec by apply nibble_small. f_equal. unfold nibble, swap_nibbles.
  assert (256 ^ N.of_nat (32 - 1 - i) = 2 ^ (8 * N.of_nat (32 - 1 - i)))%N as -> by by rewrite N.pow_mul_r.
  replace (4 * (63 - N.of_nat (2 * i + 1)))%N with (8 * N.of_nat (32 - 1 - i))%N by lia.
  replace (4 * (63 - N.of_nat (2 * i)))%N with (8 * N.of_nat (32 - 1 - i) + 4)%N by lia.
  rewrite N.pow_add_r, <- N.Div0.div_div. set (x := (fq / 2 ^ (8 * N.of_nat (32 - 1 - i)))%N).
  change (2 ^ 4)%N with 16%N. clearbody x. zify. Z.to_euclidean_division_equations. lia.
Qed.

(** *** The hash *)

(** A hash prints 64 hexadecimal digits. *)
Class SplitterLaws `{SplitterLib} : Prop := {
  blake3_digits : ∀ bytes, ∃ digits, length digits = 64 ∧ mapM to_digit (blake3_string bytes) = Some digits;
}.

Context `{SplitterLaws}.

Lemma hex_digits s digits : mapM to_digit s = Some digits → hex_string_to_nibble_array s = Val digits.
Proof.
  intros Hd%mapM_Some. apply mapM_comp_Val. eapply Forall2_impl; [exact Hd|]. intros c d E. cbn in E |- *. by rewrite E.
Qed.

(** The digits of a hash are moved behind 24 zeros, and the last 24 are lost. *)
Lemma hash_nibbles_spec nibbles bytes :
  nib_to_byte_array nibbles = Val bytes →
  ∃ digits, mapM to_digit (blake3_string bytes) = Some digits ∧
    hash_nibbles nibbles = Val (replicate 24 0%N ++ take 40 digits).
Proof.
  intros E. destruct (blake3_digits bytes) as (digits & Hlen & Hd). exists digits. split; [done|].
  unfold hash_nibbles. rewrite E. cbn [mbind comp_bind].
  assert (length (blake3_string bytes) = 64) as Hs by (apply mapM_Some, Forall2_length in Hd; lia).
  unfold replace_first_n_with_zero. rewrite Hs, decide_False by (cbn; lia).
  rewrite (hex_digits _ (replicate 24 0%N ++ take 40 digits)).
  - cbn [mbind comp_bind]. rewrite decide_True; [done|]. rewrite length_app, length_replicate, length_take. lia.
  - apply mapM_Some. apply Forall2_app; [by repeat constructor|]. apply mapM_Some in Hd. by apply Forall2_take.
Qed.

(** An even number of nibbles has bytes. *)
Fixpoint pair_bytes (nibbles : list N) : list N :=
  match nibbles with
  | lo :: hi :: l => N.lor (N.shiftl hi 4 mod 256) (N.land lo 15) :: pair_bytes l
  | _ => []
  end.

Lemma nib_bytes_even n nibbles :
  length nibbles = 2 * n → nib_to_byte_array nibbles = Val (pair_bytes nibbles) ∧ length (pair_bytes nibbles) = n.
Proof.
  intros Hl. unfold nib_to_byte_array, chunks. rewrite decide_False by done. cbn [mbind comp_bind].
  generalize (le_n (length nibbles)). generalize (length nibbles) at 2 3. intros fuel. revert n nibbles Hl.
  induction fuel as [|fuel IH]; intros n nibbles Hl Hfuel.
  - destruct nibbles; [|cbn in Hfuel; lia]. split; [done|]. cbn in *. lia.
  - destruct nibbles as [|x [|y l]]; [split; [done|cbn in *; lia]|cbn in Hl; lia|]. cbn in Hl, Hfuel.
    destruct (IH (n - 1) l) as [E Hb]; [lia..|]. split; [|cbn; lia].
    change (chunks_loop (S fuel) 2 (x :: y :: l)) with ([x; y] :: chunks_loop fuel 2 l). cbn [mapM].
    rewrite E. done.
Qed.

(** Hashing two field elements leaves 32 bytes, 12 of them zero. *)
Lemma sampled_hash fq :
  ∃ hash, (fq_nibs ← extern_hash_fps [fq; fq] true; nib_to_byte_array fq_nibs) = Val (replicate 12 0%N ++ hash) ∧ length hash = 20.
Proof.
  unfold extern_hash_fps. cbn [mapM mbind comp_bind]. rewrite fq_nibbles. cbn [mbind comp_bind mret comp_ret].
  unfold extern_hash_nibbles, extern_hash_fp_var. cbn [length].
  destruct (nib_bytes_even 64 (mjoin [nibble fq <$> seq 0 64; nibble fq <$> seq 0 64])) as [E _]; [done|].
  destruct (hash_nibbles_spec _ _ E) as (digits & Hd & ->). cbn [mbind comp_bind].
  destruct (blake3_digits (pair_bytes (mjoin [nibble fq <$> seq 0 64; nibble fq <$> seq 0 64]))) as (digits' & Hlen & Hd').
  rewrite Hd in Hd'. injection Hd' as <-.
  destruct (nib_bytes_even 20 (take 40 digits)) as [_ Hh]; [rewrite length_take; lia|].
  exists (pair_bytes (take 40 digits)). split; [|done].
  destruct (nib_bytes_even 32 (replicate 24 0%N ++ take 40 digits)) as [-> _]; [|done].
  rewrite length_app, length_replicate, length_take. lia.
Qed.

(** The measurements do not panic but for an overflow: they are those of a signature of the field
    element, and of a signature of a part of a hash. *)
Lemma measured_field `{ConnectorLib} secret fq num_inputs num_elements :
  field_elements_witness_size secret fq num_inputs num_elements
  = witness_size (Fragment (wots256_checksig_verify (wots256_generate_public_key secret)) :: drop_nibbles MSG_BYTE_LEN)
      (push_signature (wots256_sign secret (swap_nibbles <$> to_be_bytes 32 fq))) num_inputs num_elements.
Proof.
  unfold field_elements_witness_size. pose proof (sampled_bytes fq) as E.
  destruct (extern_fq_to_nibbles fq) as [nibs|]; [|done]. cbn [mbind comp_bind] in E |- *. rewrite E. cbn [mbind comp_bind].
  rewrite bool_decide_true; [done|]. by rewrite length_fmap, length_to_be_bytes.
Qed.

Lemma measured_hash `{ConnectorLib, AssertLib} secret fq num_inputs num_elements :
  HASH_LEN ≤ 20 → ∃ hash, length hash = HASH_LEN ∧
  hash_witness_size secret fq num_inputs num_elements
  = witness_size (Fragment (wots_hash_checksig_verify (wots_hash_generate_public_key secret)) :: drop_nibbles HASH_LEN)
      (push_signature (wots_hash_sign secret hash)) num_inputs num_elements.
Proof.
  intros Hl. unfold hash_witness_size. destruct (sampled_hash fq) as (hash & E & Hh).
  destruct (extern_hash_fps _ _) as [nibs|]; [|done]. cbn [mbind comp_bind] in E |- *. rewrite E. cbn [mbind comp_bind].
  rewrite bool_decide_true by (rewrite length_app, length_replicate; lia). cbn [negb]. rewrite decide_False by lia.
  eexists. split; [|reflexivity]. rewrite length_drop, length_app, length_replicate. lia.
Qed.

(** Equal samples are their average. *)
Lemma average_const size_data (count : nat) :
  (N.of_nat (S count) * max_stack_size size_data ≤ U64_MAX)%N → (N.of_nat (S count) * tx_size_per_utxo size_data ≤ U64_MAX)%N →
  average_size (replicate (S count) size_data) = Val size_data.
Proof.
  intros Hs Hw. unfold average_size. rewrite length_replicate.
  assert (∀ k a b, (a + N.of_nat k * tx_size_per_utxo size_data ≤ U64_MAX)%N → (b + N.of_nat k * max_stack_size size_data ≤ U64_MAX)%N →
    foldlM (λ '(weight, stack) info,
      weight ← expect (checked_add weight (tx_size_per_utxo info)); stack ← u64_add stack (max_stack_size info);
      Val (weight, stack)) (a, b) (replicate k size_data)
    = Val (a + N.of_nat k * tx_size_per_utxo size_data, b + N.of_nat k * max_stack_size size_data)%N) as Hf.
  { induction k as [|k IH]; intros a b Ha Hb; cbn [replicate foldlM]; [do 2 f_equal; lia|].
    unfold checked_add. rewrite (proj2 (N.leb_le _ _)) by lia. cbn [expect mbind comp_bind]. rewrite u64_add_small by lia.
    cbn [mbind comp_bind]. rewrite IH by lia. do 2 f_equal; lia. }
  rewrite Hf by lia. cbn [mbind comp_bind]. unfold checked_div. rewrite (proj2 (N.eqb_neq _ _)) by lia.
  cbn [expect mbind comp_bind]. rewrite !N.add_0_l, !(N.mul_comm (N.of_nat (S count))), !N.div_mul by lia. by destruct size_data.
Qed.

End measured.

(** ** Example *)

(** Ten elements of which six fit an output. *)
Lemma layout_fits_witness :
  let _ : BuildProfile := true in
  let witnesses := replicate 40 (replicate 20 7%N) in
  LayoutData_from (mkSizeData 150 1425) 10 = Val (mkLayoutData 6 4 0 (Some 10%N)) ∧
  (∀ e u, fits (mkSizeData 150 1425) e u → e ≤ 6)%N.
Proof.
  intros profile witnesses. destruct (layout_fits (H := profile) 150 witnesses 10) as (size & E & Hl); [done|done|].
  assert (size = 1425)%N as -> by (vm_compute in E; by injection E as <-).
  assert (LayoutData_from (mkSizeData 150 1425) 10 = Val (mkLayoutData 6 4 0 (Some 10%N))) as El by reflexivity.
  split; [exact El|]. rewrite El in Hl. exact (largest_elements _ _ _ (proj1 Hl)).
Defined.
