(* ===== verification/BtcClient.v ===== *)
(** * The client of the notifications ([btc-notify/src/client.rs])

    One task listens to the node and feeds the state machine of [BtcNotify]; its events go to
    the channels of the subscribers.  Subscribers come and go at any time: the state machine and the
    lists of subscribers are shared, each under a lock of its own, so that subscribing to transactions
    takes two critical sections.  The actions of all parties are modelled as a sequence of
    these sections.  A round of the task has up to three of them: it announces a block and processes the
    message, sends the event of a block that was buried or uncled, and sends the events of transactions; it
    waits for a lock before each, where it can be aborted, and holds the state machine throughout.

    The theorems: in every such sequence, each subscriber receives the events that the state machine
    emits and that match its predicate, in order, but for those of the round in which the task is, or was
    when it was stopped ([subscribers_served]); events between the two sections of a subscription are lost,
    and dropping one clone of the client silences all ([subscription_gaps]). *)

From S2P Require Import Prelude Bitcoin BtcNotify.

(** ** Channels *)

(** The contents of the channels whose receiver was not dropped. *)
Abbreviation Boxes T := (gmap N (list T)).

(** [UnboundedSender::send]. *)
Definition send {T} (boxes : Boxes T) (outbox : N) (msg : T) : option (Boxes T) :=
  (λ l, <[outbox := l ++ [msg]]> boxes) <$> boxes !! outbox.

Fixpoint send_all {T} (boxes : Boxes T) (outbox : N) (msgs : list T) : option (Boxes T) :=
  match msgs with
  | [] => Some boxes
  | msg :: msgs => boxes ← send boxes outbox msg; send_all boxes outbox msgs
  end.

(** ** The client *)

Inductive ZmqMessage :=
| HashBlock
| HashTx
| MsgBlock (b : Block)
| MsgTx (tx : Transaction)
| MsgSequence (seq : SequenceMessage)
| Monitoring
| ZmqError.

Record TxSubscriptionDetails := mkTxSubscriptionDetails { predicate : TxPredicate; outbox : N }.

(** The sections of a round that are left. *)
Inductive Stage :=
| ToBlocks (block_event : BlockEvent) (diff : list TxEvent)
| ToTxs (diff : list TxEvent).

(** [subscribing] are the subscriptions between their two critical sections, and [next] names the
    next pointer and channel.  [listening] is whether the task runs, and [round] what it has still to send
    of the message that it has processed; while it runs, a round locks the state machine.  A task that is
    stopped never sends it. *)
Record BtcZmqClient := mkBtcZmqClient {
  block_subs : list N;
  tx_subs : list TxSubscriptionDetails;
  state_machine : BtcZmqSM;
  listening : bool;
  subscribing : list TxSubscriptionDetails;
  tx_boxes : Boxes TxEvent;
  block_boxes : Boxes BlockEvent;
  next : N;
  round : option Stage;
}.

(** [block_subs.retain(|sub| sub.send(..).is_ok())]. *)
Fixpoint notify_blocks (event : BlockEvent) (subs : list N) (boxes : Boxes BlockEvent) : list N * Boxes BlockEvent :=
  match subs with
  | [] => ([], boxes)
  | sub :: subs =>
      match send boxes sub event with
      | Some boxes => let '(subs, boxes) := notify_blocks event subs boxes in (sub :: subs, boxes)
      | None => notify_blocks event subs boxes
      end
  end.

Definition for_subscriber (sub : TxSubscriptionDetails) (diff : list TxEvent) : list TxEvent :=
  List.filter (λ event, pred_fn (predicate sub) (rawtx event)) diff.

(** [tx_subs.retain(..)]: a subscriber whose receiver was dropped goes with its filter. *)
Fixpoint notify_txs (diff : list TxEvent) (subs : list TxSubscriptionDetails) (boxes : Boxes TxEvent) (sm : BtcZmqSM)
    : list TxSubscriptionDetails * Boxes TxEvent * BtcZmqSM :=
  match subs with
  | [] => ([], boxes, sm)
  | sub :: subs =>
      match send_all boxes (outbox sub) (for_subscriber sub diff) with
      | Some boxes => let '(subs, boxes, sm) := notify_txs diff subs boxes sm in (sub :: subs, boxes, sm)
      | None => notify_txs diff subs boxes (rm_filter sm (predicate sub))
      end
  end.

Section client.
Context `{BitcoinLib, BuildProfile}.

Definition process (msg : ZmqMessage) (sm : BtcZmqSM) : comp (BtcZmqSM * (list TxEvent * option BlockEvent)) :=
  match msg with
  | HashBlock | HashTx | Monitoring | ZmqError => Val (sm, ([], None))
  | MsgBlock b => process_block sm b
  | MsgTx tx => let '(sm, diff) := process_tx sm tx in Val (sm, (diff, None))
  | MsgSequence seq => process_sequence sm seq
  end.

Definition next_stage (diff : list TxEvent) (block_event : option BlockEvent) : Stage :=
  match block_event with Some block_event => ToBlocks block_event diff | None => ToTxs diff end.

(** A block is announced before it is processed, with no wait in between; a panic of the state machine
    ends the task. *)
Definition begin (msg : ZmqMessage) (c : BtcZmqClient) : BtcZmqClient :=
  let '(subs, boxes) :=
    match msg with
    | MsgBlock b => notify_blocks (mkBlockEvent b BlockMined) (block_subs c) (block_boxes c)
    | _ => (block_subs c, block_boxes c)
    end in
  match process msg (state_machine c) with
  | Panic => mkBtcZmqClient subs (tx_subs c) (state_machine c) false (subscribing c) (tx_boxes c) boxes (next c) None
  | Val (sm, (diff, block_event)) =>
      mkBtcZmqClient subs (tx_subs c) sm (listening c) (subscribing c) (tx_boxes c) boxes (next c)
        (Some (next_stage diff block_event))
  end.

Definition send_block_event (block_event : BlockEvent) (diff : list TxEvent) (c : BtcZmqClient) : BtcZmqClient :=
  let '(subs, boxes) := notify_blocks block_event (block_subs c) (block_boxes c) in
  mkBtcZmqClient subs (tx_subs c) (state_machine c) (listening c) (subscribing c) (tx_boxes c) boxes (next c)
    (Some (ToTxs diff)).

Definition send_tx_events (diff : list TxEvent) (c : BtcZmqClient) : BtcZmqClient :=
  let '(subs, boxes, sm) := notify_txs diff (tx_subs c) (tx_boxes c) (state_machine c) in
  mkBtcZmqClient (block_subs c) subs sm (listening c) (subscribing c) boxes (block_boxes c) (next c) None.

(** [abort]; the lock of the state machine is released. *)
Definition stop (c : BtcZmqClient) : BtcZmqClient :=
  mkBtcZmqClient (block_subs c) (tx_subs c) (state_machine c) false (subscribing c) (tx_boxes c) (block_boxes c) (next c)
    (round c).

(** [subscribe_transactions], in two sections. *)
Definition subscribe_filter (f : Transaction → bool) (c : BtcZmqClient) : BtcZmqClient :=
  let details := mkTxSubscriptionDetails (mkTxPredicate (next c) f) (next c) in
  mkBtcZmqClient (block_subs c) (tx_subs c) (add_filter (state_machine c) (predicate details)) (listening c)
    (subscribing c ++ [details]) (<[next c := []]> (tx_boxes c)) (block_boxes c) (next c + 1) (round c).
Definition subscribe_push (id : N) (c : BtcZmqClient) : BtcZmqClient :=
  match list_find (λ d, outbox d = id) (subscribing c) with
  | Some (i, details) =>
      mkBtcZmqClient (block_subs c) (tx_subs c ++ [details]) (state_machine c) (listening c)
        (delete i (subscribing c)) (tx_boxes c) (block_boxes c) (next c) (round c)
  | None => c
  end.

Definition subscribe_blocks (c : BtcZmqClient) : BtcZmqClient :=
  mkBtcZmqClient (block_subs c ++ [next c]) (tx_subs c) (state_machine c) (listening c) (subscribing c)
    (tx_boxes c) (<[next c := []]> (block_boxes c)) (next c + 1) (round c).

(** What may happen: the sections of a round, which do not happen on a task that does not run; a section
    of a subscription, of which the first waits for the end of a round; the drop of a receiver; and
    the drop of a clone of the client, which aborts the task where it waits. *)
Inductive action :=
| Begin (msg : ZmqMessage)
| SendBlockEvent
| SendTxEvents
| SubscribeFilter (f : Transaction → bool)
| SubscribePush (id : N)
| SubscribeBlocks
| DropTx (id : N)
| DropBlocks (id : N)
| DropClient.

(** The message that an action begins a round with, if it can happen. *)
Definition begins (c : BtcZmqClient) (a : action) : option ZmqMessage :=
  match a, round c with Begin msg, None => if listening c then Some msg else None | _, _ => None end.

Definition act (c : BtcZmqClient) (a : action) : BtcZmqClient :=
  match a with
  | Begin _ => if begins c a is Some msg then begin msg c else c
  | SendBlockEvent =>
      match listening c, round c with true, Some (ToBlocks event diff) => send_block_event event diff c | _, _ => c end
  | SendTxEvents =>
      match listening c, round c with true, Some (ToTxs diff) => send_tx_events diff c | _, _ => c end
  | SubscribeFilter f => match listening c, round c with true, Some _ => c | _, _ => subscribe_filter f c end
  | SubscribePush id => subscribe_push id c
  | SubscribeBlocks => subscribe_blocks c
  | DropTx id =>
      mkBtcZmqClient (block_subs c) (tx_subs c) (state_machine c) (listening c) (subscribing c)
        (delete id (tx_boxes c)) (block_boxes c) (next c) (round c)
  | DropBlocks id =>
      mkBtcZmqClient (block_subs c) (tx_subs c) (state_machine c) (listening c) (subscribing c)
        (tx_boxes c) (delete id (block_boxes c)) (next c) (round c)
  | DropClient => stop c
  end.

(** [connect]. *)
Definition connect (bury_depth : nat) (unburied_blocks : list Block) : BtcZmqClient :=
  mkBtcZmqClient [] [] (init bury_depth unburied_blocks) true [] ∅ ∅ 0 None.

(** ** Specification *)

(** The events of transactions and of blocks that come of an action. *)
Definition announcement (msg : ZmqMessage) : list BlockEvent :=
  match msg with MsgBlock b => [mkBlockEvent b BlockMined] | _ => [] end.
Definition tx_emits (c : BtcZmqClient) (a : action) : list TxEvent :=
  match begins c a with
  | Some msg => match process msg (state_machine c) with Val (_, (diff, _)) => diff | Panic => [] end
  | None => []
  end.
Definition block_emits (c : BtcZmqClient) (a : action) : list BlockEvent :=
  match begins c a with
  | Some msg =>
      announcement msg ++ match process msg (state_machine c) with Val (_, (_, event)) => opt_list event | Panic => [] end
  | None => []
  end.

(** What a round has still to send. *)
Definition pending_txs (c : BtcZmqClient) : list TxEvent :=
  match round c with Some (ToBlocks _ diff) | Some (ToTxs diff) => diff | None => [] end.
Definition pending_blocks (c : BtcZmqClient) : list BlockEvent :=
  match round c with Some (ToBlocks event _) => [event] | _ => [] end.

Fixpoint emits {T} (f : BtcZmqClient → action → list T) (c : BtcZmqClient) (l : list action) : list T :=
  match l with [] => [] | a :: l => f c a ++ emits f (act c a) l end.

(** Every filter of the state machine is that of a subscriber, and every pointer and channel has its
    own name. *)
Record client_wf (c : BtcZmqClient) : Prop := {
  wf_filters : tx_filters (state_machine c) ≡ₚ predicate <$> (tx_subs c ++ subscribing c);
  wf_names : Forall (λ d, pred_ptr (predicate d) = outbox d) (tx_subs c ++ subscribing c);
  wf_distinct : NoDup (outbox <$> (tx_subs c ++ subscribing c));
  wf_next : Forall (λ d, outbox d < next c)%N (tx_subs c ++ subscribing c);
  wf_blocks : NoDup (block_subs c) ∧ Forall (λ id, id < next c)%N (block_subs c);
}.

(** ** Sending *)

Lemma send_all_spec {T} (boxes : Boxes T) outbox msgs :
  send_all boxes outbox msgs
  = match boxes !! outbox, msgs with
    | _, [] => Some boxes
    | Some l, _ => Some (<[outbox := l ++ msgs]> boxes)
    | None, _ :: _ => None
    end.
Proof.
  revert boxes. induction msgs as [|msg msgs IH]; intros boxes; cbn [send_all]; [by destruct (boxes !! outbox)|].
  unfold send. destruct (boxes !! outbox) as [l|]; [|done]. cbn. rewrite IH, lookup_insert_eq.
  destruct msgs; [done|]. by rewrite insert_insert_eq, <- app_assoc.
Qed.

Lemma notify_blocks_spec event subs boxes :
  NoDup subs →
  let '(subs', boxes') := notify_blocks event subs boxes in
  subs' `sublist_of` subs ∧
  (∀ id l, id ∈ subs → boxes !! id = Some l → id ∈ subs' ∧ boxes' !! id = Some (l ++ [event])) ∧
  ∀ id, id ∉ subs → boxes' !! id = boxes !! id.
Proof.
  revert boxes. induction subs as [|sub subs IH]; intros boxes Hnd; cbn [notify_blocks].
  { split_and!; [done|by intros id l []%elem_of_nil|done]. }
  apply NoDup_cons in Hnd as [Hsub Hnd]. unfold send. destruct (boxes !! sub) as [l0|] eqn:E; cbn.
  - specialize (IH (<[sub := l0 ++ [event]]> boxes) Hnd). destruct (notify_blocks _ _ _) as [subs' boxes'].
    destruct IH as (Hs & Hin & Hout). split_and!; [by constructor| |].
    + intros id l [->|Hid]%elem_of_cons Hl.
      * split; [left|]. rewrite Hout by done. rewrite lookup_insert_eq. congruence.
      * destruct (Hin id l Hid) as [? ?]; [by rewrite lookup_insert_ne by (intros ->; done)|]. split; [by right|done].
    + intros id [Hne Hid]%not_elem_of_cons. rewrite Hout by done. by rewrite lookup_insert_ne.
  - specialize (IH boxes Hnd). destruct (notify_blocks _ _ _) as [subs' boxes'].
    destruct IH as (Hs & Hin & Hout). split_and!; [by apply sublist_cons| |].
    + intros id l [->|Hid]%elem_of_cons Hl; [congruence|auto].
    + intros id [Hne Hid]%not_elem_of_cons. auto.
Qed.

Lemma swap_remove_perm {A} (l : list A) i x : l !! i = Some x → l ≡ₚ x :: swap_remove l i.
Proof.
  intros Hi. unfold swap_remove. destruct (last l) as [y|] eqn:El; [|by apply last_None in El as ->].
  apply last_Some in El as [l0 ->]. rewrite length_app. cbn [length]. rewrite Nat.add_sub.
  apply lookup_app_Some in Hi as [Hi|[Hge Hi]].
  - rewrite insert_app_l by (by eapply lookup_lt_Some). rewrite take_app_length' by (by rewrite length_insert).
    rewrite <- (take_drop_middle _ _ _ Hi) at 1. rewrite insert_take_drop by (by eapply lookup_lt_Some). solve_Permutation.
  - apply list_lookup_singleton_Some in Hi as [Hi ->]. assert (i = length l0) as -> by lia.
    rewrite insert_app_r_alt, Nat.sub_diag by done. cbn. rewrite take_app_length. solve_Permutation.
Qed.

(** A filter that is named once is the one that is removed. *)
Lemma rm_filter_perm sm pred l :
  tx_filters sm ≡ₚ pred :: l → pred_ptr pred ∉ pred_ptr <$> l → tx_filters (rm_filter sm pred) ≡ₚ l.
Proof.
  intros Hp Hnew. unfold rm_filter. destruct (list_find _ _) as [[i p]|] eqn:E.
  - apply list_find_Some in E as (Hi & Hptr & _). cbn. assert (p = pred) as ->.
    { assert (p ∈ pred :: l) as [|Hin]%elem_of_cons by (rewrite <- Hp; by eapply list_elem_of_lookup_2); [done|].
      exfalso. apply Hnew. rewrite <- Hptr. by apply list_elem_of_fmap_2. }
    apply (Permutation_cons_inv (a := pred)). rewrite <- Hp. symmetry. by apply swap_remove_perm.
  - exfalso. apply list_find_None in E. rewrite Hp in E. by apply Forall_cons in E as [? _].
Qed.

Lemma notify_txs_spec diff subs rest boxes sm :
  NoDup (outbox <$> (subs ++ rest)) → Forall (λ d, pred_ptr (predicate d) = outbox d) (subs ++ rest) →
  tx_filters sm ≡ₚ predicate <$> (subs ++ rest) →
  let '(subs', boxes', sm') := notify_txs diff subs boxes sm in
  subs' `sublist_of` subs ∧ tx_filters sm' ≡ₚ predicate <$> (subs' ++ rest) ∧
  (∀ sub l, sub ∈ subs → boxes !! outbox sub = Some l →
    sub ∈ subs' ∧ boxes' !! outbox sub = Some (l ++ for_subscriber sub diff)) ∧
  ∀ id, id ∉ outbox <$> subs → boxes' !! id = boxes !! id.
Proof.
  revert rest boxes sm. induction subs as [|sub subs IH]; intros rest boxes sm Hnd Hnames Hf; cbn [notify_txs].
  { split_and!; [done|done|by intros sub l []%elem_of_nil|done]. }
  assert (sub :: subs ++ rest ≡ₚ subs ++ sub :: rest) as Hmove by solve_Permutation. cbn [app] in Hnd, Hnames, Hf.
  rewrite send_all_spec.
  assert (outbox sub ∉ outbox <$> subs ++ rest) as Hfresh by (by apply NoDup_cons in Hnd as [? _]).
  destruct (match boxes !! outbox sub with Some _ => _ | None => _ end) as [boxes1|] eqn:Es.
  - specialize (IH (sub :: rest) boxes1 sm). rewrite <- Hmove in IH. specialize (IH Hnd Hnames Hf).
    destruct (notify_txs _ _ _ _) as [[subs' boxes'] sm']. destruct IH as (Hs & Hf' & Hin & Hout).
    assert (∀ id, id ≠ outbox sub → boxes1 !! id = boxes !! id) as Hother.
    { intros id Hne. repeat case_match; simplify_eq; try done; by rewrite lookup_insert_ne. }
    assert (outbox sub ∉ outbox <$> subs) as Hsub by (rewrite fmap_app, not_elem_of_app in Hfresh; by destruct Hfresh).
    split_and!; [by apply sublist_skip|rewrite Hf'; apply fmap_Permutation; cbn; solve_Permutation| |].
    + intros d l [->|Hd]%elem_of_cons Hl.
      * split; [left|]. rewrite Hout by done. rewrite Hl in Es. destruct (for_subscriber sub diff); simplify_eq.
        -- by rewrite app_nil_r.
        -- by rewrite lookup_insert_eq.
      * destruct (Hin d l Hd) as [? ?]; [|by split; [right|]]. rewrite Hother; [done|]. intros Heq. apply Hsub.
        rewrite <- Heq. by apply list_elem_of_fmap_2.
    + intros id [Hne Hid]%not_elem_of_cons. rewrite Hout by done. by apply Hother.
  - apply NoDup_cons in Hnd as [_ Hnd]. apply Forall_cons in Hnames as [Hname Hnames].
    specialize (IH rest boxes (rm_filter sm (predicate sub)) Hnd Hnames).
    destruct (notify_txs _ _ _ _) as [[subs' boxes'] sm']. destruct IH as (Hs & Hf' & Hin & Hout).
    { apply rm_filter_perm; [exact Hf|]. rewrite Hname, <- list_fmap_compose. intros (d & Hd & Hdin)%list_elem_of_fmap.
      apply Hfresh. rewrite Hd. cbn. rewrite Forall_forall in Hnames. rewrite (Hnames d Hdin). by apply list_elem_of_fmap_2. }
    split_and!; [by apply sublist_cons|done| |].
    + intros d l [->|Hd]%elem_of_cons Hl; [by rewrite Hl in Es; destruct (for_subscriber sub diff)|auto].
    + intros id [Hne Hid]%not_elem_of_cons. auto.
Qed.

(** ** Actions *)

Lemma process_filters msg sm sm' out : process msg sm = Val (sm', out) → tx_filters sm' = tx_filters sm.
Proof.
  destruct msg as [| |b|tx|seq| |]; cbn [process]; try (by intros [= <- _]).
  - unfold process_block. intros (queue & _ & E)%comp_bind_Val. apply comp_bind_Val in E as (b' & _ & E).
    apply comp_bind_Val in E as ([lifecycles diff] & _ & E).
    destruct (decide _); [|by injection E as <- _]. destruct (last queue); [|done].
    destruct (foldl _ _ _). by injection E as <- _.
  - unfold process_tx. repeat case_match; simplify_eq; by intros [= <- _].
  - unfold process_sequence. destruct seq.
    + by intros [= <- _].
    + intros ([queue evt] & _ & E)%comp_bind_Val. by injection E as <- _.
    + repeat case_match; try done; by intros [= <- _].
    + repeat case_match; by intros [= <- _].
Qed.

(** The same names, in another order or fewer of them. *)
Lemma wf_fewer c c' :
  client_wf c → tx_subs c' ++ subscribing c' ⊆+ tx_subs c ++ subscribing c →
  block_subs c' `sublist_of` block_subs c → next c' = next c →
  tx_filters (state_machine c') ≡ₚ predicate <$> (tx_subs c' ++ subscribing c') → client_wf c'.
Proof.
  intros [Hf Hn Hd Hx [Hb Hbx]] [k Hk]%submseteq_Permutation Hbs Enext Hf'. rewrite Hk in Hn, Hd, Hx.
  apply Forall_app in Hn as [Hn _], Hx as [Hx _]. rewrite fmap_app in Hd. apply NoDup_app in Hd as [Hd _].
  split; [done..| |]; rewrite Enext; [done|]. split; [by eapply sublist_NoDup|].
  apply sublist_submseteq, submseteq_Permutation in Hbs as [k' Hk']. rewrite Hk' in Hbx. by apply Forall_app in Hbx as [? _].
Qed.

Lemma begin_spec msg c :
  client_wf c → round c = None →
  client_wf (begin msg c) ∧
  (∀ id l, id ∈ block_subs c → block_boxes c !! id = Some l →
    id ∈ block_subs (begin msg c) ∧ block_boxes (begin msg c) !! id = Some (l ++ announcement msg)) ∧
  tx_subs (begin msg c) = tx_subs c ∧ tx_boxes (begin msg c) = tx_boxes c ∧ subscribing (begin msg c) = subscribing c ∧
  (pending_txs (begin msg c), pending_blocks (begin msg c)) =
    match process msg (state_machine c) with Val (_, (diff, event)) => (diff, opt_list event) | Panic => ([], []) end.
Proof.
  intros Hwf Hr. pose proof Hwf as [Hf _ _ _ [Hb _]]. unfold begin.
  destruct (match msg with MsgBlock _ => _ | _ => _ end) as [subs boxes] eqn:Es.
  assert (subs `sublist_of` block_subs c ∧ ∀ id l, id ∈ block_subs c → block_boxes c !! id = Some l →
    id ∈ subs ∧ boxes !! id = Some (l ++ announcement msg)) as [Hsub Hin].
  { destruct msg as [| |b|tx|seq| |]; try (injection Es as <- <-; split; [done|]; intros; by rewrite app_nil_r).
    pose proof (notify_blocks_spec (mkBlockEvent b BlockMined) (block_subs c) (block_boxes c) Hb) as Hs.
    rewrite Es in Hs. destruct Hs as (? & ? & _). by split. }
  destruct (process msg (state_machine c)) as [[sm [diff evt]]|] eqn:Ep.
  - pose proof (process_filters _ _ _ _ Ep) as Ef. split_and!; [|done..|by destruct evt].
    apply (wf_fewer c); [done..|]. cbn. by rewrite Ef.
  - split_and!; [|done..]. by apply (wf_fewer c).
Qed.

Lemma send_block_event_spec event diff c :
  client_wf c →
  client_wf (send_block_event event diff c) ∧
  (∀ id l, id ∈ block_subs c → block_boxes c !! id = Some l →
    id ∈ block_subs (send_block_event event diff c) ∧
    block_boxes (send_block_event event diff c) !! id = Some (l ++ [event])) ∧
  tx_subs (send_block_event event diff c) = tx_subs c ∧ tx_boxes (send_block_event event diff c) = tx_boxes c ∧
  subscribing (send_block_event event diff c) = subscribing c ∧ round (send_block_event event diff c) = Some (ToTxs diff) ∧
  listening (send_block_event event diff c) = listening c.
Proof.
  intros Hwf. pose proof Hwf as [Hf _ _ _ [Hb _]]. unfold send_block_event.
  pose proof (notify_blocks_spec event (block_subs c) (block_boxes c) Hb) as Hs.
  destruct (notify_blocks _ _ _) as [subs boxes]. destruct Hs as (Hs & Hin & _). by split_and!; [by apply (wf_fewer c)|..].
Qed.

Lemma send_tx_events_spec diff c :
  client_wf c →
  client_wf (send_tx_events diff c) ∧
  (∀ sub l, sub ∈ tx_subs c → tx_boxes c !! outbox sub = Some l →
    sub ∈ tx_subs (send_tx_events diff c) ∧
    tx_boxes (send_tx_events diff c) !! outbox sub = Some (l ++ for_subscriber sub diff)) ∧
  (∀ id, id ∉ outbox <$> tx_subs c → tx_boxes (send_tx_events diff c) !! id = tx_boxes c !! id) ∧
  block_subs (send_tx_events diff c) = block_subs c ∧ block_boxes (send_tx_events diff c) = block_boxes c ∧
  subscribing (send_tx_events diff c) = subscribing c ∧ round (send_tx_events diff c) = None.
Proof.
  intros Hwf. pose proof Hwf as [Hf Hn Hd Hx _]. unfold send_tx_events.
  pose proof (notify_txs_spec diff (tx_subs c) (subscribing c) (tx_boxes c) (state_machine c) Hd Hn Hf) as Ht.
  destruct (notify_txs _ _ _ _) as [[ts' tb'] sm']. destruct Ht as (Hts & Hf' & Hin & Hout).
  split_and!; try done. apply (wf_fewer c); [done| |done|done|done]. apply submseteq_skips_r. by apply sublist_submseteq.
Qed.

Lemma begins_Some c a msg : begins c a = Some msg → a = Begin msg ∧ round c = None ∧ listening c = true.
Proof. unfold begins. destruct a, (round c), (listening c); try done. by intros [= ->]. Qed.

Lemma subscribe_filter_wf f c : client_wf c → client_wf (subscribe_filter f c).
Proof.
  intros [Hf Hn Hd Hx [Hb Hbx]]. assert (∀ x, x < next c → x < next c + 1)%N as Hlt by lia.
  split; cbn [subscribe_filter tx_subs subscribing state_machine add_filter tx_filters next block_subs];
    rewrite ?app_assoc.
  - rewrite Hf, (fmap_app _ (tx_subs c ++ subscribing c) [_]). done.
  - apply Forall_app. by split; [|apply Forall_singleton].
  - rewrite fmap_app. apply NoDup_app. split_and!; [done| |apply NoDup_singleton].
    intros x (d & -> & Hd')%list_elem_of_fmap Heq%list_elem_of_singleton. rewrite Forall_forall in Hx.
    specialize (Hx d Hd'). cbn in Hx, Heq. lia.
  - apply Forall_app. split; [|apply Forall_singleton; cbn; lia]. eapply Forall_impl; [exact Hx|]. cbn. lia.
  - split; [done|]. eapply Forall_impl; [exact Hbx|]. cbn. lia.
Qed.

Lemma subscribe_blocks_wf c : client_wf c → client_wf (subscribe_blocks c).
Proof.
  intros [Hf Hn Hd Hx [Hb Hbx]]. split; cbn; try done.
  - eapply Forall_impl; [exact Hx|]. cbn. lia.
  - split.
    + apply NoDup_app. split_and!; [done| |apply NoDup_singleton]. intros x Hx' ->%list_elem_of_singleton.
      rewrite Forall_forall in Hbx. specialize (Hbx _ Hx'). cbn in Hbx. lia.
    + apply Forall_app. split; [|apply Forall_singleton; cbn; lia]. eapply Forall_impl; [exact Hbx|]. cbn. lia.
Qed.

Lemma act_wf c a : client_wf c → client_wf (act c a).
Proof.
  intros Hwf. destruct a as [msg| | |f|id| |id|id|]; cbn [act].
  - destruct (begins c _) as [msg'|] eqn:E; [|done]. apply begins_Some in E as (_ & Hr & _). by apply begin_spec.
  - destruct (listening c), (round c) as [[]|]; try done. by apply send_block_event_spec.
  - destruct (listening c), (round c) as [[]|]; try done. by apply send_tx_events_spec.
  - destruct (listening c), (round c); try done; by apply subscribe_filter_wf.
  - unfold subscribe_push. destruct (list_find _ _) as [[i d]|] eqn:E; [|done].
    apply list_find_Some in E as (Hi & _ & _).
    assert (tx_subs c ++ subscribing c ≡ₚ (tx_subs c ++ [d]) ++ delete i (subscribing c)) as Hp.
    { rewrite <- app_assoc. cbn. by rewrite <- (delete_Permutation _ _ _ Hi). }
    apply (wf_fewer c); [done| |done|done|]; cbn [tx_subs subscribing state_machine]; rewrite <- Hp; [done|apply Hwf].
  - by apply subscribe_blocks_wf.
  - by apply (wf_fewer c); [..|by destruct Hwf].
  - by apply (wf_fewer c); [..|by destruct Hwf].
  - by apply (wf_fewer c); [..|by destruct Hwf].
Qed.

Lemma for_subscriber_app sub d1 d2 : for_subscriber sub (d1 ++ d2) = for_subscriber sub d1 ++ for_subscriber sub d2.
Proof. apply List.filter_app. Qed.

(** A subscriber stays listed, and what it got and what the round still has for it are, in this
    order, what the round had for it and these events. *)
Definition serves_tx (sub : TxSubscriptionDetails) (c c' : BtcZmqClient) (events : list TxEvent) : Prop :=
  ∀ l, sub ∈ tx_subs c → tx_boxes c !! outbox sub = Some l →
    sub ∈ tx_subs c' ∧ ∃ got, tx_boxes c' !! outbox sub = Some (l ++ got) ∧
      got ++ for_subscriber sub (pending_txs c') = for_subscriber sub (pending_txs c ++ events).
Definition serves_blocks (id : N) (c c' : BtcZmqClient) (events : list BlockEvent) : Prop :=
  ∀ l, id ∈ block_subs c → block_boxes c !! id = Some l →
    id ∈ block_subs c' ∧ ∃ got, block_boxes c' !! id = Some (l ++ got) ∧
      got ++ pending_blocks c' = pending_blocks c ++ events.

Lemma serves_tx_idle sub c c' :
  (sub ∈ tx_subs c → sub ∈ tx_subs c' ∧ tx_boxes c' !! outbox sub = tx_boxes c !! outbox sub) →
  pending_txs c' = pending_txs c → serves_tx sub c c' [].
Proof.
  intros Hc Hp l Hin Hl. destruct (Hc Hin) as [Hin' Hb]. split; [done|]. exists []. by rewrite Hb, Hp, !app_nil_r.
Qed.
Lemma serves_blocks_idle id c c' :
  (id ∈ block_subs c → id ∈ block_subs c' ∧ block_boxes c' !! id = block_boxes c !! id) →
  pending_blocks c' = pending_blocks c → serves_blocks id c c' [].
Proof.
  intros Hc Hp l Hin Hl. destruct (Hc Hin) as [Hin' Hb]. split; [done|]. exists []. by rewrite Hb, Hp, !app_nil_r.
Qed.

Lemma serves_tx_trans sub c1 c2 c3 e1 e2 : serves_tx sub c1 c2 e1 → serves_tx sub c2 c3 e2 → serves_tx sub c1 c3 (e1 ++ e2).
Proof.
  intros H1 H2 l Hin Hl. destruct (H1 l Hin Hl) as (Hin2 & got1 & Hl2 & E1).
  destruct (H2 _ Hin2 Hl2) as (Hin3 & got2 & Hl3 & E2). split; [done|]. exists (got1 ++ got2). split; [by rewrite app_assoc|].
  rewrite <- app_assoc, E2, !for_subscriber_app, app_assoc, E1, for_subscriber_app. by rewrite <- app_assoc.
Qed.
Lemma serves_blocks_trans id c1 c2 c3 e1 e2 :
  serves_blocks id c1 c2 e1 → serves_blocks id c2 c3 e2 → serves_blocks id c1 c3 (e1 ++ e2).
Proof.
  intros H1 H2 l Hin Hl. destruct (H1 l Hin Hl) as (Hin2 & got1 & Hl2 & E1).
  destruct (H2 _ Hin2 Hl2) as (Hin3 & got2 & Hl3 & E2). split; [done|]. exists (got1 ++ got2). split; [by rewrite app_assoc|].
  by rewrite <- app_assoc, E2, !app_assoc, E1.
Qed.

Lemma act_serves_tx c a sub : client_wf c → a ≠ DropTx (outbox sub) → serves_tx sub c (act c a) (tx_emits c a).
Proof.
  intros Hwf Ha. unfold tx_emits. destruct (begins c a) as [msg|] eqn:E.
  { pose proof E as (-> & Hr & _)%begins_Some. cbn [act]. rewrite E.
    destruct (begin_spec msg c Hwf Hr) as (_ & _ & Hs & Hb & _ & Hp). intros l Hin Hl. rewrite Hs, Hb. split; [done|].
    exists []. rewrite app_nil_r. split; [done|]. unfold pending_txs at 2. rewrite Hr. apply (f_equal fst) in Hp. cbn [fst] in Hp.
    rewrite Hp. cbn. by destruct (process msg _) as [[? []]|]. }
  destruct a as [msg| | |f|id| |id|id|]; cbn [act].
  - rewrite E. by apply serves_tx_idle.
  - destruct (listening c), (round c) as [[evt diff|]|] eqn:Hr; try (by apply serves_tx_idle).
    destruct (send_block_event_spec evt diff c Hwf) as (_ & _ & Hs & Hb & _ & Hr' & _).
    apply serves_tx_idle; [by rewrite Hs, Hb|]. unfold pending_txs. by rewrite Hr', Hr.
  - destruct (listening c), (round c) as [[|diff]|] eqn:Hr; try (by apply serves_tx_idle).
    destruct (send_tx_events_spec diff c Hwf) as (_ & Ht & _ & _ & _ & _ & Hr'). intros l Hin Hl.
    destruct (Ht sub l Hin Hl) as [Hin' Hl']. split; [done|]. exists (for_subscriber sub diff). split; [done|].
    unfold pending_txs. by rewrite Hr', Hr, !app_nil_r.
  - assert (serves_tx sub c (subscribe_filter f c) []) as Hs; [|by destruct (listening c), (round c); [apply serves_tx_idle|..]].
    apply serves_tx_idle; [|done]. intros Hin. split; [done|]. cbn. rewrite lookup_insert_ne; [done|]. intros Heq.
    destruct Hwf as [_ _ _ Hx _]. apply Forall_app in Hx as [Hx _]. rewrite Forall_forall in Hx. specialize (Hx sub Hin).
    cbn in Hx. lia.
  - unfold subscribe_push. destruct (list_find _ _) as [[i d]|]; [|by apply serves_tx_idle].
    apply serves_tx_idle; [|done]. intros Hin. split; [|done]. apply elem_of_app. by left.
  - by apply serves_tx_idle.
  - apply serves_tx_idle; [|done]. intros Hin. split; [done|]. cbn. rewrite lookup_delete_ne; [done|]. by intros ->.
  - by apply serves_tx_idle.
  - by apply serves_tx_idle.
Qed.

Lemma act_serves_blocks c a id : client_wf c → a ≠ DropBlocks id → serves_blocks id c (act c a) (block_emits c a).
Proof.
  intros Hwf Ha. unfold block_emits. destruct (begins c a) as [msg|] eqn:E.
  { pose proof E as (-> & Hr & _)%begins_Some. cbn [act]. rewrite E.
    destruct (begin_spec msg c Hwf Hr) as (_ & Hb & _ & _ & _ & Hp). intros l Hin Hl.
    destruct (Hb id l Hin Hl) as [Hin' Hl']. split; [done|]. exists (announcement msg). split; [done|].
    unfold pending_blocks at 2. rewrite Hr. apply (f_equal snd) in Hp. cbn [snd] in Hp. rewrite Hp. cbn.
    by destruct (process msg _) as [[? []]|]. }
  destruct a as [msg| | |f|id'| |id'|id'|]; cbn [act].
  - rewrite E. by apply serves_blocks_idle.
  - destruct (listening c), (round c) as [[evt diff|]|] eqn:Hr; try (by apply serves_blocks_idle).
    destruct (send_block_event_spec evt diff c Hwf) as (_ & Hb & _ & _ & _ & Hr' & _). intros l Hin Hl.
    destruct (Hb id l Hin Hl) as [Hin' Hl']. split; [done|]. exists [evt]. split; [done|].
    unfold pending_blocks. by rewrite Hr', Hr.
  - destruct (listening c), (round c) as [[|diff]|] eqn:Hr; try (by apply serves_blocks_idle).
    destruct (send_tx_events_spec diff c Hwf) as (_ & _ & _ & Hs & Hb & _ & Hr').
    apply serves_blocks_idle; [by rewrite Hs, Hb|]. unfold pending_blocks. by rewrite Hr', Hr.
  - destruct (listening c), (round c); by apply serves_blocks_idle.
  - unfold subscribe_push. destruct (list_find _ _) as [[i d]|]; by apply serves_blocks_idle.
  - apply serves_blocks_idle; [|done]. intros Hin. split; [apply elem_of_app; by left|]. cbn.
    rewrite lookup_insert_ne; [done|]. intros Heq. destruct Hwf as [_ _ _ _ [_ Hx]]. rewrite Forall_forall in Hx.
    specialize (Hx id Hin). cbn in Hx. lia.
  - by apply serves_blocks_idle.
  - apply serves_blocks_idle; [|done]. intros Hin. split; [done|]. cbn. rewrite lookup_delete_ne; [done|]. by intros ->.
  - by apply serves_blocks_idle.
Qed.

(** A task that was stopped stays so. *)
Lemma act_stopped c a : listening c = false → listening (act c a) = false ∧ begins c a = None.
Proof.
  intros Hl. assert (begins c a = None) as Hb by (unfold begins; destruct a, (round c); by rewrite ?Hl). split; [|done].
  destruct a; cbn [act]; rewrite ?Hb, ?Hl; try done. unfold subscribe_push. by destruct (list_find _ _) as [[]|].
Qed.

Lemma stopped_silent c l : listening c = false → listening (foldl act c l) = false ∧ emits tx_emits c l = [] ∧ emits block_emits c l = [].
Proof.
  revert c. induction l as [|a l IH]; intros c Hl; [done|]. destruct (act_stopped c a Hl) as [Hl' Hb].
  cbn [emits foldl]. unfold tx_emits at 1, block_emits at 1. rewrite Hb. by apply IH.
Qed.

(** C37: Subscribers are served as long as the task runs.  After any sequence of actions of the node, the
    subscribers and the owners of the client, a subscriber whose receiver was not dropped is still
    listed.  A subscriber to transactions has received, in their order, exactly the events that the state
    machine emitted since it was listed and that match its predicate, and a subscriber to blocks all blocks
    that were announced, buried or uncled since it was listed, except what the current round has still to
    send.  A task that runs can send the rest at once.  Once a task is stopped, which dropping any clone of
    the client does, the rest of its round is lost for all subscribers and no event is emitted again.
    And the filters of the state machine are always those of the subscribers, with those that are being
    added. *)
Theorem subscribers_served bury_depth unburied_blocks before actions :
  let c := foldl act (connect bury_depth unburied_blocks) before in
  let c' := foldl act c actions in
  tx_filters (state_machine c') ≡ₚ predicate <$> (tx_subs c' ++ subscribing c') ∧
  (∀ sub l, sub ∈ tx_subs c → tx_boxes c !! outbox sub = Some l → DropTx (outbox sub) ∉ actions →
    sub ∈ tx_subs c' ∧ ∃ got, tx_boxes c' !! outbox sub = Some (l ++ got) ∧
      got ++ for_subscriber sub (pending_txs c') = for_subscriber sub (pending_txs c ++ emits tx_emits c actions)) ∧
  (∀ id l, id ∈ block_subs c → block_boxes c !! id = Some l → DropBlocks id ∉ actions →
    id ∈ block_subs c' ∧ ∃ got, block_boxes c' !! id = Some (l ++ got) ∧
      got ++ pending_blocks c' = pending_blocks c ++ emits block_emits c actions) ∧
  (listening c' = true → round (foldl act c' [SendBlockEvent; SendTxEvents]) = None) ∧
  (DropClient ∈ actions → listening c' = false) ∧
  (listening c' = false → ∀ more, emits tx_emits c' more = [] ∧ emits block_emits c' more = []).
Proof.
  intros c. assert (client_wf c) as Hwf.
  { unfold c. assert (client_wf (connect bury_depth unburied_blocks)) as Hstart by (split; [done|..]; repeat constructor).
    revert Hstart. generalize (connect bury_depth unburied_blocks). induction before as [|a before IH]; intros c0 Hstart; [done|].
    apply IH. by apply act_wf. }
  clearbody c. intros c'.
  assert (client_wf c' ∧ (∀ sub, DropTx (outbox sub) ∉ actions → serves_tx sub c c' (emits tx_emits c actions)) ∧
    (∀ id, DropBlocks id ∉ actions → serves_blocks id c c' (emits block_emits c actions)) ∧
    (DropClient ∈ actions → listening c' = false)) as (Hwf' & Ht & Hb & Hd).
  { unfold c'. clear c'. revert c Hwf. induction actions as [|a actions IH]; intros c Hwf.
    { split_and!; [done|by intros; apply serves_tx_idle|by intros; apply serves_blocks_idle|by intros []%elem_of_nil]. }
    destruct (IH (act c a) (act_wf c a Hwf)) as (? & Ht & Hb & Hd). cbn [foldl emits]. split_and!; [done|..].
    - intros sub [Ha Hn]%not_elem_of_cons. eapply serves_tx_trans; [by apply act_serves_tx|by apply Ht].
    - intros id [Ha Hn]%not_elem_of_cons. eapply serves_blocks_trans; [by apply act_serves_blocks|by apply Hb].
    - intros [<-|Hin]%elem_of_cons; [|by apply Hd]. by destruct (stopped_silent (act c DropClient) actions eq_refl). }
  split_and!; [apply Hwf'|intros; by apply Ht|intros; by apply Hb| |done|].
  - intros Hl. cbn [foldl]. assert (∀ x diff, listening x = true → round x = Some (ToTxs diff) → client_wf x →
      round (act x SendTxEvents) = None) as Hlast.
    { intros x diff Hx Hr Hw. cbn. rewrite Hx, Hr. by apply send_tx_events_spec. }
    cbn [act] in *. rewrite Hl. destruct (round c') as [[evt diff|diff]|] eqn:Hr; [|by rewrite Hl, Hr; apply send_tx_events_spec|by rewrite Hl, Hr].
    destruct (send_block_event_spec evt diff c' Hwf') as (Hw & _ & _ & _ & _ & Hr' & Hl'). eapply (Hlast _ diff); [congruence|done..].
  - intros Hl more. by destruct (stopped_silent c' more Hl).
Qed.

(** Where events are lost: what the state machine emits between the two sections of a subscription, to
    the filter that was added, does not reach the new subscriber; and a round is not finished by a task that
    is stopped, be it that a clone of the client is dropped or that the state machine panics. *)
Theorem subscription_gaps :
  (∀ c f msg, client_wf c → listening c = true → round c = None →
    process msg (add_filter (state_machine c) (mkTxPredicate (next c) f)) ≠ Panic →
    let c' := foldl act c [SubscribeFilter f; Begin msg; SendBlockEvent; SendTxEvents; SubscribePush (next c)] in
    mkTxSubscriptionDetails (mkTxPredicate (next c) f) (next c) ∈ tx_subs c' ∧ tx_boxes c' !! next c = Some []) ∧
  (∀ c, foldl act (act c DropClient) [SendBlockEvent; SendTxEvents] = act c DropClient) ∧
  (∀ c msg, listening c = true → round c = None → process msg (state_machine c) = Panic →
    listening (act c (Begin msg)) = false).
Proof.
  split_and!.
  - intros c f msg Hwf Hl Hr Hp c'. set (c1 := subscribe_filter f c).
    assert (client_wf c1) as Hwf1 by by apply subscribe_filter_wf.
    destruct (begin_spec msg c1 Hwf1 Hr) as (Hwf2 & _ & Hs2 & Hb2 & Hg2 & _). set (c2 := begin msg c1) in *.
    assert (listening c2 = true ∧ is_Some (round c2)) as [Hl2 [st Hr2]].
    { unfold c2, begin. destruct (match msg with MsgBlock _ => _ | _ => _ end). cbn [state_machine c1 subscribe_filter].
      destruct (process msg _) as [[? []]|]; [|done]. cbn. by rewrite Hl. }
    assert (∃ c3, foldl act c2 [SendBlockEvent; SendTxEvents] = c3 ∧ subscribing c3 = subscribing c1 ∧
      ∀ id, id ∉ outbox <$> tx_subs c1 → tx_boxes c3 !! id = tx_boxes c1 !! id) as (c3 & E3 & Hg3 & Hout).
    { eexists. split; [done|]. cbn [foldl]. change (act c2 SendBlockEvent) with
        (match listening c2, round c2 with true, Some (ToBlocks event diff) => send_block_event event diff c2 | _, _ => c2 end).
      rewrite Hl2, Hr2. destruct st as [evt diff|diff]; cbn [act].
      - destruct (send_block_event_spec evt diff c2 Hwf2) as (Hw & _ & Hs & Hb & Hg & Hr' & Hl').
        rewrite Hl', Hl2, Hr'. destruct (send_tx_events_spec diff _ Hw) as (_ & _ & Ho & _ & _ & Hg' & _).
        split; [congruence|]. intros id Hid. rewrite Ho by (by rewrite Hs, Hs2). by rewrite Hb, Hb2.
      - rewrite Hl2, Hr2. destruct (send_tx_events_spec diff _ Hwf2) as (_ & _ & Ho & _ & _ & Hg' & _).
        split; [congruence|]. intros id Hid. rewrite Ho by (by rewrite Hs2). by rewrite Hb2. }
    assert (c' = subscribe_push (next c) c3) as ->.
    { unfold c'. rewrite <- E3. cbn [foldl]. change (act c (SubscribeFilter f)) with
        (match listening c, round c with true, Some _ => c | _, _ => subscribe_filter f c end). rewrite Hl, Hr. fold c1.
      assert (act c1 (Begin msg) = c2) as -> by (cbn; by rewrite Hr, Hl). done. }
    destruct Hwf as [_ _ _ Hx _]. rewrite Forall_app, !Forall_forall in Hx. destruct Hx as [Hxt Hxs].
    unfold subscribe_push. rewrite Hg3. cbn [c1 subscribe_filter subscribing]. set (d := mkTxSubscriptionDetails _ _).
    destruct (list_find _ _) as [[i d']|] eqn:E.
    + apply list_find_Some in E as (Hi & Hd & _). cbn [tx_subs tx_boxes]. split.
      * apply elem_of_app. right. apply list_elem_of_singleton. apply lookup_app_Some in Hi as [Hi|[_ Hi]].
        -- apply list_elem_of_lookup_2 in Hi. specialize (Hxs d' Hi). cbn in Hxs. lia.
        -- by apply list_lookup_singleton_Some in Hi as [_ ->].
      * rewrite Hout; [cbn; by rewrite lookup_insert_eq|]. cbn.
        intros (d1 & Hd1 & Hin)%list_elem_of_fmap. specialize (Hxt d1 Hin). cbn in Hxt. lia.
    + exfalso. apply list_find_None in E. apply Forall_app in E as [_ E]. by inversion_clear E.
  - done.
  - intros c msg Hl Hr Hp. cbn. rewrite Hl, Hr. unfold begin. rewrite Hp. by destruct (match msg with MsgBlock _ => _ | _ => _ end).
Qed.

End client.

(** ** Example *)

Section example.
#[local] Existing Instance example_lib.
#[local] Instance example_debug : BuildProfile := true.

(** A block with a matching transaction, after a subscription, in the middle of one, and when a clone of
    the client is dropped in the middle of the round. *)
Lemma gap_example :
  let start := [Begin (MsgBlock (example_block 2))] in
  let send := [SendBlockEvent; SendTxEvents] in
  let subscribe := [SubscribeFilter (pred_fn even_filter)] in
  let after l := foldl act (connect 2 []) l in
  let box l := tx_boxes (after l) !! 0%N in
  length <$> box (subscribe ++ [SubscribePush 0] ++ start ++ send) = Some 1 ∧
  length (emits tx_emits (after subscribe) (start ++ send)) = 1 ∧
  length <$> box (subscribe ++ start ++ send ++ [SubscribePush 0]) = Some 0 ∧
  length <$> box (subscribe ++ [SubscribePush 0] ++ start ++ [DropClient] ++ send) = Some 0.
Proof. vm_compute. done. Qed.

End example.
