(* ===== verification/BridgeIn.v ===== *)
(** * Bridging in ([dev-cli/src/handlers/bridge_in.rs] and [wallet.rs])

    The command of a user who bridges in: it publishes a request to deposit, with a wallet that
    funds and signs it.  The theorem composes it with what the nodes make of the request
    ([bridge_in_accepted]). *)

From S2P Require Import Prelude Bitcoin Database OperatorTable PogMusig Winternitz Wots TxTypes Taproot Deposit Predicates.
From S2P Require Import Connectors StakeChain PegOutGraph ContractTypes RpcServer Challenger.

(** ** The wallet *)

(** [bitcoind]'s wallet: [Funded] is a transaction that it funded, [None] an error. *)
Class FunderLib := {
  Funded : Type;
  (** A new address; the inner [None] is one of another network. *)
  get_change_address : option (option ScriptBuf);
  (** [walletcreatefundedpsbt] with these outputs, this address for the change and its position. *)
  walletcreatefundedpsbt : list TxOut → ScriptBuf → nat → option Funded;
  wallet_process_psbt : Funded → option Funded;
  (** The inner [None] is a transaction that is not complete. *)
  finalize_psbt : Funded → option (option Transaction);
  send_raw : Transaction → bool;
}.

(** The wallet keeps the outputs it is asked for and their order, and inserts the change, if there is
    any, at the position it is asked for; without a position it would choose one at random. *)
Class FunderLaws `{FunderLib} : Prop := {
  funded_outputs : ∀ outs change position p p' tx, walletcreatefundedpsbt outs change position = Some p →
    wallet_process_psbt p = Some p' → finalize_psbt p' = Some (Some tx) →
    ∃ rest, length rest ≤ 1 ∧ output tx = take position outs ++ rest ++ drop position outs;
}.

(** ** The command *)

Section bridge_in.
Context `{FunderLib, RpcLib, KeyAggLib, ScriptLib, TaprootLib, DepositLib}.

(** The metadata goes into an output of its own, which the wallet makes of the key "data".  The amount
    is passed as a number of bitcoins, which the node reads back exactly up to the money supply. *)
Definition create_drt_psbt (amount : Amount) (destination_address : ScriptBuf) (metadata : list N)
    : comp (result CliErr Funded) :=
  match get_change_address with
  | None => Val (Err AddressError)
  | Some change_address =>
      change ← expect change_address;
      Val (ok_or (walletcreatefundedpsbt [mkTxOut amount destination_address; mkTxOut 0 (op_return_push metadata)] change 2)
        FundingError)
  end.

Definition sign_and_broadcast_psbt (p : Funded) : comp (result CliErr Transaction) :=
  match wallet_process_psbt p with
  | None => Val (Err SigningError)
  | Some p =>
      finalized ← expect (finalize_psbt p);
      tx ← expect finalized;
      if send_raw tx then Val (Ok tx) else Panic
  end.

Definition build_op_return_script (tag : Tag) (evm_address : list N) (take_back_key : XOnlyPublicKey) : list N :=
  as_bytes tag ++ serialize_xonly take_back_key ++ evm_address.

(** A tree of one leaf. *)
Definition generate_taproot_address (network : Network) (timelock_script : ScriptBuf) (agg_pubkey : XOnlyPublicKey)
    : comp ScriptBuf :=
  taproot_info ← expect (finalize_taptree agg_pubkey [(0, timelock_script)]);
  Val (p2tr agg_pubkey (merkle_root taproot_info) network).

(** The address of the user is parsed, and the key for the refund is new; [drt_take_back] is the same
    miniscript.  The transaction that is published is returned. *)
Definition handle_bridge_in (params : CliParams) (ee_address : list N) (recovery_pubkey : XOnlyPublicKey)
    : comp (result CliErr Transaction) :=
  let metadata := build_op_return_script (cli_tag params) ee_address recovery_pubkey in
  let timelock_script := drt_take_back recovery_pubkey (cli_refund_delay params) in
  agg_key ← params_agg_pubkey (cli_musig2_keys params);
  taproot_address ← generate_taproot_address (cli_network params) timelock_script agg_key;
  amount ← amount_add (cli_deposit_amount params) 1000;
  psbt ← create_drt_psbt amount taproot_address metadata;
  match psbt with
  | Err e => Val (Err e)
  | Ok psbt => sign_and_broadcast_psbt psbt
  end.

End bridge_in.

(** ** What becomes of the request *)

Section properties.
Context `{FunderLaws, RpcLib, KeyAggLib, InstructionsLaws, TaprootLaws, DepositLaws, BitcoinLib}.

Lemma one_leaf_address network script key :
  ∃ info addr, generate_taproot_address network script key = Val addr ∧
    create_taproot_addr network (Both key [script]) = Ok (addr, info).
Proof.
  destruct (taptree_accepts key (Leaf script)) as (info & E & _); [cbn; lia|]. cbn in E.
  exists info, (p2tr key (merkle_root info) network). unfold generate_taproot_address. rewrite E. split; [done|].
  unfold create_taproot_addr, build_taptree. change (taptree_leaves [script]) with [(0, script)]. by rewrite E.
Qed.

(** C36: What a user bridges in can be deposited. If the command has the parameters of the nodes,
    whose context is that of the aggregated key, the amount is within the money supply, and the
    wallet funds, signs and publishes, the command publishes a transaction that every node
    recognises as a request to deposit: with the address of the user, the key for the refund, and
    more than the denomination at the address from which the user can take it back. And a node can
    build the deposit of the request, which spends it and pays the denomination to the bridge. *)
Theorem bridge_in_accepted params cli ctx ee pk pk' change p p' tx stake_index :
  cli_agrees cli params → params_agg_pubkey (musig2_keys params) = Val (tbc_aggregated_pubkey ctx) →
  tbc_network ctx = p_network params → (deposit_amount (tx_graph params) + 1000 ≤ 21000000 * BTC)%N →
  length ee = 20 → address_length (sidesystem params) = 20 →
  xonly_from_slice (serialize_xonly pk) = Some pk' → (pk < 2 ^ 256)%N →
  get_change_address = Some (Some change) →
  (∀ outs, walletcreatefundedpsbt outs change 2 = Some (p outs)) → (∀ outs, wallet_process_psbt (p outs) = Some (p' outs)) →
  (∀ outs, finalize_psbt (p' outs) = Some (Some (tx outs))) → (∀ outs, send_raw (tx outs) = true) →
  ∃ request published data dtx,
    handle_bridge_in cli ee pk = Val (Ok published) ∧ head (output published) = Some request ∧
    deposit_request_info published (sidesystem params) (tx_graph params) ctx stake_index = Val (Some data) ∧
    ee_address data = ee ∧ drd_x_only_public_key data = pk ∧ total_amount data = (deposit_amount (tx_graph params) + 1000)%N ∧
    deposit_request_outpoint data = mkOutPoint (compute_txid published) 0 ∧
    DepositTx_new data ctx (tx_graph params) (sidesystem params) = Val (Ok dtx) ∧
    previous_output <$> input (unsigned_tx (psbt dtx)) = [deposit_request_outpoint data] ∧
    value <$> output (unsigned_tx (psbt dtx)) = [deposit_amount (tx_graph params); 0%N].
Proof.
  intros [-> _] Hagg Hnet Hamt Hee Hlen Hpk Hpk256 Hchange Hfund Hsign Hfin Hsend.
  destruct (one_leaf_address (p_network params) (drt_take_back pk (refund_delay (tx_graph params))) (tbc_aggregated_pubkey ctx))
    as (info & addr & Ea & Ec).
  set (outs := [mkTxOut (deposit_amount (tx_graph params) + 1000) addr;
    mkTxOut 0 (op_return_push (as_bytes (tag (tx_graph params)) ++ serialize_xonly pk ++ ee))]).
  destruct (funded_outputs outs change 2 (p outs) (p' outs) (tx outs)) as (rest & _ & Hout); [done..|].
  cbn [take drop outs] in Hout. rewrite app_nil_r in Hout.
  assert (deposit_amount (tx_graph params) + 1000 ≤ U64_MAX)%N as Hmax by (etrans; [exact Hamt|vm_compute; discriminate]).
  assert (handle_bridge_in (mkCliParams (p_network params) (deposit_amount (tx_graph params)) (burn_amount (p_stake_chain params))
    (stake_amount (p_stake_chain params)) (delta (p_stake_chain params)) (payout_timelock (connectors params))
    (refund_delay (tx_graph params)) (tag (tx_graph params)) (musig2_keys params)) ee pk = Val (Ok (tx outs))) as Ecmd.
  { unfold handle_bridge_in. cbn [cli_musig2_keys cli_network cli_refund_delay cli_deposit_amount cli_tag].
    rewrite Hagg. cbn [mbind comp_bind]. rewrite Ea. cbn [mbind comp_bind]. unfold amount_add.
    rewrite (proj2 (N.leb_le _ _) Hmax). cbn [mbind comp_bind]. unfold create_drt_psbt. rewrite Hchange.
    cbn [mbind comp_bind expect]. unfold build_op_return_script. fold outs. rewrite Hfund. cbn [ok_or].
    unfold sign_and_broadcast_psbt. rewrite Hsign, Hfin. cbn [mbind comp_bind expect]. by rewrite Hsend. }
  pose proof (deposit_request_read (tx outs) (mkTxOut (deposit_amount (tx_graph params) + 1000) addr) rest (tx_graph params)
    (sidesystem params) ctx stake_index pk ee info Hpk256 ltac:(lia) ltac:(lia) Hout) as Er.
  rewrite Hnet in Er. specialize (Er Ec). rewrite decide_False in Er by (cbn; lia). rewrite Hpk in Er.
  eexists _, (tx outs), _. destruct (accepted_request_deposits _ _ _ _ _ _ Er ltac:(lia))
    as (dtx & o & script & addr' & info' & Ed & _ & _ & _ & Hin & _ & Houts).
  exists dtx. split_and!; [exact Ecmd|by rewrite Hout|exact Er|done..|exact Ed|exact Hin|by rewrite Houts].
Qed.

End properties.

(** ** An example *)

Module BridgeInExample.

(** A wallet that needs no change. *)
Definition example_funder : FunderLib := {|
  Funded := list TxOut;
  get_change_address := Some (Some [5%N]);
  walletcreatefundedpsbt outs _ _ := Some outs;
  wallet_process_psbt := Some;
  finalize_psbt outs := Some (Some (mkTransaction 2 0 [] outs));
  send_raw _ := true;
|}.

Lemma example_funder_laws : @FunderLaws example_funder.
Proof.
  split. cbn. intros outs change position p p' tx [= <-] [= <-] [= <-]. exists []. split; [cbn; lia|].
  cbn. by rewrite take_drop.
Qed.

#[local] Existing Instances example_funder example_funder_laws example_script example_instructions example_bitcoin
  example_taproot example_deposit example_keyagg ChallengerExample.example_rpc.

Definition agg : XOnlyPublicKey :=
  match params_agg_pubkey (musig2_keys ChallengerExample.params) with Val key => key | Panic => 0%N end.
Definition ctx : TxBuildContext := mkTxBuildContext 1 ∅ agg 0.

Lemma bridge_in_accepted_witness :
  ∃ published data,
    handle_bridge_in ChallengerExample.cli (replicate 20 9%N) 77 = Val (Ok published) ∧
    deposit_request_info published (mkRollupParams 20) PegOutGraphParams_default ctx 4 = Val (Some data) ∧
    ee_address data = replicate 20 9%N.
Proof.
  destruct (bridge_in_accepted ChallengerExample.params ChallengerExample.cli ctx (replicate 20 9%N) 77 77 [5%N]
    (id : list TxOut → @Funded example_funder) id (mkTransaction 2 0 []) 4) as (request & published & data & dtx & E1 & _ & E2 & E3 & _);
    [try reflexivity; try (vm_compute; reflexivity); try (vm_compute; discriminate); try done..|].
  by exists published, data.
Defined.

End BridgeInExample.
